(** * mm.c: an explicit-free-list allocator with boundary tags

    A shallow embedding of [src/mm.c].  The heap is a byte-addressed
    memory together with the break pointer of the arena; every C function
    becomes a state transformer in a small monad whose outcomes are a normal
    return, a memory fault (an access outside the arena), the [exit(1)] of
    [mm_realloc], or fuel exhaustion in the one loop of the program
    ([find_fit]).

    Data layout assumptions (LP64): [uint32_t] is 32 bits, [int] is 32 bits,
    pointers and [size_t] are 64 bits, integers are stored little endian.
    A [linkedlist] node therefore has [prev] at offset 0 and [next] at
    offset 8. *)

From Stdlib Require Import ZArith List Lia Bool.
Import ListNotations.
Open Scope Z_scope.

(* ================================================================= *)
(** ** Machine integers *)

Definition u32 (x : Z) : Z := x mod 2 ^ 32.

(** Conversion of a [uint32_t] value to [int] (two's complement). *)
Definition to_int (x : Z) : Z :=
  if u32 x <? 2 ^ 31 then u32 x else u32 x - 2 ^ 32.

(* ================================================================= *)
(** ** Byte-addressed memory *)

Definition memory := Z -> Z.

Definition upd (m : memory) (p v : Z) : memory :=
  fun a => if a =? p then v else m a.

(** Little-endian load and store of an [n]-byte integer. *)
Fixpoint load_bytes (n : nat) (m : memory) (p : Z) : Z :=
  match n with
  | O => 0
  | S k => (m p) mod 256 + 256 * load_bytes k m (p + 1)
  end.

Fixpoint store_bytes (n : nat) (m : memory) (p v : Z) : memory :=
  match n with
  | O => m
  | S k => store_bytes k (upd m p (v mod 256)) (p + 1) (v / 256)
  end.

Definition load32 := load_bytes 4.
Definition store32 := store_bytes 4.
Definition load64 := load_bytes 8.
Definition store64 := store_bytes 8.

(** [memcpy] on non-overlapping regions: the [n] bytes at [src] appear at
    [dst]. *)
Definition copy_bytes (m : memory) (dst src n : Z) : memory :=
  fun a => if (dst <=? a) && (a <? dst + n) then m (src + (a - dst)) else m a.

(* ================================================================= *)
(** ** Allocator state and the execution monad *)

Record heap : Type := mkHeap {
  mem : memory;            (* contents of the address space *)
  mem_start_brk : Z;       (* memlib: first byte of the arena *)
  mem_brk : Z;             (* memlib: one past the last byte of the arena *)
  mem_max_addr : Z;        (* memlib: the arena may not grow past this *)
  firstlist : Z;           (* static linkedlist *firstlist *)
  heap_listp : Z           (* static char *heap_listp *)
}.

Definition set_mem (s : heap) (m : memory) : heap :=
  mkHeap m (mem_start_brk s) (mem_brk s) (mem_max_addr s)
         (firstlist s) (heap_listp s).
Definition set_brk (s : heap) (b : Z) : heap :=
  mkHeap (mem s) (mem_start_brk s) b (mem_max_addr s)
         (firstlist s) (heap_listp s).
Definition set_firstlist (s : heap) (f : Z) : heap :=
  mkHeap (mem s) (mem_start_brk s) (mem_brk s) (mem_max_addr s)
         f (heap_listp s).
Definition set_heap_listp (s : heap) (h : Z) : heap :=
  mkHeap (mem s) (mem_start_brk s) (mem_brk s) (mem_max_addr s)
         (firstlist s) h.

Inductive outcome (A : Type) : Type :=
| Ret (a : A) (s : heap)   (* normal return *)
| Fault                    (* access outside the arena *)
| Exit                     (* exit(1) *)
| OutOfFuel.               (* the loop of find_fit did not finish *)
Arguments Ret {A} a s.
Arguments Fault {A}.
Arguments Exit {A}.
Arguments OutOfFuel {A}.

Definition M (A : Type) : Type := heap -> outcome A.

Definition ret {A} (a : A) : M A := fun s => Ret a s.
Definition bind {A B} (c : M A) (f : A -> M B) : M B :=
  fun s => match c s with
           | Ret a s' => f a s'
           | Fault => Fault
           | Exit => Exit
           | OutOfFuel => OutOfFuel
           end.

Notation "x <- c ;; k" := (bind c (fun x => k))
  (at level 61, c at next level, right associativity).
Notation "c ;; k" := (bind c (fun _ => k))
  (at level 61, right associativity).

Definition in_arena (s : heap) (p n : Z) : bool :=
  (mem_start_brk s <=? p) && (p + n <=? mem_brk s).

(** Accesses to memory; each one faults outside the arena. *)
Definition read (n : nat) (p : Z) : M Z :=
  fun s => if in_arena s p (Z.of_nat n)
           then Ret (load_bytes n (mem s) p) s else Fault.
Definition write (n : nat) (p v : Z) : M unit :=
  fun s => if in_arena s p (Z.of_nat n)
           then Ret tt (set_mem s (store_bytes n (mem s) p v)) else Fault.

Definition get_firstlist : M Z := fun s => Ret (firstlist s) s.
Definition put_firstlist (f : Z) : M unit := fun s => Ret tt (set_firstlist s f).

(** Modelled from the spec: the arena growth primitive [mem_sbrk] of
    memlib.c, which is not among the sources.  It extends the arena by
    [incr] bytes and returns the old break, or returns [(void* )-1]
    (here [-1]) and leaves the arena alone when the increment is negative or
    the arena would pass its maximum. *)
Definition mem_sbrk (incr : Z) : M Z :=
  fun s => if (incr <? 0) || (mem_max_addr s <? mem_brk s + incr)
           then Ret (-1) s
           else Ret (mem_brk s) (set_brk s (mem_brk s + incr)).

(** [memcpy(dst, src, n)]: both regions must lie in the arena and must not
    overlap. *)
Definition memcpy (dst src n : Z) : M unit :=
  fun s => if in_arena s dst n && in_arena s src n
              && ((dst + n <=? src) || (src + n <=? dst) || (n =? 0))
           then Ret tt (set_mem s (copy_bytes (mem s) dst src n)) else Fault.

(* ================================================================= *)
(** ** Constants and macros *)

Definition WSIZE : Z := 4.
Definition DSIZE : Z := 8.
Definition CHUNKSIZE : Z := Z.shiftl 1 12.
Definition OVERHEAD : Z := 8.

(** [MAX] takes and returns [int]. *)
Definition MAX (x y : Z) : Z := if x >? y then x else y.

Definition PACK (size alloc : Z) : Z := Z.lor size (Z.land alloc 1).

Definition GET (p : Z) : M Z := read 4 p.
Definition PUT (p val : Z) : M unit := write 4 p val.

Definition GET_SIZE (p : Z) : M Z :=
  w <- GET p ;; ret (Z.land w (u32 (Z.lnot 7))).
Definition GET_ALLOC (p : Z) : M Z :=
  w <- GET p ;; ret (Z.land w 1).

Definition HDRP (bp : Z) : Z := bp - WSIZE.
Definition FTRP (bp : Z) : M Z :=
  sz <- GET_SIZE (HDRP bp) ;; ret (bp + sz - DSIZE).
Definition NEXT_BLKP (bp : Z) : M Z :=
  sz <- GET_SIZE (bp - WSIZE) ;; ret (bp + sz).
Definition PREV_BLKP (bp : Z) : M Z :=
  sz <- GET_SIZE (bp - DSIZE) ;; ret (bp - sz).

(** Fields of [struct linkedlist]. *)
Definition get_prev (bp : Z) : M Z := read 8 bp.
Definition get_next (bp : Z) : M Z := read 8 (bp + 8).
Definition set_prev (bp v : Z) : M unit := write 8 bp v.
Definition set_next (bp v : Z) : M unit := write 8 (bp + 8) v.

(* ================================================================= *)
(** ** The free list *)

Definition listInsert (bp : Z) : M unit :=
  a <- GET_ALLOC (HDRP bp) ;;
  if negb (a =? 0) then ret tt
  else
    fl <- get_firstlist ;;
    if fl =? 0 then
      put_firstlist bp ;;
      set_next bp 0 ;;
      set_prev bp 0
    else
      p <- get_prev fl ;;
      set_prev bp p ;;
      set_next bp fl ;;
      set_prev fl bp ;;
      put_firstlist bp.

Definition listRemove (bp : Z) : M unit :=
  sz <- GET_SIZE (HDRP bp) ;;
  if sz =? 0 then PUT (HDRP bp) (PACK 0 1)
  else
    n <- get_next bp ;;
    p <- get_prev bp ;;
    if (n =? 0) && (p =? 0) then put_firstlist 0
    else if (p =? 0) && negb (n =? 0) then
      put_firstlist n ;;
      set_prev n 0
    else if negb (p =? 0) && (n =? 0) then
      set_next p 0
    else
      set_next p n ;;
      set_prev n p ;;
      set_prev bp 0 ;;
      set_next bp 0.

(* ================================================================= *)
(** ** Coalescing *)

(** [size] is a [size_t]: the sums do not wrap at 32 bits, the value is
    truncated when it is passed to [PACK]. *)
Definition coalesce (bp : Z) : M Z :=
  pb <- PREV_BLKP bp ;;
  pf <- FTRP pb ;;
  prev_alloc <- GET_ALLOC pf ;;
  nb <- NEXT_BLKP bp ;;
  next_alloc <- GET_ALLOC (HDRP nb) ;;
  size <- GET_SIZE (HDRP bp) ;;
  if negb (prev_alloc =? 0) && negb (next_alloc =? 0) then
    listInsert bp ;;
    ret bp
  else if negb (prev_alloc =? 0) && (next_alloc =? 0) then
    nsz <- GET_SIZE (HDRP nb) ;;
    let size := size + nsz in
    listRemove nb ;;
    PUT (HDRP bp) (PACK (u32 size) 0) ;;
    f <- FTRP bp ;;
    PUT f (PACK (u32 size) 0) ;;
    listInsert bp ;;
    ret bp
  else if (prev_alloc =? 0) && negb (next_alloc =? 0) then
    psz <- GET_SIZE (HDRP pb) ;;
    let size := size + psz in
    PUT (HDRP pb) (PACK (u32 size) 0) ;;
    f <- FTRP pb ;;
    PUT f (PACK (u32 size) 0) ;;
    ret pb
  else
    psz <- GET_SIZE (HDRP pb) ;;
    nf <- FTRP nb ;;
    nsz <- GET_SIZE nf ;;
    let size := size + psz + nsz in
    nb1 <- NEXT_BLKP bp ;;
    listRemove nb1 ;;
    pb1 <- PREV_BLKP bp ;;
    listRemove pb1 ;;
    pb2 <- PREV_BLKP bp ;;
    listInsert pb2 ;;
    PUT (HDRP pb2) (PACK (u32 size) 0) ;;
    f <- FTRP pb2 ;;
    PUT f (PACK (u32 size) 0) ;;
    ret pb2.

(* ================================================================= *)
(** ** Arena extension, initialisation, free *)

Definition extend_heap (words : Z) : M Z :=
  let size := if negb (words mod 2 =? 0)
              then u32 ((words + 1) * WSIZE) else u32 (words * WSIZE) in
  bp <- mem_sbrk (to_int size) ;;
  if bp =? -1 then ret 0
  else
    PUT (HDRP bp) (PACK size 0) ;;
    f <- FTRP bp ;;
    PUT f (PACK size 0) ;;
    nb <- NEXT_BLKP bp ;;
    PUT (HDRP nb) (PACK 0 1) ;;
    coalesce bp.

Definition put_heap_listp (h : Z) : M unit :=
  fun s => Ret tt (set_heap_listp s h).

Definition mm_init : M Z :=
  put_firstlist 0 ;;
  h <- mem_sbrk (4 * WSIZE) ;;
  put_heap_listp h ;;
  if h =? -1 then ret (-1)
  else
    PUT h 0 ;;
    PUT (h + WSIZE) (PACK DSIZE 1) ;;
    PUT (h + 2 * WSIZE) (PACK DSIZE 1) ;;
    PUT (h + 3 * WSIZE) (PACK 0 1) ;;
    put_heap_listp (h + 2 * WSIZE) ;;
    bp <- extend_heap (CHUNKSIZE / WSIZE) ;;
    if bp =? 0 then ret (-1) else ret 0.

Definition mm_free (bp : Z) : M unit :=
  if bp =? 0 then ret tt
  else
    size <- GET_SIZE (HDRP bp) ;;
    PUT (HDRP bp) (PACK size 0) ;;
    f <- FTRP bp ;;
    PUT f (PACK size 0) ;;
    coalesce bp ;;
    ret tt.

(* ================================================================= *)
(** ** Fit selection *)

(** The [for] loop of [find_fit]; [bp], [best] and [best_size] are its
    variables.  The header of [bp] is not written inside the loop, so the
    repeated [GET_SIZE(HDRP(bp))] of the source all read the same word. *)
Fixpoint find_fit_loop (fuel : nat) (asize bp best best_size : Z) : M Z :=
  match fuel with
  | O => fun _ => OutOfFuel
  | S k =>
    if bp =? 0 then
      if best_size =? 2147483648 then ret 0 else ret best
    else
      sz <- GET_SIZE (HDRP bp) ;;
      if sz =? asize then ret bp
      else
        n <- get_next bp ;;
        if (sz <? best_size) && (sz >? asize)
        then find_fit_loop k asize n bp sz
        else find_fit_loop k asize n best best_size
  end.

Definition find_fit (fuel : nat) (asize : Z) : M Z :=
  fl <- get_firstlist ;;
  find_fit_loop fuel asize fl 0 2147483648.

(* ================================================================= *)
(** ** Placement, allocation, reallocation *)

(** The two tag writes that open the split branch of [place]. *)
Definition place_mark (bp asize : Z) : M unit :=
  PUT (HDRP bp) (PACK asize 1) ;;
  f <- FTRP bp ;;
  PUT f (PACK asize 1).

(** The rest of the split branch: the remainder becomes a free block. *)
Definition place_remainder (bp rest : Z) : M unit :=
  nb <- NEXT_BLKP bp ;;
  PUT (HDRP nb) (PACK rest 0) ;;
  f <- FTRP nb ;;
  PUT f (PACK rest 0) ;;
  listInsert nb.

Definition place (bp asize : Z) : M unit :=
  csize <- GET_SIZE (HDRP bp) ;;
  if 24 <=? u32 (csize - asize) then
    place_mark bp asize ;;
    listRemove bp ;;
    place_remainder bp (u32 (csize - asize))
  else
    place_mark bp csize ;;
    listRemove bp.

(** The size adjustments at the head of [mm_malloc] (size is non-zero). *)
Definition adjust_size (size : Z) : Z :=
  if size =? 448 then 512
  else if size =? 112 then 128
  else if size <=? DSIZE then 2 * DSIZE
  else if negb (size mod DSIZE =? 0) then u32 ((size / DSIZE + 1) * DSIZE)
  else size.

Definition mm_malloc (fuel : nat) (size : Z) : M Z :=
  if size =? 0 then ret 0
  else
    let asize := u32 (adjust_size size + DSIZE) in
    bp <- find_fit fuel asize ;;
    if negb (bp =? 0) then
      place bp asize ;;
      ret bp
    else
      let extendsize := u32 (MAX (to_int asize) CHUNKSIZE) in
      bp <- extend_heap (extendsize / WSIZE) ;;
      if bp =? 0 then ret 0
      else
        place bp asize ;;
        ret bp.

Definition mm_realloc (fuel : nat) (ptr size : Z) : M Z :=
  nb <- NEXT_BLKP ptr ;;
  next_alloc <- GET_ALLOC (HDRP nb) ;;
  next_size <- GET_SIZE (HDRP nb) ;;
  curr_size <- GET_SIZE (HDRP ptr) ;;
  let combine_size := u32 (curr_size + next_size) in
  let asize := u32 (size + DSIZE) in
  if curr_size >? asize then ret ptr
  else if (next_alloc =? 0) && (combine_size >=? asize) then
    listRemove nb ;;
    PUT (HDRP ptr) (PACK combine_size 1) ;;
    f <- FTRP ptr ;;
    PUT f (PACK combine_size 1) ;;
    ret ptr
  else
    newp <- mm_malloc fuel size ;;
    if newp =? 0 then fun _ => Exit
    else
      copySize <- GET_SIZE (HDRP ptr) ;;
      let copySize := if size <? copySize then size else copySize in
      memcpy newp ptr copySize ;;
      mm_free ptr ;;
      ret newp.

(* ================================================================= *)
(** ** Walking the heap and the index *)

(** The blocks met from payload address [bp] on, following [NEXT_BLKP] up
    to the epilogue (a header of size 0): payload address, size, allocated
    flag. *)
Fixpoint walk_blocks (fuel : nat) (s : heap) (bp : Z) : option (list (Z * Z * bool)) :=
  match fuel with
  | O => None
  | S k =>
    if in_arena s (bp - 4) 4 then
      let w := load32 (mem s) (bp - 4) in
      let sz := Z.land w (u32 (Z.lnot 7)) in
      if sz =? 0 then Some []
      else match walk_blocks k s (bp + sz) with
           | Some l => Some ((bp, sz, negb (Z.land w 1 =? 0)) :: l)
           | None => None
           end
    else None
  end.

Definition heap_blocks (fuel : nat) (s : heap) : option (list (Z * Z * bool)) :=
  walk_blocks fuel s (heap_listp s + 8).

(** The nodes of the index, following [next] from [bp]. *)
Fixpoint walk_index (fuel : nat) (s : heap) (bp : Z) : option (list Z) :=
  match fuel with
  | O => None
  | S k =>
    if bp =? 0 then Some []
    else if in_arena s (bp + 8) 8 then
      match walk_index k s (load64 (mem s) (bp + 8)) with
      | Some l => Some (bp :: l)
      | None => None
      end
    else None
  end.

Definition index_nodes (fuel : nat) (s : heap) : option (list Z) :=
  walk_index fuel s (firstlist s).

(** A state before [mm_init]: an empty arena at [lo] that may grow up to
    [hi]. *)
Definition boot (m : memory) (lo hi : Z) : heap := mkHeap m lo lo hi 0 0.

Definition zero_mem : memory := fun _ => 0.

Definition result_state {A} (o : outcome A) (d : heap) : heap :=
  match o with Ret _ s => s | _ => d end.
Definition result_value {A} (o : outcome A) : option A :=
  match o with Ret a _ => Some a | _ => None end.

(* ================================================================= *)
(** ** Boundary tags *)

Definition size_mask : Z := u32 (Z.lnot 7).

(** A tag is the size plus the allocated bit. *)
Definition b2z (b : bool) : Z := if b then 1 else 0.
Definition tag (sz : Z) (al : bool) : Z := sz + b2z al.

(* ================================================================= *)
(** ** Running the monad and reading a header *)

Definition exec {A} (c : M A) (s : heap) : heap :=
  match c s with Ret _ s' => s' | _ => s end.
Definition value {A} (c : M A) (s : heap) : option A :=
  match c s with Ret a _ => Some a | _ => None end.

(** Size and allocated bit recorded in the header of the block at [bp]. *)
Definition hsize (s : heap) (bp : Z) : Z :=
  Z.land (load32 (mem s) (bp - 4)) size_mask.
Definition halloc (s : heap) (bp : Z) : Z :=
  Z.land (load32 (mem s) (bp - 4)) 1.

(* ================================================================= *)
(** ** The fit selector as a scan of a list *)

(** The loop of [find_fit] over the list of (node, size) pairs. *)
Fixpoint scan (asize : Z) (l : list (Z * Z)) (best best_size : Z) : Z :=
  match l with
  | [] => if best_size =? 2147483648 then 0 else best
  | (b, sz) :: l' =>
    if sz =? asize then b
    else if (sz <? best_size) && (sz >? asize) then scan asize l' b sz
    else scan asize l' best best_size
  end.

Definition sized (s : heap) (l : list Z) : list (Z * Z) :=
  map (fun b => (b, hsize s b)) l.

Definition headers_in_arena (s : heap) (l : list Z) : bool :=
  forallb (fun b => in_arena s (b - 4) 4) l.

(* ================================================================= *)
(** ** The abstract view of a heap: a sequence of blocks and an index *)

(** A block is its total size and its allocated flag. *)
Abbreviation block := (Z * bool)%type.

Fixpoint total (bs : list block) : Z :=
  match bs with
  | [] => 0
  | (sz, _) :: r => sz + total r
  end.

(** The blocks laid out one after the other from payload address [a]. *)
Fixpoint layout (a : Z) (bs : list block) : list (Z * Z * bool) :=
  match bs with
  | [] => []
  | (sz, al) :: r => (a, sz, al) :: layout (a + sz) r
  end.

Definition size_ok (b : block) : Prop := 24 <= fst b /\ fst b mod 8 = 0.

(** Header and footer of the block at [a] hold its size and flag. *)
Definition tags_at (m : memory) (e : Z * Z * bool) : Prop :=
  let '(a, sz, al) := e in
  load32 m (a - 4) = tag sz al /\ load32 m (a + sz - 8) = tag sz al.

(** A doubly linked segment: the nodes [l] in order, the first with
    [prev] field [prev], the last with [next] field [nxt]. *)
Fixpoint dseg (m : memory) (prev : Z) (l : list Z) (nxt : Z) : Prop :=
  match l with
  | [] => True
  | n :: l' => load64 m n = prev /\ load64 m (n + 8) = hd nxt l' /\ dseg m n l' nxt
  end.

(** Two free neighbours somewhere in a sequence of allocated flags. *)
Fixpoint adjacent_free (fs : list bool) : bool :=
  match fs with
  | a1 :: (a2 :: _) as r => (negb a1 && negb a2) || adjacent_free r
  | _ => false
  end.

Definition flags (bs : list block) : list bool := map snd bs.

Record Rep (s : heap) (bs : list block) (fl : list Z) : Prop := mkRep {
  rep_lo : 0 <= mem_start_brk s;
  rep_listp : heap_listp s = mem_start_brk s + 8;
  rep_brk : mem_brk s = mem_start_brk s + 16 + total bs;
  rep_max : mem_brk s <= mem_max_addr s;
  rep_small : mem_max_addr s - mem_start_brk s < 2 ^ 31;
  rep_addr : mem_max_addr s < 2 ^ 64;
  rep_pro_hdr : load32 (mem s) (mem_start_brk s + 4) = tag 8 true;
  rep_pro_ftr : load32 (mem s) (mem_start_brk s + 8) = tag 8 true;
  rep_epi : load32 (mem s) (mem_brk s - 4) = tag 0 true;
  rep_sizes : Forall size_ok bs;
  rep_tags : Forall (tags_at (mem s)) (layout (mem_start_brk s + 16) bs);
  rep_index : dseg (mem s) 0 fl 0;
  rep_first : firstlist s = hd 0 fl;
  rep_nodup : NoDup fl;
  rep_nodes : forall n, In n fl ->
              exists sz al, In (n, sz, al) (layout (mem_start_brk s + 16) bs)
}.

(** The index holds exactly the free blocks. *)
Definition index_ok (s : heap) (bs : list block) (fl : list Z) : Prop :=
  forall a sz al, In (a, sz, al) (layout (mem_start_brk s + 16) bs) ->
                  (In a fl <-> al = false).

(** The invariant of the allocator between two operations. *)
Definition Inv (s : heap) : Prop :=
  exists bs fl, Rep s bs fl /\ index_ok s bs fl /\ adjacent_free (flags bs) = false.

(** The parts of the state the list and tag operations never change. *)
Definition same_arena (s s' : heap) : Prop :=
  mem_start_brk s' = mem_start_brk s /\ mem_brk s' = mem_brk s /\
  mem_max_addr s' = mem_max_addr s /\ heap_listp s' = heap_listp s.

(** Allocated blocks keep their place, size and payload bytes. *)
Definition keeps_allocated (s : heap) (bs : list block) (s' : heap) (bs' : list block) : Prop :=
  forall a sz, In (a, sz, true) (layout (mem_start_brk s + 16) bs) ->
    In (a, sz, true) (layout (mem_start_brk s' + 16) bs') /\
    forall x, a <= x < a + sz - 8 -> mem s' x = mem s x.

Definition nodes_ok (s : heap) (l : list Z) : Prop :=
  forall n, In n l -> 0 < n /\ mem_start_brk s <= n /\ n + 16 <= mem_brk s.

Definition nodes_sep (l : list Z) : Prop :=
  forall n1 n2, In n1 l -> In n2 l -> n1 = n2 \/ n1 + 16 <= n2 \/ n2 + 16 <= n1.

(* ================================================================= *)
(** ** The outcomes of the operations *)

(** The state in which [coalesce] is called on the block at [bp]: the
    block is marked free but is not in the index, every other block is in
    the index exactly when it is free, and no two free blocks are
    neighbours except possibly at [bp]. *)
Definition Fresh (s : heap) (bs1 : list block) (sz : Z) (bs2 : list block) (fl : list Z) : Prop :=
  Rep s (bs1 ++ (sz, false) :: bs2) fl /\
  ~ In (mem_start_brk s + 16 + total bs1) fl /\
  (forall a sz' al,
     In (a, sz', al) (layout (mem_start_brk s + 16) (bs1 ++ (sz, false) :: bs2)) ->
     a <> mem_start_brk s + 16 + total bs1 -> (In a fl <-> al = false)) /\
  adjacent_free (flags bs1) = false /\ adjacent_free (flags bs2) = false.

Definition coalesced (s : heap) (bs : list block) (sz : Z) (r : Z) (s' : heap) : Prop :=
  exists bs' fl',
    Rep s' bs' fl' /\ index_ok s' bs' fl' /\ adjacent_free (flags bs') = false /\
    same_arena s s' /\
    (exists rsz, In (r, rsz, false) (layout (mem_start_brk s' + 16) bs') /\ sz <= rsz) /\
    keeps_allocated s bs s' bs'.

(** The outcome of freeing the block at [bp]: the invariant holds again
    and every other allocated block is where and what it was. *)
Definition freed (s : heap) (bs : list block) (bp : Z) (s' : heap) : Prop :=
  exists bs' fl',
    Rep s' bs' fl' /\ index_ok s' bs' fl' /\ adjacent_free (flags bs') = false /\
    same_arena s s' /\
    (forall a sz, In (a, sz, true) (layout (mem_start_brk s + 16) bs) -> a <> bp ->
       In (a, sz, true) (layout (mem_start_brk s' + 16) bs') /\
       forall x, a <= x < a + sz - 8 -> mem s' x = mem s x).

(** The number of bytes [extend_heap] asks for. *)
Definition extend_size (words : Z) : Z :=
  if negb (words mod 2 =? 0) then u32 ((words + 1) * WSIZE) else u32 (words * WSIZE).

Definition extended (s : heap) (bs : list block) (size r : Z) (s' : heap) : Prop :=
  exists bs' fl',
    Rep s' bs' fl' /\ index_ok s' bs' fl' /\ adjacent_free (flags bs') = false /\
    mem_start_brk s' = mem_start_brk s /\ mem_max_addr s' = mem_max_addr s /\
    heap_listp s' = heap_listp s /\ mem_brk s' = mem_brk s + size /\
    (exists rsz, In (r, rsz, false) (layout (mem_start_brk s' + 16) bs') /\ size <= rsz) /\
    keeps_allocated s bs s' bs'.

(** The outcome of placing a request of [asize] bytes in the free block
    at [bp]. *)
Definition placed (s : heap) (bs : list block) (bp asize : Z) (s' : heap) : Prop :=
  exists bs' fl' sz',
    Rep s' bs' fl' /\ index_ok s' bs' fl' /\ adjacent_free (flags bs') = false /\
    same_arena s s' /\
    In (bp, sz', true) (layout (mem_start_brk s' + 16) bs') /\ asize <= sz' /\
    keeps_allocated s bs s' bs'.

(** The outcome of a successful [mm_malloc(n)] returning [p]. *)
Definition allocated_by (s : heap) (bs : list block) (n p : Z) (s' : heap) : Prop :=
  exists bs' fl' sz',
    Rep s' bs' fl' /\ index_ok s' bs' fl' /\ adjacent_free (flags bs') = false /\
    mem_start_brk s' = mem_start_brk s /\ mem_max_addr s' = mem_max_addr s /\
    heap_listp s' = heap_listp s /\ mem_brk s <= mem_brk s' /\
    In (p, sz', true) (layout (mem_start_brk s' + 16) bs') /\
    adjust_size n + 8 <= sz' /\
    keeps_allocated s bs s' bs' /\
    (forall sz0, ~ In (p, sz0, true) (layout (mem_start_brk s + 16) bs)).

(** The relocation path of [mm_realloc]. *)
Definition relocate (fuel : nat) (ptr size : Z) : M Z :=
  newp <- mm_malloc fuel size ;;
  if newp =? 0 then fun _ => Exit
  else
    copySize <- GET_SIZE (HDRP ptr) ;;
    memcpy newp ptr (if size <? copySize then size else copySize) ;;
    mm_free ptr ;;
    ret newp.

(* ================================================================= *)
(** ** Reachable states and what a client observes *)

(** [p] is the payload address of an allocated block of the heap. *)
Definition allocated (s : heap) (p : Z) : Prop :=
  exists fuel l sz, heap_blocks fuel s = Some l /\ In (p, sz, true) l.

(** The states between two operations of a client that calls [mm_init]
    once on a fresh arena, passes to [mm_free] and [mm_realloc] only
    blocks it holds, asks for at most [2^31 - 16] bytes at a time, and
    writes only into the payloads of blocks it holds. *)
Inductive reachable : heap -> Prop :=
| reach_init s0 s :
    mem_brk s0 = mem_start_brk s0 -> 0 <= mem_start_brk s0 ->
    mem_max_addr s0 - mem_start_brk s0 < 2 ^ 31 -> mem_max_addr s0 < 2 ^ 64 ->
    mem_start_brk s0 + 16 + 4096 <= mem_max_addr s0 ->
    mm_init s0 = Ret 0 s -> reachable s
| reach_malloc s fuel n p s' :
    reachable s -> 0 <= n -> n + 16 <= 2 ^ 31 ->
    mm_malloc fuel n s = Ret p s' -> reachable s'
| reach_free s p s' :
    reachable s -> p = 0 \/ allocated s p ->
    mm_free p s = Ret tt s' -> reachable s'
| reach_realloc s fuel p n q s' :
    reachable s -> allocated s p -> 0 <= n -> n + 16 <= 2 ^ 31 ->
    mm_realloc fuel p n s = Ret q s' -> reachable s'
| reach_store s fuel l p sz a v :
    reachable s -> heap_blocks fuel s = Some l -> In (p, sz, true) l ->
    p <= a < p + sz - 8 ->
    reachable (set_mem s (upd (mem s) a v)).

(** The block at [a] is in the heap with allocated flag [al]. *)
Definition block_flag (s : heap) (a : Z) (al : bool) : Prop :=
  exists fuel l sz, heap_blocks fuel s = Some l /\ In (a, sz, al) l.

(** The block at [a] is a node of the free index. *)
Definition indexed (s : heap) (a : Z) : Prop :=
  exists fuel idx, index_nodes fuel s = Some idx /\ In a idx.

(** No two neighbours of the heap are both free. *)
Definition no_adjacent_free (s : heap) : Prop :=
  exists fuel l, heap_blocks fuel s = Some l /\ adjacent_free (map snd l) = false.

(** The client holds the block at [p], of size [sz] in its header. *)
Definition held (s : heap) (p sz : Z) : Prop :=
  exists fuel l, heap_blocks fuel s = Some l /\ In (p, sz, true) l.

(* ================================================================= *)
(** ** Concrete heaps used as inputs *)

(** A fresh arena at address 4096 that may grow to 1 MiB, initialised. *)
Definition heap0 : heap := boot zero_mem 4096 1048576.
Definition s_init : heap := exec mm_init heap0.
(** One and two allocations of 16 bytes. *)
Definition s_one : heap := exec (mm_malloc 8 16) s_init.
Definition s_two : heap := exec (mm_malloc 8 16) s_one.

(** An arena that may grow to 8 GiB; a block of [2^31 - 4096] bytes is
    allocated and freed again, which leaves one free block of [2^31]
    bytes. *)
Definition big_init : heap := exec mm_init (boot zero_mem 4096 (2 ^ 33)).
Definition big_used : heap := exec (mm_malloc 8 (2 ^ 31 - 4104)) big_init.
Definition big_free : heap := exec (mm_free 4112) big_used.

(** Three allocations of 16 bytes, then the first block freed. *)
Definition s_three : heap := exec (mm_malloc 8 16) s_two.
Definition s_hole : heap := exec (mm_free 4112) s_three.

(** The heap of [s_hole] at the moment [mm_free 4136] calls [coalesce]:
    the block is marked free, its predecessor at 4112 is free and
    indexed, its successor at 4160 is allocated. *)
Definition s_marked : heap :=
  exec (PUT (HDRP 4136) (PACK 24 0) ;; f <- FTRP 4136 ;; PUT f (PACK 24 0)) s_hole.

(* ================================================================= *)
(** ** The effect of coalescing on the block sequence and the index *)

(** What [coalesce] absorbs into the free block of size [sz] that stands
    between [bs1] and [bs2]: the predecessor (the last block of [bs1]) and
    the successor (the first block of [bs2]) when they are free.  The
    prologue and the epilogue count as allocated neighbours. *)
Definition absorbed_prev (bs1 : list block) : Z :=
  let p := last bs1 (8, true) in if snd p then 0 else fst p.
Definition absorbed_next (bs2 : list block) : Z :=
  let n := hd (0, true) bs2 in if snd n then 0 else fst n.
Definition kept_before (bs1 : list block) : list block :=
  if snd (last bs1 (8, true)) then bs1 else removelast bs1.
Definition kept_after (bs2 : list block) : list block :=
  if snd (hd (0, true) bs2) then bs2 else tl bs2.

(** The block sequence after [coalesce]. *)
Definition merged (bs1 : list block) (sz : Z) (bs2 : list block) : list block :=
  kept_before bs1 ++ (absorbed_prev bs1 + sz + absorbed_next bs2, false) :: kept_after bs2.

(** The payload address [coalesce] returns, [bp] being the address of the
    block it is called on. *)
Definition merged_at (bp : Z) (bs1 : list block) : Z := bp - absorbed_prev bs1.

(** The index after [coalesce]: an absorbed successor leaves it, and the
    merged block is put at its head unless it is the predecessor that was
    merged into with an allocated successor, which keeps its place. *)
Definition merged_index (bp : Z) (bs1 : list block) (sz : Z) (bs2 : list block)
    (fl : list Z) : list Z :=
  match snd (last bs1 (8, true)), snd (hd (0, true) bs2) with
  | true, true => bp :: fl
  | true, false => bp :: remove Z.eq_dec (bp + sz) fl
  | false, true => fl
  | false, false =>
      merged_at bp bs1 :: remove Z.eq_dec (merged_at bp bs1) (remove Z.eq_dec (bp + sz) fl)
  end.

(* ================================================================= *)
(** ** The effect of placement on the block sequence and the index *)

(** The block sequence after [place bp asize] on the free block of size
    [csize] between [bs1] and [bs2]: split when the remainder is at least
    24 bytes, taken whole otherwise. *)
Definition placed_blocks (bs1 : list block) (csize asize : Z) (bs2 : list block)
    : list block :=
  if 24 <=? csize - asize
  then bs1 ++ (asize, true) :: (csize - asize, false) :: bs2
  else bs1 ++ (csize, true) :: bs2.

(** The index after [place bp asize]: the block leaves it, and the
    remainder of a split is put at its head. *)
Definition placed_index (bp csize asize : Z) (fl : list Z) : list Z :=
  if 24 <=? csize - asize
  then bp + asize :: remove Z.eq_dec bp fl
  else remove Z.eq_dec bp fl.

(** The block at [q], of size [qsz] in its header, is a free block of the
    heap. *)
Definition free_block (s : heap) (q qsz : Z) : Prop :=
  exists fuel l, heap_blocks fuel s = Some l /\ In (q, qsz, false) l.

(** The state after [mm_realloc(4112, 16)] on [s_two], which relocates
    the block. *)
Definition s_moved : heap := exec (mm_realloc 8 4112 16) s_two.

(* ================================================================= *)
(** ** The shape of the heap *)

(** The blocks of [l] follow one another without gap from address [a]
    to address [b]. *)
Fixpoint contiguous (a : Z) (l : list (Z * Z * bool)) (b : Z) : Prop :=
  match l with
  | [] => a = b
  | (p, sz, _) :: r => p = a /\ contiguous (a + sz) r b
  end.

(** The size of a block is a multiple of 8 and at least 24 bytes: room
    for header, footer and the two links of an index node. *)
Definition entry_size_ok (e : Z * Z * bool) : Prop :=
  let '(_, sz, _) := e in 24 <= sz /\ sz mod 8 = 0.

(* ================================================================= *)
(** ** Concrete heaps outside the calling contract *)

(** An arena that may grow to 8 GiB, with five blocks allocated one after
    the other by requests within the contract: 24 bytes at 4112,
    [2^31 - 4096] bytes at 4136 and at 2147483688, 8192 bytes at
    4294963240 and 24 bytes at 4294971432. *)
Definition wide_full : heap :=
  exec (mm_malloc 8 16)
    (exec (mm_malloc 8 8184)
       (exec (mm_malloc 8 (2 ^ 31 - 4104))
          (exec (mm_malloc 8 (2 ^ 31 - 4104))
             (exec (mm_malloc 8 16) big_init)))).

(** The first three blocks freed in address order: they are merged into
    one free block of [2^32 - 8168] bytes at 4112. *)
Definition wide_held : heap :=
  exec (mm_free 2147483688) (exec (mm_free 4136) (exec (mm_free 4112) wide_full)).

(** The fourth block freed as well: with its predecessor it amounts to
    [2^32 + 24] bytes. *)
Definition wide_freed : heap := exec (mm_free 4294963240) wide_held.

(** The heap of [wide_held] at the moment [mm_free 4294963240] calls
    [coalesce]. *)
Definition wide_marked : heap :=
  exec (PUT (HDRP 4294963240) (PACK 8192 0) ;; f <- FTRP 4294963240 ;; PUT f (PACK 8192 0))
       wide_held.

(** A request of [2^32 - 8] bytes on [s_hole], which returns the free
    block at 4112; then that block and the block at 4136 freed. *)
Definition s_wrapped : heap := exec (mm_malloc 8 4294967288) s_hole.
Definition s_wrapped_freed : heap := exec (mm_free 4136) (exec (mm_free 4112) s_wrapped).

(** A request of [2^32 - 8] bytes on the initial heap, then a request of
    4088 bytes. *)
Definition s_twice : heap := exec (mm_malloc 8 4088) (exec (mm_malloc 8 4294967288) s_init).

(* ================================================================= *)
(** ** Lemmas on memory *)

Lemma store_bytes_other n : forall m p v a,
  a < p \/ p + Z.of_nat n <= a -> store_bytes n m p v a = m a.
Proof.
  induction n as [|k IH]; intros m p v a H; [reflexivity|].
  cbn [store_bytes]. rewrite IH by lia.
  unfold upd. destruct (Z.eqb_spec a p); [lia | reflexivity].
Qed.

Lemma load_bytes_ext n : forall m1 m2 p,
  (forall a, p <= a < p + Z.of_nat n -> m1 a = m2 a) ->
  load_bytes n m1 p = load_bytes n m2 p.
Proof.
  induction n as [|k IH]; intros m1 m2 p H; [reflexivity|].
  cbn [load_bytes]. rewrite (H p) by lia.
  rewrite (IH m1 m2 (p + 1)); [reflexivity|].
  intros a Ha. apply H. lia.
Qed.

Lemma load_bytes_range n : forall m p,
  0 <= load_bytes n m p < 256 ^ Z.of_nat n.
Proof.
  induction n as [|k IH]; intros m p.
  - cbn. lia.
  - cbn [load_bytes]. rewrite Nat2Z.inj_succ, Z.pow_succ_r by lia.
    specialize (IH m (p + 1)).
    pose proof (Z.mod_pos_bound (m p) 256). lia.
Qed.

Lemma load_store_same n : forall m p v,
  load_bytes n (store_bytes n m p v) p = v mod 256 ^ Z.of_nat n.
Proof.
  induction n as [|k IH]; intros m p v.
  - cbn. now rewrite Z.mod_1_r.
  - cbn [load_bytes store_bytes]. rewrite IH.
    rewrite store_bytes_other by lia.
    unfold upd. rewrite Z.eqb_refl, Z.mod_mod by lia.
    rewrite Nat2Z.inj_succ, Z.pow_succ_r by lia.
    rewrite (Z.rem_mul_r v 256 (256 ^ Z.of_nat k)); lia.
Qed.

Lemma load_store_other k n : forall m p v q,
  q + Z.of_nat k <= p \/ p + Z.of_nat n <= q ->
  load_bytes k (store_bytes n m p v) q = load_bytes k m q.
Proof.
  intros m p v q H. apply load_bytes_ext.
  intros a Ha. apply store_bytes_other. lia.
Qed.

Lemma load32_range m p : 0 <= load32 m p < 2 ^ 32.
Proof. exact (load_bytes_range 4 m p). Qed.

Lemma load32_store32 m p v :
  0 <= v < 2 ^ 32 -> load32 (store32 m p v) p = v.
Proof.
  intros H. unfold load32, store32. rewrite load_store_same.
  apply Z.mod_small. exact H.
Qed.

Lemma load64_store64 m p v :
  0 <= v < 2 ^ 64 -> load64 (store64 m p v) p = v.
Proof.
  intros H. unfold load64, store64. rewrite load_store_same.
  apply Z.mod_small. exact H.
Qed.

Lemma load32_store32_other m p v q :
  q + 4 <= p \/ p + 4 <= q -> load32 (store32 m p v) q = load32 m q.
Proof. intros H. apply (load_store_other 4 4). exact H. Qed.

Lemma load32_store64_other m p v q :
  q + 4 <= p \/ p + 8 <= q -> load32 (store64 m p v) q = load32 m q.
Proof. intros H. apply (load_store_other 4 8). exact H. Qed.

Lemma load64_store32_other m p v q :
  q + 8 <= p \/ p + 4 <= q -> load64 (store32 m p v) q = load64 m q.
Proof. intros H. apply (load_store_other 8 4). exact H. Qed.

Lemma load64_store64_other m p v q :
  q + 8 <= p \/ p + 8 <= q -> load64 (store64 m p v) q = load64 m q.
Proof. intros H. apply (load_store_other 8 8). exact H. Qed.

Lemma store32_other m p v a :
  a < p \/ p + 4 <= a -> store32 m p v a = m a.
Proof. intros H. apply (store_bytes_other 4). exact H. Qed.

Lemma store64_other m p v a :
  a < p \/ p + 8 <= a -> store64 m p v a = m a.
Proof. intros H. apply (store_bytes_other 8). exact H. Qed.

Arguments load_bytes : simpl never.
Arguments store_bytes : simpl never.

Lemma copy_bytes_dst m dst src n a :
  dst <= a < dst + n -> copy_bytes m dst src n a = m (src + (a - dst)).
Proof.
  intros H. unfold copy_bytes.
  destruct (Z.leb_spec dst a); destruct (Z.ltb_spec a (dst + n)); cbn; lia || reflexivity.
Qed.

Lemma copy_bytes_other m dst src n a :
  a < dst \/ dst + n <= a -> copy_bytes m dst src n a = m a.
Proof.
  intros H. unfold copy_bytes.
  destruct (Z.leb_spec dst a); destruct (Z.ltb_spec a (dst + n)); cbn; lia || reflexivity.
Qed.

(* ================================================================= *)
(** ** Lemmas on boundary tags *)

Lemma land_size_mask w :
  0 <= w < 2 ^ 32 -> Z.land w size_mask = 8 * (w / 8).
Proof.
  intros Hw.
  replace size_mask with (Z.shiftl (Z.ones 29) 3) by reflexivity.
  replace (8 * (w / 8)) with (Z.shiftl (Z.shiftr w 3) 3)
    by (rewrite Z.shiftl_mul_pow2, Z.shiftr_div_pow2 by lia; change (2 ^ 3) with 8; lia).
  apply Z.bits_inj'. intros i Hi.
  rewrite Z.land_spec.
  destruct (Z.ltb_spec i 3) as [Hlt|Hge].
  - rewrite !Z.shiftl_spec_low by lia. apply andb_false_r.
  - rewrite !Z.shiftl_spec by lia. rewrite Z.shiftr_spec by lia.
    replace (i - 3 + 3) with i by lia.
    destruct (Z.ltb_spec (i - 3) 29) as [Hl|Hh].
    + rewrite Z.ones_spec_low by lia. apply andb_true_r.
    + rewrite Z.ones_spec_high by lia. rewrite andb_false_r.
      symmetry.
      destruct (Z.eqb_spec w 0) as [->|Hnz]; [apply Z.bits_0|].
      apply Z.bits_above_log2; [lia|].
      apply Z.log2_lt_pow2; [lia|].
      pose proof (Z.pow_le_mono_r 2 32 i ltac:(lia) ltac:(lia)). lia.
Qed.

Lemma land_1 w : Z.land w 1 = w mod 2.
Proof. change 1 with (Z.ones 1) at 1. rewrite Z.land_ones by lia. reflexivity. Qed.

Lemma PACK_add sz a :
  0 <= sz -> sz mod 8 = 0 -> a = 0 \/ a = 1 -> PACK sz a = sz + a.
Proof.
  intros Hsz Hm Ha. unfold PACK.
  assert (Hl : Z.land a 1 = a) by (destruct Ha; subst; reflexivity).
  rewrite Hl.
  assert (Hd : Z.land sz a = 0).
  { destruct Ha; subst a; [apply Z.land_0_r|].
    rewrite land_1.
    pose proof (Z.div_mod sz 8 ltac:(lia)) as E. rewrite Hm in E.
    replace sz with (2 * (4 * (sz / 8))) by lia.
    rewrite Z.mul_comm. apply Z.mod_mul. lia. }
  rewrite <- Z.lxor_lor by exact Hd.
  symmetry. apply Z.add_nocarry_lxor. exact Hd.
Qed.

Lemma PACK_tag sz (al : bool) :
  0 <= sz -> sz mod 8 = 0 -> PACK sz (b2z al) = tag sz al.
Proof. intros. apply PACK_add; auto. destruct al; auto. Qed.

Lemma tag_range sz al :
  0 <= sz < 2 ^ 32 -> sz mod 8 = 0 -> 0 <= tag sz al < 2 ^ 32.
Proof.
  intros H Hm. unfold tag.
  pose proof (Z.div_mod sz 8 ltac:(lia)) as E. rewrite Hm in E.
  destruct al; cbn; lia.
Qed.

Lemma tag_size sz al :
  0 <= sz < 2 ^ 32 -> sz mod 8 = 0 -> Z.land (tag sz al) size_mask = sz.
Proof.
  intros H Hm. rewrite land_size_mask by (apply tag_range; assumption).
  unfold tag.
  pose proof (Z.div_mod sz 8 ltac:(lia)) as E. rewrite Hm in E.
  assert (Hb : 0 <= b2z al < 2) by (destruct al; cbn; lia).
  replace ((sz + b2z al) / 8) with (sz / 8); [lia|].
  apply (Z.div_unique _ 8 _ (b2z al)); lia.
Qed.

Lemma tag_alloc sz al :
  sz mod 8 = 0 -> Z.land (tag sz al) 1 = b2z al.
Proof.
  intros Hm. rewrite land_1. unfold tag.
  pose proof (Z.div_mod sz 8 ltac:(lia)) as E. rewrite Hm in E.
  assert (Hb : 0 <= b2z al < 2) by (destruct al; cbn; lia).
  symmetry. apply (Z.mod_unique _ 2 (4 * (sz / 8))); lia.
Qed.

(* ================================================================= *)
(** ** Laws of the monad *)

Lemma bind_ret_l {A B} (a : A) (k : A -> M B) s : bind (ret a) k s = k a s.
Proof. reflexivity. Qed.

Lemma bind_assoc {A B C} (c : M A) (f : A -> M B) (g : B -> M C) s :
  bind (bind c f) g s = bind c (fun a => bind (f a) g) s.
Proof. unfold bind. destruct (c s); reflexivity. Qed.

Lemma bind_read {B} n p (k : Z -> M B) s :
  in_arena s p (Z.of_nat n) = true ->
  bind (read n p) k s = k (load_bytes n (mem s) p) s.
Proof. intros H. unfold bind, read. rewrite H. reflexivity. Qed.

Lemma bind_write {B} n p v (k : unit -> M B) s :
  in_arena s p (Z.of_nat n) = true ->
  bind (write n p v) k s = k tt (set_mem s (store_bytes n (mem s) p v)).
Proof. intros H. unfold bind, write. rewrite H. reflexivity. Qed.

Lemma bind_GET_SIZE {B} p (k : Z -> M B) s :
  in_arena s p 4 = true ->
  bind (GET_SIZE p) k s = k (Z.land (load32 (mem s) p) size_mask) s.
Proof.
  intros H. unfold GET_SIZE, GET. rewrite bind_assoc.
  rewrite (bind_read 4) by exact H. reflexivity.
Qed.

Lemma bind_GET_ALLOC {B} p (k : Z -> M B) s :
  in_arena s p 4 = true ->
  bind (GET_ALLOC p) k s = k (Z.land (load32 (mem s) p) 1) s.
Proof.
  intros H. unfold GET_ALLOC, GET. rewrite bind_assoc.
  rewrite (bind_read 4) by exact H. reflexivity.
Qed.

Lemma bind_PUT {B} p v (k : unit -> M B) s :
  in_arena s p 4 = true ->
  bind (PUT p v) k s = k tt (set_mem s (store32 (mem s) p v)).
Proof. intros H. unfold PUT. rewrite (bind_write 4) by exact H. reflexivity. Qed.

Lemma in_arena_iff s p n :
  in_arena s p n = true <-> mem_start_brk s <= p /\ p + n <= mem_brk s.
Proof.
  unfold in_arena. rewrite andb_true_iff, !Z.leb_le. reflexivity.
Qed.

(* ================================================================= *)
(** ** The fit selector as a scan of the list of index nodes *)

Lemma find_fit_loop_scan s asize : forall fuel bp l best bsz,
  walk_index fuel s bp = Some l ->
  headers_in_arena s l = true ->
  find_fit_loop fuel asize bp best bsz s = Ret (scan asize (sized s l) best bsz) s.
Proof.
  induction fuel as [|k IH]; intros bp l best bsz Hw Hh; [discriminate|].
  cbn [walk_index] in Hw. cbn [find_fit_loop].
  destruct (Z.eqb_spec bp 0) as [->|Hnz].
  - injection Hw as <-. cbn. destruct (bsz =? 2147483648); reflexivity.
  - destruct (in_arena s (bp + 8) 8) eqn:Ha; [|discriminate].
    destruct (walk_index k s (load64 (mem s) (bp + 8))) as [l'|] eqn:Hw'; [|discriminate].
    injection Hw as <-. cbn [headers_in_arena forallb] in Hh.
    apply andb_true_iff in Hh as [Hb Hl].
    unfold HDRP, WSIZE. rewrite bind_GET_SIZE by exact Hb.
    cbn [sized map scan]. fold (hsize s bp).
    destruct (hsize s bp =? asize); [reflexivity|].
    unfold get_next. rewrite (bind_read 8) by exact Ha.
    destruct ((hsize s bp <? bsz) && (hsize s bp >? asize));
      apply IH; assumption.
Qed.

Lemma find_fit_scan s asize fuel l :
  index_nodes fuel s = Some l ->
  headers_in_arena s l = true ->
  find_fit fuel asize s = Ret (scan asize (sized s l) 0 2147483648) s.
Proof.
  intros Hw Hh. unfold find_fit, get_firstlist, bind.
  apply find_fit_loop_scan; assumption.
Qed.

Lemma scan_exact asize : forall l1 b l2 best bsz,
  (forall x sx, In (x, sx) l1 -> sx <> asize) ->
  scan asize (l1 ++ (b, asize) :: l2) best bsz = b.
Proof.
  induction l1 as [|[x sx] l1 IH]; intros b l2 best bsz H.
  - cbn. now rewrite Z.eqb_refl.
  - cbn [app scan].
    destruct (Z.eqb_spec sx asize) as [E|_]; [exfalso; apply (H x sx); [left; reflexivity|exact E]|].
    destruct ((sx <? bsz) && (sx >? asize)); apply IH;
      intros y sy Hy; apply (H y sy); right; exact Hy.
Qed.

Lemma scan_inexact asize : forall l best bsz,
  (forall x sx, In (x, sx) l -> sx <> asize) ->
  bsz <= 2147483648 ->
  ((forall x sx, In (x, sx) l -> ~ (asize < sx < bsz)) /\
   scan asize l best bsz = (if bsz =? 2147483648 then 0 else best))
  \/
  (exists sr, In (scan asize l best bsz, sr) l /\ asize < sr < bsz /\
              forall x sx, In (x, sx) l -> asize < sx -> sr <= sx).
Proof.
  induction l as [|[b sz] l IH]; intros best bsz Hne Hb.
  - left. split; [intros x sx []|reflexivity].
  - cbn [scan].
    destruct (Z.eqb_spec sz asize) as [E|_]; [exfalso; apply (Hne b sz); [left; reflexivity|exact E]|].
    assert (Hne' : forall x sx, In (x, sx) l -> sx <> asize)
      by (intros x sx Hx; apply (Hne x sx); right; exact Hx).
    destruct (Z.ltb_spec sz bsz) as [Hlt|Hge]; destruct (Z.gtb_spec sz asize) as [Hgt|Hle]; cbn [andb].
    + right. destruct (IH b sz Hne' ltac:(lia)) as [[Hnone Hr]|[sr [Hin [Hsr Hmin]]]].
      * exists sz. rewrite Hr.
        destruct (Z.eqb_spec sz 2147483648); [lia|].
        split; [left; reflexivity|]. split; [lia|].
        intros x sx [E|Hx] Hx'; [injection E as _ <-; lia|].
        specialize (Hnone x sx Hx). lia.
      * exists sr. split; [right; exact Hin|]. split; [lia|].
        intros x sx [E|Hx] Hx'; [injection E as _ <-; lia|].
        apply (Hmin x sx Hx Hx').
    + destruct (IH best bsz Hne' Hb) as [[Hnone Hr]|[sr [Hin [Hsr Hmin]]]].
      * left. split; [|exact Hr].
        intros x sx [E|Hx]; [injection E as _ <-; lia|apply (Hnone x sx Hx)].
      * right. exists sr. split; [right; exact Hin|]. split; [lia|].
        intros x sx [E|Hx] Hx'; [injection E as _ <-; lia|].
        apply (Hmin x sx Hx Hx').
    + destruct (IH best bsz Hne' Hb) as [[Hnone Hr]|[sr [Hin [Hsr Hmin]]]].
      * left. split; [|exact Hr].
        intros x sx [E|Hx]; [injection E as _ <-; lia|apply (Hnone x sx Hx)].
      * right. exists sr. split; [right; exact Hin|]. split; [lia|].
        intros x sx [E|Hx] Hx'; [injection E as _ <-; lia|].
        apply (Hmin x sx Hx Hx').
    + destruct (IH best bsz Hne' Hb) as [[Hnone Hr]|[sr [Hin [Hsr Hmin]]]].
      * left. split; [|exact Hr].
        intros x sx [E|Hx]; [injection E as _ <-; lia|apply (Hnone x sx Hx)].
      * right. exists sr. split; [right; exact Hin|]. split; [lia|].
        intros x sx [E|Hx] Hx'; [injection E as _ <-; lia|].
        apply (Hmin x sx Hx Hx').
Qed.

Lemma in_sized s l x sx : In (x, sx) (sized s l) <-> In x l /\ sx = hsize s x.
Proof.
  unfold sized. rewrite in_map_iff. split.
  - intros [b [E Hb]]. injection E as <- <-. auto.
  - intros [Hx ->]. exists x. auto.
Qed.

Lemma sized_app s l1 l2 : sized s (l1 ++ l2) = sized s l1 ++ sized s l2.
Proof. apply map_app. Qed.

(* ================================================================= *)
(** ** Proofs by evaluation *)

(** Closed goals about the concrete heaps are settled by evaluation. *)
Ltac by_evaluation :=
  repeat match goal with |- _ /\ _ => split end; vm_compute; reflexivity.

(* ================================================================= *)
(** ** Zero size and null pointer *)

(** C9: [mm_malloc(0)] returns NULL and [mm_free(NULL)] returns; neither
    faults and neither changes the heap or the index. *)
Theorem zero_size_and_null_are_noops :
  forall fuel s, mm_malloc fuel 0 s = Ret 0 s /\ mm_free 0 s = Ret tt s.
Proof.
  intros fuel s. split.
  - unfold mm_malloc. rewrite Z.eqb_refl. reflexivity.
  - unfold mm_free. rewrite Z.eqb_refl. reflexivity.
Qed.

(* ================================================================= *)
(** ** Requests close to [2^32] *)

(** C1 (the code at the failing input): the request size [2^32 - 8] makes
    the adjusted size wrap to 0.  On the freshly initialised heap
    [mm_malloc] then returns the payload address 4112 of the only block,
    whose size is 4096 (4088 usable bytes, far fewer than requested) and
    which is still marked free. *)
Theorem mm_malloc_huge_request_wraps :
  adjust_size 4294967288 = 4294967288 /\
  u32 (adjust_size 4294967288 + DSIZE) = 0 /\
  value (mm_malloc 8 4294967288) s_init = Some 4112 /\
  heap_blocks 8 (exec (mm_malloc 8 4294967288) s_init) = Some [(4112, 4096, false)] /\
  mem_brk (exec (mm_malloc 8 4294967288) s_init) = mem_brk s_init.
Proof. by_evaluation. Qed.

(* ================================================================= *)
(** ** Reallocation to the size a block already has *)

(** C5 (the code at the failing input): the block at 4112 has total size
    24, exactly the 16 requested bytes plus the overhead.  [mm_realloc]
    does not keep it as it is: with a free successor it swallows the whole
    successor (the heap changes), with an allocated successor it moves the
    data to a new block at 4160 and frees the old one. *)
Theorem mm_realloc_exact_size_not_kept :
  heap_blocks 8 s_one = Some [(4112, 24, true); (4136, 4072, false)] /\
  value (mm_realloc 8 4112 16) s_one = Some 4112 /\
  heap_blocks 8 (exec (mm_realloc 8 4112 16) s_one) = Some [(4112, 4096, true)] /\
  heap_blocks 8 s_two = Some [(4112, 24, true); (4136, 24, true); (4160, 4048, false)] /\
  value (mm_realloc 8 4112 16) s_two = Some 4160 /\
  heap_blocks 8 (exec (mm_realloc 8 4112 16) s_two)
    = Some [(4112, 24, false); (4136, 24, true); (4160, 24, true); (4184, 4024, false)].
Proof. by_evaluation. Qed.

(* ================================================================= *)
(** ** The order of the steps of [place] *)

Lemma mod8_cases a : 0 <= a -> a mod 8 = 0 -> a = 0 \/ 8 <= a.
Proof.
  intros H Hm. pose proof (Z.div_mod a 8 ltac:(lia)) as E. rewrite Hm in E. lia.
Qed.

(** C6, counterexample: on the initialised heap the block at 4112 has
    size 4096; in the state in which [place] calls [listRemove] its header
    already holds the size 24 of the allocated part. *)
Lemma place_removal_sees_old_size_cex :
  hsize s_init 4112 = 4096 /\
  place 4112 24 s_init
    = (listRemove 4112 ;; place_remainder 4112 4072) (exec (place_mark 4112 24) s_init) /\
  hsize (exec (place_mark 4112 24) s_init) 4112 = 24.
Proof. by_evaluation. Qed.

(** C6, amended: when [place] splits, it first writes the size of the
    allocated part and the allocated bit to the block's header and footer
    and removes the block from the index afterwards: at the removal the
    header holds the new size [asize] and the allocated bit. *)
Theorem place_marks_before_removal s bp asize csize s1 :
  in_arena s (HDRP bp) 4 = true ->
  hsize s bp = csize ->
  24 <= u32 (csize - asize) ->
  0 <= asize < 2 ^ 32 -> asize mod 8 = 0 ->
  place_mark bp asize s = Ret tt s1 ->
  place bp asize s = (listRemove bp ;; place_remainder bp (u32 (csize - asize))) s1 /\
  hsize s1 bp = asize /\ halloc s1 bp = 1.
Proof.
  intros Ha Hc Hsplit Hr Hm Hmark.
  split.
  - unfold place. rewrite bind_GET_SIZE by exact Ha.
    unfold HDRP, WSIZE in *. fold (hsize s bp). rewrite Hc.
    destruct (Z.leb_spec 24 (u32 (csize - asize))); [|lia].
    unfold bind at 1. rewrite Hmark. reflexivity.
  - unfold place_mark, FTRP in Hmark.
    unfold HDRP, WSIZE, DSIZE in *.
    rewrite bind_PUT in Hmark by exact Ha.
    rewrite bind_assoc in Hmark.
    rewrite bind_GET_SIZE in Hmark by exact Ha.
    cbn [mem set_mem] in Hmark. rewrite bind_ret_l in Hmark.
    change (PACK asize 1) with (PACK asize (b2z true)) in Hmark.
    rewrite (PACK_tag asize true) in Hmark by lia.
    rewrite load32_store32 in Hmark by (apply tag_range; lia).
    rewrite tag_size in Hmark by lia.
    unfold PUT, write in Hmark.
    destruct (in_arena _ (bp + asize - 8) (Z.of_nat 4)); [|discriminate].
    injection Hmark as <-.
    unfold hsize, halloc. cbn [mem set_mem].
    change (store_bytes 4) with store32.
    rewrite load32_store32_other
      by (destruct (mod8_cases asize ltac:(lia) Hm); lia).
    rewrite load32_store32 by (apply tag_range; lia).
    rewrite tag_size, tag_alloc by lia. auto.
Qed.

Lemma place_marks_before_removal_witness :
  hsize (exec (place_mark 4112 24) s_init) 4112 = 24 /\
  halloc (exec (place_mark 4112 24) s_init) 4112 = 1.
Proof.
  refine (proj2 (place_marks_before_removal s_init 4112 24 4096
                   (exec (place_mark 4112 24) s_init) _ _ _ _ _ _)).
  - vm_compute. reflexivity.
  - vm_compute. reflexivity.
  - vm_compute. discriminate.
  - lia.
  - vm_compute. reflexivity.
  - vm_compute. reflexivity.
Defined.

(* ================================================================= *)
(** ** The policy of the fit selector *)

Lemma first_exact_or_none (s : heap) asize : forall l,
  (exists l1 b l2, l = l1 ++ b :: l2 /\ hsize s b = asize /\
                   forall x, In x l1 -> hsize s x <> asize)
  \/ (forall x, In x l -> hsize s x <> asize).
Proof.
  induction l as [|a l IH].
  - right. intros x [].
  - destruct (Z.eq_dec (hsize s a) asize) as [E|N].
    + left. exists [], a, l. split; [reflexivity|]. split; [exact E|intros x []].
    + destruct IH as [[l1 [b [l2 [-> [Hb Hl1]]]]]|Hnone].
      * left. exists (a :: l1), b, l2. split; [reflexivity|]. split; [exact Hb|].
        intros x [<-|Hx]; [exact N|apply Hl1; exact Hx].
      * right. intros x [<-|Hx]; [exact N|apply Hnone; exact Hx].
Qed.

Lemma scan_sized_exact s asize l1 b l2 best bsz :
  hsize s b = asize ->
  (forall x, In x l1 -> hsize s x <> asize) ->
  scan asize (sized s (l1 ++ b :: l2)) best bsz = b.
Proof.
  intros Hb Hl1. rewrite sized_app. cbn [sized map]. rewrite Hb.
  apply scan_exact. intros x sx Hx. apply in_sized in Hx as [Hx ->].
  apply Hl1. exact Hx.
Qed.

Lemma scan_sized_inexact s asize l :
  (forall x, In x l -> hsize s x <> asize) ->
  (In (scan asize (sized s l) 0 2147483648) l /\
   asize < hsize s (scan asize (sized s l) 0 2147483648) < 2147483648 /\
   forall x, In x l -> asize < hsize s x ->
             hsize s (scan asize (sized s l) 0 2147483648) <= hsize s x)
  \/ (scan asize (sized s l) 0 2147483648 = 0 /\
      forall x, In x l -> ~ (asize < hsize s x < 2147483648)).
Proof.
  intros Hne.
  destruct (scan_inexact asize (sized s l) 0 2147483648) as [[Hnone Hr]|[sr [Hin [Hsr Hmin]]]].
  - intros x sx Hx. apply in_sized in Hx as [Hx ->]. apply Hne. exact Hx.
  - lia.
  - right. split; [exact Hr|].
    intros x Hx. apply (Hnone x (hsize s x)). apply in_sized. auto.
  - left. apply in_sized in Hin as [Hin ->].
    split; [exact Hin|]. split; [exact Hsr|].
    intros x Hx Hlt. apply (Hmin x (hsize s x)); [apply in_sized; auto|exact Hlt].
Qed.

(** C4, counterexample: in [big_free] the index holds the free block at
    4112, whose size [2^31] is larger than the required 24, and no block of
    size 24; yet [find_fit] returns the no-match sentinel. *)
Lemma find_fit_smallest_larger_cex :
  index_nodes 8 big_free = Some [4112] /\
  hsize big_free 4112 = 2147483648 /\
  halloc big_free 4112 = 0 /\
  value (find_fit 8 24) big_free = Some 0.
Proof. by_evaluation. Qed.

(** A node the scan returns is a member of the list and is not smaller
    than the requirement. *)
Lemma scan_sized_member s asize l :
  scan asize (sized s l) 0 2147483648 <> 0 ->
  In (scan asize (sized s l) 0 2147483648) l /\
  asize <= hsize s (scan asize (sized s l) 0 2147483648).
Proof.
  intros Hr.
  destruct (first_exact_or_none s asize l) as [[l1 [b [l2 [-> [Hb Hl1]]]]]|Hnone].
  - rewrite (scan_sized_exact s asize l1 b l2 _ _ Hb Hl1).
    split; [apply in_or_app; right; left; reflexivity|lia].
  - destruct (scan_sized_inexact s asize l Hnone) as [[Hin [Hsz _]]|[E _]].
    + split; [exact Hin|lia].
    + contradiction.
Qed.

(** C4, amended: let [l] be the nodes of the index in list order.
    [find_fit] returns the first node whose block has exactly the required
    size, if there is one.  Otherwise it returns a node of least size among
    those strictly larger than the requirement, provided that least size is
    below [2^31]; and NULL if no node has a size strictly between the
    requirement and [2^31].  A node it returns is a member of the index and
    not smaller than the requirement, and it is free whenever all members
    of the index are. *)
Theorem find_fit_policy s fuel l asize :
  index_nodes fuel s = Some l ->
  headers_in_arena s l = true ->
  exists r,
    find_fit fuel asize s = Ret r s /\
    (forall l1 b l2, l = l1 ++ b :: l2 -> hsize s b = asize ->
       (forall x, In x l1 -> hsize s x <> asize) -> r = b) /\
    ((forall x, In x l -> hsize s x <> asize) ->
       (In r l /\ asize < hsize s r < 2147483648 /\
        forall x, In x l -> asize < hsize s x -> hsize s r <= hsize s x)
       \/ (r = 0 /\ forall x, In x l -> ~ (asize < hsize s x < 2147483648))) /\
    (r <> 0 -> In r l /\ asize <= hsize s r) /\
    (r <> 0 -> (forall x, In x l -> halloc s x = 0) -> halloc s r = 0).
Proof.
  intros Hw Hh. exists (scan asize (sized s l) 0 2147483648).
  split; [apply find_fit_scan; assumption|].
  pose proof (scan_sized_member s asize l) as Hmem.
  split; [|split; [|split]].
  - intros l1 b l2 -> Hb Hl1. apply scan_sized_exact; assumption.
  - apply scan_sized_inexact.
  - exact Hmem.
  - intros Hr Hfree. apply Hfree. apply Hmem. exact Hr.
Qed.

Lemma find_fit_policy_witness :
  exists r,
    find_fit 8 24 s_two = Ret r s_two /\
    (forall l1 b l2, [4160] = l1 ++ b :: l2 -> hsize s_two b = 24 ->
       (forall x, In x l1 -> hsize s_two x <> 24) -> r = b) /\
    ((forall x, In x [4160] -> hsize s_two x <> 24) ->
       (In r [4160] /\ 24 < hsize s_two r < 2147483648 /\
        forall x, In x [4160] -> 24 < hsize s_two x -> hsize s_two r <= hsize s_two x)
       \/ (r = 0 /\ forall x, In x [4160] -> ~ (24 < hsize s_two x < 2147483648))) /\
    (r <> 0 -> In r [4160] /\ 24 <= hsize s_two r) /\
    (r <> 0 -> (forall x, In x [4160] -> halloc s_two x = 0) -> halloc s_two r = 0).
Proof.
  apply (find_fit_policy s_two 8 [4160] 24).
  - vm_compute. reflexivity.
  - vm_compute. reflexivity.
Defined.

(** C10: if no node of the index has exactly the required size and every
    node that is larger has a size of at least [2^31], [find_fit] returns
    NULL, however large those blocks are. *)
Theorem find_fit_misses_huge_blocks s fuel l asize :
  index_nodes fuel s = Some l ->
  headers_in_arena s l = true ->
  (forall x, In x l ->
     hsize s x <> asize /\ (asize < hsize s x -> 2147483648 <= hsize s x)) ->
  find_fit fuel asize s = Ret 0 s.
Proof.
  intros Hw Hh Hall.
  rewrite (find_fit_scan s asize fuel l Hw Hh). f_equal.
  destruct (scan_sized_inexact s asize l) as [[Hin [Hsz _]]|[E _]].
  - intros x Hx. apply Hall. exact Hx.
  - destruct (Hall _ Hin) as [_ Hbig]. lia.
  - exact E.
Qed.

(** The state [big_free] has a free block of [2^31] bytes in its index;
    [find_fit] does not find it for a requirement of 24 bytes, and
    [mm_malloc(16)] therefore extends the arena by a chunk. *)
Lemma find_fit_misses_huge_blocks_witness :
  (index_nodes 8 big_free = Some [4112] /\ 24 < hsize big_free 4112 /\
   halloc big_free 4112 = 0) /\
  find_fit 8 24 big_free = Ret 0 big_free /\
  mem_brk (exec (mm_malloc 8 16) big_free) = mem_brk big_free + 4096.
Proof.
  split; [|split].
  - split; [vm_compute; reflexivity|]. split; vm_compute; reflexivity.
  - apply (find_fit_misses_huge_blocks big_free 8 [4112] 24).
    + vm_compute. reflexivity.
    + vm_compute. reflexivity.
    + intros x [<-|[]]. split.
      * vm_compute. discriminate.
      * intros _. vm_compute. discriminate.
  - vm_compute. reflexivity.
Defined.

(* ================================================================= *)
(** ** Lemmas on the abstract view *)

(* ----------------------------------------------------------------- *)
(** *** Layouts *)

Lemma total_app bs1 bs2 : total (bs1 ++ bs2) = total bs1 + total bs2.
Proof.
  induction bs1 as [|[sz al] r IH]; cbn [app total]; [reflexivity|]. rewrite IH. lia.
Qed.

Lemma layout_app bs1 : forall a bs2,
  layout a (bs1 ++ bs2) = layout a bs1 ++ layout (a + total bs1) bs2.
Proof.
  induction bs1 as [|[sz al] r IH]; intros a bs2; cbn [app total layout].
  - rewrite Z.add_0_r. reflexivity.
  - rewrite IH, Z.add_assoc. reflexivity.
Qed.

Lemma total_nonneg bs : Forall size_ok bs -> 0 <= total bs.
Proof.
  induction 1 as [|[sz al] r [H1 _] _ IH]; cbn [total fst] in *; lia.
Qed.

Lemma layout_bounds bs : forall a x sz al,
  Forall size_ok bs -> In (x, sz, al) (layout a bs) ->
  a <= x /\ x + sz <= a + total bs /\ 24 <= sz /\ sz mod 8 = 0.
Proof.
  induction bs as [|[sz0 al0] r IH]; intros a x sz al Hok Hin; [destruct Hin|].
  inversion Hok as [|? ? [H1 H2] Hr]; subst. cbn [fst] in *.
  pose proof (total_nonneg r Hr).
  cbn [layout total] in *. destruct Hin as [E|Hin].
  - injection E as <- <- <-. lia.
  - specialize (IH _ _ _ _ Hr Hin). lia.
Qed.

Lemma layout_split bs : forall a x sz al,
  In (x, sz, al) (layout a bs) ->
  exists bs1 bs2, bs = bs1 ++ (sz, al) :: bs2 /\ x = a + total bs1.
Proof.
  induction bs as [|[sz0 al0] r IH]; intros a x sz al Hin; [destruct Hin|].
  cbn [layout] in Hin. destruct Hin as [E|Hin].
  - injection E as <- <- <-. exists [], r. cbn. split; [reflexivity|lia].
  - destruct (IH _ _ _ _ Hin) as [bs1 [bs2 [-> ->]]].
    exists ((sz0, al0) :: bs1), bs2. cbn [app total]. split; [reflexivity|lia].
Qed.

Lemma layout_mid a bs1 sz al bs2 :
  In (a + total bs1, sz, al) (layout a (bs1 ++ (sz, al) :: bs2)).
Proof.
  rewrite layout_app. apply in_or_app. right. left. reflexivity.
Qed.

Lemma layout_sep bs : forall a x1 s1 a1 x2 s2 a2,
  Forall size_ok bs ->
  In (x1, s1, a1) (layout a bs) -> In (x2, s2, a2) (layout a bs) ->
  (x1 = x2 /\ s1 = s2 /\ a1 = a2) \/ x1 + s1 <= x2 \/ x2 + s2 <= x1.
Proof.
  induction bs as [|[sz0 al0] r IH]; intros a x1 s1 a1 x2 s2 a2 Hok H1 H2; [destruct H1|].
  inversion Hok as [|? ? [Hs1 Hs2] Hr]; subst. cbn [fst] in *.
  cbn [layout] in H1, H2. destruct H1 as [E1|H1]; destruct H2 as [E2|H2].
  - injection E1 as <- <- <-. injection E2 as <- <- <-. auto.
  - injection E1 as <- <- <-. pose proof (layout_bounds _ _ _ _ _ Hr H2). lia.
  - injection E2 as <- <- <-. pose proof (layout_bounds _ _ _ _ _ Hr H1). lia.
  - apply (IH _ _ _ _ _ _ _ Hr H1 H2).
Qed.

Lemma size_ok_app bs1 bs2 :
  Forall size_ok (bs1 ++ bs2) <-> Forall size_ok bs1 /\ Forall size_ok bs2.
Proof. apply Forall_app. Qed.

(* ----------------------------------------------------------------- *)
(** *** Flags *)

Lemma adjacent_free_cons a l :
  adjacent_free (a :: l) = (negb a && negb (hd true l)) || adjacent_free l.
Proof.
  destruct l as [|b r]; cbn [adjacent_free hd]; [|reflexivity].
  destruct a; reflexivity.
Qed.

Lemma adjacent_free_app l1 : forall l2,
  adjacent_free (l1 ++ l2)
  = adjacent_free l1 || adjacent_free l2 || (negb (last l1 true) && negb (hd true l2)).
Proof.
  induction l1 as [|a r IH]; intros l2.
  - cbn. now rewrite orb_false_r.
  - change ((a :: r) ++ l2) with (a :: (r ++ l2)).
    rewrite (adjacent_free_cons a (r ++ l2)), (adjacent_free_cons a r), IH.
    destruct r as [|b r'].
    + cbn [app hd last adjacent_free].
      destruct a, (hd true l2), (adjacent_free l2); reflexivity.
    + change (last (a :: b :: r') true) with (last (b :: r') true).
      cbn [app hd].
      generalize (adjacent_free (b :: r')) (adjacent_free l2)
                 (last (b :: r') true) (hd true l2).
      intros x1 x2 x3 x4. destruct a, b, x1, x2, x3, x4; reflexivity.
Qed.

(* ----------------------------------------------------------------- *)
(** *** Frames *)

Lemma load32_ext m1 m2 p :
  (forall a, p <= a < p + 4 -> m1 a = m2 a) -> load32 m1 p = load32 m2 p.
Proof. intros H. apply (load_bytes_ext 4). exact H. Qed.

Lemma load64_ext m1 m2 p :
  (forall a, p <= a < p + 8 -> m1 a = m2 a) -> load64 m1 p = load64 m2 p.
Proof. intros H. apply (load_bytes_ext 8). exact H. Qed.

Lemma tags_frame m m' L :
  Forall (tags_at m) L ->
  (forall a sz al x, In (a, sz, al) L ->
     a - 4 <= x < a \/ a + sz - 8 <= x < a + sz - 4 -> m' x = m x) ->
  Forall (tags_at m') L.
Proof.
  intros Ht Hf. rewrite Forall_forall in *. intros [[a sz] al] Hin.
  specialize (Ht _ Hin). unfold tags_at in Ht |- *. destruct Ht as [H1 H2].
  split; [rewrite <- H1|rewrite <- H2]; apply load32_ext; intros x Hx;
    apply (Hf a sz al x Hin); lia.
Qed.

Lemma dseg_frame m m' : forall l p n,
  dseg m p l n ->
  (forall x y, In x l -> x <= y < x + 16 -> m' y = m y) ->
  dseg m' p l n.
Proof.
  induction l as [|a l IH]; intros p n Hd Hf; [exact I|].
  cbn [dseg] in *. destruct Hd as [H1 [H2 H3]].
  split; [|split].
  - rewrite <- H1. apply load64_ext. intros y Hy. apply (Hf a); [left; reflexivity|lia].
  - rewrite <- H2. apply load64_ext. intros y Hy. apply (Hf a); [left; reflexivity|lia].
  - apply IH; [exact H3|]. intros x y Hx Hy. apply (Hf x); [right; exact Hx|exact Hy].
Qed.

Lemma last_cons {A} (r : list A) : forall a p, last (a :: r) p = last r a.
Proof.
  induction r as [|b r IH]; intros a p; [reflexivity|].
  change (last (a :: b :: r) p) with (last (b :: r) p).
  rewrite (IH b p), (IH b a). reflexivity.
Qed.

Lemma dseg_app m : forall l1 p l2 n,
  dseg m p (l1 ++ l2) n <-> dseg m p l1 (hd n l2) /\ dseg m (last l1 p) l2 n.
Proof.
  induction l1 as [|a r IH]; intros p l2 n.
  - cbn. tauto.
  - change ((a :: r) ++ l2) with (a :: (r ++ l2)). cbn [dseg].
    rewrite IH.
    assert (E1 : hd n (r ++ l2) = hd (hd n l2) r) by (destruct r; reflexivity).
    rewrite E1, (last_cons r a p). tauto.
Qed.

(* ----------------------------------------------------------------- *)
(** *** The list operations on a well-formed list *)

Lemma bind_set_prev {B} bp v (k : unit -> M B) s :
  in_arena s bp 8 = true ->
  bind (set_prev bp v) k s = k tt (set_mem s (store64 (mem s) bp v)).
Proof. intros H. unfold set_prev. rewrite (bind_write 8) by exact H. reflexivity. Qed.

Lemma bind_set_next {B} bp v (k : unit -> M B) s :
  in_arena s (bp + 8) 8 = true ->
  bind (set_next bp v) k s = k tt (set_mem s (store64 (mem s) (bp + 8) v)).
Proof. intros H. unfold set_next. rewrite (bind_write 8) by exact H. reflexivity. Qed.

Lemma bind_get_prev {B} bp (k : Z -> M B) s :
  in_arena s bp 8 = true ->
  bind (get_prev bp) k s = k (load64 (mem s) bp) s.
Proof. intros H. unfold get_prev. rewrite (bind_read 8) by exact H. reflexivity. Qed.

Lemma bind_get_next {B} bp (k : Z -> M B) s :
  in_arena s (bp + 8) 8 = true ->
  bind (get_next bp) k s = k (load64 (mem s) (bp + 8)) s.
Proof. intros H. unfold get_next. rewrite (bind_read 8) by exact H. reflexivity. Qed.

Lemma bind_put_firstlist {B} f (k : unit -> M B) s :
  bind (put_firstlist f) k s = k tt (set_firstlist s f).
Proof. reflexivity. Qed.

Lemma bind_get_firstlist {B} (k : Z -> M B) s :
  bind get_firstlist k s = k (firstlist s) s.
Proof. reflexivity. Qed.

Lemma in_arena_true lo brk hi m fl hl p n :
  lo <= p -> p + n <= brk -> in_arena (mkHeap m lo brk hi fl hl) p n = true.
Proof. intros. apply in_arena_iff. cbn. lia. Qed.

Lemma last_snoc {A} (l : list A) (a d : A) : last (l ++ [a]) d = a.
Proof. apply last_last. Qed.

Lemma hd_app_cons {A} (l1 : list A) (a : A) l2 d :
  hd d (l1 ++ a :: l2) = hd a l1.
Proof. destruct l1; reflexivity. Qed.

Ltac norm :=
  unfold set_mem, set_firstlist, set_brk, set_heap_listp;
  cbn [mem mem_start_brk mem_brk mem_max_addr firstlist heap_listp].

Tactic Notation "norm" "in" hyp(H) :=
  unfold set_mem, set_firstlist, set_brk, set_heap_listp in H;
  cbn [mem mem_start_brk mem_brk mem_max_addr firstlist heap_listp] in H.

Tactic Notation "norm" "in" "*" :=
  unfold set_mem, set_firstlist, set_brk, set_heap_listp in *;
  cbn [mem mem_start_brk mem_brk mem_max_addr firstlist heap_listp] in *.

Ltac arena := apply in_arena_true; lia.

(** One step of symbolic execution of a memory access or of an access to
    [firstlist]. *)
Ltac step :=
  first [ rewrite bind_ret_l
        | rewrite bind_assoc
        | rewrite bind_put_firstlist
        | rewrite bind_get_firstlist
        | rewrite bind_set_prev by arena
        | rewrite bind_set_next by arena
        | rewrite bind_get_prev by arena
        | rewrite bind_get_next by arena
        | rewrite bind_PUT by arena
        | rewrite bind_GET_SIZE by arena
        | rewrite bind_GET_ALLOC by arena ];
  norm.

Lemma snoc_cases {A} (l : list A) : l = [] \/ exists l' a, l = l' ++ [a].
Proof.
  destruct l as [|x r]; [left; reflexivity|right].
  destruct (exists_last (l := x :: r) ltac:(discriminate)) as [l' [a E]].
  exists l', a. exact E.
Qed.

Lemma listRemove_raw m lo brk hi fl hl l1 bp l2 :
  dseg m 0 (l1 ++ bp :: l2) 0 ->
  fl = hd 0 (l1 ++ bp :: l2) ->
  NoDup (l1 ++ bp :: l2) ->
  nodes_ok (mkHeap m lo brk hi fl hl) (l1 ++ bp :: l2) ->
  nodes_sep (l1 ++ bp :: l2) ->
  brk < 2 ^ 64 ->
  lo <= bp - 4 ->
  Z.land (load32 m (bp - 4)) size_mask <> 0 ->
  exists m',
    listRemove bp (mkHeap m lo brk hi fl hl)
      = Ret tt (mkHeap m' lo brk hi (hd 0 (l1 ++ l2)) hl) /\
    dseg m' 0 (l1 ++ l2) 0 /\
    (forall x, (forall n, In n (l1 ++ bp :: l2) -> x < n \/ n + 16 <= x) -> m' x = m x).
Proof.
  intros Hd Hfl Hnd Hok Hsep Hbrk Hlo Hsz.
  assert (Hbp : 0 < bp /\ lo <= bp /\ bp + 16 <= brk)
    by (apply (Hok bp); apply in_or_app; right; left; reflexivity).
  apply dseg_app in Hd. cbn [hd dseg] in Hd.
  destruct Hd as [Hd1 [Hprev [Hnext Hd2]]].
  unfold listRemove, HDRP, WSIZE. step.
  destruct (Z.eqb_spec (Z.land (load32 m (bp - 4)) size_mask) 0) as [E|_]; [contradiction|].
  do 2 step. rewrite Hprev, Hnext.
  destruct l2 as [|n l2']; destruct (snoc_cases l1) as [->|[l1' [p ->]]].
  - (* the only node *)
    cbn [hd last app]. rewrite Z.eqb_refl. cbn [andb].
    exists m. split; [reflexivity|]. split; [exact I|reflexivity].
  - (* the last node, with a predecessor *)
    rewrite last_snoc. cbn [hd].
    assert (Hp : 0 < p /\ lo <= p /\ p + 16 <= brk)
      by (apply (Hok p); apply in_or_app; left; apply in_or_app; right; left; reflexivity).
    destruct (Z.eqb_spec p 0) as [E|_]; [lia|]. cbn [andb negb Z.eqb].
    unfold set_next, write. rewrite in_arena_true by (cbn; lia). norm.
    exists (store64 m (p + 8) 0). rewrite app_nil_r.
    split; [|split].
    + rewrite Hfl, <- app_assoc. cbn [app]. rewrite !hd_app_cons. reflexivity.
    + apply dseg_app in Hd1. cbn [hd dseg] in Hd1. destruct Hd1 as [Hd1 [Hpp [Hpn _]]].
      apply dseg_app. cbn [hd dseg]. split; [|split; [|split; [|exact I]]].
      * apply (dseg_frame m); [exact Hd1|].
        intros x y Hx Hy. apply store64_other.
        assert (Hxl : In x ((l1' ++ [p]) ++ [bp]))
          by (apply in_or_app; left; apply in_or_app; left; exact Hx).
        assert (Hpl : In p ((l1' ++ [p]) ++ [bp]))
          by (apply in_or_app; left; apply in_or_app; right; left; reflexivity).
        destruct (Hsep x p Hxl Hpl) as [E|Hs]; [|lia].
        subst x. rewrite <- app_assoc in Hnd. apply NoDup_remove_2 in Hnd.
        exfalso. apply Hnd. apply in_or_app. left. exact Hx.
      * rewrite load64_store64_other by lia. exact Hpp.
      * apply load64_store64. lia.
    + intros x Hx. apply store64_other.
      specialize (Hx p ltac:(apply in_or_app; left; apply in_or_app; right; left; reflexivity)).
      lia.
  - (* the first node, with a successor *)
    cbn [hd last app] in *.
    assert (Hn : 0 < n /\ lo <= n /\ n + 16 <= brk)
      by (apply (Hok n); right; left; reflexivity).
    rewrite Z.eqb_refl.
    destruct (Z.eqb_spec n 0) as [E|_]; [lia|]. cbn [andb negb].
    step. unfold set_prev, write. rewrite in_arena_true by (cbn; lia). norm.
    exists (store64 m n 0). split; [reflexivity|].
    destruct Hd2 as [Hnp [Hnn Hd2]].
    split; [split; [|split]|].
    + apply load64_store64. lia.
    + rewrite load64_store64_other by lia. exact Hnn.
    + apply (dseg_frame m); [exact Hd2|].
      intros x y Hx Hy. apply store64_other.
      destruct (Hsep x n ltac:(right; right; exact Hx) ltac:(right; left; reflexivity))
        as [E|Hs]; [|lia].
      subst x. inversion Hnd as [|? ? _ Hnd']; subst.
      inversion Hnd' as [|? ? Hnin _]; subst. contradiction.
    + intros x Hx. apply store64_other.
      specialize (Hx n ltac:(right; left; reflexivity)). lia.
  - (* an interior node *)
    rewrite last_snoc. cbn [hd].
    assert (Hp : 0 < p /\ lo <= p /\ p + 16 <= brk)
      by (apply (Hok p); apply in_or_app; left; apply in_or_app; right; left; reflexivity).
    assert (Hn : 0 < n /\ lo <= n /\ n + 16 <= brk)
      by (apply (Hok n); apply in_or_app; right; right; left; reflexivity).
    destruct (Z.eqb_spec p 0) as [E|_]; [lia|].
    destruct (Z.eqb_spec n 0) as [E|_]; [lia|]. cbn [andb negb].
    do 3 step. unfold set_next, write. rewrite in_arena_true by (cbn; lia). norm.
    rewrite <- !app_assoc in *. cbn [app] in *.
    assert (Hin_p : In p (l1' ++ p :: bp :: n :: l2'))
      by (apply in_or_app; right; left; reflexivity).
    assert (Hin_b : In bp (l1' ++ p :: bp :: n :: l2'))
      by (apply in_or_app; right; right; left; reflexivity).
    assert (Hin_n : In n (l1' ++ p :: bp :: n :: l2'))
      by (apply in_or_app; right; right; right; left; reflexivity).
    pose proof (NoDup_remove_2 _ _ _ Hnd) as Hp_fresh.
    pose proof (NoDup_remove_1 _ _ _ Hnd) as Hnd1.
    pose proof (NoDup_remove_2 _ _ _ Hnd1) as Hb_fresh.
    pose proof (NoDup_remove_1 _ _ _ Hnd1) as Hnd2.
    pose proof (NoDup_remove_2 _ _ _ Hnd2) as Hn_fresh.
    assert (Hpb : p + 16 <= bp \/ bp + 16 <= p).
    { destruct (Hsep p bp Hin_p Hin_b) as [E|Hs]; [|exact Hs].
      exfalso. apply Hp_fresh. apply in_or_app. right. left. symmetry. exact E. }
    assert (Hpn : p + 16 <= n \/ n + 16 <= p).
    { destruct (Hsep p n Hin_p Hin_n) as [E|Hs]; [|exact Hs].
      exfalso. apply Hp_fresh. apply in_or_app. right. right. left. symmetry. exact E. }
    assert (Hbn : bp + 16 <= n \/ n + 16 <= bp).
    { destruct (Hsep bp n Hin_b Hin_n) as [E|Hs]; [|exact Hs].
      exfalso. apply Hb_fresh. apply in_or_app. right. left. symmetry. exact E. }
    replace (hd 0 (l1' ++ p :: n :: l2')) with fl
      by (rewrite Hfl, !hd_app_cons; reflexivity).
    eexists. split; [reflexivity|].
    assert (Hother : forall x, In x l1' \/ In x l2' ->
              forall y, x <= y < x + 16 ->
              store64 (store64 (store64 (store64 m (p + 8) n) n p) bp 0) (bp + 8) 0 y = m y).
    { intros x Hx y Hy.
      assert (Hxl : In x (l1' ++ p :: bp :: n :: l2'))
        by (apply in_or_app; destruct Hx; [left; assumption|right; right; right; right; assumption]).
      assert (x <> p) by (intros ->; apply Hp_fresh; apply in_or_app;
                          destruct Hx; [left; assumption|right; right; right; assumption]).
      assert (x <> bp) by (intros ->; apply Hb_fresh; apply in_or_app;
                           destruct Hx; [left; assumption|right; right; assumption]).
      assert (x <> n) by (intros ->; apply Hn_fresh; apply in_or_app;
                          destruct Hx; [left; assumption|right; assumption]).
      destruct (Hsep x p Hxl Hin_p) as [?|?]; [contradiction|].
      destruct (Hsep x bp Hxl Hin_b) as [?|?]; [contradiction|].
      destruct (Hsep x n Hxl Hin_n) as [?|?]; [contradiction|].
      rewrite !store64_other by lia. reflexivity. }
    apply dseg_app in Hd1. cbn [hd dseg] in Hd1. destruct Hd1 as [Hd1 [Hpp [Hpnx _]]].
    destruct Hd2 as [Hnp [Hnn Hd2]].
    split.
    + apply dseg_app. cbn [hd dseg].
      split; [|split; [|split; [|split; [|split]]]].
      * apply (dseg_frame m); [exact Hd1|].
        intros x y Hx Hy. apply (Hother x); [left; exact Hx|exact Hy].
      * rewrite !load64_store64_other by lia. exact Hpp.
      * rewrite !load64_store64_other by lia. apply load64_store64. lia.
      * rewrite !load64_store64_other by lia. apply load64_store64. lia.
      * rewrite !load64_store64_other by lia. exact Hnn.
      * apply (dseg_frame m); [exact Hd2|].
        intros x y Hx Hy. apply (Hother x); [right; exact Hx|exact Hy].
    + intros x Hx.
      pose proof (Hx p Hin_p). pose proof (Hx bp Hin_b). pose proof (Hx n Hin_n).
      rewrite !store64_other by lia. reflexivity.
Qed.

Lemma listInsert_raw m lo brk hi fl hl bp l :
  dseg m 0 l 0 ->
  fl = hd 0 l ->
  NoDup l -> ~ In bp l ->
  nodes_ok (mkHeap m lo brk hi fl hl) (bp :: l) ->
  nodes_sep (bp :: l) ->
  brk < 2 ^ 64 ->
  lo <= bp - 4 ->
  Z.land (load32 m (bp - 4)) 1 = 0 ->
  exists m',
    listInsert bp (mkHeap m lo brk hi fl hl) = Ret tt (mkHeap m' lo brk hi bp hl) /\
    dseg m' 0 (bp :: l) 0 /\
    (forall x, (forall n, In n (bp :: l) -> x < n \/ n + 16 <= x) -> m' x = m x).
Proof.
  intros Hd Hfl Hnd Hfresh Hok Hsep Hbrk Hlo Hfree.
  assert (Hbp : 0 < bp /\ lo <= bp /\ bp + 16 <= brk)
    by (apply (Hok bp); left; reflexivity).
  unfold listInsert, HDRP, WSIZE. step. rewrite Hfree. cbn [Z.eqb negb].
  step. destruct l as [|f l'].
  - cbn [hd] in Hfl. subst fl. cbn [Z.eqb].
    do 2 step. unfold set_prev, write. rewrite in_arena_true by (cbn; lia). norm.
    eexists. split; [reflexivity|]. change (store_bytes 8) with store64.
    cbn [dseg hd].
    split; [split; [|split; [|exact I]]|].
    + apply load64_store64. lia.
    + rewrite load64_store64_other by lia. apply load64_store64. lia.
    + intros x Hx. specialize (Hx bp ltac:(left; reflexivity)).
      rewrite !store64_other by lia. reflexivity.
  - cbn [hd] in Hfl. subst fl.
    assert (Hf : 0 < f /\ lo <= f /\ f + 16 <= brk)
      by (apply (Hok f); right; left; reflexivity).
    destruct (Z.eqb_spec f 0) as [E|_]; [lia|].
    cbn [dseg] in Hd. destruct Hd as [Hfp [Hfn Hd]].
    do 4 step. unfold put_firstlist. norm. rewrite Hfp.
    assert (Hbf : bp + 16 <= f \/ f + 16 <= bp).
    { destruct (Hsep bp f ltac:(left; reflexivity) ltac:(right; left; reflexivity))
        as [E|Hs]; [|exact Hs].
      exfalso. apply Hfresh. left. symmetry. exact E. }
    eexists. split; [reflexivity|]. cbn [dseg hd].
    split; [split; [|split; [|split; [|split]]]|].
    + rewrite !load64_store64_other by lia. apply load64_store64. lia.
    + rewrite !load64_store64_other by lia. apply load64_store64. lia.
    + apply load64_store64. lia.
    + rewrite !load64_store64_other by lia. exact Hfn.
    + apply (dseg_frame m); [exact Hd|].
      intros x y Hx Hy.
      assert (x <> f) by (intros ->; inversion Hnd; contradiction).
      assert (x <> bp) by (intros ->; apply Hfresh; right; exact Hx).
      destruct (Hsep x f ltac:(right; right; exact Hx) ltac:(right; left; reflexivity))
        as [?|?]; [contradiction|].
      destruct (Hsep x bp ltac:(right; right; exact Hx) ltac:(left; reflexivity))
        as [?|?]; [contradiction|].
      rewrite !store64_other by lia. reflexivity.
    + intros x Hx.
      pose proof (Hx bp ltac:(left; reflexivity)).
      pose proof (Hx f ltac:(right; left; reflexivity)).
      rewrite !store64_other by lia. reflexivity.
Qed.

(* ----------------------------------------------------------------- *)
(** *** Consequences of the representation *)

Lemma Rep_entry s bs fl a sz al :
  Rep s bs fl -> In (a, sz, al) (layout (mem_start_brk s + 16) bs) ->
  mem_start_brk s + 16 <= a /\ a + sz <= mem_brk s /\
  24 <= sz /\ sz mod 8 = 0 /\ sz < 2 ^ 31 /\
  load32 (mem s) (a - 4) = tag sz al /\ load32 (mem s) (a + sz - 8) = tag sz al.
Proof.
  intros R Hin.
  pose proof (layout_bounds _ _ _ _ _ (rep_sizes _ _ _ R) Hin) as Hb.
  pose proof (rep_brk _ _ _ R). pose proof (rep_max _ _ _ R).
  pose proof (rep_small _ _ _ R). pose proof (rep_lo _ _ _ R).
  pose proof (rep_tags _ _ _ R) as Ht. rewrite Forall_forall in Ht.
  specialize (Ht _ Hin). unfold tags_at in Ht.
  repeat split; try lia; apply Ht.
Qed.

Lemma Rep_nodes_ok s bs fl : Rep s bs fl -> nodes_ok s fl.
Proof.
  intros R n Hn. destruct (rep_nodes _ _ _ R n Hn) as [sz [al Hin]].
  pose proof (Rep_entry _ _ _ _ _ _ R Hin). pose proof (rep_lo _ _ _ R). lia.
Qed.

Lemma entries_sep s bs fl n1 s1 a1 n2 s2 a2 :
  Rep s bs fl ->
  In (n1, s1, a1) (layout (mem_start_brk s + 16) bs) ->
  In (n2, s2, a2) (layout (mem_start_brk s + 16) bs) ->
  (n1 = n2 /\ s1 = s2 /\ a1 = a2) \/ n1 + s1 <= n2 \/ n2 + s2 <= n1.
Proof. intros R. apply layout_sep. apply (rep_sizes _ _ _ R). Qed.

Lemma nodes_sep_entries s bs fl (N : list Z) :
  Rep s bs fl ->
  (forall n, In n N -> exists sz al, In (n, sz, al) (layout (mem_start_brk s + 16) bs)) ->
  nodes_sep N.
Proof.
  intros R HN n1 n2 H1 H2.
  destruct (HN _ H1) as [s1 [a1 E1]]. destruct (HN _ H2) as [s2 [a2 E2]].
  pose proof (Rep_entry _ _ _ _ _ _ R E1). pose proof (Rep_entry _ _ _ _ _ _ R E2).
  destruct (entries_sep _ _ _ _ _ _ _ _ _ R E1 E2) as [[? _]|?]; lia.
Qed.

Lemma nodes_ok_entries s bs fl (N : list Z) :
  Rep s bs fl ->
  (forall n, In n N -> exists sz al, In (n, sz, al) (layout (mem_start_brk s + 16) bs)) ->
  nodes_ok s N.
Proof.
  intros R HN n Hn. destruct (HN _ Hn) as [sz [al Hin]].
  pose proof (Rep_entry _ _ _ _ _ _ R Hin). pose proof (rep_lo _ _ _ R). lia.
Qed.

(** Writes confined to the link fields of blocks leave all tags alone;
    the representation survives with the new index. *)
Lemma Rep_reindex s bs fl m' fl' (N : list Z) :
  Rep s bs fl ->
  (forall n, In n N -> exists sz al, In (n, sz, al) (layout (mem_start_brk s + 16) bs)) ->
  (forall x, (forall n, In n N -> x < n \/ n + 16 <= x) -> m' x = mem s x) ->
  dseg m' 0 fl' 0 ->
  NoDup fl' ->
  (forall n, In n fl' -> exists sz al, In (n, sz, al) (layout (mem_start_brk s + 16) bs)) ->
  Rep (mkHeap m' (mem_start_brk s) (mem_brk s) (mem_max_addr s) (hd 0 fl') (heap_listp s))
      bs fl'.
Proof.
  intros R HN Hf Hd Hnd Hfl'.
  assert (Hout : forall x, x < mem_start_brk s + 16 \/ mem_brk s - 4 <= x -> m' x = mem s x).
  { intros x Hx. apply Hf. intros n Hn. destruct (HN _ Hn) as [sz [al Hin]].
    pose proof (Rep_entry _ _ _ _ _ _ R Hin). lia. }
  constructor; norm; try apply R; try assumption.
  - rewrite <- (rep_pro_hdr _ _ _ R). apply load32_ext. intros x Hx. apply Hout. lia.
  - rewrite <- (rep_pro_ftr _ _ _ R). apply load32_ext. intros x Hx. apply Hout. lia.
  - rewrite <- (rep_epi _ _ _ R). apply load32_ext. intros x Hx. apply Hout. lia.
  - apply (tags_frame (mem s)); [apply R|].
    intros a sz al x Hin Hx. apply Hf. intros n Hn.
    destruct (HN _ Hn) as [szn [aln Hinn]].
    pose proof (Rep_entry _ _ _ _ _ _ R Hin). pose proof (Rep_entry _ _ _ _ _ _ R Hinn).
    destruct (entries_sep _ _ _ _ _ _ _ _ _ R Hin Hinn) as [[? [? ?]]|?]; lia.
  - reflexivity.
Qed.

Lemma in_remove_mid {A} (l1 : list A) b l2 x :
  In x (l1 ++ l2) -> In x (l1 ++ b :: l2).
Proof.
  intros H. apply in_app_or in H. apply in_or_app.
  destruct H; [left|right; right]; assumption.
Qed.

Lemma listRemove_Rep s bs l1 bp l2 :
  Rep s bs (l1 ++ bp :: l2) ->
  exists s',
    listRemove bp s = Ret tt s' /\
    Rep s' bs (l1 ++ l2) /\ same_arena s s' /\
    (forall x, (forall n, In n (l1 ++ bp :: l2) -> x < n \/ n + 16 <= x) ->
               mem s' x = mem s x).
Proof.
  intros R. destruct s as [m lo brk hi fl hl].
  pose proof (rep_nodes _ _ _ R) as HN.
  destruct (HN bp ltac:(apply in_or_app; right; left; reflexivity)) as [sz [al Hbp]].
  pose proof (Rep_entry _ _ _ _ _ _ R Hbp) as Hb. norm in Hb.
  pose proof (rep_max _ _ _ R) as Hmax. pose proof (rep_addr _ _ _ R) as Haddr. norm in Hmax. norm in Haddr.
  destruct (listRemove_raw m lo brk hi fl hl l1 bp l2) as [m' [Hrun [Hd Hf]]].
  - apply (rep_index _ _ _ R).
  - apply (rep_first _ _ _ R).
  - apply (rep_nodup _ _ _ R).
  - apply (Rep_nodes_ok _ _ _ R).
  - apply (nodes_sep_entries _ _ _ _ R HN).
  - lia.
  - lia.
  - destruct Hb as [_ [_ [? [? [? [Hh _]]]]]]. rewrite Hh, tag_size by lia. lia.
  - eexists. split; [exact Hrun|]. split; [|split].
    + apply (Rep_reindex _ _ _ m' (l1 ++ l2) (l1 ++ bp :: l2) R HN Hf Hd).
      * apply (NoDup_remove_1 _ _ _ (rep_nodup _ _ _ R)).
      * intros n Hn. apply HN. apply in_remove_mid. exact Hn.
    + repeat split.
    + exact Hf.
Qed.

Lemma listInsert_Rep s bs fl bp sz :
  Rep s bs fl ->
  In (bp, sz, false) (layout (mem_start_brk s + 16) bs) ->
  ~ In bp fl ->
  exists s',
    listInsert bp s = Ret tt s' /\
    Rep s' bs (bp :: fl) /\ same_arena s s' /\
    (forall x, (forall n, In n (bp :: fl) -> x < n \/ n + 16 <= x) ->
               mem s' x = mem s x).
Proof.
  intros R Hbp Hfresh. destruct s as [m lo brk hi f hl].
  pose proof (rep_nodes _ _ _ R) as HN.
  assert (HN' : forall n, In n (bp :: fl) ->
                exists sz al, In (n, sz, al) (layout (lo + 16) bs)).
  { intros n [<-|Hn]; [exists sz, false; exact Hbp|apply HN; exact Hn]. }
  pose proof (Rep_entry _ _ _ _ _ _ R Hbp) as Hb. norm in Hb.
  pose proof (rep_max _ _ _ R) as Hmax. pose proof (rep_addr _ _ _ R) as Haddr. norm in Hmax. norm in Haddr.
  destruct (listInsert_raw m lo brk hi f hl bp fl) as [m' [Hrun [Hd Hf]]].
  - apply (rep_index _ _ _ R).
  - apply (rep_first _ _ _ R).
  - apply (rep_nodup _ _ _ R).
  - exact Hfresh.
  - apply (nodes_ok_entries _ _ _ _ R HN').
  - apply (nodes_sep_entries _ _ _ _ R HN').
  - lia.
  - lia.
  - destruct Hb as [_ [_ [? [? [? [Hh _]]]]]]. rewrite Hh, tag_alloc by lia. reflexivity.
  - eexists. split; [exact Hrun|]. split; [|split].
    + apply (Rep_reindex _ _ _ m' (bp :: fl) (bp :: fl) R HN' Hf Hd).
      * constructor; [exact Hfresh|apply (rep_nodup _ _ _ R)].
      * exact HN'.
    + repeat split.
    + exact Hf.
Qed.

(* ----------------------------------------------------------------- *)
(** *** Rewriting the tags of a block *)

Lemma total_mod8 bs : Forall size_ok bs -> total bs mod 8 = 0.
Proof.
  induction 1 as [|[sz al] r [_ H2] _ IH]; cbn [total fst] in *; [reflexivity|].
  rewrite Z.add_mod, H2, IH by lia. reflexivity.
Qed.

Lemma add_mod8 a b : a mod 8 = 0 -> b mod 8 = 0 -> (a + b) mod 8 = 0.
Proof. intros Ha Hb. rewrite Z.add_mod, Ha, Hb by lia. reflexivity. Qed.

Lemma sub_mod8 a b : a mod 8 = 0 -> b mod 8 = 0 -> (a - b) mod 8 = 0.
Proof. intros Ha Hb. rewrite Zminus_mod, Ha, Hb by lia. reflexivity. Qed.

Lemma in_layout_parts a0 bs1 a al mid bs2 e :
  In e (layout a0 (bs1 ++ (a, al) :: mid ++ bs2)) <->
  In e (layout a0 bs1) \/ e = (a0 + total bs1, a, al) \/
  In e (layout (a0 + total bs1 + a) mid) \/
  In e (layout (a0 + total bs1 + a + total mid) bs2).
Proof.
  rewrite layout_app. cbn [layout]. rewrite layout_app.
  rewrite in_app_iff. cbn [In]. rewrite in_app_iff.
  intuition auto.
Qed.

(** The two tag writes [PUT(HDRP(bp), PACK(size, a)); PUT(FTRP(bp),
    PACK(size, a))]: the footer address is computed from the header just
    written. *)
Lemma retag_run {B} m lo brk hi fl hl bp nsz a (k : M B) :
  lo <= bp - 4 -> bp + nsz - 4 <= brk ->
  8 <= nsz < 2 ^ 32 -> nsz mod 8 = 0 -> a = 0 \/ a = 1 ->
  bind (PUT (HDRP bp) (PACK nsz a))
    (fun _ => bind (FTRP bp) (fun f => bind (PUT f (PACK nsz a)) (fun _ => k)))
    (mkHeap m lo brk hi fl hl)
  = k (mkHeap (store32 (store32 m (bp - 4) (nsz + a)) (bp + nsz - 8) (nsz + a))
              lo brk hi fl hl).
Proof.
  intros Hlo Hhi Hn Hm Ha.
  assert (E : nsz + a = tag nsz (negb (a =? 0))) by (destruct Ha; subst a; reflexivity).
  unfold HDRP, FTRP, HDRP, WSIZE, DSIZE.
  rewrite PACK_add by (auto; lia).
  step. do 2 step. rewrite E.
  rewrite load32_store32 by (apply tag_range; lia).
  rewrite tag_size by lia. rewrite <- E.
  do 2 step. reflexivity.
Qed.

Lemma retag_Rep s bs1 a al mid bs2 fl al' :
  Rep s (bs1 ++ (a, al) :: mid ++ bs2) fl ->
  (forall n, In n fl ->
     ~ (mem_start_brk s + 16 + total bs1 + a <= n
        < mem_start_brk s + 16 + total bs1 + a + total mid)) ->
  Rep (mkHeap
         (store32 (store32 (mem s) (mem_start_brk s + 16 + total bs1 - 4)
                           (tag (a + total mid) al'))
                  (mem_start_brk s + 16 + total bs1 + (a + total mid) - 8)
                  (tag (a + total mid) al'))
         (mem_start_brk s) (mem_brk s) (mem_max_addr s) (firstlist s) (heap_listp s))
      (bs1 ++ (a + total mid, al') :: bs2) fl.
Proof.
  intros R Hmid. destruct s as [m lo brk hi f hl]. norm in Hmid. norm.
  pose proof (rep_sizes _ _ _ R) as Hs.
  apply size_ok_app in Hs as [Hs1 Hs]. inversion Hs as [|? ? [Ha1 Ha2] Hs']; subst.
  apply size_ok_app in Hs' as [Hsm Hs2]. cbn [fst] in *.
  pose proof (total_nonneg _ Hs1). pose proof (total_nonneg _ Hsm).
  pose proof (total_nonneg _ Hs2). pose proof (total_mod8 _ Hsm) as Hm8.
  pose proof (rep_brk _ _ _ R) as Hbrk. norm in Hbrk.
  rewrite total_app in Hbrk. cbn [total] in Hbrk. rewrite total_app in Hbrk.
  pose proof (rep_max _ _ _ R) as Hmax. pose proof (rep_small _ _ _ R) as Hsmall.
  pose proof (rep_lo _ _ _ R) as Hlo. norm in Hmax. norm in Hsmall. norm in Hlo.
  pose proof (add_mod8 _ _ Ha2 Hm8) as Hn8.
  pose proof (rep_tags _ _ _ R) as Ht. norm in Ht.
  rewrite layout_app in Ht. cbn [layout] in Ht. rewrite layout_app in Ht.
  apply Forall_app in Ht as [Ht1 Ht]. inversion Ht as [|? ? _ Ht']; subst.
  apply Forall_app in Ht' as [_ Ht2].
  set (bp := lo + 16 + total bs1) in *.
  set (nsz := a + total mid) in *.
  assert (Hfar : forall x, x < bp - 4 \/ bp + nsz - 4 <= x ->
            store32 (store32 m (bp - 4) (tag nsz al')) (bp + nsz - 8) (tag nsz al') x = m x).
  { intros x Hx. rewrite !store32_other by lia. reflexivity. }
  assert (Hnode : forall n, In n fl ->
            (exists sz al0, In (n, sz, al0) (layout (lo + 16) bs1)) \/ n = bp \/
            (exists sz al0, In (n, sz, al0) (layout (bp + nsz) bs2))).
  { intros n Hn. destruct (rep_nodes _ _ _ R n Hn) as [sz [al0 Hin]]. norm in Hin.
    apply in_layout_parts in Hin. fold bp in Hin.
    destruct Hin as [Hin|[E|[Hin|Hin]]].
    - left. eauto.
    - right. left. congruence.
    - exfalso. apply (Hmid n Hn).
      pose proof (layout_bounds _ _ _ _ _ Hsm Hin). lia.
    - right. right. exists sz, al0. replace (bp + nsz) with (bp + a + total mid) by lia.
      exact Hin. }
  constructor; norm.
  - exact Hlo.
  - apply (rep_listp _ _ _ R).
  - rewrite total_app. cbn [total]. lia.
  - exact Hmax.
  - exact Hsmall.
  - apply (rep_addr _ _ _ R).
  - rewrite <- (rep_pro_hdr _ _ _ R). norm. apply load32_ext. intros x Hx. apply Hfar. lia.
  - rewrite <- (rep_pro_ftr _ _ _ R). norm. apply load32_ext. intros x Hx. apply Hfar. lia.
  - rewrite <- (rep_epi _ _ _ R). norm. apply load32_ext. intros x Hx. apply Hfar. lia.
  - apply size_ok_app. split; [exact Hs1|]. constructor; [|exact Hs2].
    split; cbn [fst]; [lia|exact Hn8].
  - rewrite layout_app. cbn [layout]. apply Forall_app. split; [|constructor].
    + apply (tags_frame m); [exact Ht1|].
      intros x sz al0 y Hin Hy. apply Hfar.
      pose proof (layout_bounds _ _ _ _ _ Hs1 Hin). lia.
    + fold bp. unfold tags_at. split.
      * rewrite load32_store32_other by lia. apply load32_store32.
        apply tag_range; [lia|exact Hn8].
      * replace (bp + nsz - 8) with (bp + (a + total mid) - 8) by (unfold nsz; lia).
        apply load32_store32. apply tag_range; [unfold nsz in *; lia|exact Hn8].
    + fold bp. apply (tags_frame m).
      * replace (bp + nsz) with (bp + a + total mid) by (unfold nsz; lia). exact Ht2.
      * intros x sz al0 y Hin Hy. apply Hfar.
        pose proof (layout_bounds _ _ _ _ _ Hs2 Hin). lia.
  - apply (dseg_frame m); [apply (rep_index _ _ _ R)|].
    intros n y Hn Hy. destruct (Hnode n Hn) as [[sz [al0 Hin]]|[->|[sz [al0 Hin]]]].
    + pose proof (layout_bounds _ _ _ _ _ Hs1 Hin). apply Hfar. lia.
    + rewrite !store32_other by lia. reflexivity.
    + pose proof (layout_bounds _ _ _ _ _ Hs2 Hin). apply Hfar. lia.
  - apply (rep_first _ _ _ R).
  - apply (rep_nodup _ _ _ R).
  - intros n Hn. destruct (Hnode n Hn) as [[sz [al0 Hin]]|[->|[sz [al0 Hin]]]].
    + exists sz, al0. rewrite layout_app. apply in_or_app. left. exact Hin.
    + exists nsz, al'. apply layout_mid.
    + exists sz, al0. rewrite layout_app. apply in_or_app. right. right. exact Hin.
Qed.

(* ----------------------------------------------------------------- *)
(** *** Reading the neighbours of a block *)

Lemma size_of_tag m p sz al :
  load32 m p = tag sz al -> 0 <= sz < 2 ^ 32 -> sz mod 8 = 0 ->
  Z.land (load32 m p) size_mask = sz.
Proof. intros -> H1 H2. apply tag_size; assumption. Qed.

Lemma alloc_of_tag m p sz al :
  load32 m p = tag sz al -> sz mod 8 = 0 ->
  Z.land (load32 m p) 1 = b2z al.
Proof. intros -> H. apply tag_alloc; assumption. Qed.

Lemma bind_run {A B} (c : M A) (k : A -> M B) s a s' :
  c s = Ret a s' -> bind c k s = k a s'.
Proof. intros H. unfold bind. rewrite H. reflexivity. Qed.

Lemma in_remove_iff {A} (l1 : list A) x l2 y :
  NoDup (l1 ++ x :: l2) ->
  (In y (l1 ++ l2) <-> In y (l1 ++ x :: l2) /\ y <> x).
Proof.
  intros Hnd. pose proof (NoDup_remove_2 _ _ _ Hnd) as Hx.
  rewrite !in_app_iff. cbn [In]. split.
  - intros H. split; [tauto|]. intros ->. apply Hx. apply in_or_app. exact H.
  - intros [[H|[H|H]] Hne]; [tauto|congruence|tauto].
Qed.

Lemma remove_mid (l1 : list Z) x l2 :
  NoDup (l1 ++ x :: l2) -> remove Z.eq_dec x (l1 ++ x :: l2) = l1 ++ l2.
Proof.
  intros Hnd. pose proof (NoDup_remove_2 _ _ _ Hnd) as Hn.
  rewrite remove_app, remove_cons.
  rewrite !notin_remove; [reflexivity| |]; intros H; apply Hn, in_or_app; auto.
Qed.

Lemma prev_tags s bs1 b bs2 fl :
  Rep s (bs1 ++ b :: bs2) fl ->
  exists psz pal,
    last bs1 (8, true) = (psz, pal) /\
    load32 (mem s) (mem_start_brk s + 16 + total bs1 - 8) = tag psz pal /\
    load32 (mem s) (mem_start_brk s + 16 + total bs1 - psz - 4) = tag psz pal /\
    8 <= psz < 2 ^ 31 /\ psz mod 8 = 0 /\
    mem_start_brk s + 8 <= mem_start_brk s + 16 + total bs1 - psz.
Proof.
  intros R. destruct (snoc_cases bs1) as [->|[bs1' [[psz pal] ->]]].
  - exists 8, true. cbn [last total].
    replace (mem_start_brk s + 16 + 0 - 8) with (mem_start_brk s + 8) by lia.
    replace (mem_start_brk s + 8 - 4) with (mem_start_brk s + 4) by lia.
    repeat split; try lia; try reflexivity; apply R.
  - exists psz, pal. rewrite last_snoc.
    assert (Hin : In (mem_start_brk s + 16 + total bs1', psz, pal)
                     (layout (mem_start_brk s + 16) ((bs1' ++ [(psz, pal)]) ++ b :: bs2))).
    { rewrite <- app_assoc. apply layout_mid. }
    pose proof (Rep_entry _ _ _ _ _ _ R Hin) as He.
    pose proof (layout_bounds _ _ _ _ _ (rep_sizes _ _ _ R) Hin) as Hb.
    rewrite total_app. cbn [total].
    replace (mem_start_brk s + 16 + (total bs1' + (psz + 0)) - 8)
      with (mem_start_brk s + 16 + total bs1' + psz - 8) by lia.
    replace (mem_start_brk s + 16 + (total bs1' + (psz + 0)) - psz - 4)
      with (mem_start_brk s + 16 + total bs1' - 4) by lia.
    repeat split; try lia; try reflexivity; apply He.
Qed.

Lemma next_tag s bs1 sz al bs2 fl :
  Rep s (bs1 ++ (sz, al) :: bs2) fl ->
  exists nsz nal,
    hd (0, true) bs2 = (nsz, nal) /\
    load32 (mem s) (mem_start_brk s + 16 + total bs1 + sz - 4) = tag nsz nal /\
    0 <= nsz < 2 ^ 31 /\ nsz mod 8 = 0.
Proof.
  intros R. destruct bs2 as [|[nsz nal] bs2'].
  - exists 0, true. cbn [hd]. pose proof (rep_epi _ _ _ R) as He.
    pose proof (rep_brk _ _ _ R) as Hb. rewrite total_app in Hb. cbn [total] in Hb.
    replace (mem_start_brk s + 16 + total bs1 + sz - 4) with (mem_brk s - 4) by lia.
    repeat split; try lia; try reflexivity; exact He.
  - exists nsz, nal. cbn [hd].
    assert (Hin : In (mem_start_brk s + 16 + total (bs1 ++ [(sz, al)]), nsz, nal)
                     (layout (mem_start_brk s + 16) ((bs1 ++ [(sz, al)]) ++ (nsz, nal) :: bs2'))).
    { apply layout_mid. }
    rewrite <- app_assoc in Hin. cbn [app] in Hin.
    pose proof (Rep_entry _ _ _ _ _ _ R Hin) as He.
    rewrite total_app in He. cbn [total] in He.
    replace (mem_start_brk s + 16 + (total bs1 + (sz + 0)) - 4)
      with (mem_start_brk s + 16 + total bs1 + sz - 4) in He by lia.
    repeat split; try lia; try reflexivity; apply He.
Qed.

Lemma last_flags bs : last (flags bs) true = snd (last bs (8, true)).
Proof.
  induction bs as [|b [|c r] IH]; [reflexivity|reflexivity|].
  change (flags (b :: c :: r)) with (snd b :: flags (c :: r)).
  change (last (b :: c :: r) (8, true)) with (last (c :: r) (8, true)).
  rewrite <- IH. reflexivity.
Qed.

Lemma hd_flags bs : hd true (flags bs) = snd (hd (0, true) bs).
Proof. destruct bs; reflexivity. Qed.

Lemma flags_app bs1 bs2 : flags (bs1 ++ bs2) = flags bs1 ++ flags bs2.
Proof. apply map_app. Qed.

(** A block with allocated neighbours on both sides (sentinels count as
    allocated) creates no pair of free neighbours. *)
Lemma adjacent_free_insert bs1 b bs2 :
  adjacent_free (flags bs1) = false ->
  adjacent_free (flags bs2) = false ->
  snd (last bs1 (8, true)) = true ->
  snd (hd (0, true) bs2) = true ->
  adjacent_free (flags (bs1 ++ b :: bs2)) = false.
Proof.
  intros H1 H2 Hl Hh. rewrite flags_app. cbn [flags map].
  rewrite adjacent_free_app, adjacent_free_cons.
  fold (flags bs2). rewrite H1, H2, last_flags, Hl, hd_flags, Hh.
  cbn [hd]. destruct (snd b); reflexivity.
Qed.

Lemma adjacent_free_snoc_inv bs p :
  adjacent_free (flags (bs ++ [(p, false)])) = false ->
  adjacent_free (flags bs) = false /\ snd (last bs (8, true)) = true.
Proof.
  rewrite flags_app, adjacent_free_app, last_flags.
  generalize (adjacent_free (flags bs)) (snd (last bs (8, true))).
  intros x y. destruct x, y; cbn; intros H; try discriminate; auto.
Qed.

Lemma adjacent_free_cons_inv bs n :
  adjacent_free (flags ((n, false) :: bs)) = false ->
  adjacent_free (flags bs) = false /\ snd (hd (0, true) bs) = true.
Proof.
  cbn [flags map]. rewrite adjacent_free_cons. fold (flags bs). rewrite hd_flags.
  generalize (adjacent_free (flags bs)) (snd (hd (0, true) bs)).
  intros x y. destruct x, y; cbn; intros H; try discriminate; auto.
Qed.

(* ----------------------------------------------------------------- *)
(** *** Coalescing *)

(** Replace a size or flag read from a tag by its value. *)
Ltac read_size :=
  match goal with
  | |- context [Z.land (load32 ?m ?p) size_mask] =>
    match goal with
    | H : load32 m ?q = tag ?sz ?al |- _ =>
      replace (Z.land (load32 m p) size_mask) with sz
        by (symmetry; replace p with q by lia; apply (size_of_tag _ _ _ _ H); lia)
    end
  end.

Ltac read_alloc :=
  match goal with
  | |- context [Z.land (load32 ?m ?p) 1] =>
    match goal with
    | H : load32 m ?q = tag ?sz ?al |- _ =>
      replace (Z.land (load32 m p) 1) with (b2z al)
        by (symmetry; replace p with q by lia; apply (alloc_of_tag _ _ _ _ H); lia)
    end
  end.

Ltac steps := repeat step.

(** Bytes of a block that is not one of the nodes [N] are away from the
    link fields of all of them. *)
Lemma extent_off_nodes s bs fl a sz al (N : list Z) x :
  Rep s bs fl ->
  In (a, sz, al) (layout (mem_start_brk s + 16) bs) ->
  (forall n, In n N -> exists sz al, In (n, sz, al) (layout (mem_start_brk s + 16) bs)) ->
  ~ In a N ->
  a - 4 <= x < a + sz - 4 ->
  forall n, In n N -> x < n \/ n + 16 <= x.
Proof.
  intros R Ha HN Hfresh Hx n Hn. destruct (HN n Hn) as [szn [aln Hin]].
  pose proof (Rep_entry _ _ _ _ _ _ R Hin).
  destruct (entries_sep _ _ _ _ _ _ _ _ _ R Ha Hin) as [[-> _]|?]; [contradiction|lia].
Qed.

Lemma entry_unique s bs fl a s1 a1 s2 a2 :
  Rep s bs fl ->
  In (a, s1, a1) (layout (mem_start_brk s + 16) bs) ->
  In (a, s2, a2) (layout (mem_start_brk s + 16) bs) ->
  s1 = s2 /\ a1 = a2.
Proof.
  intros R H1 H2. pose proof (Rep_entry _ _ _ _ _ _ R H1).
  pose proof (Rep_entry _ _ _ _ _ _ R H2).
  destruct (entries_sep _ _ _ _ _ _ _ _ _ R H1 H2) as [[_ ?]|?]; [assumption|lia].
Qed.

Lemma coalesce_alloc_alloc s bs1 sz bs2 fl :
  Fresh s bs1 sz bs2 fl ->
  snd (last bs1 (8, true)) = true -> snd (hd (0, true) bs2) = true ->
  exists s',
    (listInsert (mem_start_brk s + 16 + total bs1) ;; ret (mem_start_brk s + 16 + total bs1)) s
      = Ret (mem_start_brk s + 16 + total bs1) s' /\
    coalesced s (bs1 ++ (sz, false) :: bs2) sz (mem_start_brk s + 16 + total bs1) s' /\
    Rep s' (bs1 ++ (sz, false) :: bs2) (mem_start_brk s + 16 + total bs1 :: fl).
Proof.
  intros [R [Hfresh [Hidx [Hadj1 Hadj2]]]] Hl Hh.
  pose proof (layout_mid (mem_start_brk s + 16) bs1 sz false bs2) as Hbp.
  destruct (listInsert_Rep _ _ _ _ _ R Hbp Hfresh) as [s' [Hrun [R' [Hsame Hframe]]]].
  exists s'. split; [rewrite (bind_run _ _ _ _ _ Hrun); reflexivity|].
  split; [|exact R'].
  destruct Hsame as [Elo [Ebrk [Ehi Ehl]]].
  exists (bs1 ++ (sz, false) :: bs2), (mem_start_brk s + 16 + total bs1 :: fl).
  split; [exact R'|]. split; [|split; [|split; [|split]]].
  - intros a sz' al Hin. rewrite Elo in Hin. cbn [In].
    destruct (Z.eq_dec a (mem_start_brk s + 16 + total bs1)) as [->|Hne].
    + destruct (entry_unique _ _ _ _ _ _ _ _ R Hin Hbp) as [_ ->]. tauto.
    + rewrite <- (Hidx a sz' al Hin Hne). split; [intros [E|H]; [congruence|exact H]|auto].
  - apply adjacent_free_insert; assumption.
  - repeat split; assumption.
  - exists sz. rewrite Elo. split; [exact Hbp|lia].
  - intros a sz' Hin. rewrite Elo. split; [exact Hin|].
    intros x Hx. apply Hframe.
    assert (Hne : a <> mem_start_brk s + 16 + total bs1).
    { intros ->. destruct (entry_unique _ _ _ _ _ _ _ _ R Hin Hbp) as [_ E]. discriminate. }
    apply (extent_off_nodes s _ fl a sz' true _ x R Hin).
    + intros n [<-|Hn]; [eauto|apply (rep_nodes _ _ _ R n Hn)].
    + intros [E|Hn]; [congruence|].
      apply (Hidx a sz' true Hin Hne) in Hn. discriminate.
    + lia.
Qed.

(** The code sequence that rewrites the tags of the block after [bs1],
    giving it the size of itself and of the blocks [mid] behind it. *)
Lemma retag_step {B} s bs1 a al mid bs2 fl (al' : bool) (k : M B) :
  Rep s (bs1 ++ (a, al) :: mid ++ bs2) fl ->
  (forall n, In n fl ->
     ~ (mem_start_brk s + 16 + total bs1 + a <= n
        < mem_start_brk s + 16 + total bs1 + a + total mid)) ->
  exists s',
    bind (PUT (HDRP (mem_start_brk s + 16 + total bs1)) (PACK (a + total mid) (b2z al')))
      (fun _ => bind (FTRP (mem_start_brk s + 16 + total bs1))
         (fun f => bind (PUT f (PACK (a + total mid) (b2z al'))) (fun _ => k))) s
    = k s' /\
    Rep s' (bs1 ++ (a + total mid, al') :: bs2) fl /\
    same_arena s s' /\ firstlist s' = firstlist s /\
    (forall x, x < mem_start_brk s + 16 + total bs1 - 4 \/
               mem_start_brk s + 16 + total bs1 <= x
                 < mem_start_brk s + 16 + total bs1 + (a + total mid) - 8 \/
               mem_start_brk s + 16 + total bs1 + (a + total mid) - 4 <= x ->
               mem s' x = mem s x).
Proof.
  intros R Hmid.
  pose proof (retag_Rep _ _ _ _ _ _ _ al' R Hmid) as R'.
  pose proof (rep_sizes _ _ _ R) as Hs.
  apply size_ok_app in Hs as [Hs1 Hs]. inversion Hs as [|? ? [Ha1 Ha2] Hs']; subst.
  apply size_ok_app in Hs' as [Hsm Hs2]. cbn [fst] in *.
  pose proof (total_nonneg _ Hs1). pose proof (total_nonneg _ Hsm).
  pose proof (total_nonneg _ Hs2). pose proof (total_mod8 _ Hsm) as Hm8.
  pose proof (rep_brk _ _ _ R) as Hbrk.
  rewrite total_app in Hbrk. cbn [total] in Hbrk. rewrite total_app in Hbrk.
  pose proof (rep_max _ _ _ R) as Hmax. pose proof (rep_small _ _ _ R) as Hsmall.
  pose proof (rep_lo _ _ _ R) as Hlo.
  destruct s as [m lo brk hi f hl]. norm in *.
  eexists. split; [|split; [exact R'|split; [|split]]].
  - rewrite retag_run; [reflexivity|lia|lia|lia|apply add_mod8; assumption|destruct al'; auto].
  - repeat split.
  - reflexivity.
  - intros x Hx. norm. rewrite !store32_other by lia. reflexivity.
Qed.

Lemma u32_small x : 0 <= x < 2 ^ 32 -> u32 x = x.
Proof. apply Z.mod_small. Qed.

(** Case 3 of [coalesce]: the predecessor is free, the successor is not. *)
Lemma coalesce_free_alloc s bs1 psz sz bs2 fl :
  Fresh s (bs1 ++ [(psz, false)]) sz bs2 fl ->
  snd (hd (0, true) bs2) = true ->
  exists s',
    (PUT (HDRP (mem_start_brk s + 16 + total bs1)) (PACK (u32 (sz + psz)) 0) ;;
     f <- FTRP (mem_start_brk s + 16 + total bs1) ;;
     PUT f (PACK (u32 (sz + psz)) 0) ;;
     ret (mem_start_brk s + 16 + total bs1)) s
    = Ret (mem_start_brk s + 16 + total bs1) s' /\
    coalesced s ((bs1 ++ [(psz, false)]) ++ (sz, false) :: bs2) sz
              (mem_start_brk s + 16 + total bs1) s' /\
    Rep s' (bs1 ++ (psz + sz, false) :: bs2) fl.
Proof.
  intros [R [Hfresh [Hidx [Hadj1 Hadj2]]]] Hh.
  rewrite <- app_assoc in R, Hidx. cbn [app] in R, Hidx.
  rewrite total_app in Hfresh, Hidx. cbn [total] in Hfresh, Hidx.
  rewrite <- app_assoc. cbn [app].
  replace (mem_start_brk s + 16 + (total bs1 + (psz + 0)))
    with (mem_start_brk s + 16 + total bs1 + psz) in Hfresh, Hidx by lia.
  set (lo := mem_start_brk s) in *. set (pb := lo + 16 + total bs1) in *.
  assert (Hold : forall e, In e (layout (lo + 16) (bs1 ++ (psz, false) :: (sz, false) :: bs2)) <->
            In e (layout (lo + 16) bs1) \/ e = (pb, psz, false) \/
            e = (pb + psz, sz, false) \/ In e (layout (pb + psz + sz) bs2)).
  { intros e. change ((sz, false) :: bs2) with ([(sz, false)] ++ bs2).
    rewrite in_layout_parts. fold pb. cbn [layout In total].
    rewrite Z.add_0_r. intuition (auto; congruence). }
  assert (Hnew : forall e, In e (layout (lo + 16) (bs1 ++ (psz + sz, false) :: bs2)) <->
            In e (layout (lo + 16) bs1) \/ e = (pb, psz + sz, false) \/
            In e (layout (pb + psz + sz) bs2)).
  { intros e. rewrite layout_app. cbn [layout]. rewrite in_app_iff. cbn [In]. fold pb.
    replace (pb + (psz + sz)) with (pb + psz + sz) by lia. intuition auto. }
  pose proof (rep_sizes _ _ _ R) as Hs.
  apply size_ok_app in Hs as [Hs1 Hs]. inversion Hs as [|? ? [Hp1 Hp2] Hs']; subst.
  inversion Hs' as [|? ? [Hz1 Hz2] Hs2]; subst. cbn [fst] in *.
  pose proof (rep_brk _ _ _ R) as Hbrk. rewrite total_app in Hbrk. cbn [total app] in Hbrk.
  pose proof (total_nonneg _ Hs1). pose proof (total_nonneg _ Hs2).
  pose proof (rep_max _ _ _ R) as Hmax. pose proof (rep_small _ _ _ R) as Hsmall.
  pose proof (rep_lo _ _ _ R) as Hlo.
  fold lo in Hbrk, Hsmall, Hlo.
  change ((sz, false) :: bs2) with ([(sz, false)] ++ bs2) in R.
  destruct (retag_step (B := Z) s bs1 psz false [(sz, false)] bs2 fl false (ret pb) R)
    as [s' [Hrun [R' [Hsame [Hfirst Hframe]]]]].
  { fold lo pb. cbn [total]. intros n Hn Hr.
    destruct (rep_nodes _ _ _ R n Hn) as [szn [aln Hin]]. cbn [app] in Hin. fold lo in Hin.
    pose proof (proj1 (Hold _) Hin) as Hc.
    assert (n = pb + psz).
    { destruct Hc as [Hc|[Hc|[Hc|Hc]]].
      - pose proof (layout_bounds _ _ _ _ _ Hs1 Hc). lia.
      - injection Hc as -> _ _. lia.
      - injection Hc as -> _ _. reflexivity.
      - pose proof (layout_bounds _ _ _ _ _ Hs2 Hc). lia. }
    subst n. exact (Hfresh Hn). }
  cbn [app] in R.
  fold lo pb in Hrun, Hframe. cbn [total] in Hrun, R', Hframe.
  replace (psz + (sz + 0)) with (psz + sz) in Hrun, R', Hframe by lia.
  exists s'. split; [|split; [|exact R']].
  - rewrite u32_small by lia. replace (sz + psz) with (psz + sz) by lia. exact Hrun.
  - destruct Hsame as [Elo [Ebrk [Ehi Ehl]]].
    exists (bs1 ++ (psz + sz, false) :: bs2), fl.
    apply adjacent_free_snoc_inv in Hadj1 as [Hadj1 Hl].
    split; [exact R'|]. split; [|split; [|split; [|split]]].
    + intros a sz' al Hin. rewrite Elo in Hin. fold lo in Hin. apply Hnew in Hin.
      destruct Hin as [Hin|[E|Hin]].
      * pose proof (layout_bounds _ _ _ _ _ Hs1 Hin).
        apply (Hidx a sz' al); [apply Hold; auto|lia].
      * injection E as -> _ ->.
        apply (Hidx pb psz false); [apply Hold; auto|lia].
      * pose proof (layout_bounds _ _ _ _ _ Hs2 Hin).
        apply (Hidx a sz' al); [apply Hold; auto|lia].
    + apply adjacent_free_insert; assumption.
    + repeat split; assumption.
    + exists (psz + sz). rewrite Elo. fold lo. split; [apply Hnew; auto|lia].
    + intros a sz' Hin. rewrite Elo. fold lo in Hin |- *. apply Hold in Hin.
      destruct Hin as [Hin|[E|[E|Hin]]]; try discriminate.
      * pose proof (layout_bounds _ _ _ _ _ Hs1 Hin).
        split; [apply Hnew; auto|]. intros x Hx. apply Hframe. lia.
      * pose proof (layout_bounds _ _ _ _ _ Hs2 Hin).
        split; [apply Hnew; auto|]. intros x Hx. apply Hframe. lia.
Qed.

(* ----------------------------------------------------------------- *)
(** *** Navigation in a represented heap *)

Lemma Rep_in_arena s bs fl p n :
  Rep s bs fl -> mem_start_brk s <= p -> p + n <= mem_brk s -> in_arena s p n = true.
Proof. intros _ H1 H2. apply in_arena_iff. lia. Qed.

Lemma run_GET_SIZE_hdr {B} s bs fl a sz al (k : Z -> M B) :
  Rep s bs fl -> In (a, sz, al) (layout (mem_start_brk s + 16) bs) ->
  bind (GET_SIZE (HDRP a)) k s = k sz s.
Proof.
  intros R Hin. pose proof (Rep_entry _ _ _ _ _ _ R Hin) as He.
  unfold HDRP, WSIZE. rewrite bind_GET_SIZE by (apply (Rep_in_arena _ _ _ _ _ R); lia).
  rewrite (size_of_tag _ _ sz al) by (try apply He; lia). reflexivity.
Qed.

Lemma run_NEXT_BLKP {B} s bs fl a sz al (k : Z -> M B) :
  Rep s bs fl -> In (a, sz, al) (layout (mem_start_brk s + 16) bs) ->
  bind (NEXT_BLKP a) k s = k (a + sz) s.
Proof.
  intros R Hin. unfold NEXT_BLKP. rewrite bind_assoc.
  change (a - WSIZE) with (HDRP a).
  rewrite (run_GET_SIZE_hdr _ _ _ _ _ _ _ R Hin). reflexivity.
Qed.

Lemma run_FTRP {B} s bs fl a sz al (k : Z -> M B) :
  Rep s bs fl -> In (a, sz, al) (layout (mem_start_brk s + 16) bs) ->
  bind (FTRP a) k s = k (a + sz - 8) s.
Proof.
  intros R Hin. unfold FTRP. rewrite bind_assoc.
  rewrite (run_GET_SIZE_hdr _ _ _ _ _ _ _ R Hin). reflexivity.
Qed.

Lemma run_PREV_BLKP {B} s bs1 b bs2 fl psz pal (k : Z -> M B) :
  Rep s (bs1 ++ b :: bs2) fl -> last bs1 (8, true) = (psz, pal) ->
  bind (PREV_BLKP (mem_start_brk s + 16 + total bs1)) k s
  = k (mem_start_brk s + 16 + total bs1 - psz) s.
Proof.
  intros R Hl.
  destruct (prev_tags _ _ _ _ _ R) as [psz' [pal' [Hl' [Hf [_ [Hr [H8 Hlo]]]]]]].
  rewrite Hl in Hl'. injection Hl' as <- <-.
  pose proof (rep_brk _ _ _ R) as Hb. rewrite total_app in Hb.
  pose proof (rep_sizes _ _ _ R) as Hs. apply size_ok_app in Hs as [Hs1 Hs2].
  pose proof (total_nonneg _ Hs1). pose proof (total_nonneg _ Hs2).
  unfold PREV_BLKP, DSIZE. rewrite bind_assoc.
  rewrite bind_GET_SIZE by (apply (Rep_in_arena _ _ _ _ _ R); lia).
  rewrite (size_of_tag _ _ psz pal) by (try exact Hf; lia). reflexivity.
Qed.

(** Case 2 of [coalesce]: the predecessor is allocated, the successor is
    free. *)
Lemma coalesce_alloc_free s bs1 sz nsz bs2 fl :
  Fresh s bs1 sz ((nsz, false) :: bs2) fl ->
  snd (last bs1 (8, true)) = true ->
  exists s',
    (listRemove (mem_start_brk s + 16 + total bs1 + sz) ;;
     PUT (HDRP (mem_start_brk s + 16 + total bs1)) (PACK (u32 (sz + nsz)) 0) ;;
     f <- FTRP (mem_start_brk s + 16 + total bs1) ;;
     PUT f (PACK (u32 (sz + nsz)) 0) ;;
     listInsert (mem_start_brk s + 16 + total bs1) ;;
     ret (mem_start_brk s + 16 + total bs1)) s
    = Ret (mem_start_brk s + 16 + total bs1) s' /\
    coalesced s (bs1 ++ (sz, false) :: (nsz, false) :: bs2) sz
              (mem_start_brk s + 16 + total bs1) s' /\
    Rep s' (bs1 ++ (sz + nsz, false) :: bs2)
        (mem_start_brk s + 16 + total bs1
           :: remove Z.eq_dec (mem_start_brk s + 16 + total bs1 + sz) fl).
Proof.
  intros [R [Hfresh [Hidx [Hadj1 Hadj2]]]] Hl.
  set (lo := mem_start_brk s) in *. set (bp := lo + 16 + total bs1) in *.
  assert (Hold : forall e, In e (layout (lo + 16) (bs1 ++ (sz, false) :: (nsz, false) :: bs2)) <->
            In e (layout (lo + 16) bs1) \/ e = (bp, sz, false) \/
            e = (bp + sz, nsz, false) \/ In e (layout (bp + sz + nsz) bs2)).
  { intros e. change ((nsz, false) :: bs2) with ([(nsz, false)] ++ bs2).
    rewrite in_layout_parts. fold bp. cbn [layout In total].
    rewrite Z.add_0_r. intuition (auto; congruence). }
  assert (Hnew : forall e, In e (layout (lo + 16) (bs1 ++ (sz + nsz, false) :: bs2)) <->
            In e (layout (lo + 16) bs1) \/ e = (bp, sz + nsz, false) \/
            In e (layout (bp + sz + nsz) bs2)).
  { intros e. rewrite layout_app. cbn [layout]. rewrite in_app_iff. cbn [In]. fold bp.
    replace (bp + (sz + nsz)) with (bp + sz + nsz) by lia. intuition auto. }
  pose proof (rep_sizes _ _ _ R) as Hs.
  apply size_ok_app in Hs as [Hs1 Hs]. inversion Hs as [|? ? [Hz1 Hz2] Hs']; subst.
  inversion Hs' as [|? ? [Hn1 Hn2] Hs2]; subst. cbn [fst] in *.
  pose proof (rep_brk _ _ _ R) as Hbrk. rewrite total_app in Hbrk. cbn [total app] in Hbrk.
  pose proof (total_nonneg _ Hs1). pose proof (total_nonneg _ Hs2).
  pose proof (rep_max _ _ _ R) as Hmax. pose proof (rep_small _ _ _ R) as Hsmall.
  pose proof (rep_lo _ _ _ R) as Hlo.
  fold lo in Hbrk, Hsmall, Hlo.
  assert (Hnb : In (bp + sz) fl).
  { apply (Hidx (bp + sz) nsz false); [apply Hold; auto|lia|reflexivity]. }
  destruct (in_split _ _ Hnb) as [l1 [l2 ->]].
  pose proof (rep_nodup _ _ _ R) as Hnd.
  assert (Hwhere : forall n, In n (l1 ++ bp + sz :: l2) -> n <> bp + sz ->
            n + 24 <= bp \/ bp + sz + nsz <= n).
  { intros n Hn Hne. destruct (rep_nodes _ _ _ R n Hn) as [szn [aln Hin]].
    fold lo in Hin. apply Hold in Hin. destruct Hin as [Hc|[Hc|[Hc|Hc]]].
    - pose proof (layout_bounds _ _ _ _ _ Hs1 Hc). lia.
    - injection Hc as -> _ _. contradiction.
    - injection Hc as -> _ _. contradiction.
    - pose proof (layout_bounds _ _ _ _ _ Hs2 Hc). lia. }
  destruct (listRemove_Rep _ _ _ _ _ R) as [s1 [Hrun1 [R1 [[Elo1 [Ebrk1 [Ehi1 Ehl1]]] Hf1]]]].
  change ((nsz, false) :: bs2) with ([(nsz, false)] ++ bs2) in R1.
  destruct (retag_step (B := Z) s1 bs1 sz false [(nsz, false)] bs2 (l1 ++ l2) false
              (listInsert bp ;; ret bp) R1)
    as [s2 [Hrun2 [R2 [[Elo2 [Ebrk2 [Ehi2 Ehl2]]] [Hfirst2 Hf2]]]]].
  { rewrite Elo1. fold lo bp. cbn [total]. intros n Hn Hr.
    apply (in_remove_iff _ _ _ _ Hnd) in Hn as [Hn Hne].
    specialize (Hwhere n Hn Hne). lia. }
  rewrite Elo1 in Hrun2, Hf2. fold lo bp in Hrun2, Hf2. cbn [total] in Hrun2, R2, Hf2.
  replace (sz + (nsz + 0)) with (sz + nsz) in Hrun2, R2, Hf2 by lia.
  assert (Hbp2 : In (bp, sz + nsz, false) (layout (mem_start_brk s2 + 16) (bs1 ++ (sz + nsz, false) :: bs2))).
  { rewrite Elo2, Elo1. fold lo. apply Hnew. auto. }
  assert (Hfresh2 : ~ In bp (l1 ++ l2)).
  { intros Hn. apply (in_remove_iff _ _ _ _ Hnd) in Hn as [Hn _]. exact (Hfresh Hn). }
  destruct (listInsert_Rep _ _ _ _ _ R2 Hbp2 Hfresh2)
    as [s3 [Hrun3 [R3 [[Elo3 [Ebrk3 [Ehi3 Ehl3]]] Hf3]]]].
  assert (Elo : mem_start_brk s3 = lo) by (rewrite Elo3, Elo2, Elo1; reflexivity).
  exists s3. split; [|split; [|fold bp; rewrite (remove_mid _ _ _ Hnd); exact R3]].
  - rewrite (bind_run _ _ _ _ _ Hrun1). rewrite u32_small by lia.
    change (PACK (sz + nsz) 0) with (PACK (sz + nsz) (b2z false)).
    rewrite Hrun2. rewrite (bind_run _ _ _ _ _ Hrun3). reflexivity.
  - exists (bs1 ++ (sz + nsz, false) :: bs2), (bp :: l1 ++ l2).
    apply adjacent_free_cons_inv in Hadj2 as [Hadj2 Hh].
    assert (Hmem : forall a, a <> bp -> a <> bp + sz ->
              (In a (bp :: l1 ++ l2) <-> In a (l1 ++ bp + sz :: l2))).
    { intros a H1 H2. cbn [In]. rewrite (in_remove_iff _ _ _ _ Hnd). intuition congruence. }
    split; [exact R3|]. split; [|split; [|split; [|split]]].
    + intros a sz' al Hin. rewrite Elo in Hin. apply Hnew in Hin.
      destruct Hin as [Hin|[E|Hin]].
      * pose proof (layout_bounds _ _ _ _ _ Hs1 Hin).
        rewrite Hmem by lia. apply (Hidx a sz' al); [apply Hold; auto|lia].
      * injection E as -> _ ->. cbn [In]. intuition auto.
      * pose proof (layout_bounds _ _ _ _ _ Hs2 Hin).
        rewrite Hmem by lia. apply (Hidx a sz' al); [apply Hold; auto|lia].
    + apply adjacent_free_insert; assumption.
    + unfold same_arena. rewrite Elo3, Elo2, Elo1, Ebrk3, Ebrk2, Ebrk1,
        Ehi3, Ehi2, Ehi1, Ehl3, Ehl2, Ehl1. auto.
    + exists (sz + nsz). rewrite Elo. split; [apply Hnew; auto|lia].
    + intros a sz' Hin. rewrite Elo. fold lo in Hin.
      assert (Hin' := Hin). apply Hold in Hin'.
      assert (Hpos : a + sz' <= bp \/ bp + sz + nsz <= a).
      { destruct Hin' as [Hc|[E|[E|Hc]]]; try discriminate.
        - pose proof (layout_bounds _ _ _ _ _ Hs1 Hc). lia.
        - pose proof (layout_bounds _ _ _ _ _ Hs2 Hc). lia. }
      pose proof (Rep_entry _ _ _ _ _ _ R Hin) as He.
      assert (Hnotin : ~ In a (l1 ++ bp + sz :: l2)).
      { intros Hn. apply (Hidx a sz' true Hin) in Hn; [discriminate|lia]. }
      split.
      * apply Hnew. destruct Hin' as [Hc|[E|[E|Hc]]]; try discriminate; auto.
      * intros x Hx.
        rewrite Hf3, Hf2, Hf1; [reflexivity| | |].
        -- apply (extent_off_nodes s _ _ a sz' true _ x R Hin);
             [apply (rep_nodes _ _ _ R)|exact Hnotin|lia].
        -- lia.
        -- intros n [<-|Hn]; [lia|].
           apply (in_remove_iff _ _ _ _ Hnd) in Hn as [Hn Hne].
           apply (extent_off_nodes s _ _ a sz' true _ x R Hin (rep_nodes _ _ _ R) Hnotin);
             [lia|exact Hn].
Qed.

(** Case 4 of [coalesce]: predecessor and successor are both free. *)
Lemma coalesce_free_free s bs1 psz sz nsz bs2 fl :
  Fresh s (bs1 ++ [(psz, false)]) sz ((nsz, false) :: bs2) fl ->
  exists s',
    (nb1 <- NEXT_BLKP (mem_start_brk s + 16 + total (bs1 ++ [(psz, false)])) ;;
     listRemove nb1 ;;
     pb1 <- PREV_BLKP (mem_start_brk s + 16 + total (bs1 ++ [(psz, false)])) ;;
     listRemove pb1 ;;
     pb2 <- PREV_BLKP (mem_start_brk s + 16 + total (bs1 ++ [(psz, false)])) ;;
     listInsert pb2 ;;
     PUT (HDRP pb2) (PACK (u32 (sz + psz + nsz)) 0) ;;
     f <- FTRP pb2 ;;
     PUT f (PACK (u32 (sz + psz + nsz)) 0) ;;
     ret pb2) s
    = Ret (mem_start_brk s + 16 + total bs1) s' /\
    coalesced s ((bs1 ++ [(psz, false)]) ++ (sz, false) :: (nsz, false) :: bs2) sz
              (mem_start_brk s + 16 + total bs1) s' /\
    Rep s' (bs1 ++ (psz + sz + nsz, false) :: bs2)
        (mem_start_brk s + 16 + total bs1
           :: remove Z.eq_dec (mem_start_brk s + 16 + total bs1)
                (remove Z.eq_dec (mem_start_brk s + 16 + total bs1 + psz + sz) fl)).
Proof.
  intros [R [Hfresh [Hidx [Hadj1 Hadj2]]]].
  assert (Et : forall l, l + 16 + total (bs1 ++ [(psz, false)]) = l + 16 + total bs1 + psz)
    by (intros l; rewrite total_app; cbn [total]; lia).
  rewrite Et in Hfresh, Hidx.
  set (lo := mem_start_brk s) in *. set (pb := lo + 16 + total bs1) in *.
  set (bs := (bs1 ++ [(psz, false)]) ++ (sz, false) :: (nsz, false) :: bs2) in *.
  assert (Ebs : bs = bs1 ++ (psz, false) :: [(sz, false); (nsz, false)] ++ bs2)
    by (unfold bs; rewrite <- app_assoc; reflexivity).
  assert (Hold : forall e, In e (layout (lo + 16) bs) <->
            In e (layout (lo + 16) bs1) \/ e = (pb, psz, false) \/
            e = (pb + psz, sz, false) \/ e = (pb + psz + sz, nsz, false) \/
            In e (layout (pb + psz + sz + nsz) bs2)).
  { intros e. rewrite Ebs, in_layout_parts. fold pb. cbn [layout In total].
    replace (pb + psz + (sz + (nsz + 0))) with (pb + psz + sz + nsz) by lia.
    intuition (auto; congruence). }
  assert (Hnew : forall e, In e (layout (lo + 16) (bs1 ++ (psz + sz + nsz, false) :: bs2)) <->
            In e (layout (lo + 16) bs1) \/ e = (pb, psz + sz + nsz, false) \/
            In e (layout (pb + psz + sz + nsz) bs2)).
  { intros e. rewrite layout_app. cbn [layout]. rewrite in_app_iff. cbn [In]. fold pb.
    replace (pb + (psz + sz + nsz)) with (pb + psz + sz + nsz) by lia. intuition auto. }
  pose proof (rep_sizes _ _ _ R) as Hs. rewrite Ebs in Hs.
  apply size_ok_app in Hs as [Hs1 Hs]. inversion Hs as [|? ? [Hp1 Hp2] Hs']; subst.
  inversion Hs' as [|? ? [Hz1 Hz2] Hs'']; subst.
  inversion Hs'' as [|? ? [Hn1 Hn2] Hs2]; subst. cbn [fst] in *.
  pose proof (rep_brk _ _ _ R) as Hbrk. rewrite Ebs, total_app in Hbrk. cbn [total app] in Hbrk.
  pose proof (total_nonneg _ Hs1). pose proof (total_nonneg _ Hs2).
  pose proof (rep_max _ _ _ R) as Hmax. pose proof (rep_small _ _ _ R) as Hsmall.
  pose proof (rep_lo _ _ _ R) as Hlo.
  fold lo in Hbrk, Hsmall, Hlo.
  assert (Hbp : In (pb + psz, sz, false) (layout (lo + 16) bs)) by (apply Hold; auto).
  assert (Hpb : In (pb, psz, false) (layout (lo + 16) bs)) by (apply Hold; auto).
  assert (Hnb : In (pb + psz + sz) fl).
  { apply (Hidx (pb + psz + sz) nsz false); [apply Hold; auto 6|lia|reflexivity]. }
  assert (Hpbin : In pb fl).
  { apply (Hidx pb psz false); [apply Hold; auto|lia|reflexivity]. }
  pose proof (rep_nodup _ _ _ R) as Hnd.
  assert (Hwhere : forall n, In n fl -> n <> pb -> n <> pb + psz + sz ->
            n + 24 <= pb \/ pb + psz + sz + nsz <= n).
  { intros n Hn Hne1 Hne2. destruct (rep_nodes _ _ _ R n Hn) as [szn [aln Hin]].
    fold lo in Hin. apply Hold in Hin. destruct Hin as [Hc|[Hc|[Hc|[Hc|Hc]]]].
    - pose proof (layout_bounds _ _ _ _ _ Hs1 Hc). lia.
    - injection Hc as -> _ _. contradiction.
    - injection Hc as -> _ _. contradiction.
    - injection Hc as -> _ _. contradiction.
    - pose proof (layout_bounds _ _ _ _ _ Hs2 Hc). lia. }
  (* remove the successor *)
  destruct (in_split _ _ Hnb) as [l1 [l2 Efl]]. rewrite Efl in R, Hnd.
  destruct (listRemove_Rep _ _ _ _ _ R) as [s1 [Hrun1 [R1 [[Elo1 [Ebrk1 [Ehi1 Ehl1]]] Hf1]]]].
  (* remove the predecessor *)
  assert (Hpb1 : In pb (l1 ++ l2)).
  { apply (in_remove_iff _ _ _ _ Hnd). split; [rewrite <- Efl; exact Hpbin|lia]. }
  destruct (in_split _ _ Hpb1) as [l3 [l4 Efl1]]. rewrite Efl1 in R1.
  pose proof (rep_nodup _ _ _ R1) as Hnd1.
  destruct (listRemove_Rep _ _ _ _ _ R1) as [s2 [Hrun2 [R2 [[Elo2 [Ebrk2 [Ehi2 Ehl2]]] Hf2]]]].
  (* insert the predecessor again *)
  assert (Hpb2 : In (pb, psz, false) (layout (mem_start_brk s2 + 16) bs))
    by (rewrite Elo2, Elo1; exact Hpb).
  assert (Hfresh2 : ~ In pb (l3 ++ l4)) by (apply (NoDup_remove_2 _ _ _ Hnd1)).
  destruct (listInsert_Rep _ _ _ _ _ R2 Hpb2 Hfresh2)
    as [s3 [Hrun3 [R3 [[Elo3 [Ebrk3 [Ehi3 Ehl3]]] Hf3]]]].
  (* membership in the successive lists *)
  assert (Hmem : forall a, a <> pb -> a <> pb + psz + sz ->
            (In a (pb :: l3 ++ l4) <-> In a fl)).
  { intros a H1 H2. cbn [In]. rewrite (in_remove_iff _ _ _ _ Hnd1), <- Efl1.
    rewrite (in_remove_iff _ _ _ _ Hnd), <- Efl. intuition congruence. }
  (* rewrite the tags of the predecessor *)
  assert (R3' := R3). rewrite Ebs in R3'.
  destruct (retag_step (B := Z) s3 bs1 psz false [(sz, false); (nsz, false)] bs2
              (pb :: l3 ++ l4) false (ret pb) R3')
    as [s4 [Hrun4 [R4 [[Elo4 [Ebrk4 [Ehi4 Ehl4]]] [Hfirst4 Hf4]]]]].
  { rewrite Elo3, Elo2, Elo1. fold lo pb. cbn [total]. intros n Hn Hr.
    destruct (Z.eq_dec n pb) as [->|Hne1]; [lia|].
    destruct (Z.eq_dec n (pb + psz + sz)) as [->|Hne2].
    - cbn [In] in Hn. destruct Hn as [E|Hn]; [lia|].
      apply (in_remove_iff _ _ _ _ Hnd1) in Hn as [Hn _]. rewrite <- Efl1 in Hn.
      apply (in_remove_iff _ _ _ _ Hnd) in Hn as [_ Hn]. contradiction.
    - apply (Hmem n Hne1 Hne2) in Hn.
      destruct (Z.eq_dec n (pb + psz)) as [->|Hne3]; [contradiction|].
      specialize (Hwhere n Hn Hne1 Hne2). lia. }
  rewrite Elo3, Elo2, Elo1 in Hrun4, Hf4. fold lo pb in Hrun4, Hf4.
  cbn [total] in Hrun4, R4, Hf4.
  replace (psz + (sz + (nsz + 0))) with (psz + sz + nsz) in Hrun4, R4, Hf4 by lia.
  assert (Elo : mem_start_brk s4 = lo) by (rewrite Elo4, Elo3, Elo2, Elo1; reflexivity).
  exists s4. split; [|split; [|fold lo pb; rewrite Efl, (remove_mid _ _ _ Hnd), Efl1,
                                 (remove_mid _ _ _ Hnd1); exact R4]].
  - rewrite Et. fold pb.
    rewrite (run_NEXT_BLKP _ _ _ _ _ _ _ R Hbp).
    rewrite (bind_run _ _ _ _ _ Hrun1).
    assert (Et1 : pb + psz = mem_start_brk s1 + 16 + total (bs1 ++ [(psz, false)]))
      by (rewrite Et, Elo1; reflexivity).
    rewrite Et1 at 1.
    rewrite (run_PREV_BLKP s1 (bs1 ++ [(psz, false)]) (sz, false) ((nsz, false) :: bs2) _
               psz false _ R1 (last_snoc _ _ _)).
    rewrite <- Et1. replace (pb + psz - psz) with pb by lia.
    rewrite (bind_run _ _ _ _ _ Hrun2).
    assert (Et2 : pb + psz = mem_start_brk s2 + 16 + total (bs1 ++ [(psz, false)]))
      by (rewrite Et, Elo2, Elo1; reflexivity).
    rewrite Et2 at 1.
    rewrite (run_PREV_BLKP s2 (bs1 ++ [(psz, false)]) (sz, false) ((nsz, false) :: bs2) _
               psz false _ R2 (last_snoc _ _ _)).
    rewrite <- Et2. replace (pb + psz - psz) with pb by lia.
    rewrite (bind_run _ _ _ _ _ Hrun3).
    rewrite u32_small by lia. replace (sz + psz + nsz) with (psz + sz + nsz) by lia.
    change (PACK (psz + sz + nsz) 0) with (PACK (psz + sz + nsz) (b2z false)).
    rewrite Hrun4. reflexivity.
  - exists (bs1 ++ (psz + sz + nsz, false) :: bs2), (pb :: l3 ++ l4).
    apply adjacent_free_snoc_inv in Hadj1 as [Hadj1 Hl].
    apply adjacent_free_cons_inv in Hadj2 as [Hadj2 Hh].
    split; [exact R4|]. split; [|split; [|split; [|split]]].
    + intros a sz' al Hin. rewrite Elo in Hin. apply Hnew in Hin.
      destruct Hin as [Hin|[E|Hin]].
      * pose proof (layout_bounds _ _ _ _ _ Hs1 Hin).
        rewrite Hmem by lia. apply (Hidx a sz' al); [apply Hold; auto|lia].
      * injection E as -> _ ->. cbn [In]. intuition auto.
      * pose proof (layout_bounds _ _ _ _ _ Hs2 Hin).
        rewrite Hmem by lia. apply (Hidx a sz' al); [apply Hold; auto 6|lia].
    + apply adjacent_free_insert; assumption.
    + unfold same_arena. rewrite Elo4, Elo3, Elo2, Elo1, Ebrk4, Ebrk3, Ebrk2, Ebrk1,
        Ehi4, Ehi3, Ehi2, Ehi1, Ehl4, Ehl3, Ehl2, Ehl1. auto.
    + exists (psz + sz + nsz). rewrite Elo. split; [apply Hnew; auto|lia].
    + intros a sz' Hin. rewrite Elo. fold lo in Hin.
      assert (Hin' := Hin). apply Hold in Hin'.
      assert (Hpos : a + sz' <= pb \/ pb + psz + sz + nsz <= a).
      { destruct Hin' as [Hc|[E|[E|[E|Hc]]]]; try discriminate.
        - pose proof (layout_bounds _ _ _ _ _ Hs1 Hc). lia.
        - pose proof (layout_bounds _ _ _ _ _ Hs2 Hc). lia. }
      assert (R0 : Rep s bs fl) by (rewrite Efl; exact R).
      pose proof (Rep_entry _ _ _ _ _ _ R0 Hin) as He.
      assert (Hnotin : ~ In a fl).
      { intros Hn. apply (Hidx a sz' true Hin) in Hn; [discriminate|lia]. }
      split.
      * apply Hnew. destruct Hin' as [Hc|[E|[E|[E|Hc]]]]; try discriminate; auto.
      * intros x Hx.
        assert (Hoff : forall n, In n fl -> x < n \/ n + 16 <= x).
        { apply (extent_off_nodes s _ _ a sz' true _ x R0 Hin);
            [apply (rep_nodes _ _ _ R0)|exact Hnotin|lia]. }
        assert (A1 : forall n, In n (l3 ++ pb :: l4) -> In n fl).
        { intros n Hn. rewrite Efl. apply in_remove_mid. rewrite Efl1. exact Hn. }
        rewrite Hf4, Hf3, Hf2, Hf1; [reflexivity| | | |].
        -- intros n Hn. apply Hoff. rewrite Efl. exact Hn.
        -- intros n Hn. apply Hoff, A1. exact Hn.
        -- intros n [<-|Hn]; [apply Hoff; exact Hpbin|].
           apply Hoff, A1, in_remove_mid. exact Hn.
        -- lia.
Qed.

Lemma last_not_default bs psz :
  last bs (8, true) = (psz, false) -> exists bs', bs = bs' ++ [(psz, false)].
Proof.
  intros H. destruct (snoc_cases bs) as [->|[bs' [b ->]]]; [discriminate|].
  rewrite last_snoc in H. subst b. eauto.
Qed.

(** [coalesce] on a freshly freed block restores the invariant and
    returns the merged free block. *)
Lemma coalesce_spec s bs1 sz bs2 fl :
  Fresh s bs1 sz bs2 fl ->
  exists r s',
    coalesce (mem_start_brk s + 16 + total bs1) s = Ret r s' /\
    coalesced s (bs1 ++ (sz, false) :: bs2) sz r s'.
Proof.
  intros F. assert (F' := F). destruct F' as [R _].
  destruct (prev_tags _ _ _ _ _ R) as [psz [pal [Hlast [Hpf [Hph [Hpr [Hp8 Hplo]]]]]]].
  destruct (next_tag _ _ _ _ _ _ R) as [nsz [nal [Hhd [Hnh [Hnr Hn8]]]]].
  pose proof (layout_mid (mem_start_brk s + 16) bs1 sz false bs2) as Hbp.
  pose proof (Rep_entry _ _ _ _ _ _ R Hbp) as [Hb1 [Hb2 [Hb3 [Hb4 [Hb5 _]]]]].
  set (bp := mem_start_brk s + 16 + total bs1) in *.
  unfold coalesce.
  rewrite (run_PREV_BLKP _ _ _ _ _ _ _ _ R Hlast). fold bp.
  unfold FTRP at 1. rewrite bind_assoc. unfold HDRP at 1. unfold WSIZE, DSIZE.
  rewrite bind_GET_SIZE by (apply (Rep_in_arena _ _ _ _ _ R); lia).
  rewrite (size_of_tag _ _ psz pal) by (try exact Hph; lia). rewrite bind_ret_l.
  replace (bp - psz + psz - 8) with (bp - 8) by lia.
  rewrite bind_GET_ALLOC by (apply (Rep_in_arena _ _ _ _ _ R); lia).
  rewrite (alloc_of_tag _ _ psz pal) by (try exact Hpf; lia).
  rewrite (run_NEXT_BLKP _ _ _ _ _ _ _ R Hbp).
  unfold HDRP at 1. unfold WSIZE.
  rewrite bind_GET_ALLOC by (apply (Rep_in_arena _ _ _ _ _ R); lia).
  rewrite (alloc_of_tag _ _ nsz nal) by (try exact Hnh; lia).
  rewrite (run_GET_SIZE_hdr _ _ _ _ _ _ _ R Hbp).
  destruct pal, nal; cbn [b2z Z.eqb negb andb].
  - (* both allocated *)
    destruct (coalesce_alloc_alloc _ _ _ _ _ F) as [s' [Hrun [Hc _]]].
    + rewrite Hlast. reflexivity.
    + rewrite Hhd. reflexivity.
    + exists bp, s'. split; [exact Hrun|exact Hc].
  - (* successor free *)
    destruct bs2 as [|[nsz' nal'] bs2']; [discriminate|].
    cbn [hd] in Hhd. injection Hhd as -> ->.
    unfold HDRP at 1. unfold WSIZE.
    rewrite bind_GET_SIZE by (apply (Rep_in_arena _ _ _ _ _ R); lia).
    rewrite (size_of_tag _ _ nsz false) by (try exact Hnh; lia).
    cbv zeta.
    destruct (coalesce_alloc_free _ _ _ _ _ _ F) as [s' [Hrun [Hc _]]].
    + rewrite Hlast. reflexivity.
    + exists bp, s'. split; [exact Hrun|exact Hc].
  - (* predecessor free *)
    destruct (last_not_default _ _ Hlast) as [bs1' ->].
    unfold HDRP at 1. unfold WSIZE.
    rewrite bind_GET_SIZE by (apply (Rep_in_arena _ _ _ _ _ R); lia).
    rewrite (size_of_tag _ _ psz false) by (try exact Hph; lia).
    cbv zeta.
    destruct (coalesce_free_alloc _ _ _ _ _ _ F) as [s' [Hrun [Hc _]]].
    + rewrite Hhd. reflexivity.
    + exists (mem_start_brk s + 16 + total bs1'), s'.
      assert (E : bp - psz = mem_start_brk s + 16 + total bs1')
        by (unfold bp; rewrite total_app; cbn [total]; lia).
      rewrite E. split; [exact Hrun|exact Hc].
  - (* both free *)
    destruct (last_not_default _ _ Hlast) as [bs1' ->].
    destruct bs2 as [|[nsz' nal'] bs2']; [discriminate|].
    cbn [hd] in Hhd. injection Hhd as -> ->.
    assert (Hnx : In (bp + sz, nsz, false)
                     (layout (mem_start_brk s + 16)
                        (((bs1' ++ [(psz, false)]) ++ [(sz, false)]) ++ (nsz, false) :: bs2'))).
    { replace (bp + sz) with (mem_start_brk s + 16 + total ((bs1' ++ [(psz, false)]) ++ [(sz, false)]))
        by (unfold bp; rewrite (total_app _ [(sz, false)]); cbn [total]; lia).
      apply layout_mid. }
    rewrite <- (app_assoc _ [(sz, false)]) in Hnx. cbn [app] in Hnx.
    pose proof (Rep_entry _ _ _ _ _ _ R Hnx) as [Hx1 [Hx2 [Hx3 [_ [_ [_ Hnf]]]]]].
    unfold HDRP at 1. unfold WSIZE.
    rewrite bind_GET_SIZE by (apply (Rep_in_arena _ _ _ _ _ R); lia).
    rewrite (size_of_tag _ _ psz false) by (try exact Hph; lia).
    rewrite (run_FTRP _ _ _ _ _ _ _ R Hnx).
    rewrite bind_GET_SIZE by (apply (Rep_in_arena _ _ _ _ _ R); lia).
    rewrite (size_of_tag _ _ nsz false) by (try exact Hnf; lia).
    cbv zeta.
    destruct (coalesce_free_free _ _ _ _ _ _ _ F) as [s' [Hrun [Hc _]]].
    exists (mem_start_brk s + 16 + total bs1'), s'.
    split; [exact Hrun|exact Hc].
Qed.

(* ----------------------------------------------------------------- *)
(** *** More on flags *)

Lemma adjacent_free_mid_inv bs1 b bs2 :
  adjacent_free (flags (bs1 ++ b :: bs2)) = false ->
  adjacent_free (flags bs1) = false /\ adjacent_free (flags bs2) = false.
Proof.
  rewrite flags_app, adjacent_free_app. cbn [flags map].
  rewrite adjacent_free_cons. fold (flags bs2).
  generalize (adjacent_free (flags bs1)) (adjacent_free (flags bs2))
             (last (flags bs1) true) (hd true (flags bs2)).
  intros x1 x2 x3 x4. destruct x1, x2, x3, x4, (snd b); cbn; intros H; try discriminate; auto.
Qed.

Lemma adjacent_free_set_true bs1 b a bs2 :
  adjacent_free (flags (bs1 ++ b :: bs2)) = false ->
  adjacent_free (flags (bs1 ++ (a, true) :: bs2)) = false.
Proof.
  rewrite !flags_app, !adjacent_free_app. cbn [flags map].
  rewrite !adjacent_free_cons. fold (flags bs2).
  generalize (adjacent_free (flags bs1)) (adjacent_free (flags bs2))
             (last (flags bs1) true) (hd true (flags bs2)).
  intros x1 x2 x3 x4. destruct x1, x2, x3, x4, (snd b); cbn; intros H; try discriminate; auto.
Qed.

Lemma adjacent_free_split bs1 c a r bs2 :
  adjacent_free (flags (bs1 ++ (c, false) :: bs2)) = false ->
  adjacent_free (flags (bs1 ++ (a, true) :: (r, false) :: bs2)) = false.
Proof.
  rewrite !flags_app, !adjacent_free_app. cbn [flags map].
  rewrite !adjacent_free_cons. fold (flags bs2). cbn [hd snd].
  generalize (adjacent_free (flags bs1)) (adjacent_free (flags bs2))
             (last (flags bs1) true) (hd true (flags bs2)).
  intros x1 x2 x3 x4. destruct x1, x2, x3, x4; cbn; intros H; try discriminate; auto.
Qed.

(* ----------------------------------------------------------------- *)
(** *** Free *)

Lemma mm_free_spec s bs fl bp sz :
  Rep s bs fl -> index_ok s bs fl -> adjacent_free (flags bs) = false ->
  In (bp, sz, true) (layout (mem_start_brk s + 16) bs) ->
  exists s', mm_free bp s = Ret tt s' /\ freed s bs bp s'.
Proof.
  intros R Hidx Hadj Hin.
  pose proof (Rep_entry _ _ _ _ _ _ R Hin) as [Hb1 [Hb2 [Hb3 [Hb4 [Hb5 _]]]]].
  pose proof (rep_lo _ _ _ R) as Hlo.
  destruct (layout_split _ _ _ _ _ Hin) as [bs1 [bs2 [Ebs Ebp]]].
  subst bs bp.
  set (bp := mem_start_brk s + 16 + total bs1) in *.
  pose proof (rep_sizes _ _ _ R) as Hs. apply size_ok_app in Hs as [Hs1 Hs].
  inversion Hs as [|? ? _ Hs2]; subst.
  assert (Hold : forall e, In e (layout (mem_start_brk s + 16) (bs1 ++ (sz, true) :: bs2)) <->
            In e (layout (mem_start_brk s + 16) bs1) \/ e = (bp, sz, true) \/
            In e (layout (bp + sz) bs2)).
  { intros e. rewrite layout_app. cbn [layout]. rewrite in_app_iff. cbn [In]. fold bp.
    intuition auto. }
  assert (Hnew : forall e, In e (layout (mem_start_brk s + 16) (bs1 ++ (sz, false) :: bs2)) <->
            In e (layout (mem_start_brk s + 16) bs1) \/ e = (bp, sz, false) \/
            In e (layout (bp + sz) bs2)).
  { intros e. rewrite layout_app. cbn [layout]. rewrite in_app_iff. cbn [In]. fold bp.
    intuition auto. }
  unfold mm_free. destruct (Z.eqb_spec bp 0) as [E|_]; [lia|].
  rewrite (run_GET_SIZE_hdr _ _ _ _ _ _ _ R Hin).
  change ((sz, true) :: bs2) with ((sz, true) :: [] ++ bs2) in R.
  destruct (retag_step (B := unit) s bs1 sz true [] bs2 fl false (coalesce bp ;; ret tt) R)
    as [s1 [Hrun1 [R1 [[Elo1 [Ebrk1 [Ehi1 Ehl1]]] [Hfirst1 Hf1]]]]].
  { cbn [total]. intros n _ Hr. lia. }
  fold bp in Hrun1, Hf1. cbn [total] in Hrun1, R1, Hf1.
  replace (sz + 0) with sz in Hrun1, R1, Hf1 by lia.
  change (PACK sz 0) with (PACK sz (b2z false)). rewrite Hrun1.
  apply adjacent_free_mid_inv in Hadj as [Hadj1 Hadj2].
  assert (F : Fresh s1 bs1 sz bs2 fl).
  { split; [exact R1|]. rewrite Elo1. fold bp. split; [|split; [|split]].
    - intros Hn. apply (Hidx bp sz true Hin) in Hn. discriminate.
    - intros a sz' al Ha Hne. apply Hnew in Ha.
      apply (Hidx a sz' al). apply Hold.
      destruct Ha as [Ha|[Ha|Ha]]; auto. injection Ha as -> _ _. contradiction.
    - exact Hadj1.
    - exact Hadj2. }
  destruct (coalesce_spec _ _ _ _ _ F) as [r [s2 [Hrun2 Hc]]].
  rewrite Elo1 in Hrun2. fold bp in Hrun2.
  exists s2. split; [rewrite (bind_run _ _ _ _ _ Hrun2); reflexivity|].
  destruct Hc as [bs' [fl' [R2 [Hidx2 [Hadj' [[Elo2 [Ebrk2 [Ehi2 Ehl2]]] [_ Hkeep]]]]]]].
  exists bs', fl'. split; [exact R2|]. split; [exact Hidx2|]. split; [exact Hadj'|].
  split.
  - unfold same_arena. rewrite Elo2, Elo1, Ebrk2, Ebrk1, Ehi2, Ehi1, Ehl2, Ehl1. auto.
  - intros a sz' Ha Hne.
    assert (Ha1 : In (a, sz', true) (layout (mem_start_brk s1 + 16) (bs1 ++ (sz, false) :: bs2))).
    { rewrite Elo1. apply Hnew. apply Hold in Ha.
      destruct Ha as [Ha|[Ha|Ha]]; auto. injection Ha as -> _. contradiction. }
    destruct (Hkeep a sz' Ha1) as [Hk1 Hk2]. split; [exact Hk1|].
    intros x Hx. rewrite Hk2 by exact Hx. apply Hf1.
    apply Hold in Ha. destruct Ha as [Ha|[Ha|Ha]].
    + pose proof (layout_bounds _ _ _ _ _ Hs1 Ha). lia.
    + injection Ha as -> _. contradiction.
    + pose proof (layout_bounds _ _ _ _ _ Hs2 Ha). lia.
Qed.

(* ----------------------------------------------------------------- *)
(** *** Extending the arena *)

Lemma extend_size_ok words :
  6 <= words < 2 ^ 29 - 1 ->
  24 <= extend_size words < 2 ^ 31 /\ extend_size words mod 8 = 0 /\
  4 * words <= extend_size words.
Proof.
  intros H. unfold extend_size, WSIZE.
  pose proof (Z.div_mod words 2 ltac:(lia)) as E.
  pose proof (Z.mod_pos_bound words 2 ltac:(lia)) as Hm.
  destruct (Z.eqb_spec (words mod 2) 0) as [E0|E0]; cbn [negb].
  - rewrite u32_small by lia. split; [lia|]. split; [|lia].
    replace (words * 4) with ((words / 2) * 8) by lia. apply Z.mod_mul. lia.
  - rewrite u32_small by lia. split; [lia|]. split; [|lia].
    replace ((words + 1) * 4) with ((words / 2 + 1) * 8) by lia. apply Z.mod_mul. lia.
Qed.

Lemma extend_Rep s bs fl size :
  Rep s bs fl -> 24 <= size -> size mod 8 = 0 ->
  mem_brk s + size <= mem_max_addr s ->
  Rep (mkHeap (store32 (store32 (store32 (mem s) (mem_brk s - 4) (tag size false))
                                (mem_brk s + size - 8) (tag size false))
                       (mem_brk s + size - 4) (tag 0 true))
              (mem_start_brk s) (mem_brk s + size) (mem_max_addr s)
              (firstlist s) (heap_listp s))
      (bs ++ [(size, false)]) fl.
Proof.
  intros R Hsz Hm8 Hfit. destruct s as [m lo brk hi f hl]. norm in *.
  pose proof (rep_sizes _ _ _ R) as Hs. pose proof (total_nonneg _ Hs).
  pose proof (rep_brk _ _ _ R) as Hbrk. pose proof (rep_small _ _ _ R) as Hsmall.
  pose proof (rep_lo _ _ _ R) as Hlo. norm in *.
  assert (Hfar : forall x, x < brk - 4 ->
            store32 (store32 (store32 m (brk - 4) (tag size false))
                             (brk + size - 8) (tag size false))
                    (brk + size - 4) (tag 0 true) x = m x).
  { intros x Hx. rewrite !store32_other by lia. reflexivity. }
  constructor; norm.
  - exact Hlo.
  - apply (rep_listp _ _ _ R).
  - rewrite total_app. cbn [total]. lia.
  - exact Hfit.
  - exact Hsmall.
  - apply (rep_addr _ _ _ R).
  - rewrite <- (rep_pro_hdr _ _ _ R). norm. apply load32_ext. intros x Hx. apply Hfar. lia.
  - rewrite <- (rep_pro_ftr _ _ _ R). norm. apply load32_ext. intros x Hx. apply Hfar. lia.
  - apply load32_store32. cbn. lia.
  - apply size_ok_app. split; [exact Hs|]. constructor; [|constructor]. split; assumption.
  - rewrite layout_app. cbn [layout]. apply Forall_app. split; [|constructor; [|constructor]].
    + apply (tags_frame m); [apply (rep_tags _ _ _ R)|].
      intros x sz al y Hin Hy. apply Hfar.
      pose proof (layout_bounds _ _ _ _ _ Hs Hin). lia.
    + unfold tags_at. replace (lo + 16 + total bs) with brk by lia. split.
      * rewrite !load32_store32_other by lia. apply load32_store32.
        apply tag_range; [lia|exact Hm8].
      * rewrite load32_store32_other by lia. apply load32_store32.
        apply tag_range; [lia|exact Hm8].
  - apply (dseg_frame m); [apply (rep_index _ _ _ R)|].
    intros n y Hn Hy. destruct (rep_nodes _ _ _ R n Hn) as [sz [al Hin]]. norm in Hin.
    pose proof (layout_bounds _ _ _ _ _ Hs Hin). apply Hfar. lia.
  - apply (rep_first _ _ _ R).
  - apply (rep_nodup _ _ _ R).
  - intros n Hn. destruct (rep_nodes _ _ _ R n Hn) as [sz [al Hin]]. norm in Hin.
    exists sz, al. rewrite layout_app. apply in_or_app. left. exact Hin.
Qed.

Lemma extend_heap_spec s bs fl words :
  Rep s bs fl -> index_ok s bs fl -> adjacent_free (flags bs) = false ->
  6 <= words < 2 ^ 29 - 1 ->
  (mem_max_addr s < mem_brk s + extend_size words /\ extend_heap words s = Ret 0 s)
  \/
  (mem_brk s + extend_size words <= mem_max_addr s /\
   exists r s', extend_heap words s = Ret r s' /\
                extended s bs (extend_size words) r s').
Proof.
  intros R Hidx Hadj Hw.
  destruct (extend_size_ok words Hw) as [Hsz [Hm8 _]].
  unfold extend_heap. fold (extend_size words).
  set (size := extend_size words) in *.
  assert (Eint : to_int size = size).
  { unfold to_int. rewrite u32_small by lia.
    destruct (Z.ltb_spec size (2 ^ 31)); [reflexivity|lia]. }
  rewrite Eint.
  pose proof (rep_sizes _ _ _ R) as Hs. pose proof (total_nonneg _ Hs).
  pose proof (rep_brk _ _ _ R) as Hbrk. pose proof (rep_small _ _ _ R) as Hsmall.
  pose proof (rep_lo _ _ _ R) as Hlo. pose proof (rep_max _ _ _ R) as Hmax.
  destruct (Z.ltb_spec (mem_max_addr s) (mem_brk s + size)) as [Hfail|Hfit].
  - left. split; [exact Hfail|].
    unfold bind at 1. unfold mem_sbrk.
    destruct (Z.ltb_spec size 0); [lia|].
    destruct (Z.ltb_spec (mem_max_addr s) (mem_brk s + size)); [|lia].
    cbn [orb]. reflexivity.
  - right. split; [exact Hfit|].
    pose proof (extend_Rep _ _ _ size R ltac:(lia) Hm8 Hfit) as R1.
    set (s1 := mkHeap _ _ _ _ _ _) in R1.
    assert (Hrun : forall k : Z -> M Z,
      (bp <- mem_sbrk size ;;
       if bp =? -1 then ret 0
       else PUT (HDRP bp) (PACK size 0) ;; f <- FTRP bp ;; PUT f (PACK size 0) ;;
            nb <- NEXT_BLKP bp ;; PUT (HDRP nb) (PACK 0 1) ;; k bp) s = k (mem_brk s) s1).
    { intros k. unfold bind at 1. unfold mem_sbrk.
      destruct (Z.ltb_spec size 0); [lia|].
      destruct (Z.ltb_spec (mem_max_addr s) (mem_brk s + size)); [lia|].
      cbn [orb]. destruct (Z.eqb_spec (mem_brk s) (-1)); [lia|].
      unfold s1. clear s1 R1.
      destruct s as [m lo brk hi f hl]. norm in *.
      rewrite retag_run by (auto; lia).
      unfold NEXT_BLKP, HDRP, WSIZE. steps.
      change (size + 0) with (tag size false).
      rewrite load32_store32_other by lia.
      rewrite load32_store32 by (apply tag_range; lia).
      rewrite tag_size by lia. steps.
      replace (brk + size - 4) with (brk + size - 4) by lia. reflexivity. }
    rewrite (Hrun coalesce).
    assert (Ebrk : mem_brk s = mem_start_brk s1 + 16 + total bs) by (unfold s1; norm; lia).
    assert (F : Fresh s1 bs size [] fl).
    { split; [exact R1|]. rewrite <- Ebrk. split; [|split; [|split]].
      - intros Hn. destruct (rep_nodes _ _ _ R _ Hn) as [szn [aln Hin]].
        pose proof (Rep_entry _ _ _ _ _ _ R Hin). lia.
      - intros a sz' al Ha Hne. unfold s1 in Ha. norm in Ha.
        rewrite layout_app in Ha. apply in_app_or in Ha. destruct Ha as [Ha|Ha].
        + apply (Hidx a sz' al Ha).
        + cbn [layout In] in Ha. destruct Ha as [Ha|[]]. injection Ha as <- _ _. lia.
      - exact Hadj.
      - reflexivity. }
    destruct (coalesce_spec _ _ _ _ _ F) as [r [s2 [Hrun2 Hc]]].
    rewrite <- Ebrk in Hrun2.
    exists r, s2. split; [exact Hrun2|].
    destruct Hc as [bs' [fl' [R2 [Hidx2 [Hadj' [[Elo2 [Ebrk2 [Ehi2 Ehl2]]] [Hr Hkeep]]]]]]].
    exists bs', fl'. unfold s1 in Elo2, Ebrk2, Ehi2, Ehl2. norm in *.
    repeat (split; [assumption|]).
    intros a sz' Ha.
    assert (Ha1 : In (a, sz', true) (layout (mem_start_brk s1 + 16) (bs ++ [(size, false)]))).
    { unfold s1. norm. rewrite layout_app. apply in_or_app. left. exact Ha. }
    destruct (Hkeep a sz' Ha1) as [Hk1 Hk2]. split; [exact Hk1|].
    intros x Hx. rewrite Hk2 by exact Hx. unfold s1. norm.
    pose proof (Rep_entry _ _ _ _ _ _ R Ha).
    rewrite !store32_other by lia. reflexivity.
Qed.

(* ----------------------------------------------------------------- *)
(** *** Replacing a run of blocks *)

(** The blocks [old] after [bs1] are replaced by blocks [new] of the same
    total size.  Memory may change inside the region of [old] and in the
    link fields of the blocks [N]; the tags of [new] and the new index are
    given. *)
Lemma Rep_rebuild s bs1 old bs2 fl m' new fl' (N : list Z) :
  Rep s (bs1 ++ old ++ bs2) fl ->
  Forall size_ok new -> total new = total old ->
  (forall n, In n N ->
     exists sz al, In (n, sz, al) (layout (mem_start_brk s + 16) (bs1 ++ old ++ bs2))) ->
  (forall x,
     x < mem_start_brk s + 16 + total bs1 - 4 \/
     mem_start_brk s + 16 + total bs1 + total old - 4 <= x ->
     (forall n, In n N -> x < n \/ n + 16 <= x) -> m' x = mem s x) ->
  Forall (tags_at m') (layout (mem_start_brk s + 16 + total bs1) new) ->
  dseg m' 0 fl' 0 -> NoDup fl' ->
  (forall n, In n fl' ->
     exists sz al, In (n, sz, al) (layout (mem_start_brk s + 16) (bs1 ++ new ++ bs2))) ->
  Rep (mkHeap m' (mem_start_brk s) (mem_brk s) (mem_max_addr s) (hd 0 fl') (heap_listp s))
      (bs1 ++ new ++ bs2) fl'.
Proof.
  intros R Hnew Htot HN Hf Htags Hd Hnd Hfl'.
  pose proof (rep_sizes _ _ _ R) as Hs.
  apply size_ok_app in Hs as [Hs1 Hs]. apply size_ok_app in Hs as [Hso Hs2].
  pose proof (total_nonneg _ Hs1). pose proof (total_nonneg _ Hso).
  pose proof (total_nonneg _ Hs2).
  pose proof (rep_brk _ _ _ R) as Hbrk. rewrite !total_app in Hbrk.
  pose proof (rep_lo _ _ _ R) as Hlo.
  set (lo := mem_start_brk s) in *. set (bp := lo + 16 + total bs1) in *.
  assert (Hentry : forall a sz al x,
            In (a, sz, al) (layout (lo + 16) bs1) \/ In (a, sz, al) (layout (bp + total old) bs2) ->
            a - 4 <= x < a + sz - 4 -> x < a \/ a + 16 <= x -> m' x = mem s x).
  { intros a sz al x Ha Hx Hx'.
    assert (Hin : In (a, sz, al) (layout (lo + 16) (bs1 ++ old ++ bs2))).
    { rewrite !layout_app. fold bp. apply in_or_app.
      destruct Ha as [Ha|Ha]; [left; exact Ha|right; apply in_or_app; right; exact Ha]. }
    apply Hf.
    - destruct Ha as [Ha|Ha].
      + pose proof (layout_bounds _ _ _ _ _ Hs1 Ha). lia.
      + pose proof (layout_bounds _ _ _ _ _ Hs2 Ha). lia.
    - intros n Hn. destruct (HN n Hn) as [szn [aln Hinn]].
      pose proof (Rep_entry _ _ _ _ _ _ R Hin). pose proof (Rep_entry _ _ _ _ _ _ R Hinn).
      destruct (entries_sep _ _ _ _ _ _ _ _ _ R Hin Hinn) as [[? _]|?]; lia. }
  assert (Hout : forall x, x < lo + 12 \/ mem_brk s - 4 <= x -> m' x = mem s x).
  { intros x Hx. apply Hf; [lia|]. intros n Hn. destruct (HN n Hn) as [sz [al Hin]].
    pose proof (Rep_entry _ _ _ _ _ _ R Hin). lia. }
  pose proof (rep_tags _ _ _ R) as Ht. fold lo in Ht. rewrite !layout_app in Ht. fold bp in Ht.
  apply Forall_app in Ht as [Ht1 Ht]. apply Forall_app in Ht as [_ Ht2].
  constructor; norm.
  - exact Hlo.
  - apply (rep_listp _ _ _ R).
  - rewrite !total_app. fold lo. lia.
  - apply (rep_max _ _ _ R).
  - apply (rep_small _ _ _ R).
  - apply (rep_addr _ _ _ R).
  - rewrite <- (rep_pro_hdr _ _ _ R). apply load32_ext. intros x Hx. apply Hout. fold lo in Hx. lia.
  - rewrite <- (rep_pro_ftr _ _ _ R). apply load32_ext. intros x Hx. apply Hout. fold lo in Hx. lia.
  - rewrite <- (rep_epi _ _ _ R). apply load32_ext. intros x Hx. apply Hout. lia.
  - apply size_ok_app. split; [exact Hs1|]. apply size_ok_app. split; assumption.
  - fold lo. rewrite !layout_app. fold bp. apply Forall_app. split; [|apply Forall_app; split].
    + apply (tags_frame (mem s)); [exact Ht1|].
      intros a sz al x Hin Hx.
      pose proof (layout_bounds _ _ _ _ _ Hs1 Hin).
      apply (Hentry a sz al x); [left; exact Hin|lia|lia].
    + exact Htags.
    + rewrite Htot. apply (tags_frame (mem s)); [exact Ht2|].
      intros a sz al x Hin Hx.
      pose proof (layout_bounds _ _ _ _ _ Hs2 Hin).
      apply (Hentry a sz al x); [right; exact Hin|lia|lia].
  - exact Hd.
  - reflexivity.
  - exact Hnd.
  - exact Hfl'.
Qed.

(* ----------------------------------------------------------------- *)
(** *** Placement *)

Lemma place_mark_bind {B} bp sz (k : M B) s :
  bind (place_mark bp sz) (fun _ => k) s
  = bind (PUT (HDRP bp) (PACK sz 1))
      (fun _ => bind (FTRP bp) (fun f => bind (PUT f (PACK sz 1)) (fun _ => k))) s.
Proof.
  unfold place_mark, bind.
  destruct (PUT (HDRP bp) (PACK sz 1) s) as [u s0| | |]; try reflexivity.
  destruct (FTRP bp s0) as [f s1| | |]; try reflexivity.
Qed.

Lemma place_whole s bs1 csize bs2 fl asize :
  Rep s (bs1 ++ (csize, false) :: bs2) fl ->
  index_ok s (bs1 ++ (csize, false) :: bs2) fl ->
  adjacent_free (flags (bs1 ++ (csize, false) :: bs2)) = false ->
  asize <= csize ->
  exists s',
    (place_mark (mem_start_brk s + 16 + total bs1) csize ;;
     listRemove (mem_start_brk s + 16 + total bs1)) s = Ret tt s' /\
    placed s (bs1 ++ (csize, false) :: bs2) (mem_start_brk s + 16 + total bs1) asize s' /\
    Rep s' (bs1 ++ (csize, true) :: bs2)
        (remove Z.eq_dec (mem_start_brk s + 16 + total bs1) fl).
Proof.
  intros R Hidx Hadj Hle.
  set (bp := mem_start_brk s + 16 + total bs1) in *.
  pose proof (layout_mid (mem_start_brk s + 16) bs1 csize false bs2) as Hbp. fold bp in Hbp.
  pose proof (rep_sizes _ _ _ R) as Hs. apply size_ok_app in Hs as [Hs1 Hs].
  inversion Hs as [|? ? [Hc1 Hc2] Hs2]; subst. cbn [fst] in *.
  assert (Hold : forall e, In e (layout (mem_start_brk s + 16) (bs1 ++ (csize, false) :: bs2)) <->
            In e (layout (mem_start_brk s + 16) bs1) \/ e = (bp, csize, false) \/
            In e (layout (bp + csize) bs2)).
  { intros e. rewrite layout_app. cbn [layout]. rewrite in_app_iff. cbn [In]. fold bp.
    intuition auto. }
  assert (Hnew : forall e, In e (layout (mem_start_brk s + 16) (bs1 ++ (csize, true) :: bs2)) <->
            In e (layout (mem_start_brk s + 16) bs1) \/ e = (bp, csize, true) \/
            In e (layout (bp + csize) bs2)).
  { intros e. rewrite layout_app. cbn [layout]. rewrite in_app_iff. cbn [In]. fold bp.
    intuition auto. }
  assert (Hin : In bp fl) by (apply (Hidx bp csize false Hbp); reflexivity).
  destruct (in_split _ _ Hin) as [l1 [l2 Efl]].
  pose proof (rep_nodup _ _ _ R) as Hnd. rewrite Efl in Hnd.
  assert (R0 := R).
  change ((csize, false) :: bs2) with ((csize, false) :: [] ++ bs2) in R.
  destruct (retag_step (B := unit) s bs1 csize false [] bs2 fl true (listRemove bp) R)
    as [s1 [Hrun1 [R1 [[Elo1 [Ebrk1 [Ehi1 Ehl1]]] [Hfirst1 Hf1]]]]].
  { cbn [total]. intros n _ Hr. lia. }
  fold bp in Hrun1, Hf1. cbn [total] in Hrun1, R1, Hf1.
  replace (csize + 0) with csize in Hrun1, R1, Hf1 by lia.
  rewrite Efl in R1.
  destruct (listRemove_Rep _ _ _ _ _ R1) as [s2 [Hrun2 [R2 [[Elo2 [Ebrk2 [Ehi2 Ehl2]]] Hf2]]]].
  assert (Elo : mem_start_brk s2 = mem_start_brk s) by (rewrite Elo2, Elo1; reflexivity).
  exists s2. split; [|split; [|fold bp; rewrite Efl, (remove_mid _ _ _ Hnd); exact R2]].
  - rewrite place_mark_bind. change (PACK csize 1) with (PACK csize (b2z true)).
    rewrite Hrun1. exact Hrun2.
  - exists (bs1 ++ (csize, true) :: bs2), (l1 ++ l2), csize.
    split; [exact R2|]. split; [|split; [|split; [|split; [|split]]]].
    + intros a sz' al Ha. rewrite Elo in Ha. apply Hnew in Ha.
      rewrite (in_remove_iff _ _ _ _ Hnd), <- Efl.
      destruct Ha as [Ha|[Ha|Ha]].
      * pose proof (layout_bounds _ _ _ _ _ Hs1 Ha).
        rewrite (Hidx a sz' al) by (apply Hold; auto). intuition lia.
      * injection Ha as -> _ ->. intuition discriminate.
      * pose proof (layout_bounds _ _ _ _ _ Hs2 Ha).
        rewrite (Hidx a sz' al) by (apply Hold; auto). intuition lia.
    + apply (adjacent_free_set_true _ _ _ _ Hadj).
    + unfold same_arena. rewrite Elo2, Elo1, Ebrk2, Ebrk1, Ehi2, Ehi1, Ehl2, Ehl1. auto.
    + rewrite Elo. apply Hnew. auto.
    + exact Hle.
    + intros a sz' Ha. rewrite Elo. assert (Ha' := Ha). apply Hold in Ha'.
      assert (Hpos : a + sz' <= bp \/ bp + csize <= a).
      { destruct Ha' as [Hc|[E|Hc]]; try discriminate.
        - pose proof (layout_bounds _ _ _ _ _ Hs1 Hc). lia.
        - pose proof (layout_bounds _ _ _ _ _ Hs2 Hc). lia. }
      pose proof (Rep_entry _ _ _ _ _ _ R0 Ha) as He.
      split.
      * apply Hnew. destruct Ha' as [Hc|[E|Hc]]; try discriminate; auto.
      * intros x Hx. rewrite Hf2, Hf1; [reflexivity|lia|].
        rewrite <- Efl.
        apply (extent_off_nodes s _ _ a sz' true _ x R0 Ha (rep_nodes _ _ _ R0)); [|lia].
        intros Hn. apply (Hidx a sz' true Ha) in Hn. discriminate.
Qed.

Lemma place_split s bs1 csize bs2 fl asize :
  Rep s (bs1 ++ (csize, false) :: bs2) fl ->
  index_ok s (bs1 ++ (csize, false) :: bs2) fl ->
  adjacent_free (flags (bs1 ++ (csize, false) :: bs2)) = false ->
  24 <= asize -> asize mod 8 = 0 -> 24 <= csize - asize ->
  exists s',
    (place_mark (mem_start_brk s + 16 + total bs1) asize ;;
     listRemove (mem_start_brk s + 16 + total bs1) ;;
     place_remainder (mem_start_brk s + 16 + total bs1) (csize - asize)) s = Ret tt s' /\
    placed s (bs1 ++ (csize, false) :: bs2) (mem_start_brk s + 16 + total bs1) asize s' /\
    Rep s' (bs1 ++ (asize, true) :: (csize - asize, false) :: bs2)
        (mem_start_brk s + 16 + total bs1 + asize
           :: remove Z.eq_dec (mem_start_brk s + 16 + total bs1) fl).
Proof.
  intros R Hidx Hadj Ha24 Ha8 Hrest.
  pose proof (layout_mid (mem_start_brk s + 16) bs1 csize false bs2) as Hbp.
  pose proof (Rep_entry _ _ _ _ _ _ R Hbp) as [Hb1 [Hb2 [Hb3 [Hb4 [Hb5 [Hbh Hbf]]]]]].
  pose proof (rep_sizes _ _ _ R) as Hs. apply size_ok_app in Hs as [Hs1 Hs].
  inversion Hs as [|? ? [Hc1 Hc2] Hs2]; subst. cbn [fst] in *.
  pose proof (rep_lo _ _ _ R) as Hlo. pose proof (rep_max _ _ _ R) as Hmax.
  pose proof (rep_addr _ _ _ R) as Haddr. pose proof (rep_small _ _ _ R) as Hsmall.
  pose proof (rep_nodup _ _ _ R) as Hnd.
  pose proof (rep_index _ _ _ R) as Hd. pose proof (rep_first _ _ _ R) as Hfirst.
  pose proof (rep_nodes _ _ _ R) as HN.
  pose proof (Rep_nodes_ok _ _ _ R) as Hok.
  pose proof (nodes_sep_entries _ _ _ _ R HN) as Hsep.
  pose proof (sub_mod8 _ _ Hc2 Ha8) as Hr8.
  destruct s as [m lo brk hi f hl]. norm in *.
  set (bp := lo + 16 + total bs1) in *. set (rest := csize - asize) in *.
  assert (Hold : forall e, In e (layout (lo + 16) (bs1 ++ (csize, false) :: bs2)) <->
            In e (layout (lo + 16) bs1) \/ e = (bp, csize, false) \/
            In e (layout (bp + csize) bs2)).
  { intros e. rewrite layout_app. cbn [layout]. rewrite in_app_iff. cbn [In]. fold bp.
    intuition auto. }
  assert (Hnew : forall e, In e (layout (lo + 16) (bs1 ++ [(asize, true); (rest, false)] ++ bs2)) <->
            In e (layout (lo + 16) bs1) \/ e = (bp, asize, true) \/
            e = (bp + asize, rest, false) \/ In e (layout (bp + csize) bs2)).
  { intros e. rewrite layout_app. cbn [layout app]. rewrite in_app_iff. cbn [In]. fold bp.
    replace (bp + asize + rest) with (bp + csize) by (unfold rest; lia).
    intuition (auto; congruence). }
  assert (Hin : In bp fl) by (apply (Hidx bp csize false Hbp); reflexivity).
  destruct (in_split _ _ Hin) as [l1 [l2 Efl]]. subst fl.
  (* where the nodes of the index are *)
  assert (Hwhere : forall n, In n (l1 ++ bp :: l2) -> n = bp \/ n + 24 <= bp \/ bp + csize <= n).
  { intros n Hn. destruct (HN n Hn) as [szn [aln Hi]]. apply Hold in Hi.
    destruct Hi as [Hc|[Hc|Hc]].
    - pose proof (layout_bounds _ _ _ _ _ Hs1 Hc). lia.
    - injection Hc as -> _ _. auto.
    - pose proof (layout_bounds _ _ _ _ _ Hs2 Hc). lia. }
  (* the two tag writes of place_mark *)
  set (m1 := store32 (store32 m (bp - 4) (asize + 1)) (bp + asize - 8) (asize + 1)).
  assert (Hm1 : forall x, x < bp - 4 \/ bp <= x < bp + asize - 8 \/ bp + asize - 4 <= x ->
                          m1 x = m x).
  { intros x Hx. unfold m1. rewrite !store32_other by lia. reflexivity. }
  assert (Hd1 : dseg m1 0 (l1 ++ bp :: l2) 0).
  { apply (dseg_frame m); [exact Hd|]. intros n y Hn Hy. apply Hm1.
    destruct (Hwhere n Hn) as [->|?]; lia. }
  assert (Hh1 : load32 m1 (bp - 4) = tag asize true).
  { unfold m1. rewrite load32_store32_other by lia. apply load32_store32.
    apply tag_range; [lia|exact Ha8]. }
  assert (Hf1 : load32 m1 (bp + asize - 8) = tag asize true).
  { unfold m1. apply load32_store32. apply tag_range; [lia|exact Ha8]. }
  (* the removal *)
  destruct (listRemove_raw m1 lo brk hi f hl l1 bp l2 Hd1 Hfirst Hnd Hok Hsep)
    as [m2 [Hrun2 [Hd2 Hm2]]]; [lia|lia|rewrite Hh1, tag_size by lia; lia|].
  assert (Hm2' : forall x, bp - 4 <= x < bp \/ bp + 16 <= x < bp + csize - 4 -> m2 x = m1 x).
  { intros x Hx. apply Hm2. intros n Hn. destruct (Hwhere n Hn) as [->|?]; lia. }
  (* the tags of the remainder *)
  set (nb := bp + asize) in *.
  set (m3 := store32 (store32 m2 (nb - 4) (rest + 0)) (nb + rest - 8) (rest + 0)).
  assert (Hm3 : forall x, x < nb - 4 \/ nb <= x < nb + rest - 8 \/ nb + rest - 4 <= x ->
                          m3 x = m2 x).
  { intros x Hx. unfold m3. rewrite !store32_other by lia. reflexivity. }
  assert (Hfl' : forall n, In n (l1 ++ l2) ->
            exists sz al, In (n, sz, al)
              (layout (lo + 16) (bs1 ++ [(asize, true); (rest, false)] ++ bs2))).
  { intros n Hn. apply (in_remove_iff _ _ _ _ Hnd) in Hn as [Hn Hne].
    destruct (HN n Hn) as [szn [aln Hi]]. exists szn, aln. apply Hnew. apply Hold in Hi.
    destruct Hi as [Hc|[Hc|Hc]]; auto. injection Hc as -> _ _. contradiction. }
  assert (R3 : Rep (mkHeap m3 lo brk hi (hd 0 (l1 ++ l2)) hl)
                   (bs1 ++ [(asize, true); (rest, false)] ++ bs2) (l1 ++ l2)).
  { change ((csize, false) :: bs2) with ([(csize, false)] ++ bs2) in R.
    apply (Rep_rebuild _ _ _ _ _ m3 [(asize, true); (rest, false)] (l1 ++ l2) (l1 ++ bp :: l2) R).
    - constructor; [split; cbn [fst]; lia|]. constructor; [split; cbn [fst]; lia|constructor].
    - cbn [total]. unfold rest. lia.
    - exact HN.
    - norm. cbn [total]. fold bp. intros x Hx Hoff.
      rewrite Hm3 by (unfold nb, rest; lia). rewrite Hm2 by exact Hoff.
      apply Hm1. lia.
    - norm. fold bp. cbn [layout]. fold nb. constructor; [|constructor; [|constructor]].
      + unfold tags_at. split.
        * rewrite <- Hh1. rewrite <- (load32_ext m2 m1) by (intros x Hx; apply Hm2'; lia).
          apply load32_ext. intros x Hx. apply Hm3. unfold nb. lia.
        * rewrite <- Hf1. rewrite <- (load32_ext m2 m1) by (intros x Hx; apply Hm2'; lia).
          apply load32_ext. intros x Hx. apply Hm3. unfold nb. lia.
      + unfold tags_at. change (tag rest false) with (rest + 0). unfold m3. split.
        * rewrite load32_store32_other by lia. apply load32_store32. lia.
        * apply load32_store32. lia.
    - apply (dseg_frame m2); [exact Hd2|]. intros n y Hn Hy. apply Hm3.
      apply (in_remove_iff _ _ _ _ Hnd) in Hn as [Hn Hne].
      destruct (Hwhere n Hn) as [->|?]; [contradiction|unfold nb, rest; lia].
    - apply (NoDup_remove_1 _ _ _ Hnd).
    - exact Hfl'. }
  (* the insertion of the remainder *)
  assert (Hnb : In (nb, rest, false)
                   (layout (lo + 16) (bs1 ++ [(asize, true); (rest, false)] ++ bs2)))
    by (apply Hnew; auto).
  assert (Hfresh : ~ In nb (l1 ++ l2)).
  { intros Hn. apply (in_remove_iff _ _ _ _ Hnd) in Hn as [Hn _].
    destruct (Hwhere nb Hn) as [?|?]; unfold nb in *; lia. }
  destruct (listInsert_Rep _ _ _ _ _ R3 Hnb Hfresh)
    as [s4 [Hrun4 [R4 [[Elo4 [Ebrk4 [Ehi4 Ehl4]]] Hf4]]]].
  norm in *.
  exists s4. split; [|split; [|rewrite (remove_mid _ _ _ Hnd); exact R4]].
  - rewrite place_mark_bind. rewrite retag_run by (auto; lia). fold m1.
    rewrite (bind_run _ _ _ _ _ Hrun2).
    unfold place_remainder, NEXT_BLKP, HDRP, WSIZE. steps.
    rewrite (load32_ext m2 m1) by (intros x Hx; apply Hm2'; lia).
    rewrite Hh1, tag_size by lia. fold nb.
    change (nb - 4) with (HDRP nb).
    rewrite retag_run by (auto; unfold nb, HDRP, WSIZE; lia).
    fold m3. exact Hrun4.
  - exists (bs1 ++ [(asize, true); (rest, false)] ++ bs2), (nb :: l1 ++ l2), asize.
    split; [exact R4|]. split; [|split; [|split; [|split; [|split]]]].
    + intros a sz' al Hi. rewrite Elo4 in Hi. apply Hnew in Hi. cbn [In].
      rewrite (in_remove_iff _ _ _ _ Hnd).
      destruct Hi as [Hi|[Hi|[Hi|Hi]]].
      * pose proof (layout_bounds _ _ _ _ _ Hs1 Hi).
        rewrite (Hidx a sz' al) by (apply Hold; auto). unfold nb. intuition lia.
      * injection Hi as -> _ ->. unfold nb. intuition (try discriminate; lia).
      * injection Hi as -> _ ->. intuition auto.
      * pose proof (layout_bounds _ _ _ _ _ Hs2 Hi).
        rewrite (Hidx a sz' al) by (apply Hold; auto). unfold nb. intuition lia.
    + cbn [app]. apply (adjacent_free_split _ _ _ _ _ Hadj).
    + repeat split; assumption.
    + rewrite Elo4. apply Hnew. auto.
    + lia.
    + intros a sz' Hi. norm. rewrite Elo4. assert (Hi' := Hi). apply Hold in Hi'.
      assert (Hpos : a + sz' <= bp \/ bp + csize <= a).
      { destruct Hi' as [Hc|[E|Hc]]; try discriminate.
        - pose proof (layout_bounds _ _ _ _ _ Hs1 Hc). lia.
        - pose proof (layout_bounds _ _ _ _ _ Hs2 Hc). lia. }
      pose proof (Rep_entry _ _ _ _ _ _ R Hi) as He. norm in He.
      assert (Hnotin : ~ In a (l1 ++ bp :: l2)).
      { intros Hn. apply (Hidx a sz' true Hi) in Hn. discriminate. }
      assert (Hoff : forall n, In n (l1 ++ bp :: l2) ->
                forall x, a <= x < a + sz' - 8 -> x < n \/ n + 16 <= x).
      { intros n Hn x Hx.
        apply (extent_off_nodes _ _ _ a sz' true _ x R Hi HN Hnotin); [lia|exact Hn]. }
      split.
      * apply Hnew. destruct Hi' as [Hc|[E|Hc]]; try discriminate; auto.
      * intros x Hx. rewrite Hf4.
        -- norm. rewrite Hm3 by (unfold nb, rest; lia).
           rewrite Hm2 by (intros n Hn; apply (Hoff n Hn x Hx)).
           apply Hm1. lia.
        -- intros n [<-|Hn]; [unfold nb; lia|].
           apply (in_remove_iff _ _ _ _ Hnd) in Hn as [Hn _]. apply (Hoff n Hn x Hx).
Qed.

Lemma place_spec s bs fl bp csize asize :
  Rep s bs fl -> index_ok s bs fl -> adjacent_free (flags bs) = false ->
  In (bp, csize, false) (layout (mem_start_brk s + 16) bs) ->
  24 <= asize <= csize -> asize mod 8 = 0 ->
  exists s', place bp asize s = Ret tt s' /\ placed s bs bp asize s'.
Proof.
  intros R Hidx Hadj Hin Ha Ha8.
  pose proof (Rep_entry _ _ _ _ _ _ R Hin) as [Hb1 [Hb2 [Hb3 [Hb4 [Hb5 _]]]]].
  unfold place. rewrite (run_GET_SIZE_hdr _ _ _ _ _ _ _ R Hin).
  rewrite u32_small by lia.
  destruct (layout_split _ _ _ _ _ Hin) as [bs1 [bs2 [-> ->]]].
  destruct (Z.leb_spec 24 (csize - asize)) as [Hsplit|Hwhole].
  - destruct (place_split _ _ _ _ fl asize R Hidx Hadj) as [s' [H1 [H2 _]]];
      [lia|assumption|lia|exists s'; split; assumption].
  - destruct (place_whole _ _ _ _ fl asize R Hidx Hadj) as [s' [H1 [H2 _]]];
      [lia|exists s'; split; assumption].
Qed.

(* ----------------------------------------------------------------- *)
(** *** Walking a represented heap *)

Lemma walk_index_dseg s : forall l p fuel,
  dseg (mem s) p l 0 -> nodes_ok s l -> (length l < fuel)%nat ->
  walk_index fuel s (hd 0 l) = Some l.
Proof.
  induction l as [|n l IH]; intros p fuel Hd Hok Hlen.
  - destruct fuel; [inversion Hlen|]. reflexivity.
  - destruct fuel as [|k]; [inversion Hlen|]. cbn [length] in Hlen.
    cbn [hd walk_index]. cbn [dseg] in Hd. destruct Hd as [_ [Hn Hd]].
    destruct (Hok n ltac:(left; reflexivity)) as [Hn0 [Hn1 Hn2]].
    destruct (Z.eqb_spec n 0); [lia|].
    rewrite (proj2 (in_arena_iff s (n + 8) 8)) by lia.
    rewrite Hn. rewrite (IH n k Hd); [reflexivity| |lia].
    intros x Hx. apply Hok. right. exact Hx.
Qed.

Lemma Rep_index_nodes s bs fl fuel :
  Rep s bs fl -> (length fl < fuel)%nat ->
  index_nodes fuel s = Some fl /\ headers_in_arena s fl = true.
Proof.
  intros R Hlen. split.
  - unfold index_nodes. rewrite (rep_first _ _ _ R).
    apply (walk_index_dseg s fl 0); [apply R|apply (Rep_nodes_ok _ _ _ R)|exact Hlen].
  - unfold headers_in_arena. apply forallb_forall. intros n Hn.
    destruct (rep_nodes _ _ _ R n Hn) as [sz [al Hin]].
    pose proof (Rep_entry _ _ _ _ _ _ R Hin). apply in_arena_iff. lia.
Qed.

Lemma walk_blocks_layout s : forall bs a fuel,
  Forall (tags_at (mem s)) (layout a bs) -> Forall size_ok bs ->
  load32 (mem s) (a + total bs - 4) = tag 0 true ->
  mem_start_brk s <= a - 4 -> a + total bs <= mem_brk s -> a + total bs < a + 2 ^ 32 ->
  (length bs < fuel)%nat ->
  walk_blocks fuel s a = Some (layout a bs).
Proof.
  induction bs as [|[sz al] bs IH]; intros a fuel Ht Hs He Hlo Hhi Hsm Hlen.
  - destruct fuel; [inversion Hlen|]. cbn [walk_blocks layout total] in *.
    rewrite (proj2 (in_arena_iff s (a - 4) 4)) by lia.
    replace (a + 0 - 4) with (a - 4) in He by lia.
    rewrite He. reflexivity.
  - destruct fuel as [|k]; [inversion Hlen|]. cbn [length] in Hlen.
    cbn [walk_blocks layout total] in *.
    inversion Ht as [|? ? Htag Ht']; subst. unfold tags_at in Htag. destruct Htag as [Hh _].
    inversion Hs as [|? ? [Hz1 Hz2] Hs']; subst.
    cbn [fst] in *. pose proof (total_nonneg _ Hs').
    rewrite (proj2 (in_arena_iff s (a - 4) 4)) by lia.
    rewrite Hh, tag_size, tag_alloc by lia.
    destruct (Z.eqb_spec sz 0); [lia|].
    rewrite (IH (a + sz) k); try assumption; try lia.
    + destruct al; reflexivity.
    + replace (a + sz + total bs - 4) with (a + (sz + total bs) - 4) by lia. exact He.
Qed.

Lemma Rep_heap_blocks s bs fl fuel :
  Rep s bs fl -> (length bs < fuel)%nat ->
  heap_blocks fuel s = Some (layout (mem_start_brk s + 16) bs).
Proof.
  intros R Hlen. unfold heap_blocks. rewrite (rep_listp _ _ _ R).
  replace (mem_start_brk s + 8 + 8) with (mem_start_brk s + 16) by lia.
  pose proof (rep_brk _ _ _ R). pose proof (rep_small _ _ _ R).
  pose proof (rep_max _ _ _ R). pose proof (total_nonneg _ (rep_sizes _ _ _ R)).
  apply walk_blocks_layout; try apply R; try lia.
  replace (mem_start_brk s + 16 + total bs - 4) with (mem_brk s - 4) by lia. apply R.
Qed.

(* ----------------------------------------------------------------- *)
(** *** The fit selector on a represented heap *)

Lemma find_fit_spec s bs fl fuel asize :
  Rep s bs fl -> index_ok s bs fl -> (length fl < fuel)%nat ->
  exists r,
    find_fit fuel asize s = Ret r s /\
    (r = 0 \/ exists csize, In (r, csize, false) (layout (mem_start_brk s + 16) bs) /\
                            asize <= csize).
Proof.
  intros R Hidx Hlen.
  destruct (Rep_index_nodes _ _ _ _ R Hlen) as [Hw Hh].
  pose proof (find_fit_scan s asize fuel fl Hw Hh) as Hrun.
  pose proof (scan_sized_member s asize fl) as Hmem.
  set (r := scan asize (sized s fl) 0 2147483648) in *.
  exists r. split; [exact Hrun|].
  destruct (Z.eq_dec r 0) as [E|Hne]; [left; exact E|right].
  destruct (Hmem Hne) as [Hin Hsz].
  destruct (rep_nodes _ _ _ R r Hin) as [sz [al Hi]].
  pose proof (Rep_entry _ _ _ _ _ _ R Hi) as [_ [_ [? [? [? [Hhd _]]]]]].
  apply (Hidx r sz al Hi) in Hin. subst al.
  exists sz. split; [exact Hi|].
  unfold hsize in Hsz. rewrite Hhd, tag_size in Hsz by lia. exact Hsz.
Qed.

(* ----------------------------------------------------------------- *)
(** *** Allocation *)

Lemma adjust_size_ok n :
  0 < n -> n + 16 <= 2 ^ 31 ->
  n <= adjust_size n /\ 16 <= adjust_size n /\ adjust_size n mod 8 = 0 /\
  adjust_size n + 8 < 2 ^ 31.
Proof.
  intros Hn Hb. unfold adjust_size, DSIZE.
  destruct (Z.eqb_spec n 448) as [->|_]; [cbn; lia|].
  destruct (Z.eqb_spec n 112) as [->|_]; [cbn; lia|].
  destruct (Z.leb_spec n 8); [cbn; lia|].
  pose proof (Z.div_mod n 8 ltac:(lia)) as E.
  pose proof (Z.mod_pos_bound n 8 ltac:(lia)) as Hm.
  destruct (Z.eqb_spec (n mod 8) 0) as [E0|E0]; cbn [negb].
  - repeat split; lia.
  - rewrite u32_small by lia. split; [lia|]. split; [lia|]. split; [|lia].
    apply Z.mod_mul. lia.
Qed.

Lemma keeps_allocated_trans s bs s1 bs1 s2 bs2 :
  keeps_allocated s bs s1 bs1 -> keeps_allocated s1 bs1 s2 bs2 ->
  keeps_allocated s bs s2 bs2.
Proof.
  intros H1 H2 a sz Hin. destruct (H1 a sz Hin) as [Hin1 Hm1].
  destruct (H2 a sz Hin1) as [Hin2 Hm2]. split; [exact Hin2|].
  intros x Hx. rewrite Hm2, Hm1 by exact Hx. reflexivity.
Qed.

Lemma mm_malloc_spec s bs fl fuel n :
  Rep s bs fl -> index_ok s bs fl -> adjacent_free (flags bs) = false ->
  (length fl < fuel)%nat ->
  0 < n -> n + 16 <= 2 ^ 31 ->
  (mm_malloc fuel n s = Ret 0 s /\
   mem_max_addr s < mem_brk s + Z.max (adjust_size n + 8) 4096)
  \/
  (exists p s', mm_malloc fuel n s = Ret p s' /\ p <> 0 /\ allocated_by s bs n p s').
Proof.
  intros R Hidx Hadj Hlen Hn Hb.
  destruct (adjust_size_ok n Hn Hb) as [Ha1 [Ha2 [Ha3 Ha4]]].
  unfold mm_malloc. destruct (Z.eqb_spec n 0); [lia|].
  unfold DSIZE. rewrite (u32_small (adjust_size n + 8)) by lia.
  set (asize := adjust_size n + 8) in *.
  assert (Ha8 : asize mod 8 = 0) by (apply add_mod8; [exact Ha3|reflexivity]).
  destruct (find_fit_spec _ _ _ _ asize R Hidx Hlen) as [r [Hfit Hr]].
  rewrite (bind_run _ _ _ _ _ Hfit).
  destruct Hr as [->|[csize [Hin Hle]]].
  - (* no fit: extend the arena *)
    cbn [Z.eqb negb].
    assert (Eint : to_int asize = asize).
    { unfold to_int. rewrite u32_small by lia.
      destruct (Z.ltb_spec asize (2 ^ 31)); [reflexivity|lia]. }
    rewrite Eint. unfold MAX, CHUNKSIZE, WSIZE. change (Z.shiftl 1 12) with 4096.
    set (ext := if asize >? 4096 then asize else 4096).
    assert (Hext : ext = Z.max asize 4096).
    { unfold ext. destruct (Z.gtb_spec asize 4096); lia. }
    assert (Hext8 : ext mod 8 = 0).
    { unfold ext. destruct (asize >? 4096); [exact Ha8|reflexivity]. }
    rewrite u32_small by lia.
    pose proof (Z.div_mod ext 8 ltac:(lia)) as E8. rewrite Hext8 in E8.
    assert (Ew : ext / 4 = 2 * (ext / 8)).
    { symmetry. apply (Z.div_unique ext 4 (2 * (ext / 8)) 0); lia. }
    assert (Hwords : 6 <= ext / 4 < 2 ^ 29 - 1) by lia.
    assert (Esz : extend_size (ext / 4) = ext).
    { unfold extend_size, WSIZE. rewrite Ew.
      replace (2 * (ext / 8)) with ((ext / 8) * 2) at 1 by lia.
      rewrite Z.mod_mul by lia. cbn [Z.eqb negb]. rewrite u32_small by lia. lia. }
    destruct (extend_heap_spec _ _ _ (ext / 4) R Hidx Hadj Hwords)
      as [[Hfail Hrun]|[Hfit' [r [s1 [Hrun Hex]]]]]; rewrite Esz in *.
    + left. split; [|lia]. rewrite (bind_run _ _ _ _ _ Hrun). reflexivity.
    + right.
      destruct Hex as [bs1 [fl1 [R1 [Hidx1 [Hadj1 [Elo1 [Ehi1 [Ehl1 [Ebrk1 [[rsz [Hr1 Hrsz]] Hkeep1]]]]]]]]]].
      pose proof (Rep_entry _ _ _ _ _ _ R1 Hr1) as [Hr2 _].
      pose proof (rep_lo _ _ _ R1) as Hlo1.
      destruct (place_spec _ _ _ r rsz asize R1 Hidx1 Hadj1 Hr1 ltac:(lia) Ha8)
        as [s2 [Hrun2 [bs2 [fl2 [sz' [R2 [Hidx2 [Hadj2 [[Elo2 [Ebrk2 [Ehi2 Ehl2]]] [Hp [Hsz Hkeep2]]]]]]]]]]].
      exists r, s2. rewrite (bind_run _ _ _ _ _ Hrun).
      destruct (Z.eqb_spec r 0); [lia|]. rewrite (bind_run _ _ _ _ _ Hrun2).
      split; [reflexivity|]. split; [lia|].
      exists bs2, fl2, sz'.
      repeat (split; [first [assumption|congruence|lia]|]).
      split; [apply (keeps_allocated_trans _ _ _ _ _ _ Hkeep1 Hkeep2)|].
      intros sz0 Hc. destruct (Hkeep1 r sz0 Hc) as [Hc1 _].
      destruct (entry_unique _ _ _ _ _ _ _ _ R1 Hc1 Hr1) as [_ ?]. discriminate.
  - (* a fit was found *)
    pose proof (Rep_entry _ _ _ _ _ _ R Hin) as [Hr2 _].
    pose proof (rep_lo _ _ _ R) as Hlo.
    right.
    destruct (place_spec _ _ _ r csize asize R Hidx Hadj Hin ltac:(lia) Ha8)
      as [s2 [Hrun2 [bs2 [fl2 [sz' [R2 [Hidx2 [Hadj2 [[Elo2 [Ebrk2 [Ehi2 Ehl2]]] [Hp [Hsz Hkeep2]]]]]]]]]]].
    exists r, s2. destruct (Z.eqb_spec r 0); [lia|]. cbn [negb].
    rewrite (bind_run _ _ _ _ _ Hrun2).
    split; [reflexivity|]. split; [lia|].
    exists bs2, fl2, sz'.
    repeat (split; [first [assumption|congruence|lia]|]).
    intros sz0 Hc.
    destruct (entry_unique _ _ _ _ _ _ _ _ R Hc Hin) as [_ ?]. discriminate.
Qed.

(* ----------------------------------------------------------------- *)
(** *** Writes into the payload of an allocated block *)

Lemma Rep_payload_change s bs fl p sz m' :
  Rep s bs fl -> index_ok s bs fl ->
  In (p, sz, true) (layout (mem_start_brk s + 16) bs) ->
  (forall x, x < p \/ p + sz - 8 <= x -> m' x = mem s x) ->
  Rep (set_mem s m') bs fl.
Proof.
  intros R Hidx Hin Hf.
  pose proof (Rep_entry _ _ _ _ _ _ R Hin) as [Hb1 [Hb2 [Hb3 [Hb4 [Hb5 [Hh Hft]]]]]].
  destruct (layout_split _ _ _ _ _ Hin) as [bs1 [bs2 [-> ->]]].
  change ((sz, true) :: bs2) with ([(sz, true)] ++ bs2) in *.
  pose proof (Rep_rebuild s bs1 [(sz, true)] bs2 fl m' [(sz, true)] fl [] R) as R'.
  rewrite <- (rep_first _ _ _ R) in R'.
  apply R'; clear R'.
  - pose proof (rep_sizes _ _ _ R) as Hs. apply size_ok_app in Hs as [_ Hs].
    apply size_ok_app in Hs as [Hs _]. exact Hs.
  - reflexivity.
  - intros n [].
  - cbn [total]. intros x Hx _. apply Hf. lia.
  - cbn [layout]. constructor; [|constructor]. unfold tags_at. split.
    + rewrite <- Hh. apply load32_ext. intros x Hx. apply Hf. lia.
    + rewrite <- Hft. apply load32_ext. intros x Hx. apply Hf. lia.
  - apply (dseg_frame (mem s)); [apply R|]. intros n y Hn Hy. apply Hf.
    destruct (rep_nodes _ _ _ R n Hn) as [szn [aln Hi]].
    pose proof (Rep_entry _ _ _ _ _ _ R Hi).
    destruct (entries_sep _ _ _ _ _ _ _ _ _ R Hin Hi) as [[E [_ Ea]]|?]; [|lia].
    subst n aln. apply (Hidx _ _ _ Hi) in Hn. discriminate.
  - apply R.
  - apply (rep_nodes _ _ _ R).
Qed.

(* ----------------------------------------------------------------- *)
(** *** Initialisation *)

Lemma mm_init_spec s0 :
  mem_brk s0 = mem_start_brk s0 -> 0 <= mem_start_brk s0 ->
  mem_max_addr s0 - mem_start_brk s0 < 2 ^ 31 -> mem_max_addr s0 < 2 ^ 64 ->
  mem_start_brk s0 + 16 + 4096 <= mem_max_addr s0 ->
  exists s, mm_init s0 = Ret 0 s /\ Inv s /\
            mem_start_brk s = mem_start_brk s0 /\ mem_max_addr s = mem_max_addr s0.
Proof.
  intros Hbrk Hlo Hsmall Haddr Hroom.
  destruct s0 as [m lo brk hi f hl]. norm in *. subst brk.
  set (m1 := store32 (store32 (store32 (store32 m lo 0) (lo + 4) (tag 8 true))
                              (lo + 8) (tag 8 true)) (lo + 12) (tag 0 true)).
  set (s1 := mkHeap m1 lo (lo + 16) hi 0 (lo + 8)).
  assert (R1 : Rep s1 [] []).
  { unfold s1, m1. constructor; norm; cbn [total layout dseg hd]; try lia; auto.
    - rewrite !load32_store32_other by lia. apply load32_store32. cbn. lia.
    - rewrite !load32_store32_other by lia. apply load32_store32. cbn. lia.
    - replace (lo + 16 - 4) with (lo + 12) by lia. apply load32_store32. cbn. lia.
    - constructor.
    - intros n []. }
  assert (Hrun : forall k : M Z, 
    (put_firstlist 0 ;; h <- mem_sbrk (4 * WSIZE) ;; put_heap_listp h ;;
     if h =? -1 then ret (-1)
     else PUT h 0 ;; PUT (h + WSIZE) (PACK DSIZE 1) ;; PUT (h + 2 * WSIZE) (PACK DSIZE 1) ;;
          PUT (h + 3 * WSIZE) (PACK 0 1) ;; put_heap_listp (h + 2 * WSIZE) ;; k)
      (mkHeap m lo lo hi f hl) = k s1).
  { intros k. unfold WSIZE, DSIZE. step. unfold bind at 1. unfold mem_sbrk. norm.
    change (4 * 4) with 16.
    destruct (Z.ltb_spec 16 0); [lia|]. destruct (Z.ltb_spec hi (lo + 16)); [lia|].
    cbn [orb]. unfold bind at 1. unfold put_heap_listp at 1. norm.
    destruct (Z.eqb_spec lo (-1)); [lia|].
    steps. unfold bind, put_heap_listp. norm. reflexivity. }
  unfold mm_init. rewrite Hrun. unfold CHUNKSIZE, WSIZE.
  change (Z.shiftl 1 12 / 4) with 1024.
  destruct (extend_heap_spec s1 [] [] 1024 R1) as [[Hfail _]|[_ [r [s2 [Hrun2 Hex]]]]].
  - intros a sz al [].
  - reflexivity.
  - lia.
  - change (extend_size 1024) with 4096 in Hfail. unfold s1 in Hfail. norm in Hfail. lia.
  - rewrite (bind_run _ _ _ _ _ Hrun2).
    destruct Hex as [bs' [fl' [R2 [Hidx2 [Hadj2 [Elo [Ehi [_ [_ [[rsz [Hr _]] _]]]]]]]]]].
    pose proof (Rep_entry _ _ _ _ _ _ R2 Hr). pose proof (rep_lo _ _ _ R2).
    destruct (Z.eqb_spec r 0); [lia|].
    exists s2. split; [reflexivity|]. split; [exists bs', fl'; auto|].
    unfold s1 in Elo, Ehi. norm in *. auto.
Qed.

(* ----------------------------------------------------------------- *)
(** *** Reallocation *)

Lemma adjacent_free_absorb bs1 c n bs2 :
  adjacent_free (flags (bs1 ++ (c, true) :: (n, false) :: bs2)) = false ->
  adjacent_free (flags (bs1 ++ (c + n, true) :: bs2)) = false.
Proof.
  rewrite !flags_app, !adjacent_free_app. cbn [flags map].
  rewrite !adjacent_free_cons. fold (flags bs2). cbn [hd snd].
  generalize (adjacent_free (flags bs1)) (adjacent_free (flags bs2))
             (last (flags bs1) true) (hd true (flags bs2)).
  intros x1 x2 x3 x4. destruct x1, x2, x3, x4; cbn; intros H; try discriminate; auto.
Qed.

(** What [mm_realloc] reads before it decides, and the decision. *)
Lemma mm_realloc_reads s bs1 csize bs2 fl fuel n nsz nal :
  Rep s (bs1 ++ (csize, true) :: bs2) fl ->
  hd (0, true) bs2 = (nsz, nal) ->
  0 <= n -> n + 16 <= 2 ^ 31 ->
  mm_realloc fuel (mem_start_brk s + 16 + total bs1) n s
  = (if csize >? n + 8 then ret (mem_start_brk s + 16 + total bs1)
     else if (b2z nal =? 0) && (csize + nsz >=? n + 8) then
       listRemove (mem_start_brk s + 16 + total bs1 + csize) ;;
       PUT (HDRP (mem_start_brk s + 16 + total bs1)) (PACK (csize + nsz) 1) ;;
       f <- FTRP (mem_start_brk s + 16 + total bs1) ;;
       PUT f (PACK (csize + nsz) 1) ;;
       ret (mem_start_brk s + 16 + total bs1)
     else
       newp <- mm_malloc fuel n ;;
       if newp =? 0 then fun _ => Exit
       else
         copySize <- GET_SIZE (HDRP (mem_start_brk s + 16 + total bs1)) ;;
         memcpy newp (mem_start_brk s + 16 + total bs1)
                (if n <? copySize then n else copySize) ;;
         mm_free (mem_start_brk s + 16 + total bs1) ;;
         ret newp) s.
Proof.
  intros R Hhd Hn Hb.
  destruct (next_tag _ _ _ _ _ _ R) as [nsz' [nal' [Hhd' [Hnh [Hnr Hn8]]]]].
  rewrite Hhd in Hhd'. injection Hhd' as <- <-.
  pose proof (layout_mid (mem_start_brk s + 16) bs1 csize true bs2) as Hp.
  pose proof (Rep_entry _ _ _ _ _ _ R Hp) as [Hb1 [Hb2 [Hb3 [Hb4 [Hb5 _]]]]].
  unfold mm_realloc.
  rewrite (run_NEXT_BLKP _ _ _ _ _ _ _ R Hp).
  unfold HDRP at 1. unfold WSIZE.
  rewrite bind_GET_ALLOC by (apply (Rep_in_arena _ _ _ _ _ R); lia).
  rewrite (alloc_of_tag _ _ nsz nal) by (try exact Hnh; lia).
  unfold HDRP at 1. unfold WSIZE.
  rewrite bind_GET_SIZE by (apply (Rep_in_arena _ _ _ _ _ R); lia).
  rewrite (size_of_tag _ _ nsz nal) by (try exact Hnh; lia).
  rewrite (run_GET_SIZE_hdr _ _ _ _ _ _ _ R Hp).
  cbv zeta. unfold DSIZE. rewrite !u32_small by lia. reflexivity.
Qed.

(** In-place growth: the free successor is absorbed. *)
Lemma mm_realloc_grow s bs1 csize nsz bs2 fl :
  Rep s (bs1 ++ (csize, true) :: (nsz, false) :: bs2) fl ->
  index_ok s (bs1 ++ (csize, true) :: (nsz, false) :: bs2) fl ->
  adjacent_free (flags (bs1 ++ (csize, true) :: (nsz, false) :: bs2)) = false ->
  exists s',
    (listRemove (mem_start_brk s + 16 + total bs1 + csize) ;;
     PUT (HDRP (mem_start_brk s + 16 + total bs1)) (PACK (csize + nsz) 1) ;;
     f <- FTRP (mem_start_brk s + 16 + total bs1) ;;
     PUT f (PACK (csize + nsz) 1) ;;
     ret (mem_start_brk s + 16 + total bs1)) s
    = Ret (mem_start_brk s + 16 + total bs1) s' /\
    Inv s' /\ same_arena s s' /\
    (forall x, mem_start_brk s + 16 + total bs1 <= x
               < mem_start_brk s + 16 + total bs1 + csize - 8 -> mem s' x = mem s x) /\
    (exists fl', Rep s' (bs1 ++ (csize + nsz, true) :: bs2) fl') /\
    (forall a sz',
       In (a, sz', true)
          (layout (mem_start_brk s + 16) (bs1 ++ (csize, true) :: (nsz, false) :: bs2)) ->
       a <> mem_start_brk s + 16 + total bs1 ->
       forall x, a <= x < a + sz' - 8 -> mem s' x = mem s x).
Proof.
  intros R Hidx Hadj.
  set (lo := mem_start_brk s) in *. set (bp := lo + 16 + total bs1) in *.
  assert (Hold : forall e, In e (layout (lo + 16) (bs1 ++ (csize, true) :: (nsz, false) :: bs2)) <->
            In e (layout (lo + 16) bs1) \/ e = (bp, csize, true) \/
            e = (bp + csize, nsz, false) \/ In e (layout (bp + csize + nsz) bs2)).
  { intros e. change ((nsz, false) :: bs2) with ([(nsz, false)] ++ bs2).
    rewrite in_layout_parts. fold bp. cbn [layout In total].
    rewrite Z.add_0_r. intuition (auto; congruence). }
  assert (Hnew : forall e, In e (layout (lo + 16) (bs1 ++ (csize + nsz, true) :: bs2)) <->
            In e (layout (lo + 16) bs1) \/ e = (bp, csize + nsz, true) \/
            In e (layout (bp + csize + nsz) bs2)).
  { intros e. rewrite layout_app. cbn [layout]. rewrite in_app_iff. cbn [In]. fold bp.
    replace (bp + (csize + nsz)) with (bp + csize + nsz) by lia. intuition auto. }
  pose proof (rep_sizes _ _ _ R) as Hs.
  apply size_ok_app in Hs as [Hs1 Hs]. inversion Hs as [|? ? [Hz1 Hz2] Hs']; subst.
  inversion Hs' as [|? ? [Hn1 Hn2] Hs2]; subst. cbn [fst] in *.
  assert (Hnb : In (bp + csize) fl).
  { apply (Hidx (bp + csize) nsz false); [apply Hold; auto|reflexivity]. }
  assert (Hbpn : ~ In bp fl).
  { intros Hn. apply (Hidx bp csize true) in Hn; [discriminate|apply Hold; auto]. }
  destruct (in_split _ _ Hnb) as [l1 [l2 Efl]].
  pose proof (rep_nodup _ _ _ R) as Hnd. rewrite Efl in Hnd.
  pose proof (rep_nodes _ _ _ R) as HN. fold lo in HN.
  assert (R0 := R). rewrite Efl in R.
  destruct (listRemove_Rep _ _ _ _ _ R) as [s1 [Hrun1 [R1 [[Elo1 [Ebrk1 [Ehi1 Ehl1]]] Hf1]]]].
  change ((nsz, false) :: bs2) with ([(nsz, false)] ++ bs2) in R1.
  destruct (retag_step (B := Z) s1 bs1 csize true [(nsz, false)] bs2 (l1 ++ l2) true
              (ret bp) R1)
    as [s2 [Hrun2 [R2 [[Elo2 [Ebrk2 [Ehi2 Ehl2]]] [Hfirst2 Hf2]]]]].
  { rewrite Elo1. fold lo bp. cbn [total]. intros n Hn Hr.
    apply (in_remove_iff _ _ _ _ Hnd) in Hn as [Hn Hne]. rewrite <- Efl in Hn.
    destruct (HN n Hn) as [szn [aln Hi]]. apply Hold in Hi.
    destruct Hi as [Hc|[Hc|[Hc|Hc]]].
    - pose proof (layout_bounds _ _ _ _ _ Hs1 Hc). lia.
    - injection Hc as -> _ _. lia.
    - injection Hc as -> _ _. contradiction.
    - pose proof (layout_bounds _ _ _ _ _ Hs2 Hc). lia. }
  rewrite Elo1 in Hrun2, Hf2. fold lo bp in Hrun2, Hf2. cbn [total] in Hrun2, R2, Hf2.
  replace (csize + (nsz + 0)) with (csize + nsz) in Hrun2, R2, Hf2 by lia.
  assert (Elo : mem_start_brk s2 = lo) by (rewrite Elo2, Elo1; reflexivity).
  exists s2. split; [|split; [|split; [|split; [|split]]]];
    [| | | |exists (l1 ++ l2); exact R2|].
  - rewrite (bind_run _ _ _ _ _ Hrun1).
    change (PACK (csize + nsz) 1) with (PACK (csize + nsz) (b2z true)).
    rewrite Hrun2. reflexivity.
  - exists (bs1 ++ (csize + nsz, true) :: bs2), (l1 ++ l2).
    split; [exact R2|]. split.
    + intros a sz' al Hi. rewrite Elo in Hi. apply Hnew in Hi.
      rewrite (in_remove_iff _ _ _ _ Hnd), <- Efl.
      destruct Hi as [Hi|[Hi|Hi]].
      * pose proof (layout_bounds _ _ _ _ _ Hs1 Hi).
        rewrite (Hidx a sz' al) by (apply Hold; auto). intuition lia.
      * injection Hi as -> _ ->. intuition (try discriminate; contradiction).
      * pose proof (layout_bounds _ _ _ _ _ Hs2 Hi).
        rewrite (Hidx a sz' al) by (apply Hold; auto). intuition lia.
    + apply (adjacent_free_absorb _ _ _ _ Hadj).
  - unfold same_arena. rewrite Elo2, Elo1, Ebrk2, Ebrk1, Ehi2, Ehi1, Ehl2, Ehl1. auto.
  - intros x Hx. rewrite Hf2 by lia. apply Hf1. rewrite <- Efl.
    assert (Hp : In (bp, csize, true) (layout (lo + 16) (bs1 ++ (csize, true) :: (nsz, false) :: bs2)))
      by (apply Hold; auto).
    apply (extent_off_nodes s _ _ bp csize true _ x R0 Hp HN Hbpn). lia.
  - intros a sz' Ha Hne x Hx. assert (Ha' := Ha). apply Hold in Ha'.
    assert (Hpos : a + sz' <= bp \/ bp + csize + nsz <= a).
    { destruct Ha' as [Hc|[E|[E|Hc]]]; try discriminate.
      - pose proof (layout_bounds _ _ _ _ _ Hs1 Hc). lia.
      - injection E as E _. contradiction.
      - pose proof (layout_bounds _ _ _ _ _ Hs2 Hc). lia. }
    pose proof (Rep_entry _ _ _ _ _ _ R0 Ha) as He.
    rewrite Hf2 by lia. apply Hf1. rewrite <- Efl.
    apply (extent_off_nodes s _ _ a sz' true _ x R0 Ha HN); [|lia].
    intros Hn. apply (Hidx a sz' true Ha) in Hn. discriminate.
Qed.

Lemma relocate_spec s bs fl fuel ptr csize n :
  Rep s bs fl -> index_ok s bs fl -> adjacent_free (flags bs) = false ->
  (length fl < fuel)%nat ->
  In (ptr, csize, true) (layout (mem_start_brk s + 16) bs) ->
  0 < n -> n + 16 <= 2 ^ 31 ->
  (mm_malloc fuel n s = Ret 0 s /\ relocate fuel ptr n s = Exit)
  \/
  (exists newp s1 s',
     mm_malloc fuel n s = Ret newp s1 /\ newp <> 0 /\
     (memcpy newp ptr (Z.min n csize) ;; mm_free ptr) s1 = Ret tt s' /\
     relocate fuel ptr n s = Ret newp s' /\
     Inv s' /\
     mem_start_brk s' = mem_start_brk s /\ mem_max_addr s' = mem_max_addr s /\
     (forall i, 0 <= i < Z.min n (csize - 8) -> mem s' (newp + i) = mem s (ptr + i))).
Proof.
  intros R Hidx Hadj Hlen Hptr Hn Hb.
  destruct (adjust_size_ok n Hn Hb) as [Ha1 _].
  destruct (mm_malloc_spec _ _ _ _ n R Hidx Hadj Hlen Hn Hb)
    as [[Hrun _]|[newp [s1 [Hrun [Hne Hal]]]]].
  - left. split; [exact Hrun|]. unfold relocate. rewrite (bind_run _ _ _ _ _ Hrun). reflexivity.
  - right.
    destruct Hal as [bs1 [fl1 [sz' [R1 [Hidx1 [Hadj1 [Elo1 [Ehi1 [Ehl1 [Hbrk1 [Hnew [Hsz [Hkeep Hnot]]]]]]]]]]]]].
    destruct (Hkeep ptr csize Hptr) as [Hptr1 Hpay].
    pose proof (Rep_entry _ _ _ _ _ _ R1 Hptr1) as [Hp1 [Hp2 [Hp3 _]]].
    pose proof (Rep_entry _ _ _ _ _ _ R1 Hnew) as [Hq1 [Hq2 [Hq3 _]]].
    assert (Hsep : ptr + csize <= newp \/ newp + sz' <= ptr).
    { destruct (entries_sep _ _ _ _ _ _ _ _ _ R1 Hptr1 Hnew) as [[E [E' _]]|?]; [|assumption].
      exfalso. subst newp. apply (Hnot csize). exact Hptr. }
    set (cs := Z.min n csize).
    assert (Ecs : (if n <? csize then n else csize) = cs).
    { unfold cs. destruct (Z.ltb_spec n csize); lia. }
    set (s2 := set_mem s1 (copy_bytes (mem s1) newp ptr cs)).
    assert (Hcopy : memcpy newp ptr cs s1 = Ret tt s2).
    { unfold memcpy.
      rewrite (proj2 (in_arena_iff s1 newp cs)) by (unfold cs; lia).
      rewrite (proj2 (in_arena_iff s1 ptr cs)) by (unfold cs; lia).
      cbn [andb].
      destruct (Z.leb_spec (newp + cs) ptr); [reflexivity|].
      destruct (Z.leb_spec (ptr + cs) newp); [reflexivity|]. unfold cs in *. lia. }
    assert (R2 : Rep s2 bs1 fl1).
    { apply (Rep_payload_change s1 bs1 fl1 newp sz'); try assumption.
      intros x Hx. apply copy_bytes_other. unfold cs. lia. }
    assert (Hidx2 : index_ok s2 bs1 fl1) by exact Hidx1.
    assert (Hptr2 : In (ptr, csize, true) (layout (mem_start_brk s2 + 16) bs1)) by exact Hptr1.
    destruct (mm_free_spec _ _ _ _ _ R2 Hidx2 Hadj1 Hptr2) as [s3 [Hfree Hfr]].
    destruct Hfr as [bs3 [fl3 [R3 [Hidx3 [Hadj3 [[Elo3 [Ebrk3 [Ehi3 Ehl3]]] Hkeep3]]]]]].
    exists newp, s1, s3.
    split; [exact Hrun|]. split; [exact Hne|].
    split; [rewrite (bind_run _ _ _ _ _ Hcopy); exact Hfree|].
    split; [|split; [|split; [|split]]].
    + unfold relocate. rewrite (bind_run _ _ _ _ _ Hrun).
      destruct (Z.eqb_spec newp 0); [contradiction|].
      rewrite (run_GET_SIZE_hdr _ _ _ _ _ _ _ R1 Hptr1). rewrite Ecs.
      rewrite (bind_run _ _ _ _ _ Hcopy). rewrite (bind_run _ _ _ _ _ Hfree). reflexivity.
    + exists bs3, fl3. auto.
    + rewrite Elo3. exact Elo1.
    + rewrite Ehi3. exact Ehi1.
    + intros i Hi.
      assert (Hnew2 : In (newp, sz', true) (layout (mem_start_brk s2 + 16) bs1)) by exact Hnew.
      assert (Hnp : newp <> ptr) by lia.
      destruct (Hkeep3 newp sz' Hnew2 Hnp) as [_ Hk3].
      rewrite Hk3 by (unfold cs in *; lia).
      unfold s2. cbn [mem set_mem].
      rewrite copy_bytes_dst by (unfold cs; lia).
      replace (ptr + (newp + i - newp)) with (ptr + i) by lia.
      apply Hpay. lia.
Qed.

(* ----------------------------------------------------------------- *)
(** *** More fuel changes nothing *)

Lemma find_fit_loop_mono asize : forall k bp best bsz s r s',
  find_fit_loop k asize bp best bsz s = Ret r s' ->
  forall k', (k <= k')%nat -> find_fit_loop k' asize bp best bsz s = Ret r s'.
Proof.
  induction k as [|k IH]; intros bp best bsz s r s' H k' Hk; [discriminate|].
  destruct k' as [|k']; [inversion Hk|]. cbn [find_fit_loop] in *.
  destruct (bp =? 0); [exact H|].
  unfold bind in *.
  destruct (GET_SIZE (HDRP bp) s) as [sz s1| | |]; try discriminate.
  destruct (sz =? asize); [exact H|].
  destruct (get_next bp s1) as [n s2| | |]; try discriminate.
  destruct ((sz <? bsz) && (sz >? asize)); apply (IH _ _ _ _ _ _ H); apply le_S_n; exact Hk.
Qed.

Lemma mm_malloc_mono k n s r s' :
  mm_malloc k n s = Ret r s' ->
  forall k', (k <= k')%nat -> mm_malloc k' n s = Ret r s'.
Proof.
  intros H k' Hk. unfold mm_malloc, find_fit in *.
  destruct (n =? 0); [exact H|].
  unfold bind at 1 in H. unfold bind at 1.
  unfold bind at 1 in H. unfold bind at 1.
  destruct (get_firstlist s) as [f s0| | |]; try discriminate.
  destruct (find_fit_loop k _ f 0 2147483648 s0) as [b s1| | |] eqn:E; try discriminate.
  rewrite (find_fit_loop_mono _ _ _ _ _ _ _ _ E k' Hk). exact H.
Qed.

Lemma mm_realloc_mono k p n s r s' :
  mm_realloc k p n s = Ret r s' ->
  forall k', (k <= k')%nat -> mm_realloc k' p n s = Ret r s'.
Proof.
  intros H k' Hk. unfold mm_realloc in *.
  unfold bind at 1 in H. unfold bind at 1.
  destruct (NEXT_BLKP p s) as [nb s1| | |]; try discriminate.
  unfold bind at 1 in H. unfold bind at 1.
  destruct (GET_ALLOC (HDRP nb) s1) as [na s2| | |]; try discriminate.
  unfold bind at 1 in H. unfold bind at 1.
  destruct (GET_SIZE (HDRP nb) s2) as [ns s3| | |]; try discriminate.
  unfold bind at 1 in H. unfold bind at 1.
  destruct (GET_SIZE (HDRP p) s3) as [cs s4| | |]; try discriminate.
  cbv zeta in *.
  destruct (cs >? u32 (n + DSIZE)); [exact H|].
  destruct ((na =? 0) && (u32 (cs + ns) >=? u32 (n + DSIZE))); [exact H|].
  unfold bind at 1 in H. unfold bind at 1.
  destruct (mm_malloc k n s4) as [newp s5| | |] eqn:E; try discriminate.
  rewrite (mm_malloc_mono _ _ _ _ _ E k' Hk). exact H.
Qed.

Lemma walk_blocks_mono s : forall k a l,
  walk_blocks k s a = Some l ->
  forall k', (k <= k')%nat -> walk_blocks k' s a = Some l.
Proof.
  induction k as [|k IH]; intros a l H k' Hk; [discriminate|].
  destruct k' as [|k']; [inversion Hk|]. cbn [walk_blocks] in *.
  destruct (in_arena s (a - 4) 4); [|discriminate].
  destruct (Z.land (load32 (mem s) (a - 4)) (u32 (Z.lnot 7)) =? 0); [exact H|].
  destruct (walk_blocks k s _) as [l'|] eqn:E; [|discriminate].
  rewrite (IH _ _ E k' (le_S_n _ _ Hk)). exact H.
Qed.

Lemma heap_blocks_Rep s bs fl fuel l :
  Rep s bs fl -> heap_blocks fuel s = Some l ->
  l = layout (mem_start_brk s + 16) bs.
Proof.
  intros R H. unfold heap_blocks in *.
  pose proof (walk_blocks_mono _ _ _ _ H (Nat.max fuel (S (length bs))) (Nat.le_max_l _ _)) as H1.
  pose proof (Rep_heap_blocks s bs fl (Nat.max fuel (S (length bs))) R) as H2.
  unfold heap_blocks in H2. rewrite H2 in H1; [|apply Nat.le_max_r].
  injection H1 as <-. reflexivity.
Qed.

Lemma flags_layout a bs : map snd (layout a bs) = flags bs.
Proof.
  revert a. induction bs as [|[sz al] r IH]; intros a; [reflexivity|].
  cbn [layout map flags snd]. f_equal. apply IH.
Qed.

(* ================================================================= *)
(** ** The invariant holds on reachable states *)

Lemma allocated_Rep s bs fl p :
  Rep s bs fl -> allocated s p ->
  exists sz, In (p, sz, true) (layout (mem_start_brk s + 16) bs).
Proof.
  intros R [fuel [l [sz [Hw Hin]]]].
  rewrite (heap_blocks_Rep _ _ _ _ _ R Hw) in Hin. eauto.
Qed.

Lemma mm_realloc_Inv s bs fl fuel p csize n :
  Rep s bs fl -> index_ok s bs fl -> adjacent_free (flags bs) = false ->
  (length fl < fuel)%nat ->
  In (p, csize, true) (layout (mem_start_brk s + 16) bs) ->
  0 <= n -> n + 16 <= 2 ^ 31 ->
  forall q s', mm_realloc fuel p n s = Ret q s' -> Inv s'.
Proof.
  intros R Hidx Hadj Hlen Hin Hn Hb q s' Hrun.
  destruct (layout_split _ _ _ _ _ Hin) as [bs1 [bs2 [-> ->]]].
  destruct (hd (0, true) bs2) as [nsz nal] eqn:Hhd.
  rewrite (mm_realloc_reads _ _ _ _ _ _ _ nsz nal R Hhd Hn Hb) in Hrun.
  destruct (csize >? n + 8) eqn:Hkeep.
  - injection Hrun as _ <-. exists (bs1 ++ (csize, true) :: bs2), fl. auto.
  - destruct nal; cbn [b2z Z.eqb andb] in Hrun.
    + fold (relocate fuel (mem_start_brk s + 16 + total bs1) n) in Hrun.
      pose proof (Rep_entry _ _ _ _ _ _ R Hin) as [_ [_ [? _]]].
      destruct (Z.gtb_spec csize (n + 8)); [discriminate|].
      destruct (relocate_spec _ _ _ _ _ _ n R Hidx Hadj Hlen Hin ltac:(lia) Hb)
        as [[_ Hex]|[newp [s1 [s2 [_ [_ [_ [Hrel [HI _]]]]]]]]].
      * rewrite Hex in Hrun. discriminate.
      * rewrite Hrel in Hrun. injection Hrun as _ <-. exact HI.
    + destruct (csize + nsz >=? n + 8) eqn:Hgrow.
      * destruct bs2 as [|[nsz' nal'] bs2']; [discriminate|].
        cbn [hd] in Hhd. injection Hhd as -> ->.
        destruct (mm_realloc_grow _ _ _ _ _ _ R Hidx Hadj) as [s2 [Hg [HI _]]].
        rewrite Hg in Hrun. injection Hrun as _ <-. exact HI.
      * fold (relocate fuel (mem_start_brk s + 16 + total bs1) n) in Hrun.
        pose proof (Rep_entry _ _ _ _ _ _ R Hin) as [_ [_ [? _]]].
        destruct (Z.gtb_spec csize (n + 8)); [discriminate|].
        destruct (relocate_spec _ _ _ _ _ _ n R Hidx Hadj Hlen Hin ltac:(lia) Hb)
          as [[_ Hex]|[newp [s1 [s2 [_ [_ [_ [Hrel [HI _]]]]]]]]].
        -- rewrite Hex in Hrun. discriminate.
        -- rewrite Hrel in Hrun. injection Hrun as _ <-. exact HI.
Qed.

(** Every reachable state satisfies the invariant. *)
Lemma reachable_Inv s : reachable s -> Inv s.
Proof.
  induction 1 as [s0 s H1 H2 H3 H4 H5 Hrun
                 |s fuel n p s' _ IH Hn Hb Hrun
                 |s p s' _ IH Hp Hrun
                 |s fuel p n q s' _ IH Hp Hn Hb Hrun
                 |s fuel l p sz a v _ IH Hw Hin Ha].
  - destruct (mm_init_spec s0 H1 H2 H3 H4 H5) as [s1 [Hrun1 [HI _]]].
    rewrite Hrun1 in Hrun. injection Hrun as <-. exact HI.
  - destruct IH as [bs [fl [R [Hidx Hadj]]]].
    destruct (Z.eq_dec n 0) as [->|Hn0].
    { unfold mm_malloc in Hrun. cbn in Hrun. injection Hrun as _ <-.
      exists bs, fl. auto. }
    pose proof (mm_malloc_mono _ _ _ _ _ Hrun (Nat.max fuel (S (length fl)))
                  (Nat.le_max_l _ _)) as Hrun'.
    destruct (mm_malloc_spec s bs fl (Nat.max fuel (S (length fl))) n R Hidx Hadj)
      as [[Hnull _]|[p' [s'' [Hok [_ Hal]]]]]; try lia.
    + rewrite Hnull in Hrun'. injection Hrun' as _ <-. exists bs, fl. auto.
    + rewrite Hok in Hrun'. injection Hrun' as _ <-.
      destruct Hal as [bs' [fl' [sz' [R' [Hidx' [Hadj' _]]]]]]. exists bs', fl'. auto.
  - destruct IH as [bs [fl [R [Hidx Hadj]]]].
    destruct Hp as [->|Hp].
    { unfold mm_free in Hrun. cbn in Hrun. injection Hrun as <-. exists bs, fl. auto. }
    destruct (allocated_Rep _ _ _ _ R Hp) as [sz Hin].
    destruct (mm_free_spec _ _ _ _ _ R Hidx Hadj Hin) as [s1 [Hrun1 Hfr]].
    rewrite Hrun1 in Hrun. injection Hrun as <-.
    destruct Hfr as [bs' [fl' [R' [Hidx' [Hadj' _]]]]]. exists bs', fl'. auto.
  - destruct IH as [bs [fl [R [Hidx Hadj]]]].
    destruct (allocated_Rep _ _ _ _ R Hp) as [sz Hin].
    pose proof (mm_realloc_mono _ _ _ _ _ _ Hrun (Nat.max fuel (S (length fl)))
                  (Nat.le_max_l _ _)) as Hrun'.
    apply (mm_realloc_Inv s bs fl (Nat.max fuel (S (length fl))) p sz n R Hidx Hadj
             ltac:(lia) Hin Hn Hb q s' Hrun').
  - destruct IH as [bs [fl [R [Hidx Hadj]]]].
    rewrite (heap_blocks_Rep _ _ _ _ _ R Hw) in Hin.
    exists bs, fl. split; [|split; [exact Hidx|exact Hadj]].
    apply (Rep_payload_change s bs fl p sz); try assumption.
    intros x Hx. unfold upd. destruct (Z.eqb_spec x a); [lia|reflexivity].
Qed.

Lemma walk_index_mono s : forall k a l,
  walk_index k s a = Some l ->
  forall k', (k <= k')%nat -> walk_index k' s a = Some l.
Proof.
  induction k as [|k IH]; intros a l H k' Hk; [discriminate|].
  destruct k' as [|k']; [inversion Hk|]. cbn [walk_index] in *.
  destruct (a =? 0); [exact H|].
  destruct (in_arena s (a + 8) 8); [|discriminate].
  destruct (walk_index k s _) as [l'|] eqn:E; [|discriminate].
  rewrite (IH _ _ E k' (le_S_n _ _ Hk)). exact H.
Qed.

Lemma index_nodes_Rep s bs fl fuel idx :
  Rep s bs fl -> index_nodes fuel s = Some idx -> idx = fl.
Proof.
  intros R H. unfold index_nodes in *.
  pose proof (walk_index_mono _ _ _ _ H (Nat.max fuel (S (length fl))) (Nat.le_max_l _ _)) as H1.
  destruct (Rep_index_nodes s bs fl (Nat.max fuel (S (length fl))) R) as [H2 _]; [lia|].
  unfold index_nodes in H2. rewrite H2 in H1. injection H1 as <-. reflexivity.
Qed.

(** Both walks end on a state that satisfies the invariant, and they
    return the abstract block sequence and index. *)
Lemma Inv_walks s :
  Inv s ->
  exists bs fl fuel,
    Rep s bs fl /\ index_ok s bs fl /\ adjacent_free (flags bs) = false /\
    heap_blocks fuel s = Some (layout (mem_start_brk s + 16) bs) /\
    index_nodes fuel s = Some fl.
Proof.
  intros [bs [fl [R [Hidx Hadj]]]].
  exists bs, fl, (S (Nat.max (length bs) (length fl))).
  split; [exact R|]. split; [exact Hidx|]. split; [exact Hadj|]. split.
  - apply (Rep_heap_blocks _ _ _ _ R). lia.
  - apply (Rep_index_nodes _ _ _ _ R). lia.
Qed.

Lemma Inv_no_adjacent_free s : Inv s -> no_adjacent_free s.
Proof.
  intros HI. destruct (Inv_walks s HI) as [bs [fl [fuel [R [_ [Hadj [Hb _]]]]]]].
  exists fuel, (layout (mem_start_brk s + 16) bs).
  split; [exact Hb|]. rewrite flags_layout. exact Hadj.
Qed.

Lemma adjacent_free_pairs fs :
  adjacent_free fs = false <->
  forall l1 l2, fs <> l1 ++ false :: false :: l2.
Proof.
  induction fs as [|a1 r IH].
  - split; [|reflexivity]. intros _ l1 l2 E. destruct l1; discriminate.
  - destruct r as [|a2 r'].
    + split; [|reflexivity]. intros _ l1 l2 E.
      destruct l1 as [|? [|? ?]]; discriminate.
    + cbn [adjacent_free]. fold (adjacent_free (a2 :: r')).
      rewrite Bool.orb_false_iff, IH. split.
      * intros [Hh Ht] l1 l2 E. destruct l1 as [|x l1].
        -- cbn [app] in E. injection E as -> -> _. discriminate.
        -- cbn [app] in E. injection E as _ E. exact (Ht l1 l2 E).
      * intros H. split.
        -- destruct a1, a2; try reflexivity. exfalso. exact (H [] r' eq_refl).
        -- intros l1 l2 E. apply (H (a1 :: l1) l2). cbn [app]. rewrite E. reflexivity.
Qed.

(* ----------------------------------------------------------------- *)
(** *** Some reachable states *)

Lemma reachable_s_init : reachable s_init.
Proof.
  apply (reach_init heap0 s_init); try (vm_compute; first [reflexivity|discriminate]).
Qed.

Lemma reachable_s_one : reachable s_one.
Proof.
  apply (reach_malloc s_init 8 16 4112 s_one reachable_s_init);
    [lia|vm_compute; discriminate|vm_compute; reflexivity].
Qed.

Lemma reachable_s_two : reachable s_two.
Proof.
  apply (reach_malloc s_one 8 16 4136 s_two reachable_s_one);
    [lia|vm_compute; discriminate|vm_compute; reflexivity].
Qed.

Lemma reachable_s_three : reachable s_three.
Proof.
  apply (reach_malloc s_two 8 16 4160 s_three reachable_s_two);
    [lia|vm_compute; discriminate|vm_compute; reflexivity].
Qed.

Lemma allocated_s_three : allocated s_three 4112.
Proof.
  exists 8%nat, [(4112, 24, true); (4136, 24, true); (4160, 24, true); (4184, 4024, false)], 24.
  split; [vm_compute; reflexivity|left; reflexivity].
Qed.

Lemma reachable_s_hole : reachable s_hole.
Proof.
  apply (reach_free s_three 4112 s_hole reachable_s_three);
    [right; exact allocated_s_three|vm_compute; reflexivity].
Qed.

(* ================================================================= *)
(** ** The index and the allocated flags *)

(** C3: in every state between two public operations (after [mm_init],
    [mm_malloc], [mm_free] or [mm_realloc] has returned, for a client that
    keeps to the calling contract of [reachable]: an arena of less than
    2 GiB, requests of at most [2^31 - 16] bytes, [mm_free] and
    [mm_realloc] only of blocks it holds), the walk over the heap
    and the walk over the free index both end, and a block of the heap is
    a node of the index if and only if its allocated flag is clear.
    Consequently, between two such states, a block is in the index of
    both or of neither exactly when its flag is the same in both. *)
Theorem index_holds_exactly_the_free_blocks s :
  reachable s ->
  (exists fuel l idx,
     heap_blocks fuel s = Some l /\ index_nodes fuel s = Some idx /\
     forall a sz al, In (a, sz, al) l -> (In a idx <-> al = false)) /\
  (forall a al, block_flag s a al -> (indexed s a <-> al = false)) /\
  (forall s' a al al',
     reachable s' -> block_flag s a al -> block_flag s' a al' ->
     ((indexed s a <-> indexed s' a) <-> al = al')).
Proof.
  assert (Hkey : forall t, reachable t ->
            forall a al, block_flag t a al -> (indexed t a <-> al = false)).
  { intros t Ht a al [fuel [l [sz [Hw Hin]]]].
    destruct (Inv_walks t (reachable_Inv t Ht)) as [bs [fl [k [R [Hidx [_ [_ Hi]]]]]]].
    rewrite (heap_blocks_Rep _ _ _ _ _ R Hw) in Hin.
    rewrite <- (Hidx a sz al Hin). split.
    - intros [k' [idx [Hw' Hin']]].
      rewrite (index_nodes_Rep _ _ _ _ _ R Hw') in Hin'. exact Hin'.
    - intros Hin'. exists k, fl. split; assumption. }
  intros Hs. split; [|split].
  - destruct (Inv_walks s (reachable_Inv s Hs)) as [bs [fl [k [R [Hidx [_ [Hb Hi]]]]]]].
    exists k, (layout (mem_start_brk s + 16) bs), fl.
    split; [exact Hb|]. split; [exact Hi|]. exact Hidx.
  - exact (Hkey s Hs).
  - intros s' a al al' Hs' Hb Hb'.
    pose proof (Hkey s Hs a al Hb) as H1. pose proof (Hkey s' Hs' a al' Hb') as H2.
    destruct al, al'; intuition congruence.
Qed.

Lemma index_holds_exactly_the_free_blocks_witness :
  exists fuel l idx,
    heap_blocks fuel s_hole = Some l /\ index_nodes fuel s_hole = Some idx /\
    forall a sz al, In (a, sz, al) l -> (In a idx <-> al = false).
Proof.
  exact (proj1 (index_holds_exactly_the_free_blocks s_hole reachable_s_hole)).
Defined.

(* ================================================================= *)
(** ** No two free neighbours *)

(** C2: on every state reached under the calling contract of
    [reachable] (an arena of less than 2 GiB, requests of at most
    [2^31 - 16] bytes, [mm_free] and [mm_realloc] only of blocks the
    client holds), [mm_free] of a block the client holds (or of the null
    pointer) returns, and so does [extend_heap] (for the word counts the
    allocator passes to it, at least 6 words and less than 2 GiB); in the
    state each of them returns, no two physically adjacent blocks of the
    heap are both free. *)
Theorem free_and_extend_leave_no_free_neighbours s :
  reachable s ->
  (forall p, p = 0 \/ allocated s p ->
     exists s', mm_free p s = Ret tt s' /\ no_adjacent_free s') /\
  (forall words, 6 <= words < 2 ^ 29 - 1 ->
     exists r s', extend_heap words s = Ret r s' /\ no_adjacent_free s').
Proof.
  intros Hs. pose proof (reachable_Inv s Hs) as HI.
  assert (HI' := HI). destruct HI' as [bs [fl [R [Hidx Hadj]]]]. split.
  - intros p [->|Hp].
    + exists s. split; [reflexivity|]. apply Inv_no_adjacent_free. exact HI.
    + destruct (allocated_Rep _ _ _ _ R Hp) as [sz Hin].
      destruct (mm_free_spec _ _ _ _ _ R Hidx Hadj Hin) as [s' [Hrun Hfr]].
      exists s'. split; [exact Hrun|].
      destruct Hfr as [bs' [fl' [R' [Hidx' [Hadj' _]]]]].
      apply Inv_no_adjacent_free. exists bs', fl'. auto.
  - intros words Hw.
    destruct (extend_heap_spec _ _ _ words R Hidx Hadj Hw)
      as [[_ Hrun]|[_ [r [s' [Hrun Hex]]]]].
    + exists 0, s. split; [exact Hrun|]. apply Inv_no_adjacent_free. exact HI.
    + exists r, s'. split; [exact Hrun|].
      destruct Hex as [bs' [fl' [R' [Hidx' [Hadj' _]]]]].
      apply Inv_no_adjacent_free. exists bs', fl'. auto.
Qed.

Lemma allocated_s_hole : allocated s_hole 4136.
Proof.
  exists 8%nat, [(4112, 24, false); (4136, 24, true); (4160, 24, true); (4184, 4024, false)], 24.
  split; [vm_compute; reflexivity|right; left; reflexivity].
Qed.

Lemma free_and_extend_leave_no_free_neighbours_witness :
  (exists s', mm_free 4136 s_hole = Ret tt s' /\ no_adjacent_free s') /\
  (exists r s', extend_heap 1024 s_hole = Ret r s' /\ no_adjacent_free s').
Proof.
  destruct (free_and_extend_leave_no_free_neighbours s_hole reachable_s_hole) as [Hf He].
  split; [apply Hf; right; exact allocated_s_hole|apply He; lia].
Defined.

(* ================================================================= *)
(** ** Merging into a free predecessor *)

(** [coalesce] on a block with a free predecessor and an allocated
    successor comes down to two tag writes at the predecessor. *)
Lemma coalesce_free_alloc_run s bs1 psz sz bs2 fl :
  Fresh s (bs1 ++ [(psz, false)]) sz bs2 fl ->
  snd (hd (0, true) bs2) = true ->
  exists s',
    coalesce (mem_start_brk s + 16 + total bs1 + psz) s
      = Ret (mem_start_brk s + 16 + total bs1) s' /\
    Rep s' (bs1 ++ (psz + sz, false) :: bs2) fl /\
    same_arena s s' /\ firstlist s' = firstlist s /\
    (forall x, x < mem_start_brk s + 16 + total bs1 - 4 \/
               mem_start_brk s + 16 + total bs1 <= x
                 < mem_start_brk s + 16 + total bs1 + (psz + sz) - 8 \/
               mem_start_brk s + 16 + total bs1 + (psz + sz) - 4 <= x ->
               mem s' x = mem s x).
Proof.
  intros F Hh. assert (F' := F). destruct F' as [R [Hfresh _]].
  destruct (prev_tags _ _ _ _ _ R) as [psz' [pal [Hlast [Hpf [Hph [Hpr [Hp8 Hplo]]]]]]].
  rewrite last_snoc in Hlast. injection Hlast as <- <-.
  destruct (next_tag _ _ _ _ _ _ R) as [nsz [nal [Hhd [Hnh [Hnr Hn8]]]]].
  rewrite Hhd in Hh. cbn [snd] in Hh. subst nal.
  pose proof (layout_mid (mem_start_brk s + 16) (bs1 ++ [(psz, false)]) sz false bs2) as Hbp.
  pose proof (Rep_entry _ _ _ _ _ _ R Hbp) as [Hb1 [Hb2 [Hb3 [Hb4 [Hb5 _]]]]].
  assert (Ebp : mem_start_brk s + 16 + total (bs1 ++ [(psz, false)])
                = mem_start_brk s + 16 + total bs1 + psz)
    by (rewrite total_app; cbn [total]; lia).
  assert (Hlast : last (bs1 ++ [(psz, false)]) (8, true) = (psz, false))
    by apply last_snoc.
  rewrite <- Ebp.
  set (bp := mem_start_brk s + 16 + total (bs1 ++ [(psz, false)])) in *.
  unfold coalesce.
  rewrite (run_PREV_BLKP _ _ _ _ _ _ _ _ R Hlast). fold bp.
  unfold FTRP at 1. rewrite bind_assoc. unfold HDRP at 1. unfold WSIZE, DSIZE.
  rewrite bind_GET_SIZE by (apply (Rep_in_arena _ _ _ _ _ R); lia).
  rewrite (size_of_tag _ _ psz false) by (try exact Hph; lia). rewrite bind_ret_l.
  replace (bp - psz + psz - 8) with (bp - 8) by lia.
  rewrite bind_GET_ALLOC by (apply (Rep_in_arena _ _ _ _ _ R); lia).
  rewrite (alloc_of_tag _ _ psz false) by (try exact Hpf; lia).
  rewrite (run_NEXT_BLKP _ _ _ _ _ _ _ R Hbp).
  unfold HDRP at 1. unfold WSIZE.
  rewrite bind_GET_ALLOC by (apply (Rep_in_arena _ _ _ _ _ R); lia).
  rewrite (alloc_of_tag _ _ nsz true) by (try exact Hnh; lia).
  rewrite (run_GET_SIZE_hdr _ _ _ _ _ _ _ R Hbp).
  cbn [b2z Z.eqb negb andb].
  unfold HDRP at 1. unfold WSIZE.
  rewrite bind_GET_SIZE by (apply (Rep_in_arena _ _ _ _ _ R); lia).
  rewrite (size_of_tag _ _ psz false) by (try exact Hph; lia).
  cbv zeta.
  replace (bp - psz) with (mem_start_brk s + 16 + total bs1) by lia.
  rewrite <- app_assoc in R. cbn [app] in R.
  pose proof (rep_sizes _ _ _ R) as Hs.
  apply size_ok_app in Hs as [Hs1 Hs]. inversion Hs as [|? ? [Hp1 Hp2] Hs']; subst.
  inversion Hs' as [|? ? [Hz1 Hz2] Hs2]; subst. cbn [fst] in *.
  change ((sz, false) :: bs2) with ([(sz, false)] ++ bs2) in R.
  destruct (retag_step (B := Z) s bs1 psz false [(sz, false)] bs2 fl false
              (ret (mem_start_brk s + 16 + total bs1)) R)
    as [s' [Hrun [R' [Hsame [Hfirst Hframe]]]]].
  { cbn [total]. intros n Hn Hr.
    destruct (rep_nodes _ _ _ R n Hn) as [szn [aln Hin]].
    rewrite in_layout_parts in Hin. cbn [layout In total] in Hin.
    assert (n = bp).
    { destruct Hin as [Hc|[Hc|[[Hc|[]]|Hc]]].
      - pose proof (layout_bounds _ _ _ _ _ Hs1 Hc). lia.
      - injection Hc as -> _ _. lia.
      - injection Hc as <- _ _. lia.
      - pose proof (layout_bounds _ _ _ _ _ Hs2 Hc). lia. }
    subst n. exact (Hfresh Hn). }
  cbn [total] in Hrun, R', Hframe.
  replace (psz + (sz + 0)) with (psz + sz) in Hrun, R', Hframe by lia.
  exists s'. split; [|split; [exact R'|split; [exact Hsame|split; [exact Hfirst|exact Hframe]]]].
  rewrite u32_small by lia. replace (sz + psz) with (psz + sz) by lia. exact Hrun.
Qed.

(** C7: in an arena of less than 2 GiB (the bound [rep_small] of the
    representation that [Fresh] asserts), when [coalesce] is called on a
    block (marked free, not yet in the index) whose physical predecessor
    is free and whose physical successor is allocated, it returns the
    predecessor's address; the
    predecessor's header word and the footer word at the end of the
    merged block hold the sum of the two sizes with the allocated bit
    clear; every other byte of memory, the head of the index and the
    arena bounds are as before, so the index has the same nodes as
    before, the predecessor among them. *)
Theorem coalesce_merges_into_free_predecessor s bs1 psz sz bs2 fl fuel :
  Fresh s (bs1 ++ [(psz, false)]) sz bs2 fl ->
  snd (hd (0, true) bs2) = true ->
  (length fl < fuel)%nat ->
  exists s',
    coalesce (mem_start_brk s + 16 + total bs1 + psz) s
      = Ret (mem_start_brk s + 16 + total bs1) s' /\
    load32 (mem s') (mem_start_brk s + 16 + total bs1 - 4) = psz + sz /\
    load32 (mem s') (mem_start_brk s + 16 + total bs1 + (psz + sz) - 8) = psz + sz /\
    (forall x,
       ~ (mem_start_brk s + 16 + total bs1 - 4 <= x < mem_start_brk s + 16 + total bs1) ->
       ~ (mem_start_brk s + 16 + total bs1 + (psz + sz) - 8 <= x
          < mem_start_brk s + 16 + total bs1 + (psz + sz) - 4) ->
       mem s' x = mem s x) /\
    firstlist s' = firstlist s /\ same_arena s s' /\
    index_nodes fuel s = Some fl /\ index_nodes fuel s' = Some fl /\
    In (mem_start_brk s + 16 + total bs1) fl.
Proof.
  intros F Hh Hlen.
  destruct (coalesce_free_alloc_run _ _ _ _ _ _ F Hh)
    as [s' [Hrun [R' [Hsame [Hfirst Hframe]]]]].
  destruct F as [R [_ [Hidx _]]].
  assert (Hpb : In (mem_start_brk s + 16 + total bs1, psz, false)
                   (layout (mem_start_brk s + 16) ((bs1 ++ [(psz, false)]) ++ (sz, false) :: bs2))).
  { rewrite <- app_assoc. cbn [app]. apply layout_mid. }
  pose proof (Rep_entry _ _ _ _ _ _ R Hpb) as [_ [_ [Hp24 _]]].
  assert (Hnew : In (mem_start_brk s' + 16 + total bs1, psz + sz, false)
                    (layout (mem_start_brk s' + 16) (bs1 ++ (psz + sz, false) :: bs2)))
    by apply layout_mid.
  pose proof (Rep_entry _ _ _ _ _ _ R' Hnew) as [_ [_ [_ [_ [_ [Hh' Hf']]]]]].
  destruct Hsame as [Elo Hsame]. rewrite Elo in Hh', Hf'.
  unfold tag in Hh', Hf'. cbn [b2z] in Hh', Hf'. rewrite Z.add_0_r in Hh', Hf'.
  exists s'. split; [exact Hrun|]. split; [exact Hh'|]. split; [exact Hf'|].
  split; [intros x H1 H2; apply Hframe; lia|].
  split; [exact Hfirst|]. split; [split; [exact Elo|exact Hsame]|].
  split; [apply (Rep_index_nodes _ _ _ _ R Hlen)|].
  split; [apply (Rep_index_nodes _ _ _ _ R' Hlen)|].
  apply (Hidx _ psz false Hpb); [|reflexivity].
  rewrite total_app. cbn [total]. lia.
Qed.

Ltac by_vm := vm_compute; first [reflexivity | discriminate].

Lemma Fresh_s_marked :
  Fresh s_marked ([] ++ [(24, false)]) 24 [(24, true); (4024, false)] [4112; 4184].
Proof.
  unfold Fresh. split; [|split; [|split; [|split]]].
  - apply mkRep;
      [by_vm|by_vm|by_vm|by_vm|by_vm|by_vm|by_vm|by_vm|by_vm| | | |by_vm| | ].
    + repeat (apply Forall_cons; [split; by_vm|]). apply Forall_nil.
    + repeat (apply Forall_cons; [vm_compute; split; reflexivity|]). apply Forall_nil.
    + vm_compute. tauto.
    + repeat constructor; cbn; intuition discriminate.
    + intros n [<-|[<-|[]]].
      * exists 24, false. vm_compute. left. reflexivity.
      * exists 4024, false. vm_compute. do 3 right. left. reflexivity.
  - vm_compute. intuition discriminate.
  - intros a sz' al Hin Ha. vm_compute in Hin, Ha.
    destruct Hin as [E|[E|[E|[E|[]]]]]; injection E as <- <- <-.
    + split; [reflexivity|]. intros _. left. reflexivity.
    + exfalso. apply Ha. reflexivity.
    + split; [|discriminate]. cbn. intuition discriminate.
    + split; [reflexivity|]. intros _. right. left. reflexivity.
  - reflexivity.
  - reflexivity.
Qed.

Lemma coalesce_merges_into_free_predecessor_witness :
  exists s',
    coalesce 4136 s_marked = Ret 4112 s' /\
    load32 (mem s') 4108 = 48 /\ load32 (mem s') 4152 = 48 /\
    (forall x, ~ (4108 <= x < 4112) -> ~ (4152 <= x < 4156) ->
               mem s' x = mem s_marked x) /\
    firstlist s' = firstlist s_marked /\ same_arena s_marked s' /\
    index_nodes 3 s_marked = Some [4112; 4184] /\
    index_nodes 3 s' = Some [4112; 4184] /\ In 4112 [4112; 4184].
Proof.
  exact (coalesce_merges_into_free_predecessor s_marked [] 24 24
           [(24, true); (4024, false)] [4112; 4184] 3 Fresh_s_marked eq_refl
           (Nat.lt_succ_diag_r 2)).
Defined.

(* ================================================================= *)
(** ** Allocation and growth in place *)

Lemma held_Rep s bs fl p sz :
  Rep s bs fl -> (held s p sz <-> In (p, sz, true) (layout (mem_start_brk s + 16) bs)).
Proof.
  intros R. split.
  - intros [k [l [Hw Hin]]]. rewrite (heap_blocks_Rep _ _ _ _ _ R Hw) in Hin. exact Hin.
  - intros Hin. exists (S (length bs)), (layout (mem_start_brk s + 16) bs).
    split; [apply (Rep_heap_blocks _ _ _ _ R); lia|exact Hin].
Qed.

(** X1: on a reachable state a request of [n] bytes, [0 < n <= 2^31 - 16],
    either returns null and leaves the state as it was, the arena having
    no room for the extension, or returns the payload address of a block
    that is allocated in the new heap, has at least [n] payload bytes
    (its size is at least [n + 8]) and was not held before; every block
    held before is still held, with its size and payload bytes. *)
Theorem mm_malloc_bounded_request s n :
  reachable s -> 0 < n -> n + 16 <= 2 ^ 31 ->
  exists fuel0, forall fuel, (fuel0 <= fuel)%nat ->
    (mm_malloc fuel n s = Ret 0 s /\
     mem_max_addr s < mem_brk s + Z.max (adjust_size n + 8) 4096) \/
    (exists p s' sz,
       mm_malloc fuel n s = Ret p s' /\ p <> 0 /\
       held s' p sz /\ n + 8 <= sz /\ (forall sz0, ~ held s p sz0) /\
       forall q qsz, held s q qsz ->
         held s' q qsz /\ forall x, q <= x < q + qsz - 8 -> mem s' x = mem s x).
Proof.
  intros Hs Hn Hb.
  destruct (reachable_Inv s Hs) as [bs [fl [R [Hidx Hadj]]]].
  exists (S (length fl)). intros fuel Hfuel.
  destruct (mm_malloc_spec s bs fl fuel n R Hidx Hadj ltac:(lia) Hn Hb)
    as [H|[p [s' [Hrun [Hp Hal]]]]]; [left; exact H|right].
  destruct Hal as [bs' [fl' [sz' [R' [_ [_ [_ [_ [_ [_ [Hin [Hsz [Hkeep Hnew]]]]]]]]]]]]].
  destruct (adjust_size_ok n Hn Hb) as [Ha _].
  exists p, s', sz'. split; [exact Hrun|]. split; [exact Hp|].
  split; [apply (held_Rep _ _ _ _ _ R'); exact Hin|]. split; [lia|]. split.
  - intros sz0 Hh. apply (held_Rep _ _ _ _ _ R) in Hh. exact (Hnew sz0 Hh).
  - intros q qsz Hq. apply (held_Rep _ _ _ _ _ R) in Hq.
    destruct (Hkeep q qsz Hq) as [Hq' Hm].
    split; [apply (held_Rep _ _ _ _ _ R'); exact Hq'|exact Hm].
Qed.

Lemma mm_malloc_bounded_request_witness :
  exists fuel0, forall fuel, (fuel0 <= fuel)%nat ->
    (mm_malloc fuel 100 s_hole = Ret 0 s_hole /\
     mem_max_addr s_hole < mem_brk s_hole + Z.max (adjust_size 100 + 8) 4096) \/
    (exists p s' sz,
       mm_malloc fuel 100 s_hole = Ret p s' /\ p <> 0 /\
       held s' p sz /\ 100 + 8 <= sz /\ (forall sz0, ~ held s_hole p sz0) /\
       forall q qsz, held s_hole q qsz ->
         held s' q qsz /\ forall x, q <= x < q + qsz - 8 -> mem s' x = mem s_hole x).
Proof.
  apply (mm_malloc_bounded_request s_hole 100 reachable_s_hole); [lia|vm_compute; discriminate].
Defined.

(** X2: on a reachable state, for a held block at [ptr] of size [csize] that
    is not kept ([csize <= n + 8]) and whose successor is free with
    [n + 8 <= csize + nsz], [mm_realloc ptr n] returns [ptr]; the block
    then has size [csize + nsz] (the whole successor is absorbed, nothing
    is split off), the successor is no longer in the index, and the
    payload bytes are as before. *)
Theorem mm_realloc_grows_in_place s ptr csize nsz n fuel :
  reachable s ->
  (exists k l, heap_blocks k s = Some l /\
               In (ptr, csize, true) l /\ In (ptr + csize, nsz, false) l) ->
  0 <= n -> n + 16 <= 2 ^ 31 -> csize <= n + 8 -> n + 8 <= csize + nsz ->
  exists s',
    mm_realloc fuel ptr n s = Ret ptr s' /\
    held s' ptr (csize + nsz) /\ ~ indexed s' (ptr + csize) /\
    (forall x, ptr <= x < ptr + csize - 8 -> mem s' x = mem s x) /\
    mem_brk s' = mem_brk s.
Proof.
  intros Hs [k [l [Hw [Hin Hnx]]]] Hn Hb Hkeep Hfit.
  destruct (reachable_Inv s Hs) as [bs [fl [R [Hidx Hadj]]]].
  rewrite (heap_blocks_Rep _ _ _ _ _ R Hw) in Hin, Hnx.
  destruct (layout_split _ _ _ _ _ Hin) as [bs1 [bs2 [E ->]]]. subst bs.
  pose proof (Rep_entry _ _ _ _ _ _ R Hin) as [_ [He [Hc24 _]]].
  pose proof (Rep_entry _ _ _ _ _ _ R Hnx) as [_ [Hne [Hn24 _]]].
  destruct bs2 as [|[nsz' nal'] bs2'].
  { pose proof (rep_brk _ _ _ R) as Hbrk. rewrite total_app in Hbrk. cbn [total] in Hbrk. lia. }
  assert (Hnx' : In (mem_start_brk s + 16 + total bs1 + csize, nsz', nal')
                    (layout (mem_start_brk s + 16) (bs1 ++ (csize, true) :: (nsz', nal') :: bs2'))).
  { change ((csize, true) :: (nsz', nal') :: bs2') with ([(csize, true)] ++ (nsz', nal') :: bs2').
    rewrite app_assoc.
    replace (mem_start_brk s + 16 + total bs1 + csize)
      with (mem_start_brk s + 16 + total (bs1 ++ [(csize, true)]))
      by (rewrite total_app; cbn [total]; lia).
    apply layout_mid. }
  destruct (entry_unique _ _ _ _ _ _ _ _ R Hnx Hnx') as [<- <-].
  rewrite (mm_realloc_reads _ _ _ _ _ _ _ nsz false R eq_refl Hn Hb).
  destruct (Z.gtb_spec csize (n + 8)); [lia|].
  destruct (Z.geb_spec (csize + nsz) (n + 8)); [|lia].
  cbn [b2z Z.eqb andb].
  destruct (mm_realloc_grow _ _ _ _ _ _ R Hidx Hadj)
    as [s' [Hrun [[bs' [fl' [R' [Hidx' _]]]] [[Elo [Ebrk _]] [Hpay [[fl2 R2] _]]]]]].
  exists s'. split; [exact Hrun|].
  assert (Hnew : In (mem_start_brk s' + 16 + total bs1, csize + nsz, true)
                    (layout (mem_start_brk s' + 16) (bs1 ++ (csize + nsz, true) :: bs2')))
    by apply layout_mid.
  rewrite Elo in Hnew.
  split; [apply (held_Rep _ _ _ _ _ R2); rewrite Elo; exact Hnew|].
  split; [|split; [exact Hpay|exact Ebrk]].
  intros [k' [idx [Hw' Hi]]].
  rewrite (index_nodes_Rep _ _ _ _ _ R2 Hw') in Hi.
  destruct (rep_nodes _ _ _ R2 _ Hi) as [szn [aln Hc]]. rewrite Elo in Hc.
  pose proof (rep_sizes _ _ _ R2) as Hs2.
  apply size_ok_app in Hs2 as [Hs1 Hs2]. inversion Hs2 as [|? ? _ Hs3]; subst.
  rewrite layout_app in Hc. cbn [layout] in Hc. apply in_app_or in Hc.
  destruct Hc as [Hc|[Hc|Hc]].
  - pose proof (layout_bounds _ _ _ _ _ Hs1 Hc). lia.
  - injection Hc as Hc _ _. lia.
  - pose proof (layout_bounds _ _ _ _ _ Hs3 Hc). lia.
Qed.

Lemma mm_realloc_grows_in_place_witness :
  exists s',
    mm_realloc 0 4112 100 s_one = Ret 4112 s' /\
    held s' 4112 (24 + 4072) /\ ~ indexed s' (4112 + 24) /\
    (forall x, 4112 <= x < 4112 + 24 - 8 -> mem s' x = mem s_one x) /\
    mem_brk s' = mem_brk s_one.
Proof.
  apply (mm_realloc_grows_in_place s_one 4112 24 4072 100 0 reachable_s_one); try lia.
  exists 8%nat, [(4112, 24, true); (4136, 4072, false)].
    split; [vm_compute; reflexivity|]. split; [left; reflexivity|right; left; reflexivity].
Defined.

(* ================================================================= *)
(** ** The exact effect of [coalesce] *)

Lemma removelast_snoc {A} (l : list A) (a : A) : removelast (l ++ [a]) = l.
Proof. apply removelast_last. Qed.

Lemma coalesce_exact s bs1 sz bs2 fl :
  Fresh s bs1 sz bs2 fl ->
  exists s',
    coalesce (mem_start_brk s + 16 + total bs1) s
      = Ret (merged_at (mem_start_brk s + 16 + total bs1) bs1) s' /\
    coalesced s (bs1 ++ (sz, false) :: bs2) sz
              (merged_at (mem_start_brk s + 16 + total bs1) bs1) s' /\
    Rep s' (merged bs1 sz bs2)
        (merged_index (mem_start_brk s + 16 + total bs1) bs1 sz bs2 fl).
Proof.
  intros F. assert (F' := F). destruct F' as [R _].
  destruct (prev_tags _ _ _ _ _ R) as [psz [pal [Hlast [Hpf [Hph [Hpr [Hp8 Hplo]]]]]]].
  destruct (next_tag _ _ _ _ _ _ R) as [nsz [nal [Hhd [Hnh [Hnr Hn8]]]]].
  pose proof (layout_mid (mem_start_brk s + 16) bs1 sz false bs2) as Hbp.
  pose proof (Rep_entry _ _ _ _ _ _ R Hbp) as [Hb1 [Hb2 [Hb3 [Hb4 [Hb5 _]]]]].
  unfold merged, merged_index, merged_at, absorbed_prev, absorbed_next,
    kept_before, kept_after.
  rewrite Hlast, Hhd. cbn [fst snd].
  set (bp := mem_start_brk s + 16 + total bs1) in *.
  unfold coalesce.
  rewrite (run_PREV_BLKP _ _ _ _ _ _ _ _ R Hlast). fold bp.
  unfold FTRP at 1. rewrite bind_assoc. unfold HDRP at 1. unfold WSIZE, DSIZE.
  rewrite bind_GET_SIZE by (apply (Rep_in_arena _ _ _ _ _ R); lia).
  rewrite (size_of_tag _ _ psz pal) by (try exact Hph; lia). rewrite bind_ret_l.
  replace (bp - psz + psz - 8) with (bp - 8) by lia.
  rewrite bind_GET_ALLOC by (apply (Rep_in_arena _ _ _ _ _ R); lia).
  rewrite (alloc_of_tag _ _ psz pal) by (try exact Hpf; lia).
  rewrite (run_NEXT_BLKP _ _ _ _ _ _ _ R Hbp).
  unfold HDRP at 1. unfold WSIZE.
  rewrite bind_GET_ALLOC by (apply (Rep_in_arena _ _ _ _ _ R); lia).
  rewrite (alloc_of_tag _ _ nsz nal) by (try exact Hnh; lia).
  rewrite (run_GET_SIZE_hdr _ _ _ _ _ _ _ R Hbp).
  destruct pal, nal; cbn [b2z Z.eqb negb andb];
    rewrite ?Z.sub_0_r, ?Z.add_0_r, ?Z.add_0_l.
  - (* both allocated *)
    destruct (coalesce_alloc_alloc _ _ _ _ _ F) as [s' [Hrun [Hc R']]].
    + rewrite Hlast. reflexivity.
    + rewrite Hhd. reflexivity.
    + exists s'. split; [exact Hrun|]. split; [exact Hc|exact R'].
  - (* successor free *)
    destruct bs2 as [|[nsz' nal'] bs2']; [discriminate|].
    cbn [hd] in Hhd. injection Hhd as -> ->.
    unfold HDRP at 1. unfold WSIZE.
    rewrite bind_GET_SIZE by (apply (Rep_in_arena _ _ _ _ _ R); lia).
    rewrite (size_of_tag _ _ nsz false) by (try exact Hnh; lia).
    cbv zeta.
    destruct (coalesce_alloc_free _ _ _ _ _ _ F) as [s' [Hrun [Hc R']]].
    + rewrite Hlast. reflexivity.
    + exists s'. split; [exact Hrun|]. split; [exact Hc|exact R'].
  - (* predecessor free *)
    destruct (last_not_default _ _ Hlast) as [bs1' E1].
    unfold HDRP at 1. unfold WSIZE.
    rewrite bind_GET_SIZE by (apply (Rep_in_arena _ _ _ _ _ R); lia).
    rewrite (size_of_tag _ _ psz false) by (try exact Hph; lia).
    cbv zeta.
    assert (E : bp - psz = mem_start_brk s + 16 + total bs1')
      by (unfold bp; rewrite E1, total_app; cbn [total]; lia).
    clearbody bp. subst bs1.
    destruct (coalesce_free_alloc _ _ _ _ _ _ F) as [s' [Hrun [Hc R']]].
    { rewrite Hhd. reflexivity. }
    rewrite removelast_snoc, E.
    exists s'. split; [exact Hrun|]. split; [exact Hc|exact R'].
  - (* both free *)
    destruct (last_not_default _ _ Hlast) as [bs1' E1].
    assert (E : bp - psz = mem_start_brk s + 16 + total bs1')
      by (unfold bp; rewrite E1, total_app; cbn [total]; lia).
    destruct bs2 as [|[nsz' nal'] bs2']; [discriminate|].
    cbn [hd] in Hhd. injection Hhd as -> ->. cbn [tl].
    assert (Hnx : In (bp + sz, nsz, false)
                     (layout (mem_start_brk s + 16) (bs1 ++ (sz, false) :: (nsz, false) :: bs2'))).
    { change ((sz, false) :: (nsz, false) :: bs2') with ([(sz, false)] ++ (nsz, false) :: bs2').
      rewrite app_assoc.
      replace (bp + sz) with (mem_start_brk s + 16 + total (bs1 ++ [(sz, false)]))
        by (unfold bp; rewrite (total_app _ [(sz, false)]); cbn [total]; lia).
      apply layout_mid. }
    pose proof (Rep_entry _ _ _ _ _ _ R Hnx) as [Hx1 [Hx2 [Hx3 [_ [_ [_ Hnf]]]]]].
    unfold HDRP at 1. unfold WSIZE.
    rewrite bind_GET_SIZE by (apply (Rep_in_arena _ _ _ _ _ R); lia).
    rewrite (size_of_tag _ _ psz false) by (try exact Hph; lia).
    rewrite (run_FTRP _ _ _ _ _ _ _ R Hnx).
    rewrite bind_GET_SIZE by (apply (Rep_in_arena _ _ _ _ _ R); lia).
    rewrite (size_of_tag _ _ nsz false) by (try exact Hnf; lia).
    cbv zeta.
    assert (Ebp : bp = mem_start_brk s + 16 + total (bs1' ++ [(psz, false)]))
      by (unfold bp; rewrite E1; reflexivity).
    clearbody bp. subst bs1.
    destruct (coalesce_free_free _ _ _ _ _ _ _ F) as [s' [Hrun [Hc R']]].
    rewrite removelast_snoc, E.
    exists s'. split; [rewrite Ebp; exact Hrun|]. split; [exact Hc|].
    replace (mem_start_brk s + 16 + total bs1' + psz + sz) with (bp + sz) in R'
      by (rewrite <- E; lia).
    exact R'.
Qed.

Lemma layout_inj : forall bs bs' a, layout a bs = layout a bs' -> bs = bs'.
Proof.
  induction bs as [|[sz al] r IH]; intros [|[sz' al'] r'] a H; try discriminate; [reflexivity|].
  cbn [layout] in H. injection H as -> -> H. f_equal. exact (IH _ _ H).
Qed.

(** [mm_free] marks the block free and hands it to [coalesce]. *)
Lemma mm_free_exact s bs1 sz bs2 fl :
  Rep s (bs1 ++ (sz, true) :: bs2) fl ->
  index_ok s (bs1 ++ (sz, true) :: bs2) fl ->
  adjacent_free (flags (bs1 ++ (sz, true) :: bs2)) = false ->
  exists s',
    mm_free (mem_start_brk s + 16 + total bs1) s = Ret tt s' /\
    Rep s' (merged bs1 sz bs2)
        (merged_index (mem_start_brk s + 16 + total bs1) bs1 sz bs2 fl) /\
    same_arena s s'.
Proof.
  intros R Hidx Hadj.
  pose proof (layout_mid (mem_start_brk s + 16) bs1 sz true bs2) as Hin.
  pose proof (Rep_entry _ _ _ _ _ _ R Hin) as [Hb1 [Hb2 [Hb3 [Hb4 [Hb5 _]]]]].
  pose proof (rep_lo _ _ _ R) as Hlo.
  set (bp := mem_start_brk s + 16 + total bs1) in *.
  assert (Hold : forall e, In e (layout (mem_start_brk s + 16) (bs1 ++ (sz, true) :: bs2)) <->
            In e (layout (mem_start_brk s + 16) bs1) \/ e = (bp, sz, true) \/
            In e (layout (bp + sz) bs2)).
  { intros e. rewrite layout_app. cbn [layout]. rewrite in_app_iff. cbn [In]. fold bp.
    intuition auto. }
  assert (Hnew : forall e, In e (layout (mem_start_brk s + 16) (bs1 ++ (sz, false) :: bs2)) <->
            In e (layout (mem_start_brk s + 16) bs1) \/ e = (bp, sz, false) \/
            In e (layout (bp + sz) bs2)).
  { intros e. rewrite layout_app. cbn [layout]. rewrite in_app_iff. cbn [In]. fold bp.
    intuition auto. }
  unfold mm_free. destruct (Z.eqb_spec bp 0) as [E|_]; [lia|].
  rewrite (run_GET_SIZE_hdr _ _ _ _ _ _ _ R Hin).
  change ((sz, true) :: bs2) with ((sz, true) :: [] ++ bs2) in R.
  destruct (retag_step (B := unit) s bs1 sz true [] bs2 fl false (coalesce bp ;; ret tt) R)
    as [s1 [Hrun1 [R1 [[Elo1 [Ebrk1 [Ehi1 Ehl1]]] [Hfirst1 Hf1]]]]].
  { cbn [total]. intros n _ Hr. lia. }
  fold bp in Hrun1, Hf1. cbn [total] in Hrun1, R1, Hf1.
  replace (sz + 0) with sz in Hrun1, R1, Hf1 by lia.
  change (PACK sz 0) with (PACK sz (b2z false)). rewrite Hrun1.
  apply adjacent_free_mid_inv in Hadj as [Hadj1 Hadj2].
  assert (F : Fresh s1 bs1 sz bs2 fl).
  { split; [exact R1|]. rewrite Elo1. fold bp. split; [|split; [|split]].
    - intros Hn. apply (Hidx bp sz true Hin) in Hn. discriminate.
    - intros a sz' al Ha Hne. apply Hnew in Ha.
      apply (Hidx a sz' al). apply Hold.
      destruct Ha as [Ha|[Ha|Ha]]; auto. injection Ha as -> _ _. contradiction.
    - exact Hadj1.
    - exact Hadj2. }
  destruct (coalesce_exact _ _ _ _ _ F) as [s2 [Hrun2 [Hc R2]]].
  rewrite Elo1 in Hrun2, R2. fold bp in Hrun2, R2.
  exists s2. split; [rewrite (bind_run _ _ _ _ _ Hrun2); reflexivity|].
  split; [exact R2|].
  destruct Hc as [_ [_ [_ [_ [_ [[Elo2 [Ebrk2 [Ehi2 Ehl2]]] _]]]]]].
  unfold same_arena. rewrite Elo2, Elo1, Ebrk2, Ebrk1, Ehi2, Ehi1, Ehl2, Ehl1. auto.
Qed.

(** X3: on a reachable state whose heap is the block sequence
    [bs1 ++ (sz, allocated) :: bs2], [mm_free] of that block returns; the
    heap is then [merged bs1 sz bs2] (the block is free and has absorbed
    its free neighbours, every other block is as before), the index is
    [merged_index], the arena bounds are unchanged, and the payload bytes
    of every other allocated block are unchanged. *)
Theorem mm_free_merges_with_free_neighbours s k bs1 sz bs2 fl :
  reachable s ->
  heap_blocks k s = Some (layout (heap_listp s + 8) (bs1 ++ (sz, true) :: bs2)) ->
  index_nodes k s = Some fl ->
  exists s' k',
    mm_free (heap_listp s + 8 + total bs1) s = Ret tt s' /\
    heap_blocks k' s' = Some (layout (heap_listp s + 8) (merged bs1 sz bs2)) /\
    index_nodes k' s' = Some (merged_index (heap_listp s + 8 + total bs1) bs1 sz bs2 fl) /\
    same_arena s s' /\
    (forall q qsz, held s q qsz -> q <> heap_listp s + 8 + total bs1 ->
       held s' q qsz /\ forall x, q <= x < q + qsz - 8 -> mem s' x = mem s x).
Proof.
  intros Hs Hw Hi.
  destruct (reachable_Inv s Hs) as [bs [fl0 [R [Hidx Hadj]]]].
  pose proof (rep_listp _ _ _ R) as Hl.
  replace (heap_listp s + 8) with (mem_start_brk s + 16) in * by lia.
  pose proof (heap_blocks_Rep _ _ _ _ _ R Hw) as E. apply layout_inj in E. subst bs.
  pose proof (index_nodes_Rep _ _ _ _ _ R Hi) as E. subst fl0.
  destruct (mm_free_exact _ _ _ _ _ R Hidx Hadj) as [s' [Hrun [R' Hsame]]].
  pose proof (layout_mid (mem_start_brk s + 16) bs1 sz true bs2) as Hin.
  destruct (mm_free_spec _ _ _ _ _ R Hidx Hadj Hin) as [s'' [Hrun' Hfr]].
  rewrite Hrun in Hrun'. injection Hrun' as <-.
  assert (Elo : mem_start_brk s' = mem_start_brk s) by apply Hsame.
  exists s', (S (Nat.max (length (merged bs1 sz bs2))
                   (length (merged_index (mem_start_brk s + 16 + total bs1) bs1 sz bs2 fl)))).
  split; [exact Hrun|]. split; [|split; [|split; [exact Hsame|]]].
  - rewrite <- Elo. apply (Rep_heap_blocks _ _ _ _ R'). lia.
  - apply (Rep_index_nodes _ _ _ _ R'). lia.
  - intros q qsz Hq Hne. apply (held_Rep _ _ _ _ _ R) in Hq.
    destruct Hfr as [bs' [fl' [R2 [_ [_ [_ Hkeep]]]]]].
    destruct (Hkeep q qsz Hq Hne) as [Hq' Hm].
    split; [apply (held_Rep _ _ _ _ _ R2); exact Hq'|exact Hm].
Qed.

Lemma mm_free_merges_with_free_neighbours_witness :
  exists s' k',
    mm_free (heap_listp s_hole + 8 + total [(24, false)]) s_hole = Ret tt s' /\
    heap_blocks k' s'
      = Some (layout (heap_listp s_hole + 8)
                (merged [(24, false)] 24 [(24, true); (4024, false)])) /\
    index_nodes k' s'
      = Some (merged_index (heap_listp s_hole + 8 + total [(24, false)]) [(24, false)] 24
                [(24, true); (4024, false)] [4112; 4184]) /\
    same_arena s_hole s' /\
    (forall q qsz, held s_hole q qsz -> q <> heap_listp s_hole + 8 + total [(24, false)] ->
       held s' q qsz /\ forall x, q <= x < q + qsz - 8 -> mem s' x = mem s_hole x).
Proof.
  apply (mm_free_merges_with_free_neighbours s_hole 8 [(24, false)] 24
           [(24, true); (4024, false)] [4112; 4184] reachable_s_hole);
    vm_compute; reflexivity.
Defined.

(* ================================================================= *)
(** ** The exact effect of [place], [extend_heap] and [mm_malloc] *)

Lemma place_exact s bs1 csize bs2 fl asize :
  Rep s (bs1 ++ (csize, false) :: bs2) fl ->
  index_ok s (bs1 ++ (csize, false) :: bs2) fl ->
  adjacent_free (flags (bs1 ++ (csize, false) :: bs2)) = false ->
  24 <= asize <= csize -> asize mod 8 = 0 ->
  exists s',
    place (mem_start_brk s + 16 + total bs1) asize s = Ret tt s' /\
    placed s (bs1 ++ (csize, false) :: bs2) (mem_start_brk s + 16 + total bs1) asize s' /\
    Rep s' (placed_blocks bs1 csize asize bs2)
        (placed_index (mem_start_brk s + 16 + total bs1) csize asize fl).
Proof.
  intros R Hidx Hadj Ha Ha8.
  pose proof (layout_mid (mem_start_brk s + 16) bs1 csize false bs2) as Hin.
  pose proof (Rep_entry _ _ _ _ _ _ R Hin) as [Hb1 [Hb2 [Hb3 [Hb4 [Hb5 _]]]]].
  unfold place, placed_blocks, placed_index.
  rewrite (run_GET_SIZE_hdr _ _ _ _ _ _ _ R Hin).
  rewrite u32_small by lia.
  destruct (Z.leb_spec 24 (csize - asize)) as [Hsplit|Hwhole].
  - destruct (place_split _ _ _ _ fl asize R Hidx Hadj) as [s' [H1 [H2 H3]]];
      [lia|assumption|lia|]. exists s'. auto.
  - destruct (place_whole _ _ _ _ fl asize R Hidx Hadj) as [s' [H1 [H2 H3]]];
      [lia|]. exists s'. auto.
Qed.

(** The free block [extend_heap] creates at the old break is handed to
    [coalesce]. *)
Lemma extend_heap_exact s bs fl words :
  Rep s bs fl -> index_ok s bs fl -> adjacent_free (flags bs) = false ->
  6 <= words < 2 ^ 29 - 1 ->
  mem_brk s + extend_size words <= mem_max_addr s ->
  exists s',
    extend_heap words s = Ret (merged_at (mem_brk s) bs) s' /\
    extended s bs (extend_size words) (merged_at (mem_brk s) bs) s' /\
    Rep s' (merged bs (extend_size words) [])
        (merged_index (mem_brk s) bs (extend_size words) [] fl).
Proof.
  intros R Hidx Hadj Hw Hfit.
  destruct (extend_size_ok words Hw) as [Hsz [Hm8 _]].
  unfold extend_heap. fold (extend_size words).
  set (size := extend_size words) in *.
  assert (Eint : to_int size = size).
  { unfold to_int. rewrite u32_small by lia.
    destruct (Z.ltb_spec size (2 ^ 31)); [reflexivity|lia]. }
  rewrite Eint.
  pose proof (rep_sizes _ _ _ R) as Hs. pose proof (total_nonneg _ Hs).
  pose proof (rep_brk _ _ _ R) as Hbrk. pose proof (rep_small _ _ _ R) as Hsmall.
  pose proof (rep_lo _ _ _ R) as Hlo. pose proof (rep_max _ _ _ R) as Hmax.
  pose proof (extend_Rep _ _ _ size R ltac:(lia) Hm8 Hfit) as R1.
  set (s1 := mkHeap _ _ _ _ _ _) in R1.
  assert (Hrun : forall k : Z -> M Z,
    (bp <- mem_sbrk size ;;
     if bp =? -1 then ret 0
     else PUT (HDRP bp) (PACK size 0) ;; f <- FTRP bp ;; PUT f (PACK size 0) ;;
          nb <- NEXT_BLKP bp ;; PUT (HDRP nb) (PACK 0 1) ;; k bp) s = k (mem_brk s) s1).
  { intros k. unfold bind at 1. unfold mem_sbrk.
    destruct (Z.ltb_spec size 0); [lia|].
    destruct (Z.ltb_spec (mem_max_addr s) (mem_brk s + size)); [lia|].
    cbn [orb]. destruct (Z.eqb_spec (mem_brk s) (-1)); [lia|].
    unfold s1. clear s1 R1.
    destruct s as [m lo brk hi f hl]. norm in *.
    rewrite retag_run by (auto; lia).
    unfold NEXT_BLKP, HDRP, WSIZE. steps.
    change (size + 0) with (tag size false).
    rewrite load32_store32_other by lia.
    rewrite load32_store32 by (apply tag_range; lia).
    rewrite tag_size by lia. steps. reflexivity. }
  rewrite (Hrun coalesce).
  assert (Ebrk : mem_brk s = mem_start_brk s1 + 16 + total bs) by (unfold s1; norm; lia).
  assert (F : Fresh s1 bs size [] fl).
  { split; [exact R1|]. rewrite <- Ebrk. split; [|split; [|split]].
    - intros Hn. destruct (rep_nodes _ _ _ R _ Hn) as [szn [aln Hin]].
      pose proof (Rep_entry _ _ _ _ _ _ R Hin). lia.
    - intros a sz' al Ha Hne. unfold s1 in Ha. norm in Ha.
      rewrite layout_app in Ha. apply in_app_or in Ha. destruct Ha as [Ha|Ha].
      + apply (Hidx a sz' al Ha).
      + cbn [layout In] in Ha. destruct Ha as [Ha|[]]. injection Ha as <- _ _. lia.
    - exact Hadj.
    - reflexivity. }
  destruct (coalesce_exact _ _ _ _ _ F) as [s2 [Hrun2 [_ R2]]].
  rewrite <- Ebrk in Hrun2, R2.
  exists s2. split; [exact Hrun2|]. split; [|exact R2].
  destruct (extend_heap_spec _ _ _ words R Hidx Hadj Hw)
    as [[Hfail _]|[_ [r [s' [Hrun' Hex]]]]]; [fold size in Hfail; lia|].
  unfold extend_heap in Hrun'. fold (extend_size words) in Hrun'. fold size in Hrun'.
  rewrite Eint, (Hrun coalesce), Hrun2 in Hrun'. injection Hrun' as <- <-. exact Hex.
Qed.

Lemma hsize_entry s bs fl a sz al :
  Rep s bs fl -> In (a, sz, al) (layout (mem_start_brk s + 16) bs) -> hsize s a = sz.
Proof.
  intros R Hin.
  pose proof (Rep_entry _ _ _ _ _ _ R Hin) as [_ [_ [? [? [? [Hh _]]]]]].
  unfold hsize. rewrite Hh. apply tag_size; lia.
Qed.

(** On a represented heap the fit selector returns a free block of least
    size among those that are large enough, and null only if there is
    none. *)
Lemma find_fit_best s bs fl fuel asize :
  Rep s bs fl -> index_ok s bs fl -> (length fl < fuel)%nat ->
  exists r,
    find_fit fuel asize s = Ret r s /\
    ((r = 0 /\
      forall q qsz, In (q, qsz, false) (layout (mem_start_brk s + 16) bs) -> qsz < asize)
     \/
     (exists csize,
        In (r, csize, false) (layout (mem_start_brk s + 16) bs) /\ asize <= csize /\
        forall q qsz, In (q, qsz, false) (layout (mem_start_brk s + 16) bs) ->
                      asize <= qsz -> csize <= qsz)).
Proof.
  intros R Hidx Hlen.
  destruct (Rep_index_nodes _ _ _ _ R Hlen) as [Hw Hh].
  pose proof (find_fit_scan s asize fuel fl Hw Hh) as Hrun.
  set (r := scan asize (sized s fl) 0 2147483648) in *.
  exists r. split; [exact Hrun|].
  assert (Hfree : forall x, In x fl ->
            In (x, hsize s x, false) (layout (mem_start_brk s + 16) bs)).
  { intros x Hx. destruct (rep_nodes _ _ _ R x Hx) as [sz [al Hi]].
    rewrite (hsize_entry _ _ _ _ _ _ R Hi).
    apply (Hidx x sz al Hi) in Hx. subst al. exact Hi. }
  assert (Hnode : forall q qsz, In (q, qsz, false) (layout (mem_start_brk s + 16) bs) ->
            In q fl /\ hsize s q = qsz /\ qsz < 2147483648).
  { intros q qsz Hq. split; [apply (Hidx q qsz false Hq); reflexivity|].
    split; [apply (hsize_entry _ _ _ _ _ _ R Hq)|].
    pose proof (Rep_entry _ _ _ _ _ _ R Hq) as [_ [_ [_ [_ [? _]]]]].
    change 2147483648 with (2 ^ 31). lia. }
  destruct (first_exact_or_none s asize fl) as [[l1 [b [l2 [E [Hb Hl1]]]]]|Hnone].
  - right. exists asize.
    assert (Er : r = b) by (unfold r; rewrite E; apply scan_sized_exact; assumption).
    rewrite Er. split; [|split; [lia|intros; lia]].
    rewrite <- Hb. apply Hfree. rewrite E. apply in_or_app. right. left. reflexivity.
  - destruct (scan_sized_inexact s asize fl Hnone) as [[Hin [Hsz Hmin]]|[Er Hno]]; fold r in Hin, Hsz, Hmin || fold r in Er.
    + right. exists (hsize s r). split; [apply Hfree; exact Hin|]. split; [lia|].
      intros q qsz Hq Hle. destruct (Hnode q qsz Hq) as [Hqin [Hqs _]].
      rewrite <- Hqs. apply (Hmin q Hqin).
      pose proof (Hnone q Hqin). lia.
    + left. split; [exact Er|]. intros q qsz Hq.
      destruct (Hnode q qsz Hq) as [Hqin [Hqs Hq31]].
      pose proof (Hnone q Hqin). pose proof (Hno q Hqin). lia.
Qed.

(** The size [mm_malloc] asks [extend_heap] for. *)
Lemma malloc_extend_words asize :
  24 <= asize < 2 ^ 31 -> asize mod 8 = 0 ->
  let ext := Z.max asize 4096 in
  u32 (MAX (to_int (u32 asize)) CHUNKSIZE) / WSIZE = ext / 4 /\
  6 <= ext / 4 < 2 ^ 29 - 1 /\ extend_size (ext / 4) = ext.
Proof.
  intros Ha Ha8 ext.
  assert (Eint : to_int (u32 asize) = asize).
  { rewrite u32_small by lia. unfold to_int. rewrite u32_small by lia.
    destruct (Z.ltb_spec asize (2 ^ 31)); [reflexivity|lia]. }
  rewrite Eint. unfold MAX, CHUNKSIZE, WSIZE. change (Z.shiftl 1 12) with 4096.
  assert (Hext : (if asize >? 4096 then asize else 4096) = ext).
  { unfold ext. destruct (Z.gtb_spec asize 4096); lia. }
  rewrite Hext.
  assert (Hext8 : ext mod 8 = 0).
  { unfold ext. destruct (Z.max_spec asize 4096) as [[_ ->]|[_ ->]]; [reflexivity|exact Ha8]. }
  assert (Hr : 4096 <= ext < 2 ^ 31) by (unfold ext; lia).
  rewrite u32_small by lia.
  pose proof (Z.div_mod ext 8 ltac:(lia)) as E8. rewrite Hext8 in E8.
  assert (Ew : ext / 4 = 2 * (ext / 8)).
  { symmetry. apply (Z.div_unique ext 4 (2 * (ext / 8)) 0); lia. }
  split; [reflexivity|]. split; [lia|].
  unfold extend_size, WSIZE. rewrite Ew.
  replace (2 * (ext / 8)) with ((ext / 8) * 2) at 1 by lia.
  rewrite Z.mod_mul by lia. cbn [Z.eqb negb]. rewrite u32_small by lia. lia.
Qed.

Lemma merged_last bs sz :
  merged bs sz [] = kept_before bs ++ (absorbed_prev bs + sz, false) :: [].
Proof.
  unfold merged, absorbed_next, kept_after. cbn [hd snd fst]. rewrite Z.add_0_r. reflexivity.
Qed.

Lemma merged_at_total lo bs :
  Forall size_ok bs ->
  merged_at (lo + 16 + total bs) bs = lo + 16 + total (kept_before bs).
Proof.
  intros Hs. unfold merged_at, absorbed_prev, kept_before.
  destruct (snoc_cases bs) as [->|[bs' [[psz pal] ->]]]; [cbn; lia|].
  rewrite last_snoc. cbn [fst snd]. destruct pal; [lia|].
  rewrite removelast_snoc, total_app. cbn [total]. lia.
Qed.

Lemma Rep_unique s bs fl bs' fl' :
  Rep s bs fl -> Rep s bs' fl' -> bs = bs' /\ fl = fl'.
Proof.
  intros R R'. split.
  - pose proof (Rep_heap_blocks s bs fl (S (Nat.max (length bs) (length bs'))) R ltac:(lia)) as H.
    pose proof (Rep_heap_blocks s bs' fl' (S (Nat.max (length bs) (length bs'))) R' ltac:(lia)) as H'.
    rewrite H in H'. injection H' as H'. exact (layout_inj _ _ _ H').
  - destruct (Rep_index_nodes s bs fl (S (Nat.max (length fl) (length fl'))) R ltac:(lia)) as [H _].
    destruct (Rep_index_nodes s bs' fl' (S (Nat.max (length fl) (length fl'))) R' ltac:(lia)) as [H' _].
    rewrite H in H'. injection H' as H'. exact H'.
Qed.

(** The two paths of [mm_malloc] on a represented heap. *)
Lemma mm_malloc_exact s bs fl fuel n :
  Rep s bs fl -> index_ok s bs fl -> adjacent_free (flags bs) = false ->
  (length fl < fuel)%nat -> 0 < n -> n + 16 <= 2 ^ 31 ->
  ((forall q qsz, In (q, qsz, false) (layout (mem_start_brk s + 16) bs) ->
                  qsz < adjust_size n + 8) /\
   ((mem_max_addr s < mem_brk s + Z.max (adjust_size n + 8) 4096 /\
     mm_malloc fuel n s = Ret 0 s)
    \/
    (mem_brk s + Z.max (adjust_size n + 8) 4096 <= mem_max_addr s /\
     exists s',
       mm_malloc fuel n s = Ret (merged_at (mem_brk s) bs) s' /\
       Rep s' (placed_blocks (kept_before bs)
                 (absorbed_prev bs + Z.max (adjust_size n + 8) 4096)
                 (adjust_size n + 8) [])
           (placed_index (merged_at (mem_brk s) bs)
              (absorbed_prev bs + Z.max (adjust_size n + 8) 4096) (adjust_size n + 8)
              (merged_index (mem_brk s) bs (Z.max (adjust_size n + 8) 4096) [] fl)) /\
       mem_start_brk s' = mem_start_brk s /\ mem_max_addr s' = mem_max_addr s /\
       mem_brk s' = mem_brk s + Z.max (adjust_size n + 8) 4096)))
  \/
  (exists bs1 csize bs2,
     bs = bs1 ++ (csize, false) :: bs2 /\ adjust_size n + 8 <= csize /\
     (forall q qsz, In (q, qsz, false) (layout (mem_start_brk s + 16) bs) ->
                    adjust_size n + 8 <= qsz -> csize <= qsz) /\
     exists s',
       mm_malloc fuel n s = Ret (mem_start_brk s + 16 + total bs1) s' /\
       Rep s' (placed_blocks bs1 csize (adjust_size n + 8) bs2)
           (placed_index (mem_start_brk s + 16 + total bs1) csize (adjust_size n + 8) fl) /\
       same_arena s s').
Proof.
  intros R Hidx Hadj Hlen Hn Hb.
  destruct (adjust_size_ok n Hn Hb) as [Ha1 [Ha2 [Ha3 Ha4]]].
  unfold mm_malloc. destruct (Z.eqb_spec n 0); [lia|].
  unfold DSIZE. cbv zeta.
  set (asize := adjust_size n + 8) in *.
  assert (Ha8 : asize mod 8 = 0) by (apply add_mod8; [exact Ha3|reflexivity]).
  destruct (malloc_extend_words asize ltac:(lia) Ha8) as [Ew [Hw Esz]].
  rewrite Ew. rewrite (u32_small asize) by lia.
  set (ext := Z.max asize 4096) in *.
  pose proof (rep_lo _ _ _ R) as Hlo.
  destruct (find_fit_best _ _ _ _ asize R Hidx Hlen) as [r [Hfit Hr]].
  rewrite (bind_run _ _ _ _ _ Hfit).
  destruct Hr as [[-> Hnone]|[csize [Hin [Hle Hmin]]]].
  - (* no fit: extend the arena *)
    left. split; [exact Hnone|]. cbn [Z.eqb negb].
    destruct (Z.ltb_spec (mem_max_addr s) (mem_brk s + ext)) as [Hfail|Hroom].
    + left. split; [exact Hfail|].
      destruct (extend_heap_spec _ _ _ (ext / 4) R Hidx Hadj Hw)
        as [[_ Hrun]|[Hfit' _]]; [|rewrite Esz in Hfit'; lia].
      rewrite (bind_run _ _ _ _ _ Hrun). reflexivity.
    + right. split; [exact Hroom|].
      destruct (extend_heap_exact _ _ _ (ext / 4) R Hidx Hadj Hw) as [s1 [Hrun [Hex R1]]];
        [rewrite Esz; exact Hroom|]. rewrite Esz in Hex, R1.
      destruct Hex as [bs' [fl' [R1' [Hidx1 [Hadj1 [Elo1 [Ehi1 [Ehl1 [Ebrk1 _]]]]]]]]].
      destruct (Rep_unique _ _ _ _ _ R1' R1) as [-> ->].
      rewrite merged_last in R1, Hidx1, Hadj1.
      pose proof (rep_sizes _ _ _ R1) as Hs1. apply size_ok_app in Hs1 as [Hsk Hs1].
      inversion Hs1 as [|? ? [Hc1 Hc2] _]; subst. cbn [fst] in *.
      assert (Hap : 0 <= absorbed_prev bs).
      { unfold absorbed_prev. destruct (snoc_cases bs) as [->|[bs0 [[psz pal] ->]]]; [cbn; lia|].
        rewrite last_snoc. cbn [fst snd]. destruct pal; [lia|].
        pose proof (rep_sizes _ _ _ R) as Hs. apply size_ok_app in Hs as [_ Hs].
        inversion Hs as [|? ? [? _] _]; subst. cbn [fst] in *. lia. }
      destruct (place_exact _ _ _ _ _ asize R1 Hidx1 Hadj1 ltac:(unfold ext in *; lia) Ha8)
        as [s2 [Hrun2 [Hpl R2]]].
      assert (Eat : merged_at (mem_brk s) bs = mem_start_brk s1 + 16 + total (kept_before bs)).
      { rewrite (rep_brk _ _ _ R), Elo1. apply merged_at_total. apply (rep_sizes _ _ _ R). }
      rewrite <- Eat in Hrun2, R2.
      exists s2. rewrite (bind_run _ _ _ _ _ Hrun).
      assert (Hne : merged_at (mem_brk s) bs <> 0).
      { rewrite Eat. pose proof (total_nonneg _ Hsk). lia. }
      destruct (Z.eqb_spec (merged_at (mem_brk s) bs) 0); [contradiction|].
      rewrite (bind_run _ _ _ _ _ Hrun2).
      split; [reflexivity|]. split; [exact R2|].
      destruct Hpl as [_ [_ [_ [_ [_ [_ [[Elo2 [Ebrk2 [Ehi2 _]]] _]]]]]]].
      rewrite Elo2, Ehi2, Ebrk2. auto.
  - (* a fit was found *)
    right. destruct (layout_split _ _ _ _ _ Hin) as [bs1 [bs2 [-> ->]]].
    exists bs1, csize, bs2. split; [reflexivity|]. split; [exact Hle|]. split; [exact Hmin|].
    pose proof (Rep_entry _ _ _ _ _ _ R Hin) as [Hr2 _].
    destruct (place_exact _ _ _ _ _ asize R Hidx Hadj ltac:(lia) Ha8) as [s2 [Hrun2 [Hpl R2]]].
    exists s2. destruct (Z.eqb_spec (mem_start_brk s + 16 + total bs1) 0); [lia|]. cbn [negb].
    rewrite (bind_run _ _ _ _ _ Hrun2).
    split; [reflexivity|]. split; [exact R2|].
    destruct Hpl as [_ [_ [_ [_ [_ [_ [Hsame _]]]]]]]. exact Hsame.
Qed.

Lemma free_block_Rep s bs fl q qsz :
  Rep s bs fl ->
  (free_block s q qsz <-> In (q, qsz, false) (layout (mem_start_brk s + 16) bs)).
Proof.
  intros R. split.
  - intros [k [l [Hw Hin]]]. rewrite (heap_blocks_Rep _ _ _ _ _ R Hw) in Hin. exact Hin.
  - intros Hin. exists (S (length bs)), (layout (mem_start_brk s + 16) bs).
    split; [apply (Rep_heap_blocks _ _ _ _ R); lia|exact Hin].
Qed.

Lemma placed_blocks_entries s' bs1 csize asize bs2 fl' :
  Rep s' (placed_blocks bs1 csize asize bs2) fl' ->
  if 24 <=? csize - asize
  then held s' (mem_start_brk s' + 16 + total bs1) asize /\
       free_block s' (mem_start_brk s' + 16 + total bs1 + asize) (csize - asize)
  else held s' (mem_start_brk s' + 16 + total bs1) csize.
Proof.
  unfold placed_blocks. destruct (24 <=? csize - asize); intros R.
  - split.
    + apply (held_Rep _ _ _ _ _ R). apply layout_mid.
    + apply (free_block_Rep _ _ _ _ _ R).
      change ((asize, true) :: (csize - asize, false) :: bs2)
        with ([(asize, true)] ++ (csize - asize, false) :: bs2).
      rewrite app_assoc.
      replace (mem_start_brk s' + 16 + total bs1 + asize)
        with (mem_start_brk s' + 16 + total (bs1 ++ [(asize, true)]))
        by (rewrite total_app; cbn [total]; lia).
      apply layout_mid.
  - apply (held_Rep _ _ _ _ _ R). apply layout_mid.
Qed.

(** X4: on a reachable state in which some free block is large enough
    for the adjusted request, [mm_malloc] does not extend the arena: it
    returns the address of a free block of least size among those that
    are large enough (best fit), which becomes allocated, whole when the
    remainder would be below 24 bytes and split otherwise, the remainder
    being a free block behind it. *)
Theorem mm_malloc_best_fit s n q qsz :
  reachable s -> 0 < n -> n + 16 <= 2 ^ 31 ->
  free_block s q qsz -> adjust_size n + 8 <= qsz ->
  exists fuel0, forall fuel, (fuel0 <= fuel)%nat ->
    exists p csize s',
      mm_malloc fuel n s = Ret p s' /\
      free_block s p csize /\ adjust_size n + 8 <= csize /\
      (forall q' qsz', free_block s q' qsz' -> adjust_size n + 8 <= qsz' -> csize <= qsz') /\
      same_arena s s' /\
      (if 24 <=? csize - (adjust_size n + 8)
       then held s' p (adjust_size n + 8) /\
            free_block s' (p + (adjust_size n + 8)) (csize - (adjust_size n + 8))
       else held s' p csize).
Proof.
  intros Hs Hn Hb Hq Hqsz.
  destruct (reachable_Inv s Hs) as [bs [fl [R [Hidx Hadj]]]].
  exists (S (length fl)). intros fuel Hfuel.
  apply (free_block_Rep _ _ _ _ _ R) in Hq.
  destruct (mm_malloc_exact s bs fl fuel n R Hidx Hadj ltac:(lia) Hn Hb)
    as [[Hnone _]|[bs1 [csize [bs2 [E [Hle [Hmin [s' [Hrun [R' Hsame]]]]]]]]]].
  { specialize (Hnone q qsz Hq). lia. }
  exists (mem_start_brk s + 16 + total bs1), csize, s'.
  split; [exact Hrun|]. split; [|split; [exact Hle|split; [|split; [exact Hsame|]]]].
  - apply (free_block_Rep _ _ _ _ _ R). rewrite E. apply layout_mid.
  - intros q' qsz' Hq'. apply (free_block_Rep _ _ _ _ _ R) in Hq'. exact (Hmin q' qsz' Hq').
  - assert (Elo : mem_start_brk s' = mem_start_brk s) by apply Hsame.
    rewrite <- Elo. exact (placed_blocks_entries _ _ _ _ _ _ R').
Qed.

Lemma free_block_s_hole : free_block s_hole 4112 24.
Proof.
  exists 8%nat, [(4112, 24, false); (4136, 24, true); (4160, 24, true); (4184, 4024, false)].
  split; [vm_compute; reflexivity|left; reflexivity].
Qed.

Lemma mm_malloc_best_fit_witness :
  exists fuel0, forall fuel, (fuel0 <= fuel)%nat ->
    exists p csize s',
      mm_malloc fuel 10 s_hole = Ret p s' /\
      free_block s_hole p csize /\ adjust_size 10 + 8 <= csize /\
      (forall q' qsz', free_block s_hole q' qsz' -> adjust_size 10 + 8 <= qsz' ->
                       csize <= qsz') /\
      same_arena s_hole s' /\
      (if 24 <=? csize - (adjust_size 10 + 8)
       then held s' p (adjust_size 10 + 8) /\
            free_block s' (p + (adjust_size 10 + 8)) (csize - (adjust_size 10 + 8))
       else held s' p csize).
Proof.
  apply (mm_malloc_best_fit s_hole 10 4112 24 reachable_s_hole);
    [lia|vm_compute; discriminate|exact free_block_s_hole|vm_compute; discriminate].
Defined.

Lemma absorbed_prev_block s bs fl :
  Rep s bs fl ->
  (absorbed_prev bs = 0) \/
  (24 <= absorbed_prev bs /\
   In (mem_brk s - absorbed_prev bs, absorbed_prev bs, false)
      (layout (mem_start_brk s + 16) bs)).
Proof.
  intros R. unfold absorbed_prev.
  destruct (snoc_cases bs) as [->|[bs0 [[psz pal] ->]]]; [left; reflexivity|].
  rewrite last_snoc. cbn [fst snd]. destruct pal; [left; reflexivity|right].
  pose proof (layout_mid (mem_start_brk s + 16) bs0 psz false []) as Hin.
  pose proof (Rep_entry _ _ _ _ _ _ R Hin) as [_ [_ [? _]]].
  split; [assumption|].
  rewrite (rep_brk _ _ _ R), total_app. cbn [total].
  replace (mem_start_brk s + 16 + (total bs0 + (psz + 0)) - psz)
    with (mem_start_brk s + 16 + total bs0) by lia.
  exact Hin.
Qed.

(** X5: on a reachable state in which no free block is large enough for
    the adjusted request, [mm_malloc] returns null and leaves the state
    as it is when the arena cannot grow by [max(asize, 4096)] bytes;
    otherwise the break advances by exactly that amount and the returned
    block starts at the old break, or at the last block of the old heap
    when that block was free (the new space is merged with it). *)
Theorem mm_malloc_extends_arena s n :
  reachable s -> 0 < n -> n + 16 <= 2 ^ 31 ->
  (forall q qsz, free_block s q qsz -> qsz < adjust_size n + 8) ->
  exists fuel0, forall fuel, (fuel0 <= fuel)%nat ->
    (mem_max_addr s < mem_brk s + Z.max (adjust_size n + 8) 4096 /\
     mm_malloc fuel n s = Ret 0 s)
    \/
    (mem_brk s + Z.max (adjust_size n + 8) 4096 <= mem_max_addr s /\
     exists p s',
       mm_malloc fuel n s = Ret p s' /\ p <> 0 /\
       mem_brk s' = mem_brk s + Z.max (adjust_size n + 8) 4096 /\
       mem_start_brk s' = mem_start_brk s /\ mem_max_addr s' = mem_max_addr s /\
       (p = mem_brk s \/ exists lsz, free_block s p lsz /\ p + lsz = mem_brk s) /\
       exists sz', held s' p sz' /\ adjust_size n + 8 <= sz').
Proof.
  intros Hs Hn Hb Hnone.
  destruct (reachable_Inv s Hs) as [bs [fl [R [Hidx Hadj]]]].
  exists (S (length fl)). intros fuel Hfuel.
  destruct (adjust_size_ok n Hn Hb) as [Ha1 [Ha2 [Ha3 Ha4]]].
  destruct (mm_malloc_exact s bs fl fuel n R Hidx Hadj ltac:(lia) Hn Hb)
    as [[_ [Hfail|[Hroom [s' [Hrun [R' [Elo [Ehi Ebrk]]]]]]]]
       |[bs1 [csize [bs2 [E [Hle _]]]]]].
  - left. exact Hfail.
  - right. split; [exact Hroom|].
    pose proof (rep_lo _ _ _ R) as Hlo. pose proof (rep_brk _ _ _ R) as Hbrk.
    pose proof (rep_sizes _ _ _ R) as Hsz. pose proof (total_nonneg _ Hsz) as Ht.
    exists (merged_at (mem_brk s) bs), s'. split; [exact Hrun|].
    assert (Hp : (merged_at (mem_brk s) bs = mem_brk s) \/
                 exists lsz, free_block s (merged_at (mem_brk s) bs) lsz /\
                             merged_at (mem_brk s) bs + lsz = mem_brk s).
    { unfold merged_at. destruct (absorbed_prev_block _ _ _ R) as [->|[H24 Hin]].
      - left. lia.
      - right. exists (absorbed_prev bs). split; [|lia].
        apply (free_block_Rep _ _ _ _ _ R). exact Hin. }
    assert (Hat : merged_at (mem_brk s) bs = mem_start_brk s' + 16 + total (kept_before bs)).
    { rewrite Hbrk, Elo. apply merged_at_total. exact Hsz. }
    split.
    { destruct Hp as [->|[lsz [Hf _]]]; [lia|].
      apply (free_block_Rep _ _ _ _ _ R) in Hf.
      pose proof (Rep_entry _ _ _ _ _ _ R Hf). lia. }
    split; [exact Ebrk|]. split; [exact Elo|]. split; [exact Ehi|]. split; [exact Hp|].
    pose proof (placed_blocks_entries _ _ _ _ _ _ R') as He. rewrite <- Hat in He.
    destruct (24 <=? absorbed_prev bs + Z.max (adjust_size n + 8) 4096 - (adjust_size n + 8))
      eqn:Hsplit.
    + exists (adjust_size n + 8). split; [apply He|lia].
    + exists (absorbed_prev bs + Z.max (adjust_size n + 8) 4096). split; [exact He|].
      destruct (absorbed_prev_block _ _ _ R) as [->|[? _]]; lia.
  - exfalso. assert (Hq : free_block s (mem_start_brk s + 16 + total bs1) csize).
    { apply (free_block_Rep _ _ _ _ _ R). rewrite E. apply layout_mid. }
    specialize (Hnone _ _ Hq). lia.
Qed.

Lemma mm_malloc_extends_arena_witness :
  exists fuel0, forall fuel, (fuel0 <= fuel)%nat ->
    (mem_max_addr s_hole < mem_brk s_hole + Z.max (adjust_size 5000 + 8) 4096 /\
     mm_malloc fuel 5000 s_hole = Ret 0 s_hole)
    \/
    (mem_brk s_hole + Z.max (adjust_size 5000 + 8) 4096 <= mem_max_addr s_hole /\
     exists p s',
       mm_malloc fuel 5000 s_hole = Ret p s' /\ p <> 0 /\
       mem_brk s' = mem_brk s_hole + Z.max (adjust_size 5000 + 8) 4096 /\
       mem_start_brk s' = mem_start_brk s_hole /\ mem_max_addr s' = mem_max_addr s_hole /\
       (p = mem_brk s_hole \/ exists lsz, free_block s_hole p lsz /\ p + lsz = mem_brk s_hole) /\
       exists sz', held s' p sz' /\ adjust_size 5000 + 8 <= sz').
Proof.
  apply (mm_malloc_extends_arena s_hole 5000 reachable_s_hole);
    [lia|vm_compute; discriminate|].
  intros q qsz [k [l [Hw Hin]]].
  assert (E : heap_blocks (Nat.max k 8) s_hole
              = Some [(4112, 24, false); (4136, 24, true); (4160, 24, true); (4184, 4024, false)])
    by (apply (walk_blocks_mono s_hole 8); [vm_compute; reflexivity|lia]).
  unfold heap_blocks in Hw, E.
  rewrite (walk_blocks_mono _ _ _ _ Hw (Nat.max k 8) ltac:(lia)) in E.
  injection E as ->. change (adjust_size 5000 + 8) with 5008.
  cbn [In] in Hin. destruct Hin as [H|[H|[H|[H|[]]]]]; injection H as _ <-; lia.
Defined.

Lemma free_neighbours_allocated bs1 c bs2 :
  adjacent_free (flags (bs1 ++ (c, false) :: bs2)) = false ->
  snd (last bs1 (8, true)) = true /\ snd (hd (0, true) bs2) = true.
Proof.
  intros H. rewrite flags_app, adjacent_free_app in H.
  cbn [flags map] in H. rewrite adjacent_free_cons in H. fold (flags bs2) in H.
  rewrite last_flags, hd_flags in H. cbn [snd hd negb] in H.
  destruct (snd (last bs1 (8, true))), (snd (hd (0, true) bs2)); auto;
    rewrite ?Bool.orb_true_r in H; cbn in H; try discriminate;
    destruct (adjacent_free (flags bs1)), (adjacent_free (flags bs2)); discriminate.
Qed.

Lemma merged_between_allocated bs1 sz bs2 :
  snd (last bs1 (8, true)) = true -> snd (hd (0, true) bs2) = true ->
  merged bs1 sz bs2 = bs1 ++ (sz, false) :: bs2.
Proof.
  intros H1 H2. unfold merged, kept_before, kept_after, absorbed_prev, absorbed_next.
  rewrite H1, H2. rewrite Z.add_0_l, Z.add_0_r. reflexivity.
Qed.

Lemma merged_before_free bs1 sz nsz bs2 :
  snd (last bs1 (8, true)) = true ->
  merged bs1 sz ((nsz, false) :: bs2) = bs1 ++ (sz + nsz, false) :: bs2.
Proof.
  intros H1. unfold merged, kept_before, kept_after, absorbed_prev, absorbed_next.
  rewrite H1. cbn [hd snd fst tl]. rewrite Z.add_0_l. reflexivity.
Qed.

(** What [place] leaves at the chosen block. *)
Lemma placed_blocks_bounds s' bs1 csize asize bs2 fl' :
  Rep s' (placed_blocks bs1 csize asize bs2) fl' -> asize <= csize ->
  exists sz,
    held s' (mem_start_brk s' + 16 + total bs1) sz /\
    asize <= sz < asize + 24 /\ total bs1 mod 8 = 0 /\ 0 <= total bs1 /\
    mem_start_brk s' + 16 + total bs1 + sz <= mem_brk s'.
Proof.
  intros R Hle. pose proof (placed_blocks_entries _ _ _ _ _ _ R) as He.
  pose proof (rep_sizes _ _ _ R) as Hs. unfold placed_blocks in Hs.
  assert (Hs1 : Forall size_ok bs1).
  { destruct (24 <=? csize - asize); apply size_ok_app in Hs; apply Hs. }
  destruct (Z.leb_spec 24 (csize - asize)).
  - destruct He as [He _]. exists asize. split; [exact He|].
    apply (held_Rep _ _ _ _ _ R) in He. pose proof (Rep_entry _ _ _ _ _ _ R He).
    split; [lia|]. split; [apply total_mod8; exact Hs1|].
    split; [apply total_nonneg; exact Hs1|lia].
  - exists csize. split; [exact He|].
    apply (held_Rep _ _ _ _ _ R) in He. pose proof (Rep_entry _ _ _ _ _ _ R He).
    split; [lia|]. split; [apply total_mod8; exact Hs1|].
    split; [apply total_nonneg; exact Hs1|lia].
Qed.

(** X6: whenever [mm_malloc] returns a non-null address on a reachable
    state (request of 1 to [2^31 - 16] bytes), that address is the payload
    of an allocated block inside the arena, at a multiple of 8 bytes from
    the arena's start, whose size is at least the adjusted request plus 8
    and exceeds it by less than 24: a free block is split unless the
    remainder would be too small to be a block. *)
Theorem mm_malloc_block_bounds s fuel n p s' :
  reachable s -> 0 < n -> n + 16 <= 2 ^ 31 ->
  mm_malloc fuel n s = Ret p s' -> p <> 0 ->
  exists sz,
    held s' p sz /\
    adjust_size n + 8 <= sz < adjust_size n + 8 + 24 /\
    (p - mem_start_brk s') mod 8 = 0 /\
    mem_start_brk s' + 16 <= p /\ p + sz <= mem_brk s'.
Proof.
  intros Hs Hn Hb Hrun Hp.
  destruct (reachable_Inv s Hs) as [bs [fl [R [Hidx Hadj]]]].
  pose proof (mm_malloc_mono _ _ _ _ _ Hrun (Nat.max fuel (S (length fl)))
                (Nat.le_max_l _ _)) as Hrun'.
  destruct (adjust_size_ok n Hn Hb) as [Ha1 [Ha2 [Ha3 Ha4]]].
  assert (Hfin : forall bs1 csize bs2 fl',
            Rep s' (placed_blocks bs1 csize (adjust_size n + 8) bs2) fl' ->
            adjust_size n + 8 <= csize ->
            p = mem_start_brk s' + 16 + total bs1 ->
            exists sz, held s' p sz /\
              adjust_size n + 8 <= sz < adjust_size n + 8 + 24 /\
              (p - mem_start_brk s') mod 8 = 0 /\
              mem_start_brk s' + 16 <= p /\ p + sz <= mem_brk s').
  { intros bs1 csize bs2 fl' R' Hle ->.
    destruct (placed_blocks_bounds _ _ _ _ _ _ R' Hle) as [sz [H1 [H2 [H3 [H4 H5]]]]].
    exists sz. split; [exact H1|]. split; [exact H2|]. split; [|lia].
    replace (mem_start_brk s' + 16 + total bs1 - mem_start_brk s') with (total bs1 + 2 * 8) by lia.
    rewrite Z.mod_add by lia. exact H3. }
  destruct (mm_malloc_exact s bs fl (Nat.max fuel (S (length fl))) n R Hidx Hadj
              ltac:(lia) Hn Hb)
    as [[_ [[_ Hr]|[_ [s1 [Hr [R' [Elo [Ehi Ebrk]]]]]]]]
       |[bs1 [csize [bs2 [E [Hle [_ [s1 [Hr [R' Hsame]]]]]]]]]];
    rewrite Hr in Hrun'.
  - injection Hrun' as Hp0 _. congruence.
  - injection Hrun' as Ep Es. subst s1.
    apply (Hfin _ _ _ _ R').
    + destruct (absorbed_prev_block _ _ _ R) as [->|[? _]]; lia.
    + rewrite <- Ep, (rep_brk _ _ _ R), Elo. apply merged_at_total. apply (rep_sizes _ _ _ R).
  - injection Hrun' as Ep Es. subst s1.
    apply (Hfin _ _ _ _ R' Hle). destruct Hsame as [Elo _]. rewrite Elo. auto.
Qed.

Lemma mm_malloc_block_bounds_witness :
  exists sz,
    held s_two 4136 sz /\
    adjust_size 16 + 8 <= sz < adjust_size 16 + 8 + 24 /\
    (4136 - mem_start_brk s_two) mod 8 = 0 /\
    mem_start_brk s_two + 16 <= 4136 /\ 4136 + sz <= mem_brk s_two.
Proof.
  apply (mm_malloc_block_bounds s_one 8 16 4136 s_two reachable_s_one);
    [lia|vm_compute; discriminate|vm_compute; reflexivity|lia].
Defined.

(** X7: on a reachable state, when [mm_malloc] returns a block without
    extending the arena, [mm_free] of that block gives back the heap it
    started from: the same sequence of blocks, with the same sizes and
    flags. *)
Theorem mm_free_undoes_mm_malloc s fuel n p s1 :
  reachable s -> 0 < n -> n + 16 <= 2 ^ 31 ->
  mm_malloc fuel n s = Ret p s1 -> p <> 0 -> mem_brk s1 = mem_brk s ->
  exists s2,
    mm_free p s1 = Ret tt s2 /\ same_arena s s2 /\
    forall k l, heap_blocks k s = Some l -> exists k', heap_blocks k' s2 = Some l.
Proof.
  intros Hs Hn Hb Hrun Hp Hbrk.
  destruct (reachable_Inv s Hs) as [bs [fl [R [Hidx Hadj]]]].
  pose proof (mm_malloc_mono _ _ _ _ _ Hrun (Nat.max fuel (S (length fl)))
                (Nat.le_max_l _ _)) as Hrun'.
  destruct (adjust_size_ok n Hn Hb) as [Ha1 [Ha2 [Ha3 Ha4]]].
  destruct (mm_malloc_spec s bs fl (Nat.max fuel (S (length fl))) n R Hidx Hadj
              ltac:(lia) Hn Hb)
    as [[Hr0 _]|[p0 [s0 [Hr0 [_ Hal]]]]]; rewrite Hr0 in Hrun'.
  { injection Hrun' as Hp0 _. congruence. }
  injection Hrun' as -> ->.
  destruct Hal as [bs' [fl' [_ [R1' [Hidx1 [Hadj1 _]]]]]].
  destruct (mm_malloc_exact s bs fl (Nat.max fuel (S (length fl))) n R Hidx Hadj
              ltac:(lia) Hn Hb)
    as [[_ [[_ Hr]|[_ [s1' [Hr [_ [_ [_ Ebrk]]]]]]]]
       |[bs1 [csize [bs2 [E [Hle [_ [s1' [Hr [R1 Hsame]]]]]]]]]];
    rewrite Hr in Hr0.
  - injection Hr0 as Hp0 _. congruence.
  - injection Hr0 as _ ->. lia.
  - injection Hr0 as Ep ->. subst bs.
    destruct (Rep_unique _ _ _ _ _ R1' R1) as [-> ->].
    destruct (free_neighbours_allocated _ _ _ Hadj) as [Hl Hh].
    assert (Elo : mem_start_brk s1 = mem_start_brk s) by apply Hsame.
    assert (Hgoal : forall s2 fl2,
              mm_free p s1 = Ret tt s2 -> same_arena s1 s2 ->
              Rep s2 (bs1 ++ (csize, false) :: bs2) fl2 ->
              exists s2, mm_free p s1 = Ret tt s2 /\ same_arena s s2 /\
                forall k l, heap_blocks k s = Some l -> exists k', heap_blocks k' s2 = Some l).
    { intros s2 fl2 Hfree Hsame2 R2. exists s2. split; [exact Hfree|]. split.
      - destruct Hsame as [? [? [? ?]]]. destruct Hsame2 as [? [? [? ?]]].
        unfold same_arena. repeat split; congruence.
      - intros k l Hw. rewrite (heap_blocks_Rep _ _ _ _ _ R Hw).
        exists (S (length (bs1 ++ (csize, false) :: bs2))).
        assert (Elo2 : mem_start_brk s2 = mem_start_brk s).
        { destruct Hsame2 as [? _]. congruence. }
        rewrite <- Elo2. apply (Rep_heap_blocks _ _ _ _ R2). lia. }
    unfold placed_blocks in R1, Hidx1, Hadj1. rewrite <- Elo in Ep.
    destruct (24 <=? csize - (adjust_size n + 8)).
    + destruct (mm_free_exact _ _ _ _ _ R1 Hidx1 Hadj1) as [s2 [Hfree [R2 Hsame2]]].
      rewrite Ep in Hfree. rewrite (merged_before_free _ _ _ _ Hl) in R2.
      replace (adjust_size n + 8 + (csize - (adjust_size n + 8))) with csize in R2 by lia.
      exact (Hgoal _ _ Hfree Hsame2 R2).
    + destruct (mm_free_exact _ _ _ _ _ R1 Hidx1 Hadj1) as [s2 [Hfree [R2 Hsame2]]].
      rewrite Ep in Hfree. rewrite (merged_between_allocated _ _ _ Hl Hh) in R2.
      exact (Hgoal _ _ Hfree Hsame2 R2).
Qed.

Lemma mm_free_undoes_mm_malloc_witness :
  exists s2,
    mm_free 4136 s_two = Ret tt s2 /\ same_arena s_one s2 /\
    forall k l, heap_blocks k s_one = Some l -> exists k', heap_blocks k' s2 = Some l.
Proof.
  apply (mm_free_undoes_mm_malloc s_one 8 16 4136 s_two reachable_s_one);
    [lia|vm_compute; discriminate|vm_compute; reflexivity|lia|vm_compute; reflexivity].
Defined.

(* ================================================================= *)
(** ** [coalesce], [place] and [extend_heap] on the walks of the heap *)

Lemma Rep_walks s bs fl :
  Rep s bs fl ->
  exists k, heap_blocks k s = Some (layout (mem_start_brk s + 16) bs) /\
            index_nodes k s = Some fl.
Proof.
  intros R. exists (S (Nat.max (length bs) (length fl))). split.
  - apply (Rep_heap_blocks _ _ _ _ R). lia.
  - apply (Rep_index_nodes _ _ _ _ R). lia.
Qed.

Lemma Inv_Rep s k bs fl :
  Inv s ->
  heap_blocks k s = Some (layout (heap_listp s + 8) bs) ->
  index_nodes k s = Some fl ->
  Rep s bs fl /\ index_ok s bs fl /\ adjacent_free (flags bs) = false /\
  heap_listp s + 8 = mem_start_brk s + 16.
Proof.
  intros [bs0 [fl0 [R [Hidx Hadj]]]] Hw Hi.
  pose proof (rep_listp _ _ _ R) as Hl.
  assert (El : heap_listp s + 8 = mem_start_brk s + 16) by lia.
  rewrite El in Hw.
  pose proof (heap_blocks_Rep _ _ _ _ _ R Hw) as E. apply layout_inj in E. subst bs0.
  pose proof (index_nodes_Rep _ _ _ _ _ R Hi) as E. subst fl0. auto.
Qed.

Lemma keeps_allocated_held s bs fl s' bs' fl' :
  Rep s bs fl -> Rep s' bs' fl' -> keeps_allocated s bs s' bs' ->
  forall q qsz, held s q qsz ->
    held s' q qsz /\ forall x, q <= x < q + qsz - 8 -> mem s' x = mem s x.
Proof.
  intros R R' Hk q qsz Hq. apply (held_Rep _ _ _ _ _ R) in Hq.
  destruct (Hk q qsz Hq) as [Hq' Hm].
  split; [apply (held_Rep _ _ _ _ _ R'); exact Hq'|exact Hm].
Qed.

(** X8: in a state in which [coalesce] is called (the block of size [sz]
    between [bs1] and [bs2] is marked free and not yet indexed), it
    returns; the block has absorbed whichever physical neighbours were
    free, the address returned is that of the merged block (the
    predecessor's when it was absorbed), the index is [merged_index]
    (absorbed successor removed, merged block at the head, except that a
    predecessor merged into keeps its place when the successor is
    allocated), no two neighbours are both free, and the arena bounds and
    the payload bytes of the allocated blocks are unchanged. *)
Theorem coalesce_merges_free_neighbours s bs1 sz bs2 fl :
  Fresh s bs1 sz bs2 fl ->
  exists s' k,
    coalesce (mem_start_brk s + 16 + total bs1) s
      = Ret (merged_at (mem_start_brk s + 16 + total bs1) bs1) s' /\
    heap_blocks k s' = Some (layout (mem_start_brk s + 16) (merged bs1 sz bs2)) /\
    index_nodes k s'
      = Some (merged_index (mem_start_brk s + 16 + total bs1) bs1 sz bs2 fl) /\
    same_arena s s' /\ no_adjacent_free s' /\
    (forall q qsz, held s q qsz ->
       held s' q qsz /\ forall x, q <= x < q + qsz - 8 -> mem s' x = mem s x).
Proof.
  intros F. destruct (coalesce_exact _ _ _ _ _ F) as [s' [Hrun [Hc R']]].
  destruct (Rep_walks _ _ _ R') as [k [Hb Hi]].
  destruct Hc as [bs' [fl' [R'' [Hidx' [Hadj' [Hsame [_ Hkeep]]]]]]].
  assert (Elo : mem_start_brk s' = mem_start_brk s) by apply Hsame.
  exists s', k. split; [exact Hrun|]. rewrite Elo in Hb.
  split; [exact Hb|]. split; [exact Hi|]. split; [exact Hsame|]. split.
  - apply Inv_no_adjacent_free. exists bs', fl'. auto.
  - destruct F as [R _]. exact (keeps_allocated_held _ _ _ _ _ _ R R'' Hkeep).
Qed.

Lemma coalesce_merges_free_neighbours_witness :
  exists s' k,
    coalesce (mem_start_brk s_marked + 16 + total ([] ++ [(24, false)])) s_marked
      = Ret (merged_at (mem_start_brk s_marked + 16 + total ([] ++ [(24, false)]))
               ([] ++ [(24, false)])) s' /\
    heap_blocks k s'
      = Some (layout (mem_start_brk s_marked + 16)
                (merged ([] ++ [(24, false)]) 24 [(24, true); (4024, false)])) /\
    index_nodes k s'
      = Some (merged_index (mem_start_brk s_marked + 16 + total ([] ++ [(24, false)]))
                ([] ++ [(24, false)]) 24 [(24, true); (4024, false)] [4112; 4184]) /\
    same_arena s_marked s' /\ no_adjacent_free s' /\
    (forall q qsz, held s_marked q qsz ->
       held s' q qsz /\ forall x, q <= x < q + qsz - 8 -> mem s' x = mem s_marked x).
Proof.
  exact (coalesce_merges_free_neighbours s_marked ([] ++ [(24, false)]) 24
           [(24, true); (4024, false)] [4112; 4184] Fresh_s_marked).
Defined.

(** X9: on a state that satisfies the allocator's invariant, [place] of
    an adjusted size [asize] (a multiple of 8, at least 24) in a free
    block of size [csize >= asize] returns; the block is then allocated:
    split into [asize] allocated bytes and a free remainder when the
    remainder is at least 24 bytes, taken whole otherwise.  The block has
    left the index and the remainder of a split is at its head; the arena
    bounds and the payload bytes of the blocks allocated before are
    unchanged. *)
Theorem place_splits_or_takes_whole s k bs1 csize bs2 fl asize :
  Inv s ->
  heap_blocks k s = Some (layout (heap_listp s + 8) (bs1 ++ (csize, false) :: bs2)) ->
  index_nodes k s = Some fl ->
  24 <= asize <= csize -> asize mod 8 = 0 ->
  exists s' k',
    place (heap_listp s + 8 + total bs1) asize s = Ret tt s' /\
    heap_blocks k' s'
      = Some (layout (heap_listp s + 8) (placed_blocks bs1 csize asize bs2)) /\
    index_nodes k' s' = Some (placed_index (heap_listp s + 8 + total bs1) csize asize fl) /\
    same_arena s s' /\ no_adjacent_free s' /\
    (forall q qsz, held s q qsz ->
       held s' q qsz /\ forall x, q <= x < q + qsz - 8 -> mem s' x = mem s x).
Proof.
  intros HI Hw Hi Ha Ha8.
  destruct (Inv_Rep _ _ _ _ HI Hw Hi) as [R [Hidx [Hadj El]]]. rewrite El.
  destruct (place_exact _ _ _ _ _ asize R Hidx Hadj Ha Ha8) as [s' [Hrun [Hpl R']]].
  destruct (Rep_walks _ _ _ R') as [k' [Hb Hi']].
  destruct Hpl as [bs' [fl' [sz' [R'' [Hidx' [Hadj' [Hsame [_ [_ Hkeep]]]]]]]]].
  assert (Elo : mem_start_brk s' = mem_start_brk s) by apply Hsame.
  exists s', k'. split; [exact Hrun|]. rewrite Elo in Hb.
  split; [exact Hb|]. split; [exact Hi'|]. split; [exact Hsame|]. split.
  - apply Inv_no_adjacent_free. exists bs', fl'. auto.
  - exact (keeps_allocated_held _ _ _ _ _ _ R R'' Hkeep).
Qed.

Lemma place_splits_or_takes_whole_witness :
  exists s' k',
    place (heap_listp s_init + 8 + total []) 24 s_init = Ret tt s' /\
    heap_blocks k' s'
      = Some (layout (heap_listp s_init + 8) (placed_blocks [] 4096 24 [])) /\
    index_nodes k' s' = Some (placed_index (heap_listp s_init + 8 + total []) 4096 24 [4112]) /\
    same_arena s_init s' /\ no_adjacent_free s' /\
    (forall q qsz, held s_init q qsz ->
       held s' q qsz /\ forall x, q <= x < q + qsz - 8 -> mem s' x = mem s_init x).
Proof.
  apply (place_splits_or_takes_whole s_init 8 [] 4096 [] [4112] 24
           (reachable_Inv s_init reachable_s_init));
    [vm_compute; reflexivity|vm_compute; reflexivity|lia|reflexivity].
Defined.

Lemma extend_size_even words :
  0 <= words < 2 ^ 29 - 1 -> extend_size words = 4 * (words + words mod 2).
Proof.
  intros Hw. unfold extend_size, WSIZE.
  pose proof (Z.mod_pos_bound words 2 ltac:(lia)) as Hm.
  destruct (Z.eqb_spec (words mod 2) 0) as [E|E]; cbn [negb];
    rewrite u32_small by lia; lia.
Qed.

(** X10: on a state that satisfies the allocator's invariant,
    [extend_heap words] (6 words or more, below 2 GiB) asks for [words]
    rounded up to an even count, times 4 bytes.  It returns null and
    leaves the state unchanged when the arena has no room for them.
    Otherwise the break advances by that amount, the new space is a free
    block that has absorbed the last block of the heap when that block
    was free, its address is returned, and the blocks allocated before
    keep their place and payload bytes. *)
Theorem extend_heap_outcome s k bs fl words :
  Inv s ->
  heap_blocks k s = Some (layout (heap_listp s + 8) bs) ->
  index_nodes k s = Some fl ->
  6 <= words < 2 ^ 29 - 1 ->
  extend_size words = 4 * (words + words mod 2) /\
  ((mem_max_addr s < mem_brk s + extend_size words /\ extend_heap words s = Ret 0 s)
   \/
   (mem_brk s + extend_size words <= mem_max_addr s /\
    exists s' k',
      extend_heap words s = Ret (merged_at (mem_brk s) bs) s' /\
      heap_blocks k' s'
        = Some (layout (heap_listp s + 8) (merged bs (extend_size words) [])) /\
      index_nodes k' s' = Some (merged_index (mem_brk s) bs (extend_size words) [] fl) /\
      mem_brk s' = mem_brk s + extend_size words /\
      mem_start_brk s' = mem_start_brk s /\ mem_max_addr s' = mem_max_addr s /\
      no_adjacent_free s' /\
      (forall q qsz, held s q qsz ->
         held s' q qsz /\ forall x, q <= x < q + qsz - 8 -> mem s' x = mem s x))).
Proof.
  intros HI Hw Hi Hwords. split; [apply extend_size_even; lia|].
  destruct (Inv_Rep _ _ _ _ HI Hw Hi) as [R [Hidx [Hadj El]]]. rewrite El.
  destruct (Z.ltb_spec (mem_max_addr s) (mem_brk s + extend_size words)) as [Hfail|Hroom].
  - left. split; [exact Hfail|].
    destruct (extend_heap_spec _ _ _ words R Hidx Hadj Hwords) as [[_ Hrun]|[Hfit' _]];
      [exact Hrun|lia].
  - right. split; [exact Hroom|].
    destruct (extend_heap_exact _ _ _ words R Hidx Hadj Hwords Hroom) as [s' [Hrun [Hex R']]].
    destruct (Rep_walks _ _ _ R') as [k' [Hb Hi']].
    destruct Hex as [bs' [fl' [R'' [Hidx' [Hadj' [Elo [Ehi [Ehl [Ebrk [_ Hkeep]]]]]]]]]].
    exists s', k'. split; [exact Hrun|]. rewrite Elo in Hb.
    split; [exact Hb|]. split; [exact Hi'|]. split; [exact Ebrk|].
    split; [exact Elo|]. split; [exact Ehi|]. split.
    + apply Inv_no_adjacent_free. exists bs', fl'. auto.
    + exact (keeps_allocated_held _ _ _ _ _ _ R R'' Hkeep).
Qed.

Lemma extend_heap_outcome_witness :
  extend_size 1025 = 4 * (1025 + 1025 mod 2) /\
  ((mem_max_addr s_hole < mem_brk s_hole + extend_size 1025 /\
    extend_heap 1025 s_hole = Ret 0 s_hole)
   \/
   (mem_brk s_hole + extend_size 1025 <= mem_max_addr s_hole /\
    exists s' k',
      extend_heap 1025 s_hole
        = Ret (merged_at (mem_brk s_hole)
                 [(24, false); (24, true); (24, true); (4024, false)]) s' /\
      heap_blocks k' s'
        = Some (layout (heap_listp s_hole + 8)
                  (merged [(24, false); (24, true); (24, true); (4024, false)]
                     (extend_size 1025) [])) /\
      index_nodes k' s'
        = Some (merged_index (mem_brk s_hole)
                  [(24, false); (24, true); (24, true); (4024, false)]
                  (extend_size 1025) [] [4112; 4184]) /\
      mem_brk s' = mem_brk s_hole + extend_size 1025 /\
      mem_start_brk s' = mem_start_brk s_hole /\ mem_max_addr s' = mem_max_addr s_hole /\
      no_adjacent_free s' /\
      (forall q qsz, held s_hole q qsz ->
         held s' q qsz /\ forall x, q <= x < q + qsz - 8 -> mem s' x = mem s_hole x))).
Proof.
  apply (extend_heap_outcome s_hole 8 [(24, false); (24, true); (24, true); (4024, false)]
           [4112; 4184] 1025 (reachable_Inv s_hole reachable_s_hole));
    [vm_compute; reflexivity|vm_compute; reflexivity|lia].
Defined.

(* ================================================================= *)
(** ** Initialisation *)

(** X11: [mm_init] on a fresh arena (break at the start, less than 2 GiB
    of room).  Without room for the 16 bytes of padding, prologue and
    epilogue it returns -1 and writes nothing; with room for them but not
    for the first chunk of 4096 bytes it returns -1 with the break 16
    bytes up; otherwise it returns 0 and the heap is one free block of
    4096 bytes at 16 bytes from the start, which is the only node of the
    index. *)
Theorem mm_init_outcome s0 :
  mem_brk s0 = mem_start_brk s0 -> 0 <= mem_start_brk s0 ->
  mem_max_addr s0 - mem_start_brk s0 < 2 ^ 31 -> mem_max_addr s0 < 2 ^ 64 ->
  (mem_max_addr s0 < mem_start_brk s0 + 16 ->
     exists s, mm_init s0 = Ret (-1) s /\ mem s = mem s0 /\ mem_brk s = mem_brk s0) /\
  (mem_start_brk s0 + 16 <= mem_max_addr s0 < mem_start_brk s0 + 16 + 4096 ->
     exists s, mm_init s0 = Ret (-1) s /\ mem_brk s = mem_start_brk s0 + 16) /\
  (mem_start_brk s0 + 16 + 4096 <= mem_max_addr s0 ->
     exists s k,
       mm_init s0 = Ret 0 s /\
       heap_blocks k s = Some [(mem_start_brk s0 + 16, 4096, false)] /\
       index_nodes k s = Some [mem_start_brk s0 + 16] /\
       mem_start_brk s = mem_start_brk s0 /\ mem_brk s = mem_start_brk s0 + 16 + 4096 /\
       mem_max_addr s = mem_max_addr s0 /\ heap_listp s = mem_start_brk s0 + 8).
Proof.
  intros Hbrk Hlo Hsmall Haddr.
  destruct s0 as [m lo brk hi f hl]. norm in *. subst brk.
  split.
  { intros Hno. eexists. unfold mm_init, WSIZE.
    step. unfold bind at 1. unfold mem_sbrk. norm. change (4 * 4) with 16.
    destruct (Z.ltb_spec 16 0); [lia|]. destruct (Z.ltb_spec hi (lo + 16)); [|lia].
    cbn [orb]. unfold bind at 1. unfold put_heap_listp at 1. norm.
    cbn [Z.eqb]. split; [reflexivity|]. norm. auto. }
  set (m1 := store32 (store32 (store32 (store32 m lo 0) (lo + 4) (tag 8 true))
                              (lo + 8) (tag 8 true)) (lo + 12) (tag 0 true)).
  set (s1 := mkHeap m1 lo (lo + 16) hi 0 (lo + 8)).
  assert (Hrun : 16 + lo <= hi \/ lo + 16 <= hi -> forall k : M Z,
    (put_firstlist 0 ;; h <- mem_sbrk (4 * WSIZE) ;; put_heap_listp h ;;
     if h =? -1 then ret (-1)
     else PUT h 0 ;; PUT (h + WSIZE) (PACK DSIZE 1) ;; PUT (h + 2 * WSIZE) (PACK DSIZE 1) ;;
          PUT (h + 3 * WSIZE) (PACK 0 1) ;; put_heap_listp (h + 2 * WSIZE) ;; k)
      (mkHeap m lo lo hi f hl) = k s1).
  { intros Hroom k. unfold WSIZE, DSIZE. step. unfold bind at 1. unfold mem_sbrk. norm.
    change (4 * 4) with 16.
    destruct (Z.ltb_spec 16 0); [lia|]. destruct (Z.ltb_spec hi (lo + 16)); [lia|].
    cbn [orb]. unfold bind at 1. unfold put_heap_listp at 1. norm.
    destruct (Z.eqb_spec lo (-1)); [lia|].
    steps. unfold bind, put_heap_listp. norm. reflexivity. }
  assert (R1 : lo + 16 <= hi -> Rep s1 [] []).
  { intros Hroom. unfold s1, m1. constructor; norm; cbn [total layout dseg hd]; try lia; auto.
    - rewrite !load32_store32_other by lia. apply load32_store32. cbn. lia.
    - rewrite !load32_store32_other by lia. apply load32_store32. cbn. lia.
    - replace (lo + 16 - 4) with (lo + 12) by lia. apply load32_store32. cbn. lia.
    - constructor.
    - intros n []. }
  assert (Hidx1 : index_ok s1 [] []) by (intros a sz al []).
  split.
  - intros [Hroom Hshort]. unfold mm_init. rewrite Hrun by lia.
    unfold CHUNKSIZE, WSIZE. change (Z.shiftl 1 12 / 4) with 1024.
    destruct (extend_heap_spec s1 [] [] 1024 (R1 Hroom) Hidx1 eq_refl ltac:(lia))
      as [[_ Hrun2]|[Hfit _]].
    + rewrite (bind_run _ _ _ _ _ Hrun2). cbn [Z.eqb]. exists s1. split; reflexivity.
    + change (extend_size 1024) with 4096 in Hfit. unfold s1 in Hfit. norm in Hfit. lia.
  - intros Hroom. unfold mm_init. rewrite Hrun by lia.
    unfold CHUNKSIZE, WSIZE. change (Z.shiftl 1 12 / 4) with 1024.
    destruct (extend_heap_exact s1 [] [] 1024 (R1 ltac:(lia)) Hidx1 eq_refl ltac:(lia))
      as [s2 [Hrun2 [Hex R2]]].
    { change (extend_size 1024) with 4096. unfold s1. norm. lia. }
    change (extend_size 1024) with 4096 in Hrun2, Hex, R2.
    change (merged [] 4096 []) with [(4096, false)] in R2.
    change (mem_brk s1) with (lo + 16) in Hrun2, Hex, R2.
    change (merged_at (lo + 16) []) with (lo + 16 - 0) in Hrun2.
    change (merged_index (lo + 16) [] 4096 [] []) with [lo + 16] in R2.
    rewrite (bind_run _ _ _ _ _ Hrun2).
    destruct (Z.eqb_spec (lo + 16 - 0) 0); [lia|].
    destruct (Rep_walks _ _ _ R2) as [k [Hb Hi]].
    destruct Hex as [_ [_ [_ [_ [_ [Elo [Ehi [Ehl [Ebrk _]]]]]]]]].
    unfold s1 in Elo, Ehi, Ehl, Ebrk. norm in *.
    exists s2, k. split; [reflexivity|].
    rewrite Elo in Hb. cbn [layout] in Hb.
    split; [exact Hb|]. split; [exact Hi|]. repeat split; lia.
Qed.

Lemma mm_init_outcome_witness :
  (mem_max_addr heap0 < mem_start_brk heap0 + 16 ->
     exists s, mm_init heap0 = Ret (-1) s /\ mem s = mem heap0 /\ mem_brk s = mem_brk heap0) /\
  (mem_start_brk heap0 + 16 <= mem_max_addr heap0 < mem_start_brk heap0 + 16 + 4096 ->
     exists s, mm_init heap0 = Ret (-1) s /\ mem_brk s = mem_start_brk heap0 + 16) /\
  (mem_start_brk heap0 + 16 + 4096 <= mem_max_addr heap0 ->
     exists s k,
       mm_init heap0 = Ret 0 s /\
       heap_blocks k s = Some [(mem_start_brk heap0 + 16, 4096, false)] /\
       index_nodes k s = Some [mem_start_brk heap0 + 16] /\
       mem_start_brk s = mem_start_brk heap0 /\ mem_brk s = mem_start_brk heap0 + 16 + 4096 /\
       mem_max_addr s = mem_max_addr heap0 /\ heap_listp s = mem_start_brk heap0 + 8).
Proof.
  apply (mm_init_outcome heap0); vm_compute; first [reflexivity|discriminate].
Defined.

(* ================================================================= *)
(** ** After a free, the block is no longer allocated *)

Lemma kept_before_total bs1 :
  Forall size_ok bs1 ->
  total (kept_before bs1) = total bs1 - absorbed_prev bs1 /\
  0 <= absorbed_prev bs1 /\ Forall size_ok (kept_before bs1).
Proof.
  intros Hs. unfold kept_before, absorbed_prev.
  destruct (snoc_cases bs1) as [->|[bs0 [[psz pal] ->]]]; [cbn; auto with zarith|].
  rewrite last_snoc. cbn [fst snd]. destruct pal; [split; [lia|split; [lia|exact Hs]]|].
  rewrite removelast_snoc, total_app. cbn [total].
  apply size_ok_app in Hs as [Hs0 Hs]. inversion Hs as [|? ? [? _] _]; subst. cbn [fst] in *.
  split; [lia|split; [lia|exact Hs0]].
Qed.

Lemma kept_after_ok bs2 :
  Forall size_ok bs2 -> 0 <= absorbed_next bs2 /\ Forall size_ok (kept_after bs2).
Proof.
  intros Hs. unfold kept_after, absorbed_next.
  destruct bs2 as [|[nsz nal] r]; cbn [hd tl fst snd]; [split; [lia|exact Hs]|].
  inversion Hs as [|? ? [? _] Hr]; subst. cbn [fst] in *.
  destruct nal; (split; [lia|assumption]).
Qed.

Lemma merged_not_allocated a bs1 sz bs2 sz0 :
  Forall size_ok bs1 -> Forall size_ok bs2 -> 24 <= sz ->
  ~ In (a + total bs1, sz0, true) (layout a (merged bs1 sz bs2)).
Proof.
  intros Hs1 Hs2 Hsz Hin.
  destruct (kept_before_total _ Hs1) as [Et [Hap Hkb]].
  destruct (kept_after_ok _ Hs2) as [Han Hka].
  unfold merged in Hin. rewrite layout_app in Hin. apply in_app_or in Hin.
  cbn [layout In] in Hin. destruct Hin as [Hin|[Hin|Hin]].
  - pose proof (layout_bounds _ _ _ _ _ Hkb Hin). lia.
  - discriminate.
  - pose proof (layout_bounds _ _ _ _ _ Hka Hin). lia.
Qed.

Lemma merged_allocated_sub a bs1 sz bs2 q qsz :
  Forall size_ok bs1 -> Forall size_ok bs2 -> 24 <= sz ->
  In (q, qsz, true) (layout a (merged bs1 sz bs2)) ->
  In (q, qsz, true) (layout a (bs1 ++ (sz, true) :: bs2)).
Proof.
  intros Hs1 Hs2 Hsz Hin.
  unfold merged in Hin. rewrite layout_app in Hin. apply in_app_or in Hin.
  rewrite layout_app. apply in_or_app. cbn [layout In] in Hin |- *.
  destruct (kept_before_total _ Hs1) as [Et _]. rewrite Et in Hin.
  destruct Hin as [Hin|[Hin|Hin]]; [left|discriminate|right; right].
  - unfold kept_before in Hin.
    destruct (snoc_cases bs1) as [->|[bs0 [[psz pal] E]]]; [destruct (snd _); exact Hin|].
    rewrite E, last_snoc in Hin. cbn [snd] in Hin. destruct pal; [rewrite E; exact Hin|].
    rewrite removelast_snoc in Hin. rewrite E, layout_app. apply in_or_app. left. exact Hin.
  - unfold kept_after, absorbed_next in Hin.
    destruct bs2 as [|[nsz nal] r]; cbn [hd tl fst snd] in Hin.
    + destruct Hin.
    + destruct nal.
      * replace (a + (total bs1 - absorbed_prev bs1) + (absorbed_prev bs1 + sz + 0))
          with (a + total bs1 + sz) in Hin by lia. exact Hin.
      * cbn [layout In]. right.
        replace (a + (total bs1 - absorbed_prev bs1) + (absorbed_prev bs1 + sz + nsz))
          with (a + total bs1 + sz + nsz) in Hin by lia. exact Hin.
Qed.

(** X12: on a reachable state, [mm_free] of a block the client holds
    returns in a reachable state in which that block is no longer
    allocated; the allocated blocks are then exactly the other blocks
    that were allocated before, with their sizes and payload bytes, and
    the arena bounds are unchanged (memory is never given back). *)
Theorem mm_free_releases_the_block s p sz :
  reachable s -> held s p sz ->
  exists s',
    mm_free p s = Ret tt s' /\ reachable s' /\ same_arena s s' /\
    (forall sz0, ~ held s' p sz0) /\
    (forall q qsz, held s' q qsz <-> held s q qsz /\ q <> p) /\
    (forall q qsz, held s q qsz -> q <> p ->
       forall x, q <= x < q + qsz - 8 -> mem s' x = mem s x).
Proof.
  intros Hs Hp.
  destruct (reachable_Inv s Hs) as [bs [fl [R [Hidx Hadj]]]].
  assert (Hp' := Hp). apply (held_Rep _ _ _ _ _ R) in Hp'.
  destruct (layout_split _ _ _ _ _ Hp') as [bs1 [bs2 [E Ep]]]. subst bs.
  destruct (mm_free_exact _ _ _ _ _ R Hidx Hadj) as [s' [Hrun [R' Hsame]]].
  destruct (mm_free_spec _ _ _ _ _ R Hidx Hadj Hp') as [s'' [Hrun' Hfr]].
  rewrite <- Ep in Hrun. rewrite Hrun in Hrun'. injection Hrun' as <-.
  destruct Hfr as [bs' [fl' [R'' [_ [_ [_ Hkeep]]]]]].
  assert (Elo : mem_start_brk s' = mem_start_brk s) by apply Hsame.
  pose proof (rep_sizes _ _ _ R) as Hsz. apply size_ok_app in Hsz as [Hs1 Hsz].
  inversion Hsz as [|? ? [H24 _] Hs2]; subst. cbn [fst] in H24.
  exists s'. split; [exact Hrun|]. split; [|split; [exact Hsame|split; [|split]]].
  - apply (reach_free s (mem_start_brk s + 16 + total bs1) s' Hs); [right|exact Hrun].
    destruct Hp as [k [l [H1 H2]]]. exists k, l, sz. auto.
  - intros sz0 Hh. apply (held_Rep _ _ _ _ _ R') in Hh. rewrite Elo in Hh.
    exact (merged_not_allocated _ _ _ _ _ Hs1 Hs2 H24 Hh).
  - intros q qsz. split.
    + intros Hh. apply (held_Rep _ _ _ _ _ R') in Hh. rewrite Elo in Hh. split.
      * apply (held_Rep _ _ _ _ _ R). exact (merged_allocated_sub _ _ _ _ _ _ Hs1 Hs2 H24 Hh).
      * intros ->. exact (merged_not_allocated _ _ _ _ _ Hs1 Hs2 H24 Hh).
    + intros [Hh Hne]. apply (held_Rep _ _ _ _ _ R) in Hh.
      apply (held_Rep _ _ _ _ _ R''). apply (Hkeep q qsz Hh Hne).
  - intros q qsz Hh Hne. apply (held_Rep _ _ _ _ _ R) in Hh. apply (Hkeep q qsz Hh Hne).
Qed.

Lemma held_s_hole : held s_hole 4136 24.
Proof.
  exists 8%nat, [(4112, 24, false); (4136, 24, true); (4160, 24, true); (4184, 4024, false)].
  split; [vm_compute; reflexivity|right; left; reflexivity].
Qed.

Lemma mm_free_releases_the_block_witness :
  exists s',
    mm_free 4136 s_hole = Ret tt s' /\ reachable s' /\ same_arena s_hole s' /\
    (forall sz0, ~ held s' 4136 sz0) /\
    (forall q qsz, held s' q qsz <-> held s_hole q qsz /\ q <> 4136) /\
    (forall q qsz, held s_hole q qsz -> q <> 4136 ->
       forall x, q <= x < q + qsz - 8 -> mem s' x = mem s_hole x).
Proof.
  exact (mm_free_releases_the_block s_hole 4136 24 reachable_s_hole held_s_hole).
Defined.

(* ================================================================= *)
(** ** What [mm_realloc] guarantees on every path *)

(** The merged block is free and covers the block that was freed. *)
Lemma merged_covers a bs1 sz bs2 :
  Forall size_ok bs1 -> Forall size_ok bs2 ->
  exists q qsz,
    In (q, qsz, false) (layout a (merged bs1 sz bs2)) /\
    q <= a + total bs1 /\ a + total bs1 + sz <= q + qsz.
Proof.
  intros Hs1 Hs2.
  destruct (kept_before_total _ Hs1) as [Et [Hap _]].
  destruct (kept_after_ok _ Hs2) as [Han _].
  exists (a + total (kept_before bs1)), (absorbed_prev bs1 + sz + absorbed_next bs2).
  split; [unfold merged; apply layout_mid|lia].
Qed.

(** The relocation path: the new block is allocated, the old one is not
    (its bytes lie in a free block), every other allocated block is
    untouched. *)
Lemma relocate_keeps s bs fl fuel ptr csize n newp s' :
  Rep s bs fl -> index_ok s bs fl -> adjacent_free (flags bs) = false ->
  (length fl < fuel)%nat ->
  In (ptr, csize, true) (layout (mem_start_brk s + 16) bs) ->
  0 < n -> n + 16 <= 2 ^ 31 ->
  relocate fuel ptr n s = Ret newp s' ->
  exists bs3 fl3 sz',
    Rep s' bs3 fl3 /\
    In (newp, sz', true) (layout (mem_start_brk s' + 16) bs3) /\
    adjust_size n + 8 <= sz' /\ newp <> ptr /\
    (forall sz0, ~ In (ptr, sz0, true) (layout (mem_start_brk s' + 16) bs3)) /\
    (forall a sz, In (a, sz, true) (layout (mem_start_brk s + 16) bs) -> a <> ptr ->
       In (a, sz, true) (layout (mem_start_brk s' + 16) bs3) /\
       forall x, a <= x < a + sz - 8 -> mem s' x = mem s x) /\
    mem_brk s <= mem_brk s' /\
    (exists q qsz,
       In (q, qsz, false) (layout (mem_start_brk s' + 16) bs3) /\
       q <= ptr /\ ptr + csize <= q + qsz).
Proof.
  intros R Hidx Hadj Hlen Hptr Hn Hb Hrel.
  destruct (adjust_size_ok n Hn Hb) as [Ha1 _].
  destruct (mm_malloc_spec _ _ _ _ n R Hidx Hadj Hlen Hn Hb)
    as [[Hrun _]|[newp' [s1 [Hrun [Hne Hal]]]]].
  { unfold relocate in Hrel. rewrite (bind_run _ _ _ _ _ Hrun) in Hrel. discriminate. }
  destruct Hal as [bs1 [fl1 [sz' [R1 [Hidx1 [Hadj1 [Elo1 [Ehi1 [Ehl1 [Hbrk1 [Hnew [Hsz [Hkeep Hnot]]]]]]]]]]]]].
  destruct (Hkeep ptr csize Hptr) as [Hptr1 Hpay].
  pose proof (Rep_entry _ _ _ _ _ _ R1 Hptr1) as [Hp1 [Hp2 [Hp3 _]]].
  pose proof (Rep_entry _ _ _ _ _ _ R1 Hnew) as [Hq1 [Hq2 [Hq3 _]]].
  assert (Hsep : ptr + csize <= newp' \/ newp' + sz' <= ptr).
  { destruct (entries_sep _ _ _ _ _ _ _ _ _ R1 Hptr1 Hnew) as [[E [E' _]]|?]; [|assumption].
    exfalso. subst newp'. apply (Hnot csize). exact Hptr. }
  set (cs := Z.min n csize).
  assert (Ecs : (if n <? csize then n else csize) = cs).
  { unfold cs. destruct (Z.ltb_spec n csize); lia. }
  set (s2 := set_mem s1 (copy_bytes (mem s1) newp' ptr cs)).
  assert (Hcopy : memcpy newp' ptr cs s1 = Ret tt s2).
  { unfold memcpy.
    rewrite (proj2 (in_arena_iff s1 newp' cs)) by (unfold cs; lia).
    rewrite (proj2 (in_arena_iff s1 ptr cs)) by (unfold cs; lia).
    cbn [andb].
    destruct (Z.leb_spec (newp' + cs) ptr); [reflexivity|].
    destruct (Z.leb_spec (ptr + cs) newp'); [reflexivity|]. unfold cs in *. lia. }
  assert (R2 : Rep s2 bs1 fl1).
  { apply (Rep_payload_change s1 bs1 fl1 newp' sz'); try assumption.
    intros x Hx. apply copy_bytes_other. unfold cs. lia. }
  assert (Hidx2 : index_ok s2 bs1 fl1) by exact Hidx1.
  assert (Hptr2 : In (ptr, csize, true) (layout (mem_start_brk s2 + 16) bs1)) by exact Hptr1.
  destruct (mm_free_spec _ _ _ _ _ R2 Hidx2 Hadj1 Hptr2) as [s3 [Hfree Hfr]].
  unfold relocate in Hrel. rewrite (bind_run _ _ _ _ _ Hrun) in Hrel.
  destruct (Z.eqb_spec newp' 0); [contradiction|].
  rewrite (run_GET_SIZE_hdr _ _ _ _ _ _ _ R1 Hptr1), Ecs in Hrel.
  rewrite (bind_run _ _ _ _ _ Hcopy), (bind_run _ _ _ _ _ Hfree) in Hrel.
  injection Hrel as <- <-.
  destruct (layout_split _ _ _ _ _ Hptr2) as [b1 [b2 [Eb Ep]]].
  assert (R2' := R2). rewrite Eb in R2', Hidx2, Hadj1.
  destruct (mm_free_exact _ _ _ _ _ R2' Hidx2 Hadj1) as [s3' [Hfree' [R3 Hsame3]]].
  rewrite <- Ep, Hfree in Hfree'. injection Hfree' as <-.
  destruct Hfr as [bs3 [fl3 [R3' [_ [_ [[Elo3 [Ebrk3 _]] Hkeep3]]]]]].
  destruct (Rep_unique _ _ _ _ _ R3' R3) as [-> ->].
  pose proof (rep_sizes _ _ _ R2') as Hsz2. apply size_ok_app in Hsz2 as [Hs1 Hsz2].
  inversion Hsz2 as [|? ? [H24 _] Hs2]. cbn [fst] in H24.
  assert (Hnp : newp' <> ptr) by lia.
  exists (merged b1 csize b2), (merged_index (mem_start_brk s2 + 16 + total b1) b1 csize b2 fl1), sz'.
  split; [exact R3|]. split; [|split; [exact Hsz|split; [exact Hnp|split; [|split]]]].
  - assert (Hnew2 : In (newp', sz', true) (layout (mem_start_brk s2 + 16) bs1)) by exact Hnew.
    apply (Hkeep3 newp' sz' Hnew2 Hnp).
  - intros sz0 Hin. rewrite Elo3, Ep in Hin.
    exact (merged_not_allocated _ _ _ _ _ Hs1 Hs2 H24 Hin).
  - intros a sz Ha Hane. destruct (Hkeep a sz Ha) as [Ha1' Hm1].
    assert (Ha2 : In (a, sz, true) (layout (mem_start_brk s2 + 16) bs1)) by exact Ha1'.
    destruct (Hkeep3 a sz Ha2 Hane) as [Ha3 Hm3].
    split; [exact Ha3|].
    intros y Hy. rewrite Hm3 by exact Hy. unfold s2. cbn [mem set_mem].
    rewrite copy_bytes_other; [apply Hm1; exact Hy|].
    assert (Hanew : a <> newp').
    { intros ->. apply (Hnot sz). exact Ha. }
    pose proof (Rep_entry _ _ _ _ _ _ R1 Ha1') as [? [? [? _]]].
    destruct (entries_sep _ _ _ _ _ _ _ _ _ R1 Ha1' Hnew) as [[E _]|?]; [contradiction|].
    unfold cs. lia.
  - split; [rewrite Ebrk3; exact Hbrk1|].
    rewrite Elo3, Ep. exact (merged_covers _ b1 csize b2 Hs1 Hs2).
Qed.

Lemma layout_replace a bs1 mid mid' bs2 e :
  total mid' = total mid ->
  In e (layout a (bs1 ++ mid ++ bs2)) ->
  ~ In e (layout (a + total bs1) mid) ->
  In e (layout a (bs1 ++ mid' ++ bs2)).
Proof.
  intros Et Hin Hn. rewrite !layout_app in *. rewrite Et.
  apply in_app_or in Hin. apply in_or_app. destruct Hin as [Hin|Hin]; [left; exact Hin|right].
  apply in_app_or in Hin. apply in_or_app. destruct Hin as [Hin|Hin]; [contradiction|right].
  exact Hin.
Qed.

Lemma held_allocated s p sz : held s p sz -> allocated s p.
Proof. intros [k [l [H1 H2]]]. exists k, l, sz. auto. Qed.

(** X13: whichever path [mm_realloc ptr n] takes on a reachable state
    (the block kept, grown into its free successor, or relocated), if it
    returns then the address it returns is the payload of an allocated
    block of at least [n + 8] bytes holding the first [min n (csize - 8)]
    bytes of the old payload; when the address differs from [ptr] the old
    block is no longer allocated; every other allocated block keeps its
    place, size and payload bytes; the break never moves down. *)
Theorem mm_realloc_contract s fuel p csize n q s' :
  reachable s -> held s p csize -> 0 <= n -> n + 16 <= 2 ^ 31 ->
  mm_realloc fuel p n s = Ret q s' ->
  reachable s' /\
  (exists sz, held s' q sz /\ n + 8 <= sz) /\
  (forall i, 0 <= i < Z.min n (csize - 8) -> mem s' (q + i) = mem s (p + i)) /\
  (q <> p -> forall sz0, ~ held s' p sz0) /\
  (forall r rsz, held s r rsz -> r <> p ->
     held s' r rsz /\ forall x, r <= x < r + rsz - 8 -> mem s' x = mem s x) /\
  mem_brk s <= mem_brk s'.
Proof.
  intros Hs Hp Hn Hb Hrun.
  split; [exact (reach_realloc s fuel p n q s' Hs (held_allocated _ _ _ Hp) Hn Hb Hrun)|].
  destruct (reachable_Inv s Hs) as [bs [fl [R [Hidx Hadj]]]].
  pose proof (mm_realloc_mono _ _ _ _ _ _ Hrun (Nat.max fuel (S (length fl)))
                (Nat.le_max_l _ _)) as Hrun'.
  assert (Hin := Hp). apply (held_Rep _ _ _ _ _ R) in Hin.
  pose proof (Rep_entry _ _ _ _ _ _ R Hin) as [_ [_ [H24 _]]].
  destruct (layout_split _ _ _ _ _ Hin) as [bs1 [bs2 [E Ep]]].
  destruct (hd (0, true) bs2) as [nsz nal] eqn:Hhd.
  assert (R0 := R). rewrite E in R0.
  rewrite Ep, (mm_realloc_reads _ _ _ _ _ _ _ nsz nal R0 Hhd Hn Hb) in Hrun'.
  rewrite <- Ep in Hrun'.
  destruct (Z.gtb_spec csize (n + 8)) as [Hkeep|Hsmall].
  - (* kept *)
    injection Hrun' as <- <-.
    split; [exists csize; split; [exact Hp|lia]|].
    split; [reflexivity|]. split; [intros H; contradiction|].
    split; [intros r rsz Hr _; split; [exact Hr|reflexivity]|lia].
  - destruct nal; cbn [b2z Z.eqb andb] in Hrun'.
    + (* relocated: the successor is allocated *)
      fold (relocate (Nat.max fuel (S (length fl))) p n) in Hrun'.
      destruct (relocate_keeps s bs fl (Nat.max fuel (S (length fl))) p csize n q s'
                  R Hidx Hadj ltac:(lia) Hin ltac:(lia) Hb Hrun')
        as [bs3 [fl3 [sz' [R3 [Hq [Hsz [Hqp [Hgone [Hkeep [Hbrk _]]]]]]]]]].
      destruct (adjust_size_ok n ltac:(lia) Hb) as [Ha1 _].
      destruct (relocate_spec s bs fl (Nat.max fuel (S (length fl))) p csize n
                  R Hidx Hadj ltac:(lia) Hin ltac:(lia) Hb)
        as [[_ Hex]|[np [s1 [s2 [_ [_ [_ [Hrel [_ [_ [_ Hdata]]]]]]]]]]];
        rewrite Hrun' in *; [discriminate|]. injection Hrel as <- <-.
      split; [exists sz'; split; [apply (held_Rep _ _ _ _ _ R3); exact Hq|lia]|].
      split; [exact Hdata|]. split.
      { intros _ sz0 Hh. apply (held_Rep _ _ _ _ _ R3) in Hh. exact (Hgone sz0 Hh). }
      split; [|exact Hbrk].
      intros r rsz Hr Hne. apply (held_Rep _ _ _ _ _ R) in Hr.
      destruct (Hkeep r rsz Hr Hne) as [H1 H2].
      split; [apply (held_Rep _ _ _ _ _ R3); exact H1|exact H2].
    + destruct (Z.geb_spec (csize + nsz) (n + 8)) as [Hgrow|Hno].
      * (* grown in place *)
        destruct bs2 as [|[nsz' nal'] bs2']; [discriminate|].
        cbn [hd] in Hhd. injection Hhd as -> ->.
        assert (Hidx0 := Hidx). assert (Hadj0 := Hadj). rewrite E in Hidx0, Hadj0.
        destruct (mm_realloc_grow _ _ _ _ _ _ R0 Hidx0 Hadj0)
          as [s2 [Hg [_ [[Elo [Ebrk _]] [Hpay [[fl2 R2] Hothers]]]]]].
        rewrite <- Ep in Hg, Hpay, Hothers. rewrite Hg in Hrun'. injection Hrun' as <- <-.
        split.
        { exists (csize + nsz). split; [|lia]. apply (held_Rep _ _ _ _ _ R2).
          rewrite Ep, <- Elo. apply layout_mid. }
        split; [intros i Hi; apply Hpay; lia|]. split; [intros H; contradiction|].
        split; [|lia].
        intros r rsz Hr Hne. apply (held_Rep _ _ _ _ _ R) in Hr.
        split; [|rewrite E in Hr; exact (Hothers r rsz Hr Hne)].
        apply (held_Rep _ _ _ _ _ R2). rewrite Elo. rewrite E in Hr.
        apply (layout_replace _ bs1 [(csize, true); (nsz, false)] [(csize + nsz, true)] bs2');
          [cbn [total]; lia|exact Hr|].
        cbn [layout In]. rewrite <- Ep. intros [H|[H|[]]]; [injection H as H _; congruence|discriminate].
      * (* relocated: the successor is too small *)
        fold (relocate (Nat.max fuel (S (length fl))) p n) in Hrun'.
        destruct (relocate_keeps s bs fl (Nat.max fuel (S (length fl))) p csize n q s'
                  R Hidx Hadj ltac:(lia) Hin ltac:(lia) Hb Hrun')
          as [bs3 [fl3 [sz' [R3 [Hq [Hsz [Hqp [Hgone [Hkeep [Hbrk _]]]]]]]]]].
        destruct (adjust_size_ok n ltac:(lia) Hb) as [Ha1 _].
        destruct (relocate_spec s bs fl (Nat.max fuel (S (length fl))) p csize n
                  R Hidx Hadj ltac:(lia) Hin ltac:(lia) Hb)
          as [[_ Hex]|[np [s1 [s2 [_ [_ [_ [Hrel [_ [_ [_ Hdata]]]]]]]]]]];
          rewrite Hrun' in *; [discriminate|]. injection Hrel as <- <-.
        split; [exists sz'; split; [apply (held_Rep _ _ _ _ _ R3); exact Hq|lia]|].
        split; [exact Hdata|]. split.
        { intros _ sz0 Hh. apply (held_Rep _ _ _ _ _ R3) in Hh. exact (Hgone sz0 Hh). }
        split; [|exact Hbrk].
        intros r rsz Hr Hne. apply (held_Rep _ _ _ _ _ R) in Hr.
        destruct (Hkeep r rsz Hr Hne) as [H1 H2].
        split; [apply (held_Rep _ _ _ _ _ R3); exact H1|exact H2].
Qed.

Lemma held_s_two : held s_two 4112 24.
Proof.
  exists 8%nat, [(4112, 24, true); (4136, 24, true); (4160, 4048, false)].
  split; [vm_compute; reflexivity|left; reflexivity].
Qed.

Lemma run_value_exec {A} (c : M A) s a : value c s = Some a -> c s = Ret a (exec c s).
Proof. unfold value, exec. destruct (c s); intros H; inversion H; reflexivity. Qed.

Lemma mm_realloc_contract_witness :
  reachable s_moved /\
  (exists sz, held s_moved 4160 sz /\ 16 + 8 <= sz) /\
  (forall i, 0 <= i < Z.min 16 (24 - 8) -> mem s_moved (4160 + i) = mem s_two (4112 + i)) /\
  (4160 <> 4112 -> forall sz0, ~ held s_moved 4112 sz0) /\
  (forall r rsz, held s_two r rsz -> r <> 4112 ->
     held s_moved r rsz /\ forall x, r <= x < r + rsz - 8 -> mem s_moved x = mem s_two x) /\
  mem_brk s_two <= mem_brk s_moved.
Proof.
  apply (mm_realloc_contract s_two 8 4112 24 16 4160 s_moved reachable_s_two held_s_two);
    [lia|vm_compute; discriminate|].
  unfold s_moved. apply (run_value_exec (mm_realloc 8 4112 16) s_two 4160).
  vm_compute. reflexivity.
Defined.

(* ================================================================= *)
(** ** The shape of the heap and of the index on reachable states *)

Lemma contiguous_layout bs : forall a, contiguous a (layout a bs) (a + total bs).
Proof.
  induction bs as [|[sz al] r IH]; intros a; cbn [layout contiguous total]; [lia|].
  split; [reflexivity|]. replace (a + (sz + total r)) with (a + sz + total r) by lia. apply IH.
Qed.

Lemma entry_size_layout bs : forall a,
  Forall size_ok bs -> Forall entry_size_ok (layout a bs).
Proof.
  induction bs as [|[sz al] r IH]; intros a Hs; cbn [layout]; [constructor|].
  inversion Hs as [|? ? [H1 H2] Hr]; subst. constructor; [exact (conj H1 H2)|apply IH; exact Hr].
Qed.

(** X14: in every reachable state the heap has the layout drawn at the
    head of mm.c: 4 bytes of padding, a prologue of 8 bytes marked
    allocated (header and footer hold 9), then the blocks without gap up
    to the break; the epilogue header (size 0, allocated) is in the
    4 bytes below the break.  Every block has a size that is a multiple
    of 8 and at least 24, and a header and a footer that both hold its
    size and allocated bit; two distinct blocks never overlap. *)
Theorem heap_is_tiled_by_blocks s :
  reachable s ->
  exists k l,
    heap_blocks k s = Some l /\
    contiguous (mem_start_brk s + 16) l (mem_brk s) /\
    Forall entry_size_ok l /\ Forall (tags_at (mem s)) l /\
    load32 (mem s) (mem_start_brk s + 4) = 9 /\
    load32 (mem s) (mem_start_brk s + 8) = 9 /\
    load32 (mem s) (mem_brk s - 4) = 1 /\
    heap_listp s = mem_start_brk s + 8 /\ mem_brk s <= mem_max_addr s /\
    (forall a1 sz1 al1 a2 sz2 al2,
       In (a1, sz1, al1) l -> In (a2, sz2, al2) l ->
       (a1 = a2 /\ sz1 = sz2 /\ al1 = al2) \/ a1 + sz1 <= a2 \/ a2 + sz2 <= a1).
Proof.
  intros Hs. destruct (reachable_Inv s Hs) as [bs [fl [R _]]].
  destruct (Rep_walks _ _ _ R) as [k [Hb _]].
  exists k, (layout (mem_start_brk s + 16) bs). split; [exact Hb|].
  split; [rewrite (rep_brk _ _ _ R); apply contiguous_layout|].
  split; [apply entry_size_layout; apply (rep_sizes _ _ _ R)|].
  split; [apply (rep_tags _ _ _ R)|].
  split; [apply (rep_pro_hdr _ _ _ R)|]. split; [apply (rep_pro_ftr _ _ _ R)|].
  split; [apply (rep_epi _ _ _ R)|]. split; [apply (rep_listp _ _ _ R)|].
  split; [apply (rep_max _ _ _ R)|].
  intros a1 sz1 al1 a2 sz2 al2 H1 H2. exact (entries_sep _ _ _ _ _ _ _ _ _ R H1 H2).
Qed.

Lemma heap_is_tiled_by_blocks_witness :
  exists k l,
    heap_blocks k s_hole = Some l /\
    contiguous (mem_start_brk s_hole + 16) l (mem_brk s_hole) /\
    Forall entry_size_ok l /\ Forall (tags_at (mem s_hole)) l /\
    load32 (mem s_hole) (mem_start_brk s_hole + 4) = 9 /\
    load32 (mem s_hole) (mem_start_brk s_hole + 8) = 9 /\
    load32 (mem s_hole) (mem_brk s_hole - 4) = 1 /\
    heap_listp s_hole = mem_start_brk s_hole + 8 /\ mem_brk s_hole <= mem_max_addr s_hole /\
    (forall a1 sz1 al1 a2 sz2 al2,
       In (a1, sz1, al1) l -> In (a2, sz2, al2) l ->
       (a1 = a2 /\ sz1 = sz2 /\ al1 = al2) \/ a1 + sz1 <= a2 \/ a2 + sz2 <= a1).
Proof.
  exact (heap_is_tiled_by_blocks s_hole reachable_s_hole).
Defined.

(** X15: in every reachable state the free index is a well-formed
    doubly linked list that ends: following [next] from [firstlist]
    reaches null after visiting distinct nodes; the first node's [prev]
    and the last node's [next] are null and every other link pair is
    consistent ([dseg]); every node is the payload address of a free
    block of the heap; and the search of [find_fit] over it returns
    without changing the state, for every required size. *)
Theorem index_is_a_finite_doubly_linked_list s :
  reachable s ->
  exists k idx,
    index_nodes k s = Some idx /\ NoDup idx /\ firstlist s = hd 0 idx /\
    dseg (mem s) 0 idx 0 /\
    (forall n, In n idx -> exists sz, free_block s n sz) /\
    (forall asize, exists r, find_fit k asize s = Ret r s).
Proof.
  intros Hs. destruct (reachable_Inv s Hs) as [bs [fl [R [Hidx _]]]].
  exists (S (length fl)), fl.
  split; [apply (Rep_index_nodes _ _ _ _ R); lia|].
  split; [apply (rep_nodup _ _ _ R)|]. split; [apply (rep_first _ _ _ R)|].
  split; [apply (rep_index _ _ _ R)|]. split.
  - intros n Hn. destruct (rep_nodes _ _ _ R n Hn) as [sz [al Hin]].
    exists sz. apply (free_block_Rep _ _ _ _ _ R).
    apply (Hidx n sz al Hin) in Hn. subst al. exact Hin.
  - intros asize. destruct (find_fit_spec _ _ _ (S (length fl)) asize R Hidx) as [r [Hr _]]; [lia|].
    exists r. exact Hr.
Qed.

Lemma index_is_a_finite_doubly_linked_list_witness :
  exists k idx,
    index_nodes k s_hole = Some idx /\ NoDup idx /\ firstlist s_hole = hd 0 idx /\
    dseg (mem s_hole) 0 idx 0 /\
    (forall n, In n idx -> exists sz, free_block s_hole n sz) /\
    (forall asize, exists r, find_fit k asize s_hole = Ret r s_hole).
Proof.
  exact (index_is_a_finite_doubly_linked_list s_hole reachable_s_hole).
Defined.

(* ================================================================= *)
(** ** Boundary tags and navigation *)

Lemma bind_ret_r {A} (c : M A) s : bind c ret s = c s.
Proof. unfold bind, ret. destruct (c s); reflexivity. Qed.

(** X16: a tag written with [PUT(p, PACK(size, alloc))] reads back with
    [GET_SIZE] and [GET_ALLOC]: for a word inside the arena, a size that
    is a multiple of 8 below [2^32] and any [alloc], [GET_SIZE] returns
    the size and [GET_ALLOC] returns the low bit of [alloc]; the other
    bytes of memory are unchanged. *)
Theorem tag_round_trip s p size alloc :
  0 <= size < 2 ^ 32 -> size mod 8 = 0 -> 0 <= alloc ->
  in_arena s p 4 = true ->
  exists s',
    PUT p (PACK size alloc) s = Ret tt s' /\
    GET_SIZE p s' = Ret size s' /\ GET_ALLOC p s' = Ret (alloc mod 2) s' /\
    (forall x, x < p \/ p + 4 <= x -> mem s' x = mem s x) /\ same_arena s s'.
Proof.
  intros Hsz H8 Ha Hin.
  assert (Hbit : Z.land alloc 1 = b2z (negb (alloc mod 2 =? 0))).
  { rewrite land_1. pose proof (Z.mod_pos_bound alloc 2 ltac:(lia)).
    destruct (Z.eqb_spec (alloc mod 2) 0) as [E|E]; cbn [negb b2z]; lia. }
  assert (Hpack : PACK size alloc = tag size (negb (alloc mod 2 =? 0))).
  { unfold PACK. rewrite Hbit. rewrite <- (PACK_tag size) by lia.
    unfold PACK. f_equal. destruct (negb (alloc mod 2 =? 0)); reflexivity. }
  exists (set_mem s (store32 (mem s) p (PACK size alloc))).
  assert (Hin' : in_arena (set_mem s (store32 (mem s) p (PACK size alloc))) p 4 = true)
    by exact Hin.
  split; [unfold PUT, write; change (Z.of_nat 4) with 4; rewrite Hin; reflexivity|].
  split; [|split; [|split]].
  - rewrite <- (bind_ret_r (GET_SIZE p)). rewrite bind_GET_SIZE by exact Hin'.
    cbn [mem set_mem]. rewrite Hpack.
    rewrite load32_store32 by (apply tag_range; lia).
    rewrite tag_size by lia. reflexivity.
  - rewrite <- (bind_ret_r (GET_ALLOC p)). rewrite bind_GET_ALLOC by exact Hin'.
    cbn [mem set_mem]. rewrite Hpack.
    rewrite load32_store32 by (apply tag_range; lia).
    rewrite tag_alloc by lia.
    pose proof (Z.mod_pos_bound alloc 2 ltac:(lia)).
    destruct (Z.eqb_spec (alloc mod 2) 0) as [E|E]; cbn [negb b2z];
      [rewrite E; reflexivity|].
    replace (alloc mod 2) with 1 by lia. reflexivity.
  - intros x Hx. cbn [mem set_mem]. apply store32_other. lia.
  - repeat split.
Qed.

Lemma tag_round_trip_witness :
  exists s',
    PUT 4108 (PACK 4096 3) s_init = Ret tt s' /\
    GET_SIZE 4108 s' = Ret 4096 s' /\ GET_ALLOC 4108 s' = Ret (3 mod 2) s' /\
    (forall x, x < 4108 \/ 4108 + 4 <= x -> mem s' x = mem s_init x) /\
    same_arena s_init s'.
Proof.
  apply (tag_round_trip s_init 4108 4096 3); [lia|reflexivity|lia|vm_compute; reflexivity].
Defined.

(** X17: on a reachable state the navigation macros agree with the
    sequence of blocks: for two blocks that are neighbours in the heap,
    [NEXT_BLKP] of the first is the second and [PREV_BLKP] of the second
    is the first (they are inverse to each other), [FTRP] of the first is
    8 bytes below the second, and [GET_SIZE] and [GET_ALLOC] of its
    header give its size and flag.  [PREV_BLKP] of the first block of the
    heap is the prologue, [NEXT_BLKP] of the last is the break, where the
    header has size 0 and is marked allocated.  None of them changes the
    state. *)
Theorem navigation_follows_the_blocks s k l :
  reachable s -> heap_blocks k s = Some l ->
  (forall l1 a1 sz1 al1 a2 sz2 al2 l2,
     l = l1 ++ (a1, sz1, al1) :: (a2, sz2, al2) :: l2 ->
     NEXT_BLKP a1 s = Ret a2 s /\ PREV_BLKP a2 s = Ret a1 s /\
     FTRP a1 s = Ret (a2 - 8) s) /\
  (forall a sz al, In (a, sz, al) l ->
     GET_SIZE (HDRP a) s = Ret sz s /\ GET_ALLOC (HDRP a) s = Ret (b2z al) s /\
     NEXT_BLKP a s = Ret (a + sz) s /\ FTRP a s = Ret (a + sz - 8) s) /\
  (forall a sz al r, l = (a, sz, al) :: r -> PREV_BLKP a s = Ret (heap_listp s) s) /\
  (forall r a sz al, l = r ++ [(a, sz, al)] ->
     NEXT_BLKP a s = Ret (mem_brk s) s /\
     GET_SIZE (HDRP (mem_brk s)) s = Ret 0 s /\ GET_ALLOC (HDRP (mem_brk s)) s = Ret 1 s).
Proof.
  intros Hs Hw. destruct (reachable_Inv s Hs) as [bs [fl [R _]]].
  rewrite (heap_blocks_Rep _ _ _ _ _ R Hw). clear Hw l.
  assert (Hone : forall a sz al, In (a, sz, al) (layout (mem_start_brk s + 16) bs) ->
     GET_SIZE (HDRP a) s = Ret sz s /\ GET_ALLOC (HDRP a) s = Ret (b2z al) s /\
     NEXT_BLKP a s = Ret (a + sz) s /\ FTRP a s = Ret (a + sz - 8) s).
  { intros a sz al Hin.
    pose proof (Rep_entry _ _ _ _ _ _ R Hin) as [H1 [H2 [H3 [H4 [H5 [Hh _]]]]]].
    split; [rewrite <- (bind_ret_r (GET_SIZE _)); apply (run_GET_SIZE_hdr _ _ _ _ _ _ _ R Hin)|].
    split.
    - rewrite <- (bind_ret_r (GET_ALLOC _)). unfold HDRP, WSIZE.
      rewrite bind_GET_ALLOC by (apply (Rep_in_arena _ _ _ _ _ R); lia).
      rewrite (alloc_of_tag _ _ sz al Hh H4). reflexivity.
    - split; [rewrite <- (bind_ret_r (NEXT_BLKP _)); apply (run_NEXT_BLKP _ _ _ _ _ _ _ R Hin)|].
      rewrite <- (bind_ret_r (FTRP _)). apply (run_FTRP _ _ _ _ _ _ _ R Hin). }
  assert (Hsplit : forall l1 a sz al l2,
     layout (mem_start_brk s + 16) bs = l1 ++ (a, sz, al) :: l2 ->
     exists b1 b2, bs = b1 ++ (sz, al) :: b2 /\ a = mem_start_brk s + 16 + total b1 /\
                   l1 = layout (mem_start_brk s + 16) b1 /\ l2 = layout (a + sz) b2).
  { generalize (mem_start_brk s + 16) as a0. clear R Hone.
    induction bs as [|[sz0 al0] r IH]; intros a0 l1 a sz al l2 E.
    - destruct l1; discriminate.
    - cbn [layout] in E. destruct l1 as [|e l1].
      + cbn [app] in E. injection E as <- <- <- <-.
        exists [], r. cbn [app total layout]. repeat split; lia.
      + cbn [app] in E. injection E as <- E.
        destruct (IH _ _ _ _ _ _ E) as [b1 [b2 [-> [-> [-> ->]]]]].
        exists ((sz0, al0) :: b1), b2. cbn [app total layout].
        split; [reflexivity|]. split; [lia|]. split; [reflexivity|]. reflexivity. }
  split; [|split; [exact Hone|split]].
  - intros l1 a1 sz1 al1 a2 sz2 al2 l2 E.
    destruct (Hsplit _ _ _ _ _ E) as [b1 [b2 [Eb [Ea1 [_ E2]]]]].
    destruct b2 as [|[sz2' al2'] b2']; [discriminate|].
    cbn [layout] in E2. injection E2 as -> <- <- _.
    assert (Hin1 : In (a1, sz1, al1) (layout (mem_start_brk s + 16) bs)).
    { rewrite E. apply in_or_app. right. left. reflexivity. }
    destruct (Hone _ _ _ Hin1) as [_ [_ [Hn Hf]]].
    split; [exact Hn|]. split; [|rewrite Hf; reflexivity].
    rewrite <- (bind_ret_r (PREV_BLKP _)).
    assert (Eb' : bs = (b1 ++ [(sz1, al1)]) ++ (sz2, al2) :: b2')
      by (rewrite <- app_assoc; exact Eb).
    rewrite Eb' in R.
    assert (Ea2 : a1 + sz1 = mem_start_brk s + 16 + total (b1 ++ [(sz1, al1)]))
      by (rewrite total_app; cbn [total]; lia).
    rewrite Ea2.
    rewrite (run_PREV_BLKP _ _ _ _ _ sz1 al1 _ R (last_snoc _ _ _)).
    unfold ret. f_equal. rewrite total_app. cbn [total]. lia.
  - intros a sz al r E.
    assert (E' : layout (mem_start_brk s + 16) bs = [] ++ (a, sz, al) :: r) by exact E.
    destruct (Hsplit _ _ _ _ _ E') as [b1 [b2 [Eb [Ea [E1 _]]]]].
    destruct b1 as [|[? ?] ?]; [|discriminate]. cbn [app total] in Eb, Ea. rewrite Eb in R.
    rewrite <- (bind_ret_r (PREV_BLKP _)). rewrite Ea.
    replace (mem_start_brk s + 16 + 0) with (mem_start_brk s + 16 + total []) by (cbn; lia).
    assert (R' : Rep s ([] ++ (sz, al) :: b2) fl) by exact R.
    rewrite (run_PREV_BLKP _ _ _ _ _ 8 true _ R' eq_refl).
    unfold ret. f_equal. rewrite (rep_listp _ _ _ R). cbn [total]. lia.
  - intros r a sz al E.
    destruct (Hsplit _ _ _ _ _ E) as [b1 [b2 [Eb [Ea [_ E2]]]]].
    destruct b2 as [|[? ?] ?]; [|discriminate].
    assert (Hin : In (a, sz, al) (layout (mem_start_brk s + 16) bs)).
    { rewrite E. apply in_or_app. right. left. reflexivity. }
    destruct (Hone _ _ _ Hin) as [_ [_ [Hn _]]].
    assert (Ebrk : a + sz = mem_brk s).
    { rewrite (rep_brk _ _ _ R), Eb, total_app. cbn [total]. lia. }
    rewrite <- Ebrk. split; [exact Hn|]. rewrite Ebrk.
    pose proof (rep_epi _ _ _ R) as He. pose proof (rep_lo _ _ _ R).
    pose proof (Rep_entry _ _ _ _ _ _ R Hin) as [? [? [? _]]].
    unfold HDRP, WSIZE. split.
    + rewrite <- (bind_ret_r (GET_SIZE _)).
      rewrite bind_GET_SIZE by (apply (Rep_in_arena _ _ _ _ _ R); lia).
      rewrite (size_of_tag _ _ 0 true He) by (try reflexivity; lia). reflexivity.
    + rewrite <- (bind_ret_r (GET_ALLOC _)).
      rewrite bind_GET_ALLOC by (apply (Rep_in_arena _ _ _ _ _ R); lia).
      rewrite (alloc_of_tag _ _ 0 true He) by reflexivity. reflexivity.
Qed.

Lemma navigation_follows_the_blocks_witness :
  let l := [(4112, 24, false); (4136, 24, true); (4160, 24, true); (4184, 4024, false)] in
  (forall l1 a1 sz1 al1 a2 sz2 al2 l2,
     l = l1 ++ (a1, sz1, al1) :: (a2, sz2, al2) :: l2 ->
     NEXT_BLKP a1 s_hole = Ret a2 s_hole /\ PREV_BLKP a2 s_hole = Ret a1 s_hole /\
     FTRP a1 s_hole = Ret (a2 - 8) s_hole) /\
  (forall a sz al, In (a, sz, al) l ->
     GET_SIZE (HDRP a) s_hole = Ret sz s_hole /\
     GET_ALLOC (HDRP a) s_hole = Ret (b2z al) s_hole /\
     NEXT_BLKP a s_hole = Ret (a + sz) s_hole /\ FTRP a s_hole = Ret (a + sz - 8) s_hole) /\
  (forall a sz al r, l = (a, sz, al) :: r ->
     PREV_BLKP a s_hole = Ret (heap_listp s_hole) s_hole) /\
  (forall r a sz al, l = r ++ [(a, sz, al)] ->
     NEXT_BLKP a s_hole = Ret (mem_brk s_hole) s_hole /\
     GET_SIZE (HDRP (mem_brk s_hole)) s_hole = Ret 0 s_hole /\
     GET_ALLOC (HDRP (mem_brk s_hole)) s_hole = Ret 1 s_hole).
Proof.
  apply (navigation_follows_the_blocks s_hole 8
           [(4112, 24, false); (4136, 24, true); (4160, 24, true); (4184, 4024, false)]
           reachable_s_hole).
  vm_compute. reflexivity.
Defined.

(* ================================================================= *)
(** ** The index operations *)

(** X18: [listInsert] and [listRemove] on a well-formed index.  In a
    state where the block at [bp] is free and not in the index,
    [listInsert bp] makes it the first node and leaves the other nodes in
    their order; [listRemove bp] then takes it out again, so that the
    index is as it was at the start.  Neither changes a boundary tag: the
    sequence of blocks is the same in all three states. *)
Theorem listInsert_then_listRemove s bs1 sz bs2 fl :
  Fresh s bs1 sz bs2 fl ->
  exists s1 s2 k,
    listInsert (mem_start_brk s + 16 + total bs1) s = Ret tt s1 /\
    index_nodes k s1 = Some (mem_start_brk s + 16 + total bs1 :: fl) /\
    firstlist s1 = mem_start_brk s + 16 + total bs1 /\
    listRemove (mem_start_brk s + 16 + total bs1) s1 = Ret tt s2 /\
    index_nodes k s = Some fl /\ index_nodes k s2 = Some fl /\
    heap_blocks k s1 = heap_blocks k s /\ heap_blocks k s2 = heap_blocks k s /\
    heap_blocks k s = Some (layout (mem_start_brk s + 16) (bs1 ++ (sz, false) :: bs2)).
Proof.
  intros [R [Hfresh _]].
  pose proof (layout_mid (mem_start_brk s + 16) bs1 sz false bs2) as Hbp.
  destruct (listInsert_Rep _ _ _ _ _ R Hbp Hfresh) as [s1 [Hrun1 [R1 [[Elo1 _] _]]]].
  assert (R1' : Rep s1 (bs1 ++ (sz, false) :: bs2)
                  ([] ++ (mem_start_brk s + 16 + total bs1) :: fl)) by exact R1.
  destruct (listRemove_Rep _ _ _ _ _ R1') as [s2 [Hrun2 [R2 [[Elo2 _] _]]]].
  cbn [app] in R2.
  set (k := S (Nat.max (length (bs1 ++ (sz, false) :: bs2))
                 (length ((mem_start_brk s + 16 + total bs1)%Z :: fl)))).
  assert (Hk1 : (length (bs1 ++ (sz, false) :: bs2) < k)%nat) by (unfold k; lia).
  assert (Hk2 : (length ((mem_start_brk s + 16 + total bs1)%Z :: fl) < k)%nat)
    by (unfold k; lia).
  assert (Hk3 : (length fl < k)%nat) by (cbn [length] in Hk2; lia).
  exists s1, s2, k. split; [exact Hrun1|].
  split; [apply (proj1 (Rep_index_nodes _ _ _ _ R1 Hk2))|].
  split; [apply (rep_first _ _ _ R1)|]. split; [exact Hrun2|].
  split; [apply (proj1 (Rep_index_nodes _ _ _ _ R Hk3))|].
  split; [apply (proj1 (Rep_index_nodes _ _ _ _ R2 Hk3))|].
  rewrite (Rep_heap_blocks _ _ _ _ R Hk1), (Rep_heap_blocks _ _ _ _ R1 Hk1),
    (Rep_heap_blocks _ _ _ _ R2 Hk1), Elo2, Elo1. auto.
Qed.

Lemma listInsert_then_listRemove_witness :
  exists s1 s2 k,
    listInsert (mem_start_brk s_marked + 16 + total ([] ++ [(24, false)])) s_marked
      = Ret tt s1 /\
    index_nodes k s1
      = Some (mem_start_brk s_marked + 16 + total ([] ++ [(24, false)]) :: [4112; 4184]) /\
    firstlist s1 = mem_start_brk s_marked + 16 + total ([] ++ [(24, false)]) /\
    listRemove (mem_start_brk s_marked + 16 + total ([] ++ [(24, false)])) s1 = Ret tt s2 /\
    index_nodes k s_marked = Some [4112; 4184] /\ index_nodes k s2 = Some [4112; 4184] /\
    heap_blocks k s1 = heap_blocks k s_marked /\ heap_blocks k s2 = heap_blocks k s_marked /\
    heap_blocks k s_marked
      = Some (layout (mem_start_brk s_marked + 16)
                (([] ++ [(24, false)]) ++ (24, false) :: [(24, true); (4024, false)])).
Proof.
  exact (listInsert_then_listRemove s_marked ([] ++ [(24, false)]) 24
           [(24, true); (4024, false)] [4112; 4184] Fresh_s_marked).
Defined.

(** X19: [listRemove] of any node of the index of a state that satisfies
    the invariant takes exactly that node out: the other nodes keep their
    order, the boundary tags and the payload bytes of the allocated
    blocks are unchanged. *)
Theorem listRemove_unlinks_the_node s k bs fl bp :
  Inv s ->
  heap_blocks k s = Some (layout (heap_listp s + 8) bs) ->
  index_nodes k s = Some fl -> In bp fl ->
  exists s' k',
    listRemove bp s = Ret tt s' /\
    index_nodes k' s' = Some (remove Z.eq_dec bp fl) /\
    heap_blocks k' s' = Some (layout (heap_listp s + 8) bs) /\
    same_arena s s' /\
    (forall q qsz, held s q qsz ->
       held s' q qsz /\ forall x, q <= x < q + qsz - 8 -> mem s' x = mem s x).
Proof.
  intros HI Hw Hi Hbp.
  destruct (Inv_Rep _ _ _ _ HI Hw Hi) as [R [Hidx [_ El]]]. rewrite El.
  destruct (in_split _ _ Hbp) as [l1 [l2 Efl]].
  pose proof (rep_nodup _ _ _ R) as Hnd.
  assert (R0 := R). rewrite Efl in R, Hnd.
  destruct (listRemove_Rep _ _ _ _ _ R) as [s' [Hrun [R' [Hsame Hf]]]].
  destruct (Rep_walks _ _ _ R') as [k' [Hb' Hi']].
  assert (Elo : mem_start_brk s' = mem_start_brk s) by apply Hsame.
  exists s', k'. split; [exact Hrun|].
  split; [rewrite Efl, (remove_mid _ _ _ Hnd); exact Hi'|].
  split; [rewrite <- Elo; exact Hb'|]. split; [exact Hsame|].
  intros q qsz Hq. apply (held_Rep _ _ _ _ _ R0) in Hq.
  split; [apply (held_Rep _ _ _ _ _ R'); rewrite Elo; exact Hq|].
  intros x Hx. apply Hf. rewrite <- Efl.
  pose proof (Rep_entry _ _ _ _ _ _ R0 Hq).
  apply (extent_off_nodes s _ _ q qsz true _ x R0 Hq (rep_nodes _ _ _ R0)); [|lia].
  intros Hn. apply (Hidx q qsz true Hq) in Hn. discriminate.
Qed.

Lemma listRemove_unlinks_the_node_witness :
  exists s' k',
    listRemove 4184 s_hole = Ret tt s' /\
    index_nodes k' s' = Some (remove Z.eq_dec 4184 [4112; 4184]) /\
    heap_blocks k' s'
      = Some (layout (heap_listp s_hole + 8)
                [(24, false); (24, true); (24, true); (4024, false)]) /\
    same_arena s_hole s' /\
    (forall q qsz, held s_hole q qsz ->
       held s' q qsz /\ forall x, q <= x < q + qsz - 8 -> mem s' x = mem s_hole x).
Proof.
  apply (listRemove_unlinks_the_node s_hole 8
           [(24, false); (24, true); (24, true); (4024, false)] [4112; 4184] 4184
           (reachable_Inv s_hole reachable_s_hole));
    [vm_compute; reflexivity|vm_compute; reflexivity|right; left; reflexivity].
Defined.

(* ================================================================= *)
(** ** The outcomes of [mm_realloc] *)

(** X20: on a reachable state, [mm_realloc] of a block the client holds,
    with a request of at most [2^31 - 16] bytes and enough fuel for the
    search of the index, never reads or writes outside the arena: it
    either returns, in a reachable state, or the program exits; and it
    exits only when the block could not be kept and [mm_malloc] of the
    same size returns null on that state. *)
Theorem mm_realloc_returns_or_exits s p csize n :
  reachable s -> held s p csize -> 0 <= n -> n + 16 <= 2 ^ 31 ->
  exists fuel0, forall fuel, (fuel0 <= fuel)%nat ->
    (exists q s', mm_realloc fuel p n s = Ret q s' /\ reachable s') \/
    (mm_realloc fuel p n s = Exit /\ csize <= n + 8 /\ mm_malloc fuel n s = Ret 0 s).
Proof.
  intros Hs Hp Hn Hb.
  destruct (reachable_Inv s Hs) as [bs [fl [R [Hidx Hadj]]]].
  assert (Hin := Hp). apply (held_Rep _ _ _ _ _ R) in Hin.
  pose proof (Rep_entry _ _ _ _ _ _ R Hin) as [_ [_ [H24 _]]].
  exists (S (length fl)). intros fuel Hfuel.
  assert (Hret : forall q s', mm_realloc fuel p n s = Ret q s' ->
                   exists q s', mm_realloc fuel p n s = Ret q s' /\ reachable s').
  { intros q s' Hrun. exists q, s'. split; [exact Hrun|].
    exact (reach_realloc s fuel p n q s' Hs (held_allocated _ _ _ Hp) Hn Hb Hrun). }
  destruct (layout_split _ _ _ _ _ Hin) as [bs1 [bs2 [E Ep]]].
  assert (R0 := R). rewrite E in R0.
  destruct (hd (0, true) bs2) as [nsz nal] eqn:Hhd.
  pose proof (mm_realloc_reads _ _ _ _ _ fuel n nsz nal R0 Hhd Hn Hb) as Hreads.
  rewrite <- Ep in Hreads.
  destruct (Z.gtb_spec csize (n + 8)) as [Hkeep|Hsmall].
  - left. apply (Hret p s). exact Hreads.
  - destruct nal; cbn [b2z Z.eqb andb] in Hreads.
    + fold (relocate fuel p n) in Hreads.
      destruct (relocate_spec s bs fl fuel p csize n R Hidx Hadj ltac:(lia) Hin
                  ltac:(lia) Hb) as [[Hm Hex]|[np [s1 [s2 [_ [_ [_ [Hrel _]]]]]]]].
      * right. rewrite Hreads. auto.
      * left. apply (Hret np s2). rewrite Hreads. exact Hrel.
    + destruct (Z.geb_spec (csize + nsz) (n + 8)) as [Hfit|Hnofit].
      * destruct bs2 as [|[nsz' nal'] bs2']; [cbn in Hhd; discriminate|].
        cbn [hd] in Hhd. injection Hhd as -> ->. subst bs.
        destruct (mm_realloc_grow _ _ _ _ _ _ R Hidx Hadj) as [s' [Hrun _]].
        rewrite <- Ep in Hrun.
        left. apply (Hret p s'). rewrite Hreads. exact Hrun.
      * fold (relocate fuel p n) in Hreads.
        destruct (relocate_spec s bs fl fuel p csize n R Hidx Hadj ltac:(lia) Hin
                    ltac:(lia) Hb) as [[Hm Hex]|[np [s1 [s2 [_ [_ [_ [Hrel _]]]]]]]].
        -- right. rewrite Hreads. auto.
        -- left. apply (Hret np s2). rewrite Hreads. exact Hrel.
Qed.

Lemma mm_realloc_returns_or_exits_witness :
  exists fuel0, forall fuel, (fuel0 <= fuel)%nat ->
    (exists q s', mm_realloc fuel 4136 100 s_hole = Ret q s' /\ reachable s') \/
    (mm_realloc fuel 4136 100 s_hole = Exit /\ 24 <= 100 + 8 /\
     mm_malloc fuel 100 s_hole = Ret 0 s_hole).
Proof.
  apply (mm_realloc_returns_or_exits s_hole 4136 24 100 reachable_s_hole held_s_hole);
    [lia|vm_compute; discriminate].
Defined.

(** X21: a request within 8 bytes of [2^32] wraps in the 32-bit sum
    [size + DSIZE] of [mm_realloc]: the sum is below 8, every block is
    larger, and [mm_realloc] returns the block as it is, in an unchanged
    state, although the block has fewer than [n] bytes of payload. *)
Theorem mm_realloc_wrapped_size_keeps_block s fuel p csize n :
  reachable s -> held s p csize -> 2 ^ 32 - 8 <= n < 2 ^ 32 ->
  mm_realloc fuel p n s = Ret p s /\ csize - 8 < n.
Proof.
  intros Hs Hp Hn.
  destruct (reachable_Inv s Hs) as [bs [fl [R [Hidx Hadj]]]].
  assert (Hin := Hp). apply (held_Rep _ _ _ _ _ R) in Hin.
  pose proof (Rep_entry _ _ _ _ _ _ R Hin) as [Hb1 [Hb2 [Hb3 [Hb4 [Hb5 _]]]]].
  pose proof (rep_small _ _ _ R) as Hsmall. pose proof (rep_max _ _ _ R) as Hmax.
  destruct (layout_split _ _ _ _ _ Hin) as [bs1 [bs2 [E Ep]]].
  assert (R0 := R). rewrite E in R0.
  destruct (next_tag _ _ _ _ _ _ R0) as [nsz [nal [Hhd [Hnh [Hnr Hn8]]]]].
  rewrite <- Ep in Hnh.
  assert (Hu : u32 (n + DSIZE) = n + 8 - 2 ^ 32).
  { unfold u32, DSIZE. symmetry. apply (Z.mod_unique (n + 8) (2 ^ 32) 1); lia. }
  split; [|lia].
  unfold mm_realloc.
  rewrite (run_NEXT_BLKP _ _ _ _ _ _ _ R Hin).
  unfold HDRP at 1. unfold WSIZE.
  rewrite bind_GET_ALLOC by (apply (Rep_in_arena _ _ _ _ _ R); lia).
  rewrite (alloc_of_tag _ _ nsz nal) by (try exact Hnh; lia).
  unfold HDRP at 1. unfold WSIZE.
  rewrite bind_GET_SIZE by (apply (Rep_in_arena _ _ _ _ _ R); lia).
  rewrite (size_of_tag _ _ nsz nal) by (try exact Hnh; lia).
  rewrite (run_GET_SIZE_hdr _ _ _ _ _ _ _ R Hin).
  cbv zeta. rewrite Hu.
  destruct (Z.gtb_spec csize (n + 8 - 2 ^ 32)); [reflexivity|lia].
Qed.

Lemma mm_realloc_wrapped_size_keeps_block_witness :
  mm_realloc 8 4136 4294967290 s_hole = Ret 4136 s_hole /\ 24 - 8 < 4294967290.
Proof.
  apply (mm_realloc_wrapped_size_keeps_block s_hole 8 4136 24 4294967290
           reachable_s_hole held_s_hole).
  lia.
Defined.

(** X22: the guard of [listInsert]: called on the payload address of an
    allocated block of a reachable state it returns at once; the index,
    the memory and the arena are exactly as before, so an allocated
    block never enters the index through it. *)
Theorem listInsert_ignores_allocated_block s p sz :
  reachable s -> held s p sz -> listInsert p s = Ret tt s.
Proof.
  intros Hs Hp. destruct (reachable_Inv s Hs) as [bs [fl [R _]]].
  apply (held_Rep _ _ _ _ _ R) in Hp.
  pose proof (Rep_entry _ _ _ _ _ _ R Hp) as [H1 [H2 [H3 [H4 [H5 [Hh _]]]]]].
  unfold listInsert, HDRP, WSIZE.
  rewrite bind_GET_ALLOC by (apply (Rep_in_arena _ _ _ _ _ R); lia).
  rewrite (alloc_of_tag _ _ sz true) by (try exact Hh; lia).
  reflexivity.
Qed.

Lemma listInsert_ignores_allocated_block_witness : listInsert 4136 s_hole = Ret tt s_hole.
Proof.
  exact (listInsert_ignores_allocated_block s_hole 4136 24 reachable_s_hole held_s_hole).
Defined.

(* ================================================================= *)
(** ** Outside the calling contract *)

Lemma heap_blocks_fuel s k l k' l' :
  heap_blocks k s = Some l -> heap_blocks k' s = Some l' -> l = l'.
Proof.
  unfold heap_blocks. intros H H'.
  pose proof (walk_blocks_mono s _ _ _ H (Nat.max k k') (Nat.le_max_l _ _)) as E.
  pose proof (walk_blocks_mono s _ _ _ H' (Nat.max k k') (Nat.le_max_r _ _)) as E'.
  congruence.
Qed.

Lemma index_nodes_fuel s k l k' l' :
  index_nodes k s = Some l -> index_nodes k' s = Some l' -> l = l'.
Proof.
  unfold index_nodes. intros H H'.
  pose proof (walk_index_mono s _ _ _ H (Nat.max k k') (Nat.le_max_l _ _)) as E.
  pose proof (walk_index_mono s _ _ _ H' (Nat.max k k') (Nat.le_max_r _ _)) as E'.
  congruence.
Qed.

Lemma free_neighbours_found s k l :
  heap_blocks k s = Some l -> adjacent_free (map snd l) = true -> ~ no_adjacent_free s.
Proof.
  intros H Ha [k' [l' [H' Ha']]].
  rewrite (heap_blocks_fuel _ _ _ _ _ H H') in Ha. congruence.
Qed.

Lemma not_indexed s k idx a :
  index_nodes k s = Some idx -> ~ In a idx -> ~ indexed s a.
Proof.
  intros H Hn [k' [idx' [H' Hin]]].
  rewrite (index_nodes_fuel _ _ _ _ _ H H') in Hn. contradiction.
Qed.

(** C2, counterexample.  First, in an arena that may grow to 8 GiB and
    with requests within the contract: in [wide_held] the free block at
    4112 has [2^32 - 8168] bytes and the block at 4294963240 is
    allocated; [mm_free] of that block returns, the merged size
    [2^32 + 24] does not fit the 32-bit header, which receives 24, and
    the walk over the heap then meets four free blocks in a row.  Second,
    in the 1 MiB arena: after [mm_malloc(2^32 - 8)] has returned 4112 on
    [s_hole], [mm_free(4112)] and [mm_free(4136)] return and leave two
    free neighbours. *)
Lemma free_leaves_free_neighbours_cex :
  (heap_blocks 8 wide_full
   = Some [(4112, 24, true); (4136, 2147479552, true); (2147483688, 2147479552, true);
           (4294963240, 8192, true); (4294971432, 24, true); (4294971456, 4048, false)] /\
   heap_blocks 8 wide_held
   = Some [(4112, 4294959128, false); (4294963240, 8192, true); (4294971432, 24, true);
           (4294971456, 4048, false)] /\
   value (mm_free 4294963240) wide_held = Some tt /\
   heap_blocks 8 wide_freed
   = Some [(4112, 24, false); (4136, 2147479552, false); (2147483688, 2147479552, false);
           (4294963240, 8192, false); (4294971432, 24, true); (4294971456, 4048, false)] /\
   ~ no_adjacent_free wide_freed) /\
  (heap_blocks 8 s_hole
   = Some [(4112, 24, false); (4136, 24, true); (4160, 24, true); (4184, 4024, false)] /\
   value (mm_malloc 8 4294967288) s_hole = Some 4112 /\
   value (mm_free 4112) s_wrapped = Some tt /\
   value (mm_free 4136) (exec (mm_free 4112) s_wrapped) = Some tt /\
   heap_blocks 8 s_wrapped_freed = Some [(4112, 72, false); (4184, 4024, false)] /\
   ~ no_adjacent_free s_wrapped_freed).
Proof.
  split.
  - split; [by_evaluation|]. split; [by_evaluation|]. split; [by_evaluation|].
    split; [by_evaluation|].
    apply (free_neighbours_found wide_freed 8
             [(4112, 24, false); (4136, 2147479552, false); (2147483688, 2147479552, false);
              (4294963240, 8192, false); (4294971432, 24, true);
              (4294971456, 4048, false)]); by_evaluation.
  - split; [by_evaluation|]. split; [by_evaluation|]. split; [by_evaluation|].
    split; [by_evaluation|]. split; [by_evaluation|].
    apply (free_neighbours_found s_wrapped_freed 8 [(4112, 72, false); (4184, 4024, false)]);
      by_evaluation.
Qed.

(** C3, counterexample.  In [wide_freed] (8 GiB arena, requests within
    the contract, after [mm_free] has returned) the block at 4136 is in
    the heap with its allocated flag clear and is not a node of the
    index.  In [s_twice] (after [mm_malloc(2^32 - 8)] and
    [mm_malloc(4088)] have both returned 4112 on the initial heap) the
    only block is allocated and is a node of the index. *)
Lemma index_differs_from_free_blocks_cex :
  (value (mm_free 4294963240) wide_held = Some tt /\
   heap_blocks 8 wide_freed
   = Some [(4112, 24, false); (4136, 2147479552, false); (2147483688, 2147479552, false);
           (4294963240, 8192, false); (4294971432, 24, true); (4294971456, 4048, false)] /\
   index_nodes 8 wide_freed = Some [4112; 4294971456] /\
   block_flag wide_freed 4136 false /\ ~ indexed wide_freed 4136) /\
  (value (mm_malloc 8 4294967288) s_init = Some 4112 /\
   value (mm_malloc 8 4088) (exec (mm_malloc 8 4294967288) s_init) = Some 4112 /\
   heap_blocks 8 s_twice = Some [(4112, 4096, true)] /\
   index_nodes 8 s_twice = Some [4112] /\
   block_flag s_twice 4112 true /\ indexed s_twice 4112).
Proof.
  split.
  - split; [by_evaluation|]. split; [by_evaluation|]. split; [by_evaluation|]. split.
    + exists 8%nat,
        [(4112, 24, false); (4136, 2147479552, false); (2147483688, 2147479552, false);
         (4294963240, 8192, false); (4294971432, 24, true); (4294971456, 4048, false)],
        2147479552.
      split; [by_evaluation|right; left; reflexivity].
    + apply (not_indexed wide_freed 8 [4112; 4294971456]); [by_evaluation|].
      intros [H|[H|[]]]; discriminate.
  - split; [by_evaluation|]. split; [by_evaluation|]. split; [by_evaluation|].
    split; [by_evaluation|]. split.
    + exists 8%nat, [(4112, 4096, true)], 4096. split; [by_evaluation|left; reflexivity].
    + exists 8%nat, [4112]. split; [by_evaluation|left; reflexivity].
Qed.

(** C7, counterexample: in [wide_marked] (8 GiB arena) [coalesce] is
    called on the block at 4294963240, of 8192 bytes, marked free; its
    predecessor at 4112 is free, has [2^32 - 8168] bytes and is the first
    node of the index; its successor is allocated.  [coalesce] returns the
    predecessor's address, but the combined size [2^32 + 24] does not fit
    in 32 bits: the predecessor's header receives 24, the footer is
    written 24 bytes further, inside the predecessor, and the footer at
    the end of the two blocks keeps the 8192 it held. *)
Lemma coalesce_wide_merge_cex :
  heap_blocks 8 wide_marked
  = Some [(4112, 4294959128, false); (4294963240, 8192, false); (4294971432, 24, true);
          (4294971456, 4048, false)] /\
  index_nodes 8 wide_marked = Some [4112; 4294971456] /\
  value (coalesce 4294963240) wide_marked = Some 4112 /\
  4294959128 + 8192 = 2 ^ 32 + 24 /\
  load32 (mem (exec (coalesce 4294963240) wide_marked)) (4112 - 4) = 24 /\
  load32 (mem (exec (coalesce 4294963240) wide_marked)) (4112 + 24 - 8) = 24 /\
  load32 (mem (exec (coalesce 4294963240) wide_marked)) (4112 + (4294959128 + 8192) - 8)
  = 8192 /\
  heap_blocks 8 (exec (coalesce 4294963240) wide_marked)
  = Some [(4112, 24, false); (4136, 2147479552, false); (2147483688, 2147479552, false);
          (4294963240, 8192, false); (4294971432, 24, true); (4294971456, 4048, false)].
Proof. by_evaluation. Qed.

(* ================================================================= *)
(** ** Relocation in [mm_realloc] *)

(** C8: on a reachable state (arena below 2 GiB, requests of at most
    [2^31 - 16] bytes), for a block the client holds at [ptr], of size
    [csize] in its header, that can neither be kept ([csize <= n + 8])
    nor grown in place (the successor is allocated, or the two sizes
    together are below [n + 8]), and with enough fuel for the search of
    the index, [mm_realloc ptr n] runs [mm_malloc n]; when that returns
    null the program exits.  Otherwise the old block is still allocated
    after [mm_malloc]; [memcpy] copies exactly [min n csize] bytes from
    [ptr] to the new block, [mm_free ptr] follows, and the new block's
    address is returned.  In the final state the new block is allocated,
    differs from the old one and has at least [n + 8] bytes; the old
    block is no longer allocated and its bytes lie inside a free block of
    the heap; the bytes of the old payload, all [csize - 8] of them when
    [n] is not less, are at the returned address. *)
Theorem mm_realloc_relocation s ptr csize n :
  reachable s ->
  (exists fuel l, heap_blocks fuel s = Some l /\ In (ptr, csize, true) l) ->
  n + 16 <= 2 ^ 31 ->
  csize <= n + 8 ->
  halloc s (ptr + csize) = 1 \/ csize + hsize s (ptr + csize) < n + 8 ->
  exists fuel0, forall fuel, (fuel0 <= fuel)%nat ->
    (mm_malloc fuel n s = Ret 0 s /\ mm_realloc fuel ptr n s = Exit) \/
    (exists newp s1 s',
       mm_malloc fuel n s = Ret newp s1 /\ newp <> 0 /\
       (memcpy newp ptr (Z.min n csize) ;; mm_free ptr) s1 = Ret tt s' /\
       mm_realloc fuel ptr n s = Ret newp s' /\
       (forall i, 0 <= i < Z.min n (csize - 8) -> mem s' (newp + i) = mem s (ptr + i)) /\
       newp <> ptr /\
       held s1 ptr csize /\
       (exists sz', held s' newp sz' /\ n + 8 <= sz') /\
       (forall sz0, ~ held s' ptr sz0) /\
       (exists q qsz, free_block s' q qsz /\ q <= ptr /\ ptr + csize <= q + qsz)).
Proof.
  intros Hs [k [l [Hw Hin]]] Hb Hkeep Hnext.
  destruct (reachable_Inv s Hs) as [bs [fl [R [Hidx Hadj]]]].
  rewrite (heap_blocks_Rep _ _ _ _ _ R Hw) in Hin.
  pose proof (Rep_entry _ _ _ _ _ _ R Hin) as [_ [_ [H24 _]]].
  exists (S (length fl)). intros fuel Hfuel.
  assert (Hrel : mm_realloc fuel ptr n s = relocate fuel ptr n s).
  { destruct (layout_split _ _ _ _ _ Hin) as [bs1 [bs2 [E ->]]].
    rewrite E in R.
    destruct (next_tag _ _ _ _ _ _ R) as [nsz [nal [Hhd [Hnh [Hnr Hn8]]]]].
    rewrite (mm_realloc_reads _ _ _ _ _ _ _ nsz nal R Hhd) by lia.
    unfold halloc, hsize in Hnext.
    rewrite (size_of_tag _ _ nsz nal Hnh) in Hnext by lia.
    rewrite (alloc_of_tag _ _ nsz nal Hnh) in Hnext by lia.
    destruct (Z.gtb_spec csize (n + 8)); [lia|].
    destruct nal; cbn [b2z Z.eqb andb]; [reflexivity|].
    destruct Hnext as [Hnext|Hnext]; [discriminate|].
    destruct (Z.geb_spec (csize + nsz) (n + 8)); [lia|]. reflexivity. }
  rewrite Hrel.
  destruct (relocate_spec s bs fl fuel ptr csize n R Hidx Hadj ltac:(lia) Hin ltac:(lia) Hb)
    as [H|[newp [s1 [s' [H1 [H2 [H3 [H4 [_ [_ [_ H5]]]]]]]]]]].
  - left. exact H.
  - right. exists newp, s1, s'.
    destruct (relocate_keeps s bs fl fuel ptr csize n newp s' R Hidx Hadj ltac:(lia) Hin
                ltac:(lia) Hb H4)
      as [bs3 [fl3 [sz' [R3 [Hq [Hsz [Hqp [Hgone [_ [_ [q [qsz [Hfree [Hq1 Hq2]]]]]]]]]]]]]].
    destruct (adjust_size_ok n ltac:(lia) Hb) as [Ha1 _].
    split; [exact H1|]. split; [exact H2|]. split; [exact H3|]. split; [exact H4|].
    split; [exact H5|]. split; [exact Hqp|]. split.
    { destruct (mm_malloc_spec s bs fl fuel n R Hidx Hadj ltac:(lia) ltac:(lia) Hb)
        as [[Hrun _]|[p1 [t1 [Hrun [_ Hal]]]]]; rewrite H1 in Hrun.
      - injection Hrun as E _. contradiction.
      - injection Hrun as <- <-.
        destruct Hal as [bs1 [fl1 [sz1 [R1 [_ [_ [_ [_ [_ [_ [_ [_ [Hk _]]]]]]]]]]]]].
        apply (held_Rep _ _ _ _ _ R1). apply (Hk ptr csize Hin). }
    split; [exists sz'; split; [apply (held_Rep _ _ _ _ _ R3); exact Hq|lia]|].
    split.
    { intros sz0 Hh. apply (held_Rep _ _ _ _ _ R3) in Hh. exact (Hgone sz0 Hh). }
    exists q, qsz. split; [apply (free_block_Rep _ _ _ _ _ R3); exact Hfree|]. lia.
Qed.

Lemma mm_realloc_relocation_witness :
  exists fuel0, forall fuel, (fuel0 <= fuel)%nat ->
    (mm_malloc fuel 16 s_two = Ret 0 s_two /\ mm_realloc fuel 4112 16 s_two = Exit) \/
    (exists newp s1 s',
       mm_malloc fuel 16 s_two = Ret newp s1 /\ newp <> 0 /\
       (memcpy newp 4112 (Z.min 16 24) ;; mm_free 4112) s1 = Ret tt s' /\
       mm_realloc fuel 4112 16 s_two = Ret newp s' /\
       (forall i, 0 <= i < Z.min 16 (24 - 8) -> mem s' (newp + i) = mem s_two (4112 + i)) /\
       newp <> 4112 /\
       held s1 4112 24 /\
       (exists sz', held s' newp sz' /\ 16 + 8 <= sz') /\
       (forall sz0, ~ held s' 4112 sz0) /\
       (exists q qsz, free_block s' q qsz /\ q <= 4112 /\ 4112 + 24 <= q + qsz)).
Proof.
  apply (mm_realloc_relocation s_two 4112 24 16 reachable_s_two).
  - exists 8%nat, [(4112, 24, true); (4136, 24, true); (4160, 4048, false)].
    split; [vm_compute; reflexivity|left; reflexivity].
  - vm_compute; discriminate.
  - lia.
  - left. vm_compute. reflexivity.
Defined.

(** C8, counterexample: the block at 4112 of [s_two] has 24 bytes and an
    allocated successor, so every request of more than 16 bytes takes the
    relocation path.  For 2000000 bytes the arena cannot grow that far,
    [mm_malloc] returns null and [mm_realloc] ends the program; nothing is
    copied, freed or returned.  For [2^31 - 15] bytes, one byte above the
    contract, the adjusted size is [2^31], the arena is extended by 4096
    bytes only and [place] writes the footer far outside the arena. *)
Lemma mm_realloc_relocation_fails_cex :
  heap_blocks 8 s_two = Some [(4112, 24, true); (4136, 24, true); (4160, 4048, false)] /\
  mm_malloc 8 2000000 s_two = Ret 0 s_two /\
  mm_realloc 8 4112 2000000 s_two = Exit /\
  mm_realloc 8 4112 2147483633 s_two = Fault.
Proof. by_evaluation. Qed.
